(* ===== verification/_CoqProject ===== *)
-Q . S2P
Prelude.v
GoStrings.v
GoPath.v
GoNet.v
GoBase64.v
GoTime.v
Frame.v
SeccompTables.v
Seccomp.v
Sni.v
Matcher.v
ProxyServer.v
ConfigTypes.v
ConfigExpand.v
ConfigYaml.v
ConfigMerge.v
Justfile.v
Whitelist.v
RunnerServer.v
Job.v
TrustDiff.v
Trust.v
Dns.v
DnsBridge.v
BwrapArgs.v
GuestEnv.v
Ports.v
Tunnel.v
RawEndpoints.v
Templates.v
Secrets.v
PlanBuilder.v
AuditLog.v
Services.v
Transparent.v
Stage.v
Terminal.v
GuestMain.v
Landlock.v
Storage.v
Launch.v
Lifetime.v
Descriptors.v
Facade.v
Daemon.v
EndToEnd.v
CliRun.v
CliTools.v
TrustFile.v
Approval.v
