(* ===== verification/Prelude.v ===== *)
(** * keg: a verification development

    keg (Go) runs a command, typically a coding agent, in a bubblewrap
    sandbox.  The guest sees a subset of the file system, a system call
    filter, and three channels to the host: egress through a proxy with a
    domain whitelist and a network policy (A), DNS (B), and delegation of
    whitelisted commands to a host daemon (C).  What a repository may ask for
    is written in its [.keg.yaml], which the user has to approve first.

    This library models the decision-making core of that program as
    executable functions and proves that it decides what it is meant to.

    ** Conventions

    - A Go [string] or [[]byte] is a [gostring], the list of its bytes; [$"..."]
      is a literal.  Integers are [Z] (or [nat] for indices and lengths); where
      a width matters the wrap-around is written out ([Seccomp], [Frame]).
    - A function that returns [(T, error)] is a function into [result E T],
      with one constructor of [E] for each place that makes an error.
    - A Go map is a [gmap].  Go leaves the order in which a map is visited
      open: [map_range] of the class [MapRange] is any enumeration of the map,
      and the theorems hold for every instance that satisfies
      [MapRangeLaws].
    - A run-time panic and an exhausted fuel are [None]; a theorem then says
      that the result is [Some].
    - Third-party code and the operating system are parameters: the classes
      [Regexp], [UnicodeCase] and [Digest], and the arguments that stand for
      the YAML and JSON codecs, the file system, the dialer and the clock.
      The Go standard library's string, path, address, base64 and duration
      functions are not parameters, they are modelled in [GoStrings],
      [GoPath], [GoNet], [GoBase64] and [GoTime].

    ** Files

    - [Prelude]: results, the loops over them, map ranges, byte strings,
      reflection of the boolean comparisons ([breflect]).
    - [GoStrings], [GoPath], [GoNet], [GoBase64], [GoTime]: the Go standard
      library.
    - [Frame]: [internal/frame/frame.go].  [write_frame]/[read_frame]; a shared
      writer is the step relation of [send] actions.  Every message arrives
      whole, also under concurrent senders; a cut stream is an error.
    - [SeccompTables], [Seccomp]: [internal/seccomp].  [compile] is proved
      against [bpf_run], a model of the classic-BPF machine: the filter gives
      exactly the verdict of the profile; what the default profile blocks.
    - [Sni]: [internal/orchestrator/sni.go].  [parse_sni] never panics, ends,
      and finds the name of every well-formed ClientHello.
    - [Matcher]: [internal/egress/proxy/matcher.go].  Domain patterns and the
      network policy, each equivalent to its declarative meaning.
    - [ProxyServer]: [internal/egress/proxy/server.go].  The decision on a
      request, by CONNECT or as a plain request, where it is dialed, and that no
      connection is made the policy refuses.
    - [ConfigTypes], [ConfigYaml], [ConfigExpand], [ConfigMerge]:
      [internal/config].  Validation accepts exactly the well-formed
      configurations; decoders; port and path syntax; merge rules, the choice
      of the per-repository override, the glob matcher and precedences.
    - [Justfile]: [justfile.go] and [EffectiveTrustAnchors] of [types.go].  The
      trust anchors are confined to the repository and closed under imports.
    - [Whitelist]: [internal/runner/whitelist.go].  The engine allows exactly
      what the whitelist says.
    - [RunnerServer]: [server.go], [protocol.go] and [client.go] of
      [internal/runner].  The path jail; a job is started only if it is
      whitelisted and trust was verified; what the client makes of the events.
    - [Job]: [runJob] of [server.go] with [os/exec]: processes, copying
      goroutines, timers and [Cancel] under every interleaving; exit codes and
      output end to end, and when a job ends.
    - [TrustDiff], [Trust]: [internal/trust].  The diff shown to the user is
      faithful and minimal; only an approval grants trust, for exactly the
      content that was shown; a modified file is noticed.
    - [TrustFile]: [LoadFile] and [SaveFile] of [internal/trust/trust.go].  The
      store on disk under whole histories of launches, [keg trust] commands and
      edits: it implements a ledger of the user's decisions, and what passes
      without a question was approved as it is; writes that fail, and commands
      that overlap.
    - [Dns]: [internal/egress/dns/resolver.go].  The resolver answers static
      names, forwards whitelisted ones and denies the rest; answers are held
      against the network policy.
    - [DnsBridge]: [internal/egress/dns/bridge.go].  The guest's end of the
      resolver: the loops, their goroutines and [Close] under every
      interleaving; every reply is the resolver's answer to its own query.
    - [BwrapArgs]: [internal/orchestrator/orchestrator.go].  [build_args] is
      read back by [parse_ops], a model of bwrap's option syntax: what is
      mounted where, and what the environment is.
    - [GuestEnv]: [guest.go] of [internal/orchestrator].  The guest process and
      the environment of the workload, from the host's end to end.
    - [Ports]: [internal/portsfw].  Channels E and F reach exactly what is
      declared.
    - [Tunnel]: [tunnel] of [portsfw/forward.go] and [proxy/server.go], [pump] of
      [runner/bridge.go], and the accept loops.  Bytes arrive in order and
      unchanged, and a tunnel ends.
    - [RawEndpoints]: [rawendpoints.go] and the resolver hook of [egress.go], as
      a timed state machine refined by its history.
    - [Templates]: [internal/template/template.go] and
      [internal/config/templates.go].  Validation lets through only declared
      variables, as far as they are written [.Vars.key], and [default]; the built-in language templates.
    - [Secrets]: [internal/secrets/secrets.go].  The initial fetch and the life
      of a refresher, with failures at every stage of the atomic write.
    - [PlanBuilder]: [builder.go] of [internal/orchestrator].  [build_plan] runs
      on a record of the host's answers and records its calls in order; its
      theorems say what a plan contains and what a repository cannot decide.
    - [Services]: [StartBackgroundServices] and the [Start] functions of
      [egress.go] on the state of a [Sandbox], with the exit of the sandbox at
      any acquisition of its mutex: what runs, in which order, and that nothing
      is left open or started twice.
    - [Transparent], [Stage]: [transparent.go], [origdst.go] and [netns.go].  The
      packet rules of the transparent mode (IPv4), the relay that turns a redirected
      connection into a CONNECT, and the stage that sets the network up, drops
      its capabilities and runs bwrap, or does nothing.
    - [Terminal]: [pty.go] of [internal/orchestrator].  Raw mode and its undoing,
      the pseudo-terminal, and a session on it under every interleaving: what
      reaches the user, the exit code, when it returns.
    - [GuestMain]: [guestMain] and the bridges it starts in [guest.go], from the
      plan on the host to what the guest serves and runs.
    - [Landlock]: [internal/landlock/landlock.go].  The rights of a thread after
      [Restrict], for every answer of the kernel.
    - [Launch]: [launch.go], [bwrapversion.go], [fdscrub.go].  The version gate,
      the seccomp decision, the attempts; the operating system of an attempt is
      an oracle.
    - [Lifetime]: the result of a process in [launch.go]: who sends it, who takes
      it, under every interleaving; the first [Wait] returns it, once.
    - [Descriptors]: [fdscrub.go], [socketpair.go], [memfd.go] and the descriptors
      of [start], of the stage and of the guest: which files cross each exec.
    - [AuditLog]: [audit.go] and the lines written to it.
    - [Facade]: [pkg/keg/keg.go].  The options, [Launch] with its additions to
      the plan and its cleanups, [Close].
    - [Daemon]: [internal/daemon].  The handlers of all connections and [Close]
      interleave; which sandboxes exist, who asked for them, how many of
      the named ones there are, and what [Close] reaches.  [Facade] implements the interface it is
      written against.
    - [EndToEnd]: from the configuration files to what a guest gets from the
      delegation daemon and from the proxy, through the plan and the services.
    - [Approval]: delegation, the trust file and the anchors together: what the
      host runs for a guest was approved, over every history, and what that
      does not cover.
    - [Storage]: [internal/storage/storage.go].  Listing and cleaning of the
      persistent layers on a file system with modes, owners and links: what is
      deleted exactly, and what a layer written by the guest can do to the rest.
    - [CliRun]: [cmd/keg/run.go].  The flags of [keg run] and the plan they
      make; the command and the library launch the same sandbox.
    - [CliTools]: [delegate.go], [trust.go], [layer.go] and the small commands of
      [cmd/keg].  The listing on the host and in the sandbox, [keg trust] and
      the gate, [keg clean] and the layer of a plan.

    ** How the parts interact

    [ConfigTypes.delegated_tasks], decoded by [ConfigYaml] and merged by
    [ConfigMerge], is what [Whitelist.new_engine] is built from; the engine is
    what [RunnerServer.handle_job] asks, after the trust check that
    [Trust.verify_approved] models.  [Trust] hashes the configuration and the
    files [Justfile.effective_trust_anchors] lists, and shows [TrustDiff].
    [ProxyServer] asks [Matcher.Match] and [Matcher.evaluate], and the
    transparent listener takes its host name from [Sni.parse_sni].
    [PlanBuilder.build_plan] composes the configuration, the trust gate, the
    templates and the secrets into a plan; [Launch.launch] turns it into
    [BwrapArgs.build_args] and the filter of [Seccomp.compile], and
    [Services.start_background_services] into the servers of the channels.

    ** Fuel

    Recursion that is not structural runs on fuel, chosen as a function of the
    input and proved to be enough: [Sni.ext_loop] one unit per byte,
    [ConfigMerge.glob_fuel] the product of the lengths (each position of the
    star is tried once), [Justfile.collect_fuel] twice the number of files
    (every call adds one, and a file has two spellings), [TrustDiff.walk] the
    sum of the lengths, [GoTime.components] the length of the text (each takes a
    byte); [Launch.attempts_loop] the constant of the code, ten.

    ** Not modelled

    The kernel's side of processes, sockets and terminals, and the file system's
    own behaviour (symbolic links are followed by parameters); generated
    schemas; the command-line library.   *)
From stdpp Require Export base tactics list option gmap strings sorting.
From Stdlib Require Export ZArith Lia Ascii.

#[export] Set Default Goal Selector "!".

(** * Results

    Go functions that return [(T, error)] become functions into
    [result E T]; [E] is an inductive type of the component with one
    constructor per [fmt.Errorf]/[errors.New] site. *)
Inductive result (E A : Type) : Type :=
  | Ok (a : A)
  | Err (e : E).
Arguments Ok {E A} a.
Arguments Err {E A} e.

#[export] Instance result_ret (E : Type) : MRet (result E) := fun A a => Ok a.
#[export] Instance result_bind (E : Type) : MBind (result E) :=
  fun A B f m => match m with Ok a => f a | Err e => Err e end.
#[export] Instance result_fmap (E : Type) : FMap (result E) :=
  fun A B f m => match m with Ok a => Ok (f a) | Err e => Err e end.

Definition is_ok {E A} (m : result E A) : bool :=
  match m with Ok _ => true | Err _ => false end.

(** [fmt.Errorf("...: %w", err)]: wraps the error, keeps the value. *)
Definition map_err {E F A} (f : E -> F) (m : result E A) : result F A :=
  match m with Ok a => Ok a | Err e => Err (f e) end.

(** A Go [comma ok] pair or pointer that may be nil, turned into an error. *)
Definition from_option_err {E A} (e : E) (o : option A) : result E A :=
  match o with Some a => Ok a | None => Err e end.

(** A [for range] loop whose body may return early with an error. *)
Fixpoint mapM_result {E A B} (f : A -> result E B) (l : list A) : result E (list B) :=
  match l with
  | [] => Ok []
  | x :: l' => match f x with
               | Err e => Err e
               | Ok y => match mapM_result f l' with
                         | Err e => Err e
                         | Ok ys => Ok (y :: ys)
                         end
               end
  end.

Fixpoint foldM_result {E A S} (f : S -> A -> result E S) (s : S) (l : list A) : result E S :=
  match l with
  | [] => Ok s
  | x :: l' => match f s x with
               | Err e => Err e
               | Ok s' => foldM_result f s' l'
               end
  end.

(** A loop that only checks its elements, with the index Go's [range] gives. *)
Fixpoint iterM_from {E A} (f : nat -> A -> result E unit) (i : nat) (l : list A) : result E unit :=
  match l with
  | [] => Ok tt
  | x :: l' => match f i x with
               | Err e => Err e
               | Ok _ => iterM_from f (S i) l'
               end
  end.
Definition iterM {E A} (f : nat -> A -> result E unit) (l : list A) : result E unit :=
  iterM_from f 0 l.

Lemma bind_ok_inv {E A B} (m : result E A) (f : A -> result E B) b :
  m ≫= f = Ok b -> exists a, m = Ok a /\ f a = Ok b.
Proof. destruct m; simpl; [eauto | discriminate]. Qed.
Lemma bind_err_inv {E A B} (m : result E A) (f : A -> result E B) e :
  m ≫= f = Err e -> m = Err e \/ exists a, m = Ok a /\ f a = Err e.
Proof. destruct m; simpl; [eauto | intros [= ->]; by left]. Qed.

Lemma foldM_result_app {E A S} (f : S -> A -> result E S) s l k :
  foldM_result f s (l ++ k)
  = match foldM_result f s l with Ok s' => foldM_result f s' k | Err e => Err e end.
Proof.
  revert s; induction l as [|x l IH]; intros s; simpl; [done|]. destruct (f s x); [apply IH | done].
Qed.
(** A loop whose body never fails does not. *)
Lemma foldM_result_total {E A S} (f : S -> A -> result E S) s l :
  (forall s x, x ∈ l -> exists s', f s x = Ok s') -> exists s', foldM_result f s l = Ok s'.
Proof.
  revert s; induction l as [|x l IH]; intros s Hstep; simpl; [by eexists|].
  destruct (Hstep s x) as [s1 ->]; [by left|]. apply IH. intros s2 y Hy. apply Hstep. by right.
Qed.
(** A property of the loop state that every step keeps. *)
Lemma foldM_result_inv {E A S} (f : S -> A -> result E S) (P : S -> Prop) s l s' :
  (forall s x s', x ∈ l -> P s -> f s x = Ok s' -> P s') ->
  P s -> foldM_result f s l = Ok s' -> P s'.
Proof.
  revert s; induction l as [|x l IH]; intros s Hstep Hs; simpl; [by intros [= <-]|].
  destruct (f s x) as [s1|] eqn:Hx; [|done]. apply IH.
  - intros s2 y s3 Hy. apply Hstep. by right.
  - by apply (Hstep s x); [left | |].
Qed.

(** Without computing in the terms, as [injection] does. *)
Lemma ok_inj {E A} (a b : A) : @Ok E A a = Ok b -> a = b.
Proof. by intros [= ->]. Qed.
Lemma map_err_ok {E F A} (f : E -> F) (m : result E A) a :
  map_err f m = Ok a <-> m = Ok a.
Proof. destruct m; simpl; split; congruence. Qed.
Lemma map_err_err {E F A} (f : E -> F) (m : result E A) e :
  map_err f m = Err e <-> exists e', m = Err e' /\ e = f e'.
Proof. destruct m; simpl; naive_solver. Qed.

Lemma mapM_result_Forall2 {E A B} (f : A -> result E B) l k :
  mapM_result f l = Ok k <-> Forall2 (fun x y => f x = Ok y) l k.
Proof.
  revert k; induction l as [|x l IH]; intros k; simpl.
  - split; [intros [= <-]; constructor | inversion 1; done].
  - destruct (f x) as [y|e] eqn:Hx.
    + destruct (mapM_result f l) as [ys|e] eqn:Hl.
      * split.
        -- intros [= <-]. constructor; [done | by apply IH].
        -- inversion 1 as [|? y' ? ys' Hy Hys]; subst.
           apply IH in Hys. congruence.
      * split; [discriminate | ].
        inversion 1 as [|? y' ? ys' Hy Hys]; subst. apply IH in Hys. congruence.
    + split; [discriminate | inversion 1; congruence].
Qed.

Lemma iterM_from_ok {E A} (f : nat -> A -> result E unit) i l :
  iterM_from f i l = Ok tt <-> forall k x, l !! k = Some x -> f (i + k) x = Ok tt.
Proof.
  revert i; induction l as [|x l IH]; intros i; simpl.
  - split; [intros _ k x Hk; by rewrite lookup_nil in Hk | done].
  - destruct (f i x) as [[]|e] eqn:Hx.
    + rewrite IH. split.
      * intros H [|k] y Hy; simpl in Hy.
        -- injection Hy as <-. by rewrite Nat.add_0_r.
        -- rewrite <- Nat.add_succ_comm. by apply H.
      * intros H k y Hy. rewrite Nat.add_succ_comm. by apply H.
    + split; [discriminate|]. intros H.
      specialize (H 0 x eq_refl). rewrite Nat.add_0_r in H. congruence.
Qed.

Lemma iterM_ok {E A} (f : nat -> A -> result E unit) l :
  iterM f l = Ok tt <-> forall k x, l !! k = Some x -> f k x = Ok tt.
Proof. apply iterM_from_ok. Qed.

(** A checking loop whose body ignores the index accepts exactly the lists
    all of whose elements the body accepts. *)
Lemma iterM_const_ok {E A} (f : A -> result E unit) l :
  iterM (fun _ => f) l = Ok tt <-> Forall (fun x => f x = Ok tt) l.
Proof. rewrite iterM_ok, Forall_lookup. naive_solver. Qed.

(** It fails with the error of the first element the body refuses. *)
Lemma iterM_const_err {E A} (f : A -> result E unit) l e :
  iterM (fun _ => f) l = Err e <->
  exists before x after, l = before ++ x :: after /\
    Forall (fun y => f y = Ok tt) before /\ f x = Err e.
Proof.
  unfold iterM. generalize 0 as i. induction l as [|x l IH]; intros i; simpl.
  - split; [done|]. intros ([|] & ? & ? & ? & _); discriminate.
  - destruct (f x) as [[]|e'] eqn:Hx.
    + rewrite IH. split.
      * intros (b & y & a & -> & Hb & Hy). exists (x :: b), y, a. split_and!; [done | by constructor | done].
      * intros ([|z b] & y & a & [= -> ->] & Hb & Hy); [congruence|].
        apply Forall_cons in Hb as [_ Hb]. eauto 8.
    + split.
      * intros [= ->]. exists [], x, l. by split_and!.
      * intros ([|z b] & y & a & [= -> ->] & Hb & Hy); [congruence|].
        apply Forall_cons in Hb as [Hz _]. congruence.
Qed.

(** * Go strings

    A Go string is a sequence of bytes: [list ascii]. [$"..."] writes a
    literal, so that [take]/[drop]/[length]/[!!] are slicing, [len] and
    indexing. *)
Abbreviation gostring := (list ascii).
Declare Scope go_scope.
Delimit Scope go_scope with go.
Notation "$ s" := (String.list_ascii_of_string s%string)
  (at level 8, s at level 0, format "$ s") : go_scope.
Open Scope go_scope.

#[export] Instance gostring_inhabited : Inhabited gostring := populate [].

(** String equality as a boolean, for [==] and [switch] on strings. *)
Fixpoint seqb (a b : gostring) : bool :=
  match a, b with
  | [], [] => true
  | c :: a', d :: b' => Ascii.eqb c d && seqb a' b'
  | _, _ => false
  end.

Lemma seqb_spec a b : Bool.reflect (a = b) (seqb a b).
Proof.
  revert b; induction a as [|c a IH]; intros [|d b]; simpl; try (constructor; congruence).
  destruct (Ascii.eqb_spec c d) as [->|Hcd]; simpl; [|constructor; congruence].
  destruct (IH b) as [->|Hab]; constructor; congruence.
Qed.

Lemma seqb_eq a b : seqb a b = true <-> a = b.
Proof. destruct (seqb_spec a b); naive_solver. Qed.
Lemma seqb_neq a b : seqb a b = false <-> a <> b.
Proof. destruct (seqb_spec a b); naive_solver. Qed.
Lemma seqb_refl a : seqb a a = true.
Proof. by apply seqb_eq. Qed.

(** [slices.Contains] on strings. *)
Definition smem (x : gostring) (l : list gostring) : bool := existsb (seqb x) l.

Lemma smem_spec x l : Bool.reflect (x ∈ l) (smem x l).
Proof.
  apply Bool.iff_reflect. unfold smem. rewrite existsb_exists, list_elem_of_In.
  setoid_rewrite seqb_eq. naive_solver.
Qed.
Lemma smem_true x l : smem x l = true <-> x ∈ l.
Proof. destruct (smem_spec x l); naive_solver. Qed.
Lemma smem_false x l : smem x l = false <-> x ∉ l.
Proof. destruct (smem_spec x l); naive_solver. Qed.

(** [s == ""] *)
Definition is_empty (s : gostring) : bool := match s with [] => true | _ => false end.

Lemma is_empty_true s : is_empty s = true <-> s = [].
Proof. destruct s; naive_solver. Qed.
Lemma is_empty_false s : is_empty s = false <-> s <> [].
Proof. destruct s; naive_solver. Qed.

(** [if s != "" { return s }; return d] *)
Definition or_else (s d : gostring) : gostring := if is_empty s then d else s.

(** [for k, v := range m] visits the entries of a Go map in an order the
    language leaves open: every theorem holds for every such order. *)
Class MapRange (V : Type) := map_range : gmap gostring V -> list (gostring * V).
Class MapRangeLaws (V : Type) `{MapRange V} : Prop :=
  map_range_perm (m : gmap gostring V) : map_range m ≡ₚ map_to_list m.

Lemma map_range_elem {V} `{MapRangeLaws V} (m : gmap gostring V) k v :
  (k, v) ∈ map_range m <-> m !! k = Some v.
Proof. by rewrite map_range_perm, elem_of_map_to_list. Qed.
Lemma map_range_forall {V} `{MapRangeLaws V} (m : gmap gostring V) (P : gostring * V -> Prop) :
  Forall P (map_range m) <-> forall k v, m !! k = Some v -> P (k, v).
Proof.
  rewrite Forall_forall. split.
  - intros H' k v Hk. by apply H', map_range_elem.
  - intros H' [k v] Hk. by apply H', map_range_elem.
Qed.
(** One order, for evaluating the definitions. *)
Definition map_range_default {V} : MapRange V := map_to_list.
Lemma map_range_default_laws {V} : @MapRangeLaws V map_range_default.
Proof. intros m. reflexivity. Qed.

(** * Tactics *)

(** Case analysis on the innermost [match]/[if] of the goal or of [H]. *)
Ltac case_match_goal :=
  match goal with
  | |- context [match ?x with _ => _ end] =>
      lazymatch x with context [match _ with _ => _ end] => fail | _ => destruct x eqn:? end
  end.
Ltac case_match_hyp H :=
  match type of H with
  | context [match ?x with _ => _ end] =>
      lazymatch x with context [match _ with _ => _ end] => fail | _ => destruct x eqn:? end
  end.

(** Turns boolean tests on strings, numbers and lists into propositions. *)
Ltac breflect :=
  repeat match goal with
  | H : andb _ _ = true |- _ => apply andb_true_iff in H; destruct H
  | H : orb _ _ = false |- _ => apply orb_false_iff in H; destruct H
  | H : negb _ = true |- _ => apply negb_true_iff in H
  | H : negb _ = false |- _ => apply negb_false_iff in H
  | H : seqb _ _ = true |- _ => apply seqb_eq in H
  | H : seqb _ _ = false |- _ => apply seqb_neq in H
  | H : smem _ _ = true |- _ => apply smem_true in H
  | H : smem _ _ = false |- _ => apply smem_false in H
  | H : is_empty _ = true |- _ => apply is_empty_true in H
  | H : is_empty _ = false |- _ => apply is_empty_false in H
  | H : Z.eqb _ _ = true |- _ => apply Z.eqb_eq in H
  | H : Z.eqb _ _ = false |- _ => apply Z.eqb_neq in H
  | H : Z.ltb _ _ = true |- _ => apply Z.ltb_lt in H
  | H : Z.ltb _ _ = false |- _ => apply Z.ltb_ge in H
  | H : Z.leb _ _ = true |- _ => apply Z.leb_le in H
  | H : Z.leb _ _ = false |- _ => apply Z.leb_gt in H
  | H : Nat.eqb _ _ = true |- _ => apply Nat.eqb_eq in H
  | H : Nat.eqb _ _ = false |- _ => apply Nat.eqb_neq in H
  | H : Nat.ltb _ _ = true |- _ => apply Nat.ltb_lt in H
  | H : Nat.ltb _ _ = false |- _ => apply Nat.ltb_ge in H
  | H : Nat.leb _ _ = true |- _ => apply Nat.leb_le in H
  | H : Nat.leb _ _ = false |- _ => apply Nat.leb_gt in H
  end.

(** Splits the premises that say a chain of early returns ended in [Ok]. *)
Ltac result_inv H :=
  repeat (case_match_hyp H; try discriminate); simplify_eq.

(** * Hints *)
Create HintDb go.
Create Rewrite HintDb go.
#[export] Hint Resolve seqb_refl : go.
#[export] Hint Rewrite seqb_refl @length_app @length_take @length_drop @app_nil_r : go.

(** * Machine integers *)
Local Open Scope Z_scope.
Definition max_int64 : Z := 2 ^ 63 - 1.
Definition min_int64 : Z := - 2 ^ 63.
(** Conversion to an unsigned [w]-bit integer, with wrap-around. *)
Definition wrap (w : Z) (n : Z) : Z := n mod 2 ^ w.
Definition byteZ (c : ascii) : Z := Z.of_nat (nat_of_ascii c).
Definition Zbyte (n : Z) : ascii := ascii_of_nat (Z.to_nat (n mod 256)).

Lemma byteZ_bound c : 0 <= byteZ c < 256.
Proof. unfold byteZ. pose proof (nat_ascii_bounded c). lia. Qed.
Lemma byteZ_Zbyte n : byteZ (Zbyte n) = n mod 256.
Proof.
  unfold byteZ, Zbyte. pose proof (Z.mod_pos_bound n 256 ltac:(lia)).
  rewrite nat_ascii_embedding; lia.
Qed.
Lemma Zbyte_byteZ c : Zbyte (byteZ c) = c.
Proof.
  unfold Zbyte. rewrite Z.mod_small by apply byteZ_bound.
  unfold byteZ. by rewrite Nat2Z.id, ascii_nat_embedding.
Qed.
Lemma byteZ_inj c d : byteZ c = byteZ d -> c = d.
Proof. intros H. by rewrite <- (Zbyte_byteZ c), H, Zbyte_byteZ. Qed.

(** Big-endian 16-bit value of two bytes ([binary.BigEndian.Uint16]). *)
Definition be16 (hi lo : ascii) : Z := byteZ hi * 256 + byteZ lo.
(** [binary.BigEndian.PutUint16] of [uint16(n)]. *)
Definition put_be16 (n : Z) : list ascii := [Zbyte (n / 256); Zbyte n].

Lemma be16_bound h l : 0 <= be16 h l < 65536.
Proof. unfold be16. pose proof (byteZ_bound h). pose proof (byteZ_bound l). lia. Qed.
Lemma be16_put n : 0 <= n < 65536 -> be16 (Zbyte (n / 256)) (Zbyte n) = n.
Proof.
  intros Hn. unfold be16. rewrite !byteZ_Zbyte.
  rewrite (Z.mod_small (n / 256)) by (split; [apply Z.div_pos | apply Z.div_lt_upper_bound]; lia).
  pose proof (Z_div_mod_eq_full n 256). lia.
Qed.
Local Close Scope Z_scope.
