(* ===== verification/GoStrings.v ===== *)
(** The parts of Go's [strings], [strconv], [slices] and [unicode/utf8]
    packages that the program uses, as functions on byte strings, with the
    lemmas the component files share.  Sizes are those of [int] on a 64-bit
    platform. *)
From S2P Require Export Prelude.
Local Open Scope go_scope.

(** * Prefixes and suffixes *)

Fixpoint has_prefix (s p : gostring) {struct p} : bool :=
  match p, s with
  | [], _ => true
  | _ :: _, [] => false
  | c :: p', d :: s' => Ascii.eqb c d && has_prefix s' p'
  end.
(** [len(s) >= len(x) && s[len(s)-len(x):] == x] *)
Definition has_suffix (s x : gostring) : bool :=
  (length x <=? length s) && seqb (drop (length s - length x) s) x.
Definition trim_prefix (s p : gostring) : gostring :=
  if has_prefix s p then drop (length p) s else s.
Definition trim_suffix (s x : gostring) : gostring :=
  if has_suffix s x then take (length s - length x) s else s.

Lemma has_prefix_true s p : has_prefix s p = true <-> exists t, s = p ++ t.
Proof.
  revert s; induction p as [|c p IH]; intros s; simpl.
  - split; [eauto | done].
  - destruct s as [|d s]; [split; [done | intros [t Ht]; discriminate] |].
    rewrite andb_true_iff, IH, Ascii.eqb_eq. split.
    + intros [-> [t ->]]. by exists t.
    + intros [t [= -> ->]]. eauto.
Qed.
Lemma has_prefix_app p t : has_prefix (p ++ t) p = true.
Proof. apply has_prefix_true. eauto. Qed.
Lemma has_suffix_true s x : has_suffix s x = true <-> exists t, s = t ++ x.
Proof.
  unfold has_suffix. rewrite andb_true_iff, Nat.leb_le, seqb_eq. split.
  - intros [Hl Hd]. exists (take (length s - length x) s).
    rewrite <- Hd at 2. by rewrite take_drop.
  - intros [t ->]. rewrite length_app. split; [lia|].
    replace (length t + length x - length x) with (length t) by lia.
    by rewrite drop_app_length.
Qed.
Lemma has_suffix_app t x : has_suffix (t ++ x) x = true.
Proof. apply has_suffix_true. eauto. Qed.
Lemma trim_prefix_app p t : trim_prefix (p ++ t) p = t.
Proof. unfold trim_prefix. by rewrite has_prefix_app, drop_app_length. Qed.
Lemma trim_suffix_app t x : trim_suffix (t ++ x) x = t.
Proof.
  unfold trim_suffix. rewrite has_suffix_app, length_app.
  replace (length t + length x - length x) with (length t) by lia.
  by rewrite take_app_length.
Qed.

(** * Searching *)

Fixpoint index_byte (c : ascii) (s : gostring) : option nat :=
  match s with
  | [] => None
  | d :: s' => if Ascii.eqb c d then Some 0 else S <$> index_byte c s'
  end.
Fixpoint last_index_byte (c : ascii) (s : gostring) : option nat :=
  match s with
  | [] => None
  | d :: s' => match last_index_byte c s' with
               | Some i => Some (S i)
               | None => if Ascii.eqb c d then Some 0 else None
               end
  end.
(** [strings.Contains(s, "c")] and [strings.IndexByte(s, c) >= 0] *)
Definition contains_byte (c : ascii) (s : gostring) : bool := existsb (Ascii.eqb c) s.
Fixpoint index_any (cs s : gostring) : option nat :=
  match s with
  | [] => None
  | d :: s' => if contains_byte d cs then Some 0 else S <$> index_any cs s'
  end.
(** [strings.Count(s, "c")] *)
Definition count_byte (c : ascii) (s : gostring) : nat :=
  length (List.filter (Ascii.eqb c) s).
(** [strings.Contains(s, sub)] *)
Fixpoint contains (s sub : gostring) : bool :=
  has_prefix s sub || match s with [] => false | _ :: s' => contains s' sub end.

Lemma contains_byte_true c s : contains_byte c s = true <-> c ∈ s.
Proof.
  unfold contains_byte. rewrite existsb_exists, list_elem_of_In.
  setoid_rewrite Ascii.eqb_eq. naive_solver.
Qed.
Lemma contains_byte_false c s : contains_byte c s = false <-> c ∉ s.
Proof.
  rewrite <- contains_byte_true. destruct (contains_byte c s); naive_solver.
Qed.
Lemma contains_byte_app c s t :
  contains_byte c (s ++ t) = contains_byte c s || contains_byte c t.
Proof. unfold contains_byte. apply existsb_app. Qed.
Lemma contains_true s sub : contains s sub = true <-> exists a b, s = a ++ sub ++ b.
Proof.
  induction s as [|c s IH]; simpl.
  - rewrite orb_false_r. split.
    + intros H. apply has_prefix_true in H as [t ->]. exists [], t. done.
    + intros (a & b & H). apply has_prefix_true. destruct a; simpl in H; [eauto | discriminate].
  - rewrite orb_true_iff, IH, has_prefix_true. split.
    + intros [[t ->] | (a & b & ->)]; [exists [], t | exists (c :: a), b]; done.
    + intros ([|c' a] & b & H); simpl in H; [left; eauto |].
      injection H as -> ->. right; eauto.
Qed.

Lemma index_byte_some c s i :
  index_byte c s = Some i <->
  exists a b, s = a ++ c :: b /\ c ∉ a /\ i = length a.
Proof.
  revert i; induction s as [|d s IH]; intros i; simpl.
  - split; [done|]. intros ([|] & b & H & _); discriminate.
  - destruct (Ascii.eqb_spec c d) as [->|Hcd].
    + split.
      * intros [= <-]. exists [], s. split_and!; [done | apply not_elem_of_nil | done].
      * intros ([|x a] & b & H & Hn & ->); simpl in *; [done|].
        injection H as -> ->. exfalso. apply Hn. left.
    + rewrite fmap_Some. setoid_rewrite IH. split.
      * intros (j & (a & b & -> & Hn & ->) & ->). exists (d :: a), b.
        split_and!; [done | rewrite elem_of_cons || rewrite elem_of_cons in Hn; naive_solver | done].
      * intros ([|x a] & b & H & Hn & ->); simpl in *; [congruence|].
        injection H as -> ->. exists (length a). split; [|done].
        exists a, b. split_and!; [done | rewrite elem_of_cons in Hn || rewrite elem_of_cons in Hn; naive_solver | done].
Qed.
Lemma index_byte_none c s : index_byte c s = None <-> c ∉ s.
Proof.
  induction s as [|d s IH]; simpl.
  - split; [intros _; apply not_elem_of_nil | done].
  - destruct (Ascii.eqb_spec c d) as [->|Hcd].
    + split; [done | intros H; exfalso; apply H; left].
    + rewrite fmap_None, IH, elem_of_cons. naive_solver.
Qed.
Lemma index_byte_app c a b : c ∉ a -> index_byte c (a ++ c :: b) = Some (length a).
Proof. intros. apply index_byte_some. eauto. Qed.

Lemma last_index_byte_none c s : last_index_byte c s = None <-> c ∉ s.
Proof.
  induction s as [|d s IH]; simpl.
  - split; [intros _; apply not_elem_of_nil | done].
  - rewrite elem_of_cons. destruct (last_index_byte c s) as [i|].
    + split; [done|]. intros H. exfalso. apply H. right.
      destruct (decide (c ∈ s)) as [|Hn]; [done|]. apply IH in Hn. discriminate.
    + destruct (Ascii.eqb_spec c d) as [->|Hcd]; [naive_solver|].
      destruct IH as [IH _]. specialize (IH eq_refl). naive_solver.
Qed.
Lemma last_index_byte_app c a b :
  c ∉ b -> last_index_byte c (a ++ c :: b) = Some (length a).
Proof.
  intros Hb. induction a as [|d a IH]; simpl.
  - apply last_index_byte_none in Hb. by rewrite Hb, Ascii.eqb_refl.
  - by rewrite IH.
Qed.

(** * Cutting, splitting and joining *)

(** [strings.Cut(s, "c")]; [None] when [c] does not occur. *)
Definition cut (c : ascii) (s : gostring) : option (gostring * gostring) :=
  match index_byte c s with
  | Some i => Some (take i s, drop (S i) s)
  | None => None
  end.
(** [strings.Split(s, "c")]: never empty. *)
Fixpoint split (c : ascii) (s : gostring) : list gostring :=
  match s with
  | [] => [[]]
  | d :: s' =>
      if Ascii.eqb c d then [] :: split c s'
      else match split c s' with
           | [] => [[d]]
           | w :: ws => (d :: w) :: ws
           end
  end.
(** [strings.Join(l, sep)] *)
Fixpoint join (sep : gostring) (l : list gostring) : gostring :=
  match l with
  | [] => []
  | [w] => w
  | w :: ws => w ++ sep ++ join sep ws
  end.

Lemma cut_app c a b : c ∉ a -> cut c (a ++ c :: b) = Some (a, b).
Proof.
  intros Ha. unfold cut. rewrite index_byte_app by done.
  rewrite take_app_length. do 2 f_equal.
  change (c :: b) with ([c] ++ b). rewrite app_assoc, drop_app_ge; rewrite !length_app; simpl; [|lia].
  by replace (S (length a) - (length a + 1)) with 0 by lia.
Qed.
Lemma cut_some c s a b : cut c s = Some (a, b) <-> s = a ++ c :: b /\ c ∉ a.
Proof.
  split.
  - unfold cut. destruct (index_byte c s) as [i|] eqn:Hi; [|done].
    apply index_byte_some in Hi as (x & y & -> & Hx & ->).
    intros [= <- <-].
    pose proof (cut_app c x y Hx) as Hc. unfold cut in Hc.
    rewrite index_byte_app in Hc by done. injection Hc as -> ->. done.
  - intros [-> Ha]. by apply cut_app.
Qed.
Lemma cut_none c s : cut c s = None <-> c ∉ s.
Proof.
  unfold cut. rewrite <- index_byte_none. destruct (index_byte c s); naive_solver.
Qed.

Lemma split_nonempty c s : split c s <> [].
Proof.
  destruct s as [|d s]; simpl; [done|].
  destruct (Ascii.eqb c d); [done|]. by destruct (split c s).
Qed.
Lemma split_none c s : c ∉ s -> split c s = [s].
Proof.
  induction s as [|d s IH]; intros Hn; simpl; [done|].
  rewrite elem_of_cons in Hn.
  destruct (Ascii.eqb_spec c d); [naive_solver|]. rewrite IH by naive_solver. done.
Qed.
Lemma split_app c a s : c ∉ a -> split c (a ++ c :: s) = a :: split c s.
Proof.
  induction a as [|d a IH]; intros Hn; simpl.
  - by rewrite Ascii.eqb_refl.
  - rewrite elem_of_cons in Hn.
    destruct (Ascii.eqb_spec c d); [naive_solver|]. by rewrite IH by naive_solver.
Qed.
Lemma split_parts_free c s w : w ∈ split c s -> c ∉ w.
Proof.
  revert w; induction s as [|d s IH]; intros w; simpl.
  - rewrite list_elem_of_singleton. intros ->. apply not_elem_of_nil.
  - destruct (Ascii.eqb_spec c d) as [->|Hcd].
    + rewrite elem_of_cons. intros [->|H]; [apply not_elem_of_nil | by apply IH].
    + destruct (split c s) as [|w' ws] eqn:Hs; [by apply split_nonempty in Hs|].
      rewrite elem_of_cons. intros [->|H].
      * rewrite elem_of_cons. intros [?|?]; [done|]. by apply (IH w'); [left|].
      * apply IH. by right.
Qed.
Lemma join_split c s : join [c] (split c s) = s.
Proof.
  induction s as [|d s IH]; simpl; [done|].
  destruct (Ascii.eqb_spec c d) as [->|Hcd].
  - destruct (split d s) as [|w ws] eqn:Hs; [by apply split_nonempty in Hs|].
    simpl in *. by rewrite IH.
  - destruct (split c s) as [|w ws] eqn:Hs; [by apply split_nonempty in Hs|].
    destruct ws; simpl in *; by rewrite <- IH.
Qed.
Lemma split_join c l :
  l <> [] -> Forall (fun w => c ∉ w) l -> split c (join [c] l) = l.
Proof.
  induction l as [|w l IH]; [done|]. intros _ Hl.
  apply Forall_cons in Hl as [Hw Hl].
  destruct l as [|w' l]; simpl; [by apply split_none|].
  rewrite split_app by done. f_equal. by apply IH.
Qed.

(** * White space

    [unicode.IsSpace] accepts the runes below; each is matched by its UTF-8
    encoding, which no other rune has as a prefix or as a suffix. *)
Definition space_encodings : list gostring :=
  let b := fun l => map (fun n => ascii_of_nat n) l in
  [b [9]; b [10]; b [11]; b [12]; b [13]; b [32]; b [194; 133]; b [194; 160];
   b [225; 154; 128];
   b [226; 128; 128]; b [226; 128; 129]; b [226; 128; 130]; b [226; 128; 131];
   b [226; 128; 132]; b [226; 128; 133]; b [226; 128; 134]; b [226; 128; 135];
   b [226; 128; 136]; b [226; 128; 137]; b [226; 128; 138];
   b [226; 128; 168]; b [226; 128; 169]; b [226; 128; 175]; b [226; 129; 159];
   b [227; 128; 128]].
Definition leading_space (s : gostring) : option gostring :=
  List.find (has_prefix s) space_encodings.
Fixpoint trim_left_space_fuel (fuel : nat) (s : gostring) : gostring :=
  match fuel with
  | O => s
  | S f => match leading_space s with
           | Some e => trim_left_space_fuel f (drop (length e) s)
           | None => s
           end
  end.
Definition trim_left_space (s : gostring) : gostring := trim_left_space_fuel (length s) s.
Fixpoint trim_right_space_fuel (fuel : nat) (s : gostring) : gostring :=
  match fuel with
  | O => s
  | S f => match List.find (has_suffix s) space_encodings with
           | Some e => trim_right_space_fuel f (take (length s - length e) s)
           | None => s
           end
  end.
Definition trim_right_space (s : gostring) : gostring := trim_right_space_fuel (length s) s.
(** [strings.TrimSpace] *)
Definition trim_space (s : gostring) : gostring := trim_right_space (trim_left_space s).
(** [strings.TrimRight(s, "c")] and [strings.TrimLeft(s, cs)], ASCII cutsets *)
Fixpoint trim_left_bytes (cs s : gostring) : gostring :=
  match s with
  | [] => []
  | c :: s' => if contains_byte c cs then trim_left_bytes cs s' else s
  end.
Definition trim_right_bytes (cs s : gostring) : gostring :=
  reverse (trim_left_bytes cs (reverse s)).
(** [strings.Fields] *)
Fixpoint fields_fuel (fuel : nat) (cur : gostring) (s : gostring) : list gostring :=
  let flush := if is_empty cur then [] else [reverse cur] in
  match fuel with
  | O => flush
  | S f =>
      match s with
      | [] => flush
      | c :: s' => match leading_space s with
                   | Some e => flush ++ fields_fuel f [] (drop (length e) s)
                   | None => fields_fuel f (c :: cur) s'
                   end
      end
  end.
Definition fields (s : gostring) : list gostring := fields_fuel (S (length s)) [] s.

(** * Case *)

Definition is_upper (c : ascii) : bool := (65 <=? nat_of_ascii c) && (nat_of_ascii c <=? 90).
Definition is_lower (c : ascii) : bool := (97 <=? nat_of_ascii c) && (nat_of_ascii c <=? 122).
Definition is_digit (c : ascii) : bool := (48 <=? nat_of_ascii c) && (nat_of_ascii c <=? 57).
Definition is_alpha (c : ascii) : bool := is_upper c || is_lower c.
Definition lower_byte (c : ascii) : ascii :=
  if is_upper c then ascii_of_nat (nat_of_ascii c + 32) else c.
Definition is_ascii (c : ascii) : bool := nat_of_ascii c <? 128.

(** [strings.ToLower] maps ASCII strings byte by byte; on other strings it
    applies the case tables of the Unicode version the toolchain ships,
    which are this class. *)
Class UnicodeCase := lower_runes : gostring -> gostring.
Definition to_lower `{UnicodeCase} (s : gostring) : gostring :=
  if forallb is_ascii s then map lower_byte s else lower_runes s.

Lemma to_lower_ascii `{UnicodeCase} s :
  forallb is_ascii s = true -> to_lower s = map lower_byte s.
Proof. unfold to_lower. by intros ->. Qed.

(** * Decimal numbers *)
Local Open Scope Z_scope.

Definition digit_val (c : ascii) : Z := byteZ c - 48.
Fixpoint parse_digits (acc : Z) (s : gostring) : option Z :=
  match s with
  | [] => Some acc
  | c :: s' => if is_digit c then parse_digits (acc * 10 + digit_val c) s' else None
  end.
(** [strconv.Atoi]: optional sign, at least one digit, int64 range. *)
Definition atoi (s : gostring) : option Z :=
  let signed (neg : bool) (d : gostring) :=
    if is_empty d then None
    else match parse_digits 0 d with
         | None => None
         | Some n => let v := if neg then - n else n in
                     if (min_int64 <=? v) && (v <=? max_int64) then Some v else None
         end in
  match s with
  | c :: d => if Ascii.eqb c "+" then signed false d
              else if Ascii.eqb c "-" then signed true d
              else signed false s
  | [] => None
  end.

Definition digit_char (n : Z) : ascii := Zbyte (48 + n).
Fixpoint digits_fuel (fuel : nat) (n : Z) (acc : gostring) : gostring :=
  match fuel with
  | O => acc
  | S f => let acc' := digit_char (n mod 10) :: acc in
           if n <? 10 then acc' else digits_fuel f (n / 10) acc'
  end.
(** Decimal digits of a non-negative number; [log2 n + 1] steps are enough
    because each divides [n] by ten. *)
Definition digits_of (n : Z) : gostring := digits_fuel (S (Z.to_nat (Z.log2 n))) n [].
(** [strconv.Itoa], [fmt.Sprint] and [%d] *)
Definition itoa (n : Z) : gostring :=
  if n <? 0 then "-"%char :: digits_of (- n) else digits_of n.

Lemma digit_char_spec d : 0 <= d < 10 ->
  is_digit (digit_char d) = true /\ digit_val (digit_char d) = d.
Proof.
  intros Hd. unfold digit_val, digit_char. rewrite byteZ_Zbyte, Z.mod_small by lia.
  split; [|lia]. unfold is_digit.
  assert (H : nat_of_ascii (Zbyte (48 + d)) = Z.to_nat (48 + d)).
  { pose proof (byteZ_Zbyte (48 + d)) as Hb. unfold byteZ in Hb.
    rewrite Z.mod_small in Hb by lia. lia. }
  rewrite H. apply andb_true_iff. rewrite !Nat.leb_le. lia.
Qed.

Lemma parse_digits_app a acc s t :
  parse_digits acc s = Some a -> parse_digits acc (s ++ t) = parse_digits a t.
Proof.
  revert acc; induction s as [|c s IH]; intros acc; simpl.
  - by intros [= ->].
  - destruct (is_digit c); [apply IH | done].
Qed.

Lemma digits_fuel_app f n acc : digits_fuel f n acc = digits_fuel f n [] ++ acc.
Proof.
  revert n acc; induction f as [|f IH]; intros n acc; simpl; [done|].
  destruct (n <? 10); [done|]. rewrite IH, (IH _ [_]), <- app_assoc. done.
Qed.
Lemma digits_fuel_parse f n :
  0 <= n < 2 ^ Z.of_nat f -> parse_digits 0 (digits_fuel f n []) = Some n.
Proof.
  revert n; induction f as [|f IH]; intros n Hn; simpl.
  - change (2 ^ Z.of_nat 0) with 1 in Hn. f_equal. lia.
  - pose proof (Z.mod_pos_bound n 10 ltac:(lia)) as Hm.
    destruct (digit_char_spec (n mod 10) Hm) as [Hd Hv].
    destruct (Z.ltb_spec n 10).
    + simpl. rewrite Hd, Hv. f_equal. rewrite Z.mod_small; lia.
    + rewrite digits_fuel_app.
      rewrite (parse_digits_app (n / 10)).
      * simpl. rewrite Hd, Hv. f_equal. pose proof (Z_div_mod_eq_full n 10). lia.
      * apply IH. split; [apply Z.div_pos; lia|].
        apply Z.div_lt_upper_bound; [lia|].
        rewrite Nat2Z.inj_succ, Z.pow_succ_r in Hn by lia. lia.
Qed.
Lemma digits_fuel_shape f n acc :
  exists c s, digits_fuel (S f) n acc = c :: s.
Proof.
  revert n acc; induction f as [|f IH]; intros n acc.
  - simpl. destruct (n <? 10); eauto.
  - change (digits_fuel (S (S f)) n acc)
      with (if n <? 10 then digit_char (n mod 10) :: acc
            else digits_fuel (S f) (n / 10) (digit_char (n mod 10) :: acc)).
    destruct (n <? 10); [eauto | apply IH].
Qed.
Lemma digits_fuel_digits f n acc :
  Forall (fun c => is_digit c = true) acc ->
  Forall (fun c => is_digit c = true) (digits_fuel f n acc).
Proof.
  revert n acc; induction f as [|f IH]; intros n acc Hacc; simpl; [done|].
  assert (Forall (fun c => is_digit c = true) (digit_char (n mod 10) :: acc)).
  { constructor; [|done]. apply digit_char_spec, Z.mod_pos_bound. lia. }
  destruct (n <? 10); [done | by apply IH].
Qed.
Lemma digits_of_digits n : Forall (fun c => is_digit c = true) (digits_of n).
Proof. by apply digits_fuel_digits. Qed.
Lemma digits_of_parse n : 0 <= n -> parse_digits 0 (digits_of n) = Some n.
Proof.
  intros Hn. apply digits_fuel_parse. split; [done|].
  rewrite Nat2Z.inj_succ, Z2Nat.id by apply Z.log2_nonneg.
  destruct (Z.eq_dec n 0) as [->|]; [done|]. apply Z.log2_spec. lia.
Qed.
Lemma digits_of_cons n : exists c s, digits_of n = c :: s /\ is_digit c = true.
Proof.
  destruct (digits_fuel_shape (Z.to_nat (Z.log2 n)) n []) as (c & s & H).
  exists c, s. split; [done|].
  pose proof (digits_of_digits n) as Hd. unfold digits_of in Hd. rewrite H in Hd.
  by apply Forall_cons in Hd as [? _].
Qed.
Lemma digit_not_sign c : is_digit c = true -> Ascii.eqb c "+" = false /\ Ascii.eqb c "-" = false.
Proof.
  intros H. split; destruct (Ascii.eqb_spec c "+"), (Ascii.eqb_spec c "-"); subst;
    done || vm_compute in H; discriminate.
Qed.

(** Printing a port or a count and reading it back gives the number. *)
Lemma atoi_itoa n : 0 <= n <= max_int64 -> atoi (itoa n) = Some n.
Proof.
  intros Hn. unfold itoa. destruct (Z.ltb_spec n 0); [lia|].
  pose proof (digits_of_parse n ltac:(lia)) as Hp.
  destruct (digits_of_cons n) as (c & s & Hc & Hdig). rewrite Hc in *.
  destruct (digit_not_sign c Hdig) as [Hplus Hminus].
  unfold atoi. rewrite Hplus, Hminus. simpl is_empty. cbv iota.
  rewrite Hp. destruct (Z.leb_spec min_int64 n); [|unfold min_int64 in *; lia].
  destruct (Z.leb_spec n max_int64); [done | lia].
Qed.
Lemma itoa_digits n : 0 <= n -> Forall (fun c => is_digit c = true) (itoa n).
Proof.
  intros Hn. unfold itoa. destruct (Z.ltb_spec n 0); [lia|]. apply digits_of_digits.
Qed.
Lemma itoa_nonempty n : 0 <= n -> itoa n <> [].
Proof.
  intros Hn. unfold itoa. destruct (Z.ltb_spec n 0); [lia|].
  destruct (digits_of_cons n) as (c & s & -> & _). done.
Qed.
Lemma itoa_free c n : 0 <= n -> is_digit c = false -> c ∉ itoa n.
Proof.
  intros Hn Hc Hin. pose proof (itoa_digits n Hn) as Hd.
  rewrite Forall_forall in Hd. specialize (Hd c Hin). congruence.
Qed.
Local Close Scope Z_scope.

(** * Runes

    [for _, r := range s] decodes UTF-8; an ill-formed byte is the rune
    U+FFFD of width one.  [decode_rune] is [utf8.DecodeRuneInString] on a
    non-empty string. *)
Local Open Scope Z_scope.
Definition rune_error : Z := 65533.
Definition in_range (lo hi : Z) (c : ascii) : bool := (lo <=? byteZ c) && (byteZ c <=? hi).
Definition decode_rune (s : gostring) : Z * nat :=
  match s with
  | [] => (rune_error, 0%nat)
  | b0 :: r =>
      let x := byteZ b0 in
      if x <? 128 then (x, 1%nat)
      else
        let bad := (rune_error, 1%nat) in
        if (194 <=? x) && (x <=? 223) then
          match r with
          | b1 :: _ => if in_range 128 191 b1
                       then ((x - 192) * 64 + (byteZ b1 - 128), 2%nat) else bad
          | [] => bad
          end
        else if (224 <=? x) && (x <=? 239) then
          match r with
          | b1 :: b2 :: _ =>
              let lo := if x =? 224 then 160 else 128 in
              let hi := if x =? 237 then 159 else 191 in
              if in_range lo hi b1 && in_range 128 191 b2
              then ((x - 224) * 4096 + (byteZ b1 - 128) * 64 + (byteZ b2 - 128), 3%nat)
              else bad
          | _ => bad
          end
        else if (240 <=? x) && (x <=? 244) then
          match r with
          | b1 :: b2 :: b3 :: _ =>
              let lo := if x =? 240 then 144 else 128 in
              let hi := if x =? 244 then 143 else 191 in
              if in_range lo hi b1 && in_range 128 191 b2 && in_range 128 191 b3
              then ((x - 240) * 262144 + (byteZ b1 - 128) * 4096
                    + (byteZ b2 - 128) * 64 + (byteZ b3 - 128), 4%nat)
              else bad
          | _ => bad
          end
        else bad
  end.
Fixpoint runes_fuel (fuel : nat) (s : gostring) : list Z :=
  match fuel, s with
  | O, _ | _, [] => []
  | S f, _ => let '(r, w) := decode_rune s in r :: runes_fuel f (drop w s)
  end.
(** The rune values of a [range] loop over [s]; [len s] steps are enough
    because every rune is at least one byte wide. *)
Definition runes (s : gostring) : list Z := runes_fuel (length s) s.

Lemma is_ascii_byteZ c : is_ascii c = true <-> byteZ c < 128.
Proof. unfold is_ascii, byteZ. rewrite Nat.ltb_lt. lia. Qed.
Lemma runes_ascii s : forallb is_ascii s = true -> runes s = map byteZ s.
Proof.
  unfold runes. induction s as [|c s IH]; [done|].
  cbn [forallb]. rewrite andb_true_iff. intros [Hc Hs].
  cbn [length runes_fuel decode_rune]. cbv zeta.
  apply is_ascii_byteZ in Hc. destruct (Z.ltb_spec (byteZ c) 128); [|lia].
  cbn [drop map]. rewrite drop_0. by rewrite IH.
Qed.
Local Close Scope Z_scope.

(** * Trimming text that starts and ends with a digit *)
Lemma space_encodings_ends :
  forallb (fun e => match e, last e with
                    | c :: _, Some d => negb (is_digit c) && negb (is_digit d)
                    | _, _ => false
                    end) space_encodings = true.
Proof. vm_compute. reflexivity. Qed.
Lemma find_none {A} (f : A -> bool) l : (forall x, x ∈ l -> f x = false) -> List.find f l = None.
Proof.
  induction l as [|x l IH]; intros Hf; cbn [List.find]; [done|]. rewrite Hf by left.
  apply IH. intros y Hy. apply Hf. by right.
Qed.
Lemma trim_space_digits c s d t :
  is_digit c = true -> is_digit d = true -> c :: s = t ++ [d] -> trim_space (c :: s) = c :: s.
Proof.
  intros Hc Hd Heq. pose proof space_encodings_ends as Hends. rewrite forallb_forall in Hends.
  setoid_rewrite <- list_elem_of_In in Hends.
  assert (Hleft : leading_space (c :: s) = None).
  { apply find_none. intros e He. specialize (Hends e He). destruct e as [|x e]; [done|].
    destruct (has_prefix (c :: s) (x :: e)) eqn:Hp; [|done]. apply has_prefix_true in Hp as [u [= <- _]].
    destruct (last (c :: e)); [|done]. by rewrite Hc in Hends. }
  assert (Hright : List.find (has_suffix (c :: s)) space_encodings = None).
  { apply find_none. intros e He. specialize (Hends e He).
    destruct (has_suffix (c :: s) e) eqn:Hp; [|done]. apply has_suffix_true in Hp as [u Hu].
    destruct e as [|x e]; [done|]. destruct (last (x :: e)) as [y|] eqn:Hl; [|done].
    assert (Hy : last (c :: s) = Some y) by (rewrite Hu, last_app, Hl; done).
    rewrite Heq, last_snoc in Hy. injection Hy as <-. rewrite Hd, andb_false_r in Hends. done. }
  unfold trim_space, trim_left_space. cbn [length trim_left_space_fuel]. rewrite Hleft.
  unfold trim_right_space. cbn [length trim_right_space_fuel]. by rewrite Hright.
Qed.

(** * Sorting

    [slices.Sort] on strings and [slices.SortStableFunc]: the order is
    lexicographic on bytes; insertion sort keeps equal elements in order. *)
Fixpoint sleb (a b : gostring) : bool :=
  match a, b with
  | [], _ => true
  | _ :: _, [] => false
  | c :: a', d :: b' =>
      if Ascii.eqb c d then sleb a' b'
      else (nat_of_ascii c <? nat_of_ascii d)%nat
  end.
Section sort.
Context {A : Type} (leb : A -> A -> bool).
Fixpoint insert_by (x : A) (l : list A) : list A :=
  match l with
  | [] => [x]
  | y :: l' => if leb x y then x :: y :: l' else y :: insert_by x l'
  end.
Fixpoint sort_by (l : list A) : list A :=
  match l with
  | [] => []
  | x :: l' => insert_by x (sort_by l')
  end.

Lemma insert_by_perm x l : insert_by x l ≡ₚ x :: l.
Proof.
  induction l as [|y l IH]; simpl; [done|].
  destruct (leb x y); [done|]. rewrite IH. constructor.
Qed.
Lemma sort_by_perm l : sort_by l ≡ₚ l.
Proof. induction l as [|x l IH]; simpl; [done|]. by rewrite insert_by_perm, IH. Qed.

Hypothesis leb_total : forall x y, leb x y = true \/ leb y x = true.
Hypothesis leb_trans : forall x y z, leb x y = true -> leb y z = true -> leb x z = true.
Lemma insert_by_sorted x l :
  StronglySorted (fun a b => leb a b = true) l ->
  StronglySorted (fun a b => leb a b = true) (insert_by x l).
Proof.
  induction 1 as [|y l Hl IH Hy]; simpl; [repeat constructor|].
  destruct (leb x y) eqn:Hxy.
  - constructor; [by constructor|]. constructor; [done|].
    eapply Forall_impl; [exact Hy|]. simpl. eauto.
  - constructor; [done|]. rewrite insert_by_perm. constructor; [|done].
    destruct (leb_total x y); congruence.
Qed.
Lemma sort_by_sorted l : StronglySorted (fun a b => leb a b = true) (sort_by l).
Proof. induction l; simpl; [constructor | by apply insert_by_sorted]. Qed.
(** Where an element ends up: after it there is nothing of a class it is the
    greatest of, ties being broken by the original order. *)
Lemma insert_by_split x l : exists l1 l2, l = l1 ++ l2 /\ insert_by x l = l1 ++ x :: l2 /\
  Forall (fun y => leb x y = false) l1 /\ (forall y l2', l2 = y :: l2' -> leb x y = true).
Proof.
  induction l as [|y l IH]; simpl; [by exists [], []|].
  destruct (leb x y) eqn:Hxy; [exists [], (y :: l); split_and!; naive_solver|].
  destruct IH as (l1 & l2 & -> & -> & Hl1 & Hl2). exists (y :: l1), l2. split_and!; auto.
Qed.
Lemma sort_by_last (P : A -> Prop) l1 m l2 :
  (forall x, x ∈ l1 -> P x -> leb x m = true) -> (forall x, x ∈ l2 -> P x -> leb m x = false) ->
  exists s1 s2, sort_by (l1 ++ m :: l2) = s1 ++ m :: s2 /\ forall x, x ∈ s2 -> ~ P x.
Proof.
  intros H1 H2. induction l1 as [|x l1 IH]; cbn [app sort_by].
  - destruct (insert_by_split m (sort_by l2)) as (a & b & Hab & -> & _ & Hb). exists a, b. split; [done|].
    intros z Hz HP. assert (Hz2 : z ∈ l2) by (rewrite <- (sort_by_perm l2), Hab, elem_of_app; by right).
    specialize (H2 z Hz2 HP). destruct b as [|y b]; [by apply not_elem_of_nil in Hz|].
    specialize (Hb y b eq_refl). pose proof (sort_by_sorted l2) as Hs. rewrite Hab in Hs.
    apply StronglySorted_app_1_r in Hs. apply StronglySorted_inv in Hs as [_ Hyz]. rewrite Forall_forall in Hyz.
    apply elem_of_cons in Hz as [-> | Hz]; [congruence|]. specialize (leb_trans _ _ _ Hb (Hyz z Hz)). congruence.
  - destruct IH as (s1 & s2 & Hs & Hn); [intros; apply H1; [by right | done]|]. rewrite Hs.
    destruct (insert_by_split x (s1 ++ m :: s2)) as (a & b & Hab & -> & Ha & _).
    destruct (app_eq_inv _ _ _ _ Hab) as [(k & Hk1 & Hk2)|(k & Hk1 & Hk2)].
    + destruct k as [|y k]; cbn [app] in Hk2.
      * exists (a ++ [x]), s2. rewrite <- Hk2, <- app_assoc. split; [done | exact Hn].
      * exists (a ++ x :: y :: k), s2. rewrite Hk2, <- app_assoc. split; [done | exact Hn].
    + destruct k as [|y k]; cbn [app] in Hk2.
      * exists (a ++ [x]), s2. rewrite <- Hk2, <- app_assoc. split; [done | exact Hn].
      * injection Hk2 as <- Hk2. exists s1, (k ++ x :: b). subst a. rewrite <- app_assoc. split; [done|].
        intros z Hz HP. apply elem_of_app in Hz as [Hz|[-> | Hz]%elem_of_cons].
        -- apply (Hn z); [rewrite Hk2, elem_of_app; by left | done].
        -- specialize (H1 x ltac:(left) HP). rewrite Forall_forall in Ha.
           specialize (Ha m). rewrite elem_of_app in Ha. rewrite Ha in H1; [done|]. right. left.
        -- apply (Hn z); [rewrite Hk2, elem_of_app; by right | done].
Qed.
End sort.

Definition sort_strings : list gostring -> list gostring := sort_by sleb.

Lemma sleb_total a b : sleb a b = true \/ sleb b a = true.
Proof.
  revert b; induction a as [|c a IH]; intros [|d b]; simpl; auto.
  destruct (Ascii.eqb_spec c d) as [->|Hcd].
  - rewrite Ascii.eqb_refl. apply IH.
  - destruct (Ascii.eqb_spec d c); [congruence|]. rewrite !Nat.ltb_lt.
    assert (nat_of_ascii c <> nat_of_ascii d); [|lia].
    intros H. apply Hcd. by rewrite <- (ascii_nat_embedding c), H, ascii_nat_embedding.
Qed.
Lemma sleb_trans a b c : sleb a b = true -> sleb b c = true -> sleb a c = true.
Proof.
  revert b c; induction a as [|x a IH]; intros [|y b] [|z c]; simpl; try done.
  destruct (Ascii.eqb_spec x y) as [->|Hxy], (Ascii.eqb_spec y z) as [->|Hyz].
  - apply IH.
  - done.
  - destruct (Ascii.eqb_spec x z); [congruence | done].
  - rewrite !Nat.ltb_lt. intros H1 H2.
    destruct (Ascii.eqb_spec x z) as [->|]; [lia|]. rewrite Nat.ltb_lt. lia.
Qed.
Lemma sleb_antisym a b : sleb a b = true -> sleb b a = true -> a = b.
Proof.
  revert b; induction a as [|x a IH]; intros [|y b]; simpl; try done.
  destruct (Ascii.eqb_spec x y) as [->|Hxy].
  - rewrite Ascii.eqb_refl. intros H1 H2. f_equal. by apply IH.
  - destruct (Ascii.eqb_spec y x); [congruence|]. rewrite !Nat.ltb_lt. lia.
Qed.
(** A prefix comes first. *)
Lemma sleb_prefix a b : sleb a (a ++ b) = true.
Proof. induction a as [|c a IH]; cbn [app sleb]; [done|]. by rewrite Ascii.eqb_refl. Qed.
Lemma sleb_longer a c b : sleb (a ++ c :: b) a = false.
Proof. induction a as [|d a IH]; cbn [app sleb]; [done|]. by rewrite Ascii.eqb_refl. Qed.
Lemma sort_strings_perm l : sort_strings l ≡ₚ l.
Proof. apply sort_by_perm. Qed.
Lemma sort_strings_sorted l : StronglySorted (fun a b => sleb a b = true) (sort_strings l).
Proof. apply sort_by_sorted; [apply sleb_total | apply sleb_trans]. Qed.
Lemma sort_strings_elem x l : x ∈ sort_strings l <-> x ∈ l.
Proof. by rewrite sort_strings_perm. Qed.
