(* ===== verification/GoPath.v ===== *)
(** Lexical path operations of [path] and [path/filepath] on Unix: [Clean],
    [Join], [IsAbs], [Rel], [Base] and [Dir], with the lemmas on the component
    list a cleaned path denotes. *)
From S2P Require Import GoStrings.

Definition slash : ascii := "/"%char.
Definition dotdot : gostring := $"..".
Definition is_abs (p : gostring) : bool := has_prefix p $"/".

(** One component against the stack of components kept so far (innermost
    first): empty and "." vanish, ".." removes the last kept component, or is
    kept when there is none to remove and the path is relative. *)
Definition clean_step (rooted : bool) (acc : list gostring) (c : gostring) : list gostring :=
  if is_empty c || seqb c $"." then acc
  else if seqb c dotdot then
    match acc with
    | [] => if rooted then [] else [dotdot]
    | top :: acc' => if seqb top dotdot then dotdot :: acc else acc'
    end
  else c :: acc.
Definition clean_stack (rooted : bool) (acc cs : list gostring) : list gostring :=
  fold_left (clean_step rooted) cs acc.
(** The components of the cleaned path. *)
Definition comps (p : gostring) : list gostring :=
  reverse (clean_stack (is_abs p) [] (split slash p)).
Definition render (rooted : bool) (cs : list gostring) : gostring :=
  if rooted then slash :: join $"/" cs
  else match cs with [] => $"." | _ => join $"/" cs end.
(** [path.Clean] *)
Definition clean (p : gostring) : gostring :=
  if is_empty p then $"." else render (is_abs p) (comps p).
(** [filepath.Join(a, b)] *)
Definition path_join (a b : gostring) : gostring :=
  if negb (is_empty a) then clean (a ++ slash :: b)
  else if negb (is_empty b) then clean b else [].

(** Drops the longest common prefix of two component lists. *)
Fixpoint strip_common (b t : list gostring) : list gostring * list gostring :=
  match b, t with
  | x :: b', y :: t' => if seqb x y then strip_common b' t' else (b, t)
  | _, _ => (b, t)
  end.
(** [filepath.Rel]; [None] is its error. *)
Definition path_rel (basepath targpath : gostring) : option gostring :=
  let base := clean basepath in
  let targ := clean targpath in
  if seqb targ base then Some $"."
  else if negb (Bool.eqb (is_abs basepath) (is_abs targpath)) then None
  else let tc := if is_abs targpath then comps targpath else split slash targ in
       let '(b, t) := strip_common (comps basepath) tc in
       match b with
       | [] => Some (join $"/" t)
       | x :: _ => if seqb x dotdot then None
                   else Some (join $"/" (map (fun _ => dotdot) b ++ t))
       end.

(** [filepath.Base] *)
Definition path_base (p : gostring) : gostring :=
  if is_empty p then $"." else
  match last (split slash (trim_right_bytes $"/" p)) with
  | Some w => if is_empty w then $"/" else w
  | None => $"/"
  end.
(** [filepath.Dir] *)
Definition path_dir (p : gostring) : gostring :=
  match last_index_byte slash p with
  | Some i => clean (take (S i) p)
  | None => clean []
  end.

Example clean_1 : clean $"/a/b/../c/./" = $"/a/c". Proof. reflexivity. Qed.
Example clean_2 : clean $"../x/.." = $"..". Proof. reflexivity. Qed.
Example clean_3 : clean $"/.." = $"/". Proof. reflexivity. Qed.
Example rel_1 : path_rel $"/a/b" $"/a/b/c/d" = Some $"c/d". Proof. reflexivity. Qed.
Example rel_2 : path_rel $"/a/b" $"/a/x" = Some $"../x". Proof. reflexivity. Qed.
Example rel_3 : path_rel $"/" $"/a" = Some $"a". Proof. reflexivity. Qed.
Example base_1 : path_base $"/usr/bin/git" = $"git". Proof. reflexivity. Qed.
Example dir_1 : path_dir $"a/b/c" = $"a/b". Proof. reflexivity. Qed.

(** A component that [Clean] keeps as a name. *)
Definition plain (c : gostring) : Prop :=
  c <> [] /\ c <> $"." /\ c <> dotdot /\ slash ∉ c.

Lemma split_app_any c a b : split c (a ++ c :: b) = split c a ++ split c b.
Proof.
  induction a as [|d a IH]; simpl.
  - by rewrite Ascii.eqb_refl.
  - destruct (Ascii.eqb c d); [by rewrite IH|].
    rewrite IH. destruct (split c a) as [|w ws] eqn:E; [by apply split_nonempty in E | done].
Qed.

Lemma clean_step_plain r acc c : plain c -> clean_step r acc c = c :: acc.
Proof.
  intros (H1 & H2 & H3 & _). unfold clean_step.
  destruct (is_empty c) eqn:E1; breflect; [done|].
  destruct (seqb_spec c $"."); [done|]. by destruct (seqb_spec c dotdot).
Qed.
Lemma clean_stack_plain r acc cs :
  Forall plain cs -> clean_stack r acc cs = reverse cs ++ acc.
Proof.
  unfold clean_stack. intros H; revert acc.
  induction H as [|c cs Hc Hcs IH]; intros acc; simpl; [done|].
  by rewrite IH, clean_step_plain, reverse_cons, <- app_assoc.
Qed.
Lemma clean_stack_app r acc a b :
  clean_stack r acc (a ++ b) = clean_stack r (clean_stack r acc a) b.
Proof. apply fold_left_app. Qed.

(** In a rooted path every kept component is a name. *)
Lemma clean_step_rooted_plain acc c :
  Forall plain acc -> slash ∉ c -> Forall plain (clean_step true acc c).
Proof.
  intros Hacc Hc. unfold clean_step.
  destruct (is_empty c) eqn:E1; breflect; [done|].
  destruct (seqb_spec c $"."); [done|]. simpl.
  destruct (seqb_spec c dotdot).
  - destruct acc as [|top acc]; [done|]. apply Forall_cons in Hacc as [Ht Hacc].
    destruct (seqb_spec top dotdot); [|done]. by destruct Ht as (_ & _ & ? & _).
  - constructor; [|done]. by split_and!.
Qed.
Lemma clean_stack_rooted_plain acc cs :
  Forall plain acc -> Forall (fun c => slash ∉ c) cs ->
  Forall plain (clean_stack true acc cs).
Proof.
  unfold clean_stack. intros Hacc H; revert acc Hacc.
  induction H as [|c cs Hc Hcs IH]; intros acc Hacc; simpl; [done|].
  by apply IH, clean_step_rooted_plain.
Qed.
Lemma split_slash_free p : Forall (fun c => slash ∉ c) (split slash p).
Proof. apply Forall_forall. intros c. apply split_parts_free. Qed.
Lemma comps_abs_plain p : is_abs p = true -> Forall plain (comps p).
Proof.
  intros Hp. unfold comps. rewrite Hp. apply Forall_reverse, clean_stack_rooted_plain;
    [done | apply split_slash_free].
Qed.

Lemma is_abs_true p : is_abs p = true <-> exists q, p = slash :: q.
Proof. apply has_prefix_true. Qed.

(** The components of the rendering of names are those names. *)
Lemma comps_render cs : Forall plain cs -> comps (render true cs) = cs.
Proof.
  intros H. unfold comps, render.
  change (is_abs (slash :: join $"/" cs)) with true.
  change (split slash (slash :: join $"/" cs)) with ([] :: split slash (join $"/" cs)).
  change (clean_stack true [] ([] :: split slash (join $"/" cs)))
    with (clean_stack true [] (split slash (join $"/" cs))).
  destruct cs as [|c cs]; [done|].
  change $"/" with [slash]. rewrite split_join; [|done|].
  - by rewrite clean_stack_plain, app_nil_r, reverse_involutive.
  - eapply Forall_impl; [exact H|]. by intros ? (_ & _ & _ & ?).
Qed.
Lemma render_inj cs ds :
  Forall plain cs -> Forall plain ds -> render true cs = render true ds -> cs = ds.
Proof. intros Hc Hd H. by rewrite <- (comps_render cs), H, comps_render. Qed.
Lemma clean_abs p : is_abs p = true -> clean p = render true (comps p).
Proof. intros H. unfold clean. rewrite H. by apply is_abs_true in H as [q ->]. Qed.
Lemma clean_abs_idem p : is_abs p = true -> clean (clean p) = clean p.
Proof.
  intros H. rewrite (clean_abs p H).
  rewrite clean_abs, comps_render by (done || by apply comps_abs_plain). done.
Qed.
Lemma comps_join root sub :
  is_abs root = true ->
  comps (path_join root sub)
  = reverse (clean_stack true (reverse (comps root)) (split slash sub)).
Proof.
  intros H. unfold path_join.
  pose proof H as [q ->]%is_abs_true. cbn [is_empty negb].
  rewrite clean_abs by done. rewrite comps_render by (by apply comps_abs_plain).
  unfold comps. change (is_abs ((slash :: q) ++ slash :: sub)) with true.
  rewrite H, split_app_any, clean_stack_app, reverse_involutive. done.
Qed.
Lemma path_join_abs root sub :
  is_abs root = true ->
  is_abs (path_join root sub) = true /\
  path_join root sub = render true (comps (path_join root sub)).
Proof.
  intros H. pose proof H as [q ->]%is_abs_true. unfold path_join. cbn [is_empty negb].
  rewrite clean_abs by done. split; [done|].
  by rewrite comps_render by (by apply comps_abs_plain).
Qed.

Lemma strip_common_spec b t b' t' :
  strip_common b t = (b', t') ->
  exists k, b = k ++ b' /\ t = k ++ t' /\
            (b' = [] \/ t' = [] \/ exists x y bs ts, b' = x :: bs /\ t' = y :: ts /\ x <> y).
Proof.
  revert t; induction b as [|x b IH]; intros [|y t]; simpl.
  - intros [= <- <-]. exists []. auto.
  - intros [= <- <-]. exists []. auto.
  - intros [= <- <-]. exists []. auto.
  - destruct (seqb_spec x y) as [->|Hxy].
    + intros (k & -> & -> & Hk)%IH. exists (y :: k). auto.
    + intros [= <- <-]. exists []. split_and!; [done..|]. right; right. eauto 10.
Qed.
Lemma strip_common_prefix b t : strip_common b (b ++ t) = ([], t).
Proof. induction b as [|x b IH]; simpl; [by destruct t | by rewrite seqb_refl]. Qed.

(** A cleaned relative path is some ".." components followed by names. *)
Definition rel_shape (acc : list gostring) : Prop :=
  exists k ps, acc = ps ++ replicate k dotdot /\ Forall plain ps.
Lemma clean_step_rel_shape acc c : rel_shape acc -> slash ∉ c -> rel_shape (clean_step false acc c).
Proof.
  intros (k & ps & -> & Hps) Hc. unfold clean_step.
  destruct (is_empty c) eqn:E1; breflect; [by exists k, ps|].
  destruct (seqb_spec c $"."); [by exists k, ps|]. cbn [orb].
  destruct (seqb_spec c dotdot) as [->|].
  - destruct ps as [|p ps]; cbn [app].
    + destruct k as [|k]; cbn [replicate]; [by exists 1, [] | by exists (S (S k)), []].
    + apply Forall_cons in Hps as [(? & ? & Hp & ?) Hps].
      destruct (seqb_spec p dotdot); [done|]. by exists k, ps.
  - exists k, (c :: ps). split; [done|]. constructor; [|done]. by split_and!.
Qed.
Lemma comps_rel_shape p : is_abs p = false ->
  exists k ps, comps p = replicate k dotdot ++ ps /\ Forall plain ps.
Proof.
  intros H. unfold comps. rewrite H.
  assert (Hs : rel_shape (clean_stack false [] (split slash p))).
  { unfold clean_stack. pose proof (split_slash_free p) as Hf.
    assert (Ha : rel_shape []) by (by exists 0, []). revert Ha. generalize (@nil gostring) as acc.
    induction Hf as [|c cs Hc Hcs IH]; intros acc Ha; [done|]. cbn [fold_left].
    apply IH. by apply clean_step_rel_shape. }
  destruct Hs as (k & ps & -> & Hps). exists k, (reverse ps). split; [|by apply Forall_reverse].
  rewrite reverse_app. f_equal. clear. induction k as [|k IH]; [done|].
  cbn [replicate]. rewrite reverse_cons, IH. clear. induction k; cbn; by f_equal.
Qed.
(** A cleaned relative path that does not start with ".." names a place
    below the directory it is joined to. *)
Lemma clean_rel_inside p :
  is_abs p = false -> clean p <> dotdot -> has_prefix (clean p) $"../" = false ->
  Forall plain (comps p) /\ (p <> [] -> clean p = render false (comps p)).
Proof.
  intros Ha Hd Hp. destruct (comps_rel_shape p Ha) as (k & ps & Hc & Hps).
  assert (Hclean : p <> [] -> clean p = render false (comps p)).
  { intros Hne. unfold clean. rewrite Ha. by destruct p. }
  split; [|done]. destruct k as [|k]; [by rewrite Hc|]. exfalso.
  assert (Hne : p <> []) by (intros ->; discriminate).
  rewrite Hclean, Hc in Hd, Hp by done. cbn [replicate app render] in Hd, Hp.
  destruct (replicate k dotdot ++ ps) as [|c cs]; [done|]. discriminate.
Qed.
Lemma comps_join_inside root p :
  is_abs root = true -> Forall plain (comps p) -> is_abs p = false ->
  comps (path_join root (clean p)) = comps root ++ comps p.
Proof.
  intros Hr Hp Ha. rewrite comps_join by done.
  assert (H : split slash (clean p) = match comps p with [] => [$"."] | cs => cs end).
  { destruct p as [|x p']; [done|]. unfold clean. rewrite Ha. cbn [is_empty]. unfold render.
    destruct (comps (x :: p')) as [|c cs] eqn:Hc; [done|].
    change $"/" with [slash]. apply split_join; [done|].
    eapply Forall_impl; [exact Hp|]. by intros ? (_ & _ & _ & ?). }
  rewrite H. destruct (comps p) as [|c cs] eqn:Hc.
  - change (reverse (reverse (comps root)) = comps root ++ []).
    by rewrite reverse_involutive, app_nil_r.
  - rewrite clean_stack_plain by done. by rewrite reverse_app, !reverse_involutive.
Qed.

(** [Clean] is idempotent on every path. *)
Lemma join_slash_free_split cs :
  cs <> [] -> Forall (fun c => slash ∉ c) cs -> split slash (join $"/" cs) = cs.
Proof. intros. change $"/" with [slash]. by apply split_join. Qed.
Lemma clean_stack_dots k acc ps :
  Forall plain ps -> (acc = [] \/ exists j, acc = replicate (S j) dotdot) ->
  clean_stack false acc (replicate k dotdot ++ ps) = reverse ps ++ replicate k dotdot ++ acc.
Proof.
  revert acc; induction k as [|k IH]; intros acc Hps Hacc; cbn [replicate app].
  - by rewrite clean_stack_plain.
  - unfold clean_stack. cbn [fold_left]. fold (clean_stack false (clean_step false acc dotdot) (replicate k dotdot ++ ps)).
    assert (Hstep : clean_step false acc dotdot = dotdot :: acc).
    { destruct Hacc as [->|[j ->]]; reflexivity. }
    rewrite Hstep, IH; [|done|].
    + f_equal. change (dotdot :: replicate k dotdot ++ acc) with ((dotdot :: replicate k dotdot) ++ acc).
      change (dotdot :: acc) with ([dotdot] ++ acc). rewrite app_assoc. f_equal. clear.
      induction k as [|k IH]; [done|]. cbn [replicate app]. by rewrite IH.
    + right. destruct Hacc as [->|[j ->]]; [by exists 0 | by exists (S j)].
Qed.
Lemma reverse_replicate {A} k (x : A) : reverse (replicate k x) = replicate k x.
Proof.
  induction k as [|k IH]; [done|]. cbn [replicate]. rewrite reverse_cons, IH. clear.
  induction k; cbn; by f_equal.
Qed.
Lemma plain_slash_free k ps :
  Forall plain ps -> Forall (fun c => slash ∉ c) (replicate k dotdot ++ ps).
Proof.
  intros H. apply Forall_app. split.
  - apply Forall_replicate. intros Hin. repeat (apply elem_of_cons in Hin as [Hin|Hin]; [done|]).
    by apply not_elem_of_nil in Hin.
  - eapply Forall_impl; [exact H|]. by intros ? (_ & _ & _ & ?).
Qed.
Lemma rel_render_head k ps c cs :
  Forall plain ps -> replicate k dotdot ++ ps = c :: cs ->
  is_abs (join $"/" (c :: cs)) = false /\ join $"/" (c :: cs) <> [].
Proof.
  intros Hps Heq.
  assert (Hc : slash ∉ c /\ c <> []).
  { pose proof (plain_slash_free k ps Hps) as Hf. rewrite Heq in Hf. apply Forall_cons in Hf as [Hf _].
    split; [done|]. destruct k; [|by injection Heq as <- _].
    cbn in Heq. subst ps. apply Forall_cons in Hps as [(? & _) _]. done. }
  destruct Hc as [Hs Hne]. destruct c as [|x c]; [done|]. rewrite elem_of_cons in Hs.
  assert (Hx : Ascii.eqb slash x = false) by (apply Ascii.eqb_neq; naive_solver).
  destruct cs; cbn [join app]; (split; [|done]); unfold is_abs;
    cbn [has_prefix String.list_ascii_of_string]; fold slash; by rewrite Hx.
Qed.
Lemma clean_idem p : clean (clean p) = clean p.
Proof.
  destruct (is_abs p) eqn:Ha; [by apply clean_abs_idem|].
  destruct p as [|x p']; [done|]. set (p := x :: p') in *.
  destruct (comps_rel_shape p Ha) as (k & ps & Hc & Hps).
  assert (Hp : clean p = render false (replicate k dotdot ++ ps)).
  { unfold clean. rewrite Ha. cbn [is_empty p]. by rewrite Hc. }
  rewrite Hp. unfold render. destruct (replicate k dotdot ++ ps) as [|c cs] eqn:Heq; [done|].
  destruct (rel_render_head k ps c cs Hps Heq) as [Hna Hne].
  unfold clean. rewrite Hna. destruct (is_empty _) eqn:He; [breflect; done|].
  unfold render, comps. rewrite Hna, join_slash_free_split by
    (done || (rewrite <- Heq; by apply plain_slash_free)).
  rewrite <- Heq, clean_stack_dots by (done || by left).
  rewrite app_nil_r, reverse_app, reverse_involutive, reverse_replicate, Heq. done.
Qed.
(** Where a cleaned path that does not escape lands below a root. *)
Lemma comps_join_cleaned root r :
  is_abs root = true -> clean r = r -> r <> dotdot -> has_prefix r $"../" = false ->
  exists cs, Forall plain cs /\ r = render (is_abs r) cs /\
             comps (path_join root r) = comps root ++ cs.
Proof.
  intros Hroot Hr Hd Hp. destruct (is_abs r) eqn:Ha.
  - exists (comps r). pose proof (comps_abs_plain r Ha) as Hpl. split_and!; [done | by rewrite <- clean_abs|].
    rewrite comps_join by done. rewrite <- Hr at 1. rewrite clean_abs by done. unfold render.
    change (slash :: join $"/" (comps r)) with ([] ++ slash :: join $"/" (comps r)).
    rewrite split_app by apply not_elem_of_nil.
    unfold clean_stack. cbn [fold_left]. change (clean_step true ?a []) with a.
    fold (clean_stack true (reverse (comps root)) (split slash (join $"/" (comps r)))).
    destruct (comps r) as [|c cs]; [|].
    { change (split slash (join $"/" [])) with [@nil ascii]. change (clean_stack true ?a [[]]) with a.
      by rewrite reverse_involutive, app_nil_r. }
    rewrite join_slash_free_split; [|done | eapply Forall_impl; [exact Hpl|]; by intros ? (_ & _ & _ & ?)].
    by rewrite clean_stack_plain, reverse_app, !reverse_involutive.
  - rewrite <- Hr in Hd, Hp. destruct (clean_rel_inside r Ha Hd Hp) as [Hpl Hrender].
    exists (comps r). split_and!; [done | |].
    + rewrite <- Hr at 1. apply Hrender. intros ->. discriminate.
    + rewrite <- Hr at 1. by apply comps_join_inside.
Qed.
