(* ===== verification/GoNet.v ===== *)
(** The parts of Go's [net] package the program uses: textual IP addresses,
    CIDR prefixes, containment and the "host:port" splitting.  An address is
    its byte sequence, of length 4 or 16, exactly as [net.IP] stores it. *)
From S2P Require Import GoStrings.
Local Open Scope Z_scope.

Abbreviation ip := (list Z).

(** [net.ParseIP] keeps IPv4 addresses in their 16-byte form. *)
Definition v4_in_v6_prefix : list Z := [0;0;0;0;0;0;0;0;0;0;255;255].

Fixpoint zeqb (a b : list Z) : bool :=
  match a, b with
  | [], [] => true
  | x :: a', y :: b' => (x =? y) && zeqb a' b'
  | _, _ => false
  end.
Lemma zeqb_eq a b : zeqb a b = true <-> a = b.
Proof.
  revert b; induction a as [|x a IH]; intros [|y b]; simpl; try (split; congruence).
  rewrite andb_true_iff, Z.eqb_eq, IH. split; [by intros [-> ->] | by intros [= -> ->]].
Qed.

(** [IP.To4] *)
Definition to4 (a : ip) : option ip :=
  if (length a =? 4)%nat then Some a
  else if (length a =? 16)%nat && zeqb (take 12 a) v4_in_v6_prefix then Some (drop 12 a)
  else None.

(** One decimal field of an IPv4 address: no leading zero, at most 255. *)
Definition parse_octet (f : gostring) : option Z :=
  match f with
  | [] => None
  | c :: r =>
      if Ascii.eqb c "0" && negb (is_empty r) then None
      else if (3 <? Z.of_nat (length f)) then None
      else match parse_digits 0 f with
           | Some v => if v <=? 255 then Some v else None
           | None => None
           end
  end.
Definition parse_ipv4 (s : gostring) : option (list Z) :=
  match split "." s with
  | [a; b; c; d] =>
      a ← parse_octet a; b ← parse_octet b; c ← parse_octet c; d ← parse_octet d;
      Some [a; b; c; d]
  | _ => None
  end.

Definition hex_val (c : ascii) : option Z :=
  let n := byteZ c in
  if (48 <=? n) && (n <=? 57) then Some (n - 48)
  else if (97 <=? n) && (n <=? 102) then Some (n - 87)
  else if (65 <=? n) && (n <=? 70) then Some (n - 55)
  else None.
(** The longest run of hexadecimal digits: value, number of digits, rest. *)
Fixpoint hex_run (acc : Z) (n : nat) (s : gostring) : Z * nat * gostring :=
  match s with
  | c :: s' => match hex_val c with
               | Some v => hex_run (acc * 16 + v) (S n) s'
               | None => (acc, n, s)
               end
  | [] => (acc, n, [])
  end.

(** The loop of [netip.parseIPv6] over the 16-bit groups: [out] holds the
    bytes written so far and [ell] the position of "::".  Each round writes
    at least two bytes, so eight rounds are enough. *)
Fixpoint ipv6_groups (fuel : nat) (out : list Z) (ell : option nat) (s : gostring)
  : option (list Z * option nat * gostring) :=
  if (16 <=? length out)%nat then Some (out, ell, s) else
  match fuel with
  | O => None
  | S f =>
      let '(acc, n, rest) := hex_run 0 0 s in
      if (n =? 0)%nat || (4 <? n)%nat then None
      else match rest with
      | "."%char :: _ =>
          if match ell with None => negb (length out =? 12)%nat | Some _ => false end then None
          else if (16 <? length out + 4)%nat then None
          else q ← parse_ipv4 s; Some (out ++ q, ell, [])
      | _ =>
          let out' := out ++ [acc / 256; acc mod 256] in
          match rest with
          | [] => Some (out', ell, [])
          | ":"%char :: [] => None
          | ":"%char :: ":"%char :: rest' =>
              match ell with
              | Some _ => None
              | None => if is_empty rest' then Some (out', Some (length out'), [])
                        else ipv6_groups f out' (Some (length out')) rest'
              end
          | ":"%char :: rest' => ipv6_groups f out' ell rest'
          | _ => None
          end
      end
  end.
Definition ipv6_finish (r : list Z * option nat * gostring) : option (list Z) :=
  let '(out, ell, s) := r in
  if negb (is_empty s) then None
  else if (length out <? 16)%nat then
    match ell with
    | None => None
    | Some e => Some (take e out ++ replicate (16 - length out) 0 ++ drop e out)
    end
  else match ell with Some _ => None | None => Some out end.
Definition parse_ipv6 (s : gostring) : option (list Z) :=
  if contains_byte "%" s then None     (* zones are refused by [net.ParseIP] *)
  else match s with
  | ":"%char :: ":"%char :: rest =>
      if is_empty rest then Some (replicate 16 0)
      else r ← ipv6_groups 8 [] (Some 0%nat) rest; ipv6_finish r
  | _ => r ← ipv6_groups 8 [] None s; ipv6_finish r
  end.

(** [netip.ParseAddr] without zones: the first of '.', ':' and '%' decides. *)
Inductive addr := V4 (b : list Z) | V6 (b : list Z).
Definition parse_addr (s : gostring) : option addr :=
  match index_any $".:%" s with
  | Some i => match s !! i with
              | Some "."%char => V4 <$> parse_ipv4 s
              | Some ":"%char => V6 <$> parse_ipv6 s
              | _ => None
              end
  | None => None
  end.
Definition as16 (a : addr) : list Z :=
  match a with V4 b => v4_in_v6_prefix ++ b | V6 b => b end.
Definition bit_len (a : addr) : Z := match a with V4 _ => 32 | V6 _ => 128 end.
(** [net.ParseIP]; [None] is nil. *)
Definition parse_ip (s : gostring) : option ip := as16 <$> parse_addr s.

(** [net.IPNet]: the mask is kept as its number of leading ones, in [mbytes]
    bytes ([net.CIDRMask(ones, 8*mbytes)]); [Mask.Size] gives back [ones]. *)
Record ipnet := IPNet { nip : ip; ones : Z; mbytes : nat }.
Definition mask_byte (n : Z) (i : nat) : Z :=
  let k := Z.min 8 (Z.max 0 (n - 8 * Z.of_nat i)) in 256 - 2 ^ (8 - k).
Definition cidr_mask (n : Z) (len : nat) : list Z := map (mask_byte n) (seq 0 len).
Definition and_mask (a m : list Z) : list Z := zip_with Z.land a m.
(** [IP.Mask] of a 16-byte address by a 4- or 16-byte CIDR mask. *)
Definition ip_mask (a : list Z) (n : Z) (mb : nat) : list Z :=
  let a' := if (mb =? 4)%nat && zeqb (take 12 a) v4_in_v6_prefix then drop 12 a else a in
  and_mask a' (cidr_mask n mb).
(** [net.ParseCIDR], the network part; [None] is its error. *)
Definition parse_cidr (s : gostring) : option ipnet :=
  '(a, m) ← cut "/" s;
  ad ← parse_addr a;
  n ← (if is_empty m then None else parse_digits 0 m);
  if n <=? bit_len ad then
    let mb := Z.to_nat (bit_len ad / 8) in
    Some (IPNet (ip_mask (as16 ad) n mb) n mb)
  else None.

(** [IPNet.Contains] *)
Definition net_contains (n : ipnet) (a : ip) : bool :=
  let x := default a (to4 a) in
  let nn := default (nip n) (to4 (nip n)) in
  let m := cidr_mask (ones n) (mbytes n) in
  let m' := if (mbytes n =? 16)%nat && (length nn =? 4)%nat then drop 12 m else m in
  if negb (length m' =? length nn)%nat || negb (length x =? length nn)%nat then false
  else zeqb (and_mask nn m') (and_mask x m').

(** [net.SplitHostPort]; [None] is its error. *)
Definition split_host_port (hp : gostring) : option (gostring * gostring) :=
  match last_index_byte ":" hp with
  | None => None
  | Some i =>
      let port := drop (S i) hp in
      let finish (host : gostring) (j k : nat) :=
        if contains_byte "[" (drop j hp) || contains_byte "]" (drop k hp) then None
        else Some (host, port) in
      match hp with
      | "["%char :: _ =>
          match index_byte "]" hp with
          | None => None
          | Some e => if (S e =? i)%nat then finish (take (e - 1) (drop 1 hp)) 1%nat (S e)
                      else None
          end
      | _ => let host := take i hp in
             if contains_byte ":" host then None else finish host 0%nat 0%nat
      end
  end.
(** [net.JoinHostPort] *)
Definition join_host_port (host port : gostring) : gostring :=
  if contains_byte ":" host || contains_byte "%" host
  then "["%char :: host ++ $"]:" ++ port
  else host ++ ":"%char :: port.

(** [URL.Hostname] and [URL.Port] of a URL's authority: what follows the last
    colon is a port only if it is digits. *)
Definition url_split (hp : gostring) : gostring * gostring :=
  let '(host, port) :=
    match last_index_byte ":" hp with
    | Some i => if forallb is_digit (drop (S i) hp) then (take i hp, drop (S i) hp) else (hp, [])
    | None => (hp, [])
    end in
  (if has_prefix host $"[" && has_suffix host $"]" then take (length host - 2) (drop 1 host) else host, port).

(** [IP.String] of an IPv4 address. *)
Definition v4_string (b : list Z) : gostring := join $"." (map itoa b).
Definition hex_char (n : Z) : ascii := Zbyte (if n <? 10 then 48 + n else 87 + n).
Fixpoint hex_fuel (fuel : nat) (n : Z) (acc : gostring) : gostring :=
  match fuel with
  | O => acc
  | S f => let acc' := hex_char (n mod 16) :: acc in
           if n <? 16 then acc' else hex_fuel f (n / 16) acc'
  end.
Fixpoint groups_of (b : list Z) : list Z :=
  match b with
  | h :: l :: r => (h * 256 + l) :: groups_of r
  | _ => []
  end.
(** Length of the run of zero groups at the front. *)
Fixpoint zero_run (g : list Z) : nat :=
  match g with 0 :: g' => S (zero_run g') | _ => 0%nat end.
(** The first longest run of at least two zero groups: start and end. *)
Fixpoint longest_zeros (i : nat) (g : list Z) (best : nat * nat) : nat * nat :=
  match g with
  | [] => best
  | _ :: g' =>
      let l := zero_run g in
      let best' := if (1 <? l)%nat && (snd best - fst best <? l)%nat then (i, (i + l)%nat) else best in
      longest_zeros (S i) g' best'
  end.
Definition v6_string (b : list Z) : gostring :=
  let g := groups_of b in
  let '(z0, z1) := longest_zeros 0 g (255%nat, 255%nat) in
  let hex := fun n => hex_fuel 4 n [] in
  if (z0 <? 255)%nat then
    join $":" (map hex (take z0 g)) ++ $"::" ++ join $":" (map hex (drop z1 g))
  else join $":" (map hex g).
(** [net.IP.String] of a 4- or 16-byte address. *)
Definition ip_string (a : ip) : gostring :=
  match to4 a with Some b => v4_string b | None => v6_string a end.

Definition is_some {A} (o : option A) : bool := match o with Some _ => true | None => false end.

Example ip_1 : parse_ip $"10.1.2.3" = Some (v4_in_v6_prefix ++ [10;1;2;3]).
Proof. reflexivity. Qed.
Example ip_2 : parse_ip $"::1" = Some (replicate 15 0 ++ [1]).
Proof. reflexivity. Qed.
Example ip_3 : parse_ip $"2001:db8::8:800:200c:417a"
  = Some [32;1;13;184;0;0;0;0;0;8;8;0;32;12;65;122].
Proof. reflexivity. Qed.
Example ip_4 : parse_ip $"::ffff:1.2.3.4" = Some (v4_in_v6_prefix ++ [1;2;3;4]).
Proof. reflexivity. Qed.
Example ip_5 : (parse_ip $"1.2.3", parse_ip $"01.2.3.4", parse_ip $"fe80::1%eth0", parse_ip $"1::2::3")
  = (None, None, None, None).
Proof. reflexivity. Qed.
Example cidr_1 : parse_cidr $"10.1.2.0/24" = Some (IPNet [10;1;2;0] 24 4).
Proof. reflexivity. Qed.
Example cidr_2 : (n ← parse_cidr $"10.1.0.0/16"; a ← parse_ip $"10.1.200.7"; Some (net_contains n a))
  = Some true.
Proof. reflexivity. Qed.
Example hp_1 : split_host_port $"[::1]:80" = Some ($"::1", $"80"). Proof. reflexivity. Qed.
Example hp_2 : split_host_port $"a.b:443" = Some ($"a.b", $"443"). Proof. reflexivity. Qed.
Example hp_3 : (split_host_port $"a.b", split_host_port $"::1:80") = (None, None).
Proof. reflexivity. Qed.
Example url_1 : map url_split [$"a.b:443"; $"[::1]:80"; $"[::1]"; $"a.b:"; $"a.b:x"; $"::1:80"] =
  [($"a.b", $"443"); ($"::1", $"80"); ($"::1", []); ($"a.b", []); ($"a.b:x", []); ($"::1", $"80")].
Proof. reflexivity. Qed.
Example str_1 : ip_string (v4_in_v6_prefix ++ [10;1;2;3]) = $"10.1.2.3". Proof. reflexivity. Qed.
Example str_2 : ip_string [32;1;13;184;0;0;0;0;0;8;8;0;32;12;65;122] = $"2001:db8::8:800:200c:417a".
Proof. reflexivity. Qed.
Example str_3 : ip_string (replicate 15 0 ++ [1]) = $"::1". Proof. reflexivity. Qed.

(** Joining and splitting a host without brackets or colons. *)
Lemma split_join_host_port h p :
  ":"%char ∉ h -> "%"%char ∉ h -> "["%char ∉ h -> "]"%char ∉ h ->
  ":"%char ∉ p -> "["%char ∉ p -> "]"%char ∉ p ->
  split_host_port (join_host_port h p) = Some (h, p).
Proof.
  intros Hc Hz Hl Hr Pc Pl Pr. unfold join_host_port.
  rewrite (proj2 (contains_byte_false _ _) Hc), (proj2 (contains_byte_false _ _) Hz). simpl.
  unfold split_host_port. rewrite last_index_byte_app by done.
  assert (Hdrop : drop (S (length h)) (h ++ ":"%char :: p) = p).
  { change (":"%char :: p) with ([":"%char] ++ p). rewrite app_assoc.
    replace (S (length h)) with (length (h ++ [":"%char])) by (rewrite length_app; simpl; lia).
    apply drop_app_length. }
  assert (Hfree : forall c, c ∉ h -> c ∉ p -> c <> ":"%char ->
                            contains_byte c (h ++ ":"%char :: p) = false).
  { intros c H1 H2 H3. apply contains_byte_false. rewrite elem_of_app, elem_of_cons. naive_solver. }
  rewrite Hdrop, take_app_length.
  destruct h as [|c h].
  - simpl. rewrite (proj2 (contains_byte_false _ _) Pl), (proj2 (contains_byte_false _ _) Pr). done.
  - rewrite elem_of_cons in Hl.
    assert (Hcl : c <> "["%char) by naive_solver.
    change (drop 0 ?l) with l.
    rewrite (proj2 (contains_byte_false _ _) Hc).
    rewrite !Hfree by (done || rewrite elem_of_cons; naive_solver).
    by destruct c as [[] [] [] [] [] [] [] []].
Qed.
