(* ===== verification/GoBase64.v ===== *)
(** [base64.StdEncoding]: encoding with padding, and the decoding that skips
    line breaks and refuses everything else that is not in the alphabet. *)
From S2P Require Import GoStrings.
Local Open Scope go_scope.
Local Open Scope Z_scope.

Definition b64_alphabet : gostring :=
  $"ABCDEFGHIJKLMNOPQRSTUVWXYZabcdefghijklmnopqrstuvwxyz0123456789+/".
Definition b64_char (v : Z) : ascii := default "A"%char (b64_alphabet !! Z.to_nat v).
Definition b64_val (c : ascii) : option Z := Z.of_nat <$> index_byte c b64_alphabet.
Definition b64_pad : ascii := "="%char.

Fixpoint b64_encode (s : gostring) : gostring :=
  match s with
  | [] => []
  | [a] => let n := byteZ a * 65536 in
           [b64_char (n / 262144); b64_char (n / 4096 mod 64); b64_pad; b64_pad]
  | [a; b] => let n := byteZ a * 65536 + byteZ b * 256 in
              [b64_char (n / 262144); b64_char (n / 4096 mod 64); b64_char (n / 64 mod 64); b64_pad]
  | a :: b :: c :: r =>
      let n := byteZ a * 65536 + byteZ b * 256 + byteZ c in
      b64_char (n / 262144) :: b64_char (n / 4096 mod 64) :: b64_char (n / 64 mod 64)
        :: b64_char (n mod 64) :: b64_encode r
  end.
(** Quantum by quantum; padding ends the text. *)
Fixpoint b64_quanta (s : gostring) : option gostring :=
  match s with
  | [] => Some []
  | a :: b :: c :: d :: r =>
      va ← b64_val a; vb ← b64_val b;
      if Ascii.eqb c b64_pad then
        if Ascii.eqb d b64_pad && is_empty r
        then Some [Zbyte ((va * 262144 + vb * 4096) / 65536)] else None
      else
        vc ← b64_val c;
        let n := va * 262144 + vb * 4096 + vc * 64 in
        if Ascii.eqb d b64_pad then
          if is_empty r then Some [Zbyte (n / 65536); Zbyte (n / 256)] else None
        else
          vd ← b64_val d;
          let n := n + vd in
          rest ← b64_quanta r;
          Some (Zbyte (n / 65536) :: Zbyte (n / 256) :: Zbyte n :: rest)
  | _ => None
  end.
Definition b64_decode (s : gostring) : option gostring :=
  b64_quanta (List.filter (fun c => negb (Ascii.eqb c "010" || Ascii.eqb c "013")) s).

Definition b64_good (v : Z) : bool :=
  match b64_val (b64_char v) with Some w => w =? v | None => false end
  && negb (Ascii.eqb (b64_char v) b64_pad)
  && negb (Ascii.eqb (b64_char v) "010" || Ascii.eqb (b64_char v) "013").
Lemma b64_char_good v : 0 <= v < 64 ->
  b64_val (b64_char v) = Some v /\ Ascii.eqb (b64_char v) b64_pad = false /\
  Ascii.eqb (b64_char v) "010" || Ascii.eqb (b64_char v) "013" = false.
Proof.
  intros Hv. assert (H : forallb (fun i => b64_good (Z.of_nat i)) (seq 0 64) = true) by (vm_compute; reflexivity).
  rewrite forallb_forall in H. specialize (H (Z.to_nat v)). rewrite Z2Nat.id in H by lia.
  assert (Hg : b64_good v = true) by (apply H, in_seq; lia). unfold b64_good in Hg.
  apply andb_true_iff in Hg as [Hg H3]. apply andb_true_iff in Hg as [H1 H2].
  apply negb_true_iff in H2, H3. destruct (b64_val (b64_char v)); [|discriminate].
  apply Z.eqb_eq in H1 as ->. auto.
Qed.
Lemma b64_filter s :
  List.filter (fun c => negb (Ascii.eqb c "010" || Ascii.eqb c "013")) (b64_encode s) = b64_encode s.
Proof.
  remember (length s) as n eqn:Hn. assert (Hle : (length s <= n)%nat) by lia. clear Hn.
  revert s Hle; induction n as [|n IH]; intros s Hle; [by destruct s; [|cbn in Hle; lia]|].
  pose proof byteZ_bound as B.
  assert (Hkeep : forall v r, 0 <= v < 64 -> forall f : ascii -> bool,
    f = (fun c => negb (Ascii.eqb c "010" || Ascii.eqb c "013")) ->
    List.filter f (b64_char v :: r) = b64_char v :: List.filter f r).
  { intros v r Hv f ->. cbn [List.filter]. destruct (b64_char_good v Hv) as (_ & _ & ->). done. }
  assert (Hm : forall x, 0 <= x mod 64 < 64) by (intros; apply Z.mod_pos_bound; lia).
  destruct s as [|a [|b [|c r]]]; cbn [b64_encode]; [done| | |].
  - pose proof (B a). rewrite !Hkeep by (done || apply Hm || (split; [apply Z.div_pos | apply Z.div_lt_upper_bound]; lia)). done.
  - pose proof (B a). pose proof (B b).
    rewrite !Hkeep by (done || apply Hm || (split; [apply Z.div_pos | apply Z.div_lt_upper_bound]; lia)). done.
  - pose proof (B a). pose proof (B b). pose proof (B c).
    rewrite !Hkeep by (done || apply Hm || (split; [apply Z.div_pos | apply Z.div_lt_upper_bound]; lia)).
    rewrite IH; [done | cbn in Hle; lia].
Qed.
Lemma Zbyte_eq n c : n mod 256 = byteZ c -> Zbyte n = c.
Proof. intros H. apply byteZ_inj. by rewrite byteZ_Zbyte. Qed.
(** The four sextets of a 24-bit number. *)
Lemma b64_sextets m : 0 <= m < 16777216 ->
  0 <= m / 262144 < 64 /\ 0 <= m / 4096 mod 64 < 64 /\ 0 <= m / 64 mod 64 < 64 /\ 0 <= m mod 64 < 64 /\
  m = m / 262144 * 262144 + m / 4096 mod 64 * 4096 + m / 64 mod 64 * 64 + m mod 64.
Proof.
  intros Hm. split; [split; [apply Z.div_pos | apply Z.div_lt_upper_bound]; lia|].
  do 3 (split; [apply Z.mod_pos_bound; lia|]).
  replace (m / 262144) with (m / 64 / 64 / 64) by (rewrite !Z.div_div by lia; f_equal; lia).
  replace (m / 4096) with (m / 64 / 64) by (rewrite !Z.div_div by lia; f_equal; lia).
  pose proof (Z_div_mod_eq_full m 64). pose proof (Z_div_mod_eq_full (m / 64) 64).
  pose proof (Z_div_mod_eq_full (m / 64 / 64) 64). lia.
Qed.
Lemma byte_at l h : 0 <= l < 65536 -> 0 <= h < 256 -> (l + h * 65536) / 65536 mod 256 = h.
Proof.
  intros. rewrite Z.div_add by lia. rewrite (Z.div_small l) by lia. rewrite Z.add_0_l. apply Z.mod_small. lia.
Qed.
(** Decoding gives back what was encoded. *)
Lemma b64_roundtrip s : b64_decode (b64_encode s) = Some s.
Proof.
  unfold b64_decode. rewrite b64_filter.
  remember (length s) as n eqn:Hn. assert (Hle : (length s <= n)%nat) by lia. clear Hn.
  revert s Hle; induction n as [|n IH]; intros s Hle; [by destruct s; [|cbn in Hle; lia]|].
  pose proof byteZ_bound as B.
  assert (Hm : forall x, 0 <= x mod 64 < 64) by (intros; apply Z.mod_pos_bound; lia).
  destruct s as [|a [|b [|c r]]]; cbn [b64_encode]; [done| | |].
  - pose proof (B a) as Ba. set (m := byteZ a * 65536).
    destruct (b64_sextets m) as (H1 & H2 & H3 & H4 & Hsum); [unfold m; lia|].
    assert (Hz : m / 64 mod 64 = 0 /\ m mod 64 = 0).
    { unfold m. replace (byteZ a * 65536) with (byteZ a * 1024 * 64) by lia.
      rewrite Z.div_mul, Z_mod_mult by lia. replace (byteZ a * 1024) with (byteZ a * 16 * 64) by lia.
      by rewrite Z_mod_mult. }
    cbn [b64_quanta]. rewrite (proj1 (b64_char_good _ H1)), (proj1 (b64_char_good _ H2)).
    cbn [mbind option_bind]. change (Ascii.eqb b64_pad b64_pad) with true. cbn [andb is_empty].
    do 2 f_equal. apply Zbyte_eq.
    replace (m / 262144 * 262144 + m / 4096 mod 64 * 4096) with m by lia.
    unfold m. rewrite Z.div_mul by lia. apply Z.mod_small. lia.
  - pose proof (B a) as Ba. pose proof (B b) as Bb. set (m := byteZ a * 65536 + byteZ b * 256).
    destruct (b64_sextets m) as (H1 & H2 & H3 & H4 & Hsum); [unfold m; lia|].
    assert (Hz : m mod 64 = 0).
    { unfold m. replace (byteZ a * 65536 + byteZ b * 256) with ((byteZ a * 1024 + byteZ b * 4) * 64) by lia.
      by rewrite Z_mod_mult. }
    cbn [b64_quanta]. rewrite (proj1 (b64_char_good _ H1)), (proj1 (b64_char_good _ H2)),
      (proj1 (b64_char_good _ H3)), (proj1 (proj2 (b64_char_good _ H3))).
    cbn [mbind option_bind]. change (Ascii.eqb b64_pad b64_pad) with true. cbn [is_empty].
    replace (m / 262144 * 262144 + m / 4096 mod 64 * 4096 + m / 64 mod 64 * 64) with m by lia.
    f_equal. repeat (apply f_equal2; [apply Zbyte_eq|]); [| |done].
    + replace m with (byteZ b * 256 + byteZ a * 65536) by (unfold m; lia). apply byte_at; lia.
    + unfold m. replace (byteZ a * 65536 + byteZ b * 256) with ((byteZ a * 256 + byteZ b) * 256) by lia.
      rewrite Z.div_mul by lia. rewrite Z.add_comm, Z_mod_plus_full. apply Z.mod_small. lia.
  - pose proof (B a) as Ba. pose proof (B b) as Bb. pose proof (B c) as Bc.
    set (m := byteZ a * 65536 + byteZ b * 256 + byteZ c).
    destruct (b64_sextets m) as (H1 & H2 & H3 & H4 & Hsum); [unfold m; lia|].
    cbn [b64_quanta]. rewrite (proj1 (b64_char_good _ H1)), (proj1 (b64_char_good _ H2)),
      (proj1 (b64_char_good _ H3)), (proj1 (proj2 (b64_char_good _ H3))),
      (proj1 (b64_char_good _ H4)), (proj1 (proj2 (b64_char_good _ H4))).
    cbn [mbind option_bind]. rewrite <- Hsum, IH by (cbn in Hle; lia). cbn [mbind option_bind].
    f_equal. repeat (apply f_equal2; [apply Zbyte_eq|]); [| | |done].
    + replace m with (byteZ b * 256 + byteZ c + byteZ a * 65536) by (unfold m; lia). apply byte_at; lia.
    + unfold m. replace (byteZ a * 65536 + byteZ b * 256 + byteZ c)
        with (byteZ c + (byteZ a * 256 + byteZ b) * 256) by lia.
      rewrite Z.div_add by lia. rewrite (Z.div_small (byteZ c)) by lia.
      rewrite Z.add_0_l, Z.add_comm, Z_mod_plus_full. apply Z.mod_small. lia.
    + unfold m. replace (byteZ a * 65536 + byteZ b * 256 + byteZ c)
        with (byteZ c + (byteZ a * 256 + byteZ b) * 256) by lia.
      rewrite Z_mod_plus_full. apply Z.mod_small. lia.
Qed.
