(* ===== verification/GoTime.v ===== *)
(** [time.ParseDuration] of the Go standard library: a signed sequence of
    decimal numbers with units, in 64-bit nanoseconds, with the overflow checks
    of the original and its use of 64-bit floating point for fractions. *)
From Stdlib Require Import SpecFloat.
From S2P Require Import GoStrings.
Local Open Scope go_scope.
Local Open Scope Z_scope.

Definition two63 : Z := 2 ^ 63.
Definition u64 (x : Z) : Z := x mod 2 ^ 64.
(** [float64(n)], and [uint64(x)] of a number that is not negative. *)
Definition float64 (n : Z) : spec_float := binary_normalize 53 1024 n 0 false.
Definition float_mul : spec_float -> spec_float -> spec_float := SFmul 53 1024.
Definition float_div : spec_float -> spec_float -> spec_float := SFdiv 53 1024.
Definition truncate (x : spec_float) : Z :=
  match x with S754_finite false m e => u64 (Z.shiftl (Z.pos m) e) | _ => 0 end.

Inductive duration_err := InvalidDuration | MissingUnit | UnknownUnit (u : gostring).

(** [leadingInt]; [None] is its overflow. *)
Fixpoint leading_int (x : Z) (s : gostring) : option (Z * gostring) :=
  match s with
  | c :: s' =>
      if is_digit c then
        if two63 / 10 <? x then None
        else let x := u64 (x * 10 + digit_val c) in
             if two63 <? x then None else leading_int x s'
      else Some (x, s)
  | [] => Some (x, [])
  end.
(** [leadingFraction]: digits that do not fit any more are skipped. *)
Fixpoint leading_fraction (x : Z) (scale : spec_float) (overflow : bool) (s : gostring) : Z * spec_float * gostring :=
  match s with
  | c :: s' =>
      if is_digit c then
        if overflow then leading_fraction x scale true s'
        else if (two63 - 1) / 10 <? x then leading_fraction x scale true s'
        else let y := u64 (x * 10 + digit_val c) in
             if two63 <? y then leading_fraction x scale true s'
             else leading_fraction y (float_mul scale (float64 10)) false s'
      else (x, scale, s)
  | [] => (x, scale, [])
  end.
(** [unitMap]; the second and third are the two spellings of the micro sign. *)
Definition units : list (gostring * Z) :=
  [($"ns", 1); (["194"; "181"; "s"]%char, 1000); (["206"; "188"; "s"]%char, 1000); ($"us", 1000); ($"ms", 1000000);
   ($"s", 1000000000); ($"m", 60000000000); ($"h", 3600000000000)].
Definition unit_of (u : gostring) : option Z := snd <$> List.find (fun kv => seqb (fst kv) u) units.
Definition number_byte (c : ascii) : bool := Ascii.eqb c "." || is_digit c.
Fixpoint until_number (s : gostring) : gostring * gostring :=
  match s with
  | c :: s' => if number_byte c then ([], s) else let '(u, r) := until_number s' in (c :: u, r)
  | [] => ([], [])
  end.
(** The digits after a point, if there is one, and whether there are any. *)
Definition fraction (s : gostring) : Z * spec_float * gostring * bool :=
  match s with
  | c :: s' => if Ascii.eqb c "." then
                 let '(f, scale, r) := leading_fraction 0 (float64 1) false s' in
                 (f, scale, r, negb (length r =? length s')%nat)
               else (0, float64 1, s, false)
  | [] => (0, float64 1, s, false)
  end.
(** One number and its unit, the body of the loop. *)
Definition component (s : gostring) : result duration_err (Z * gostring) :=
  match s with
  | [] => Err InvalidDuration
  | c :: _ =>
      if negb (number_byte c) then Err InvalidDuration
      else match leading_int 0 s with
           | None => Err InvalidDuration
           | Some (v, s1) =>
               let pre := negb (length s1 =? length s)%nat in
               let '(f, scale, s2, post) := fraction s1 in
               if negb pre && negb post then Err InvalidDuration
               else let '(u, s3) := until_number s2 in
                    if is_empty u then Err MissingUnit
                    else match unit_of u with
                         | None => Err (UnknownUnit u)
                         | Some unit =>
                             if two63 / unit <? v then Err InvalidDuration
                             else let v := u64 (v * unit) in
                                  if 0 <? f then
                                    let v := u64 (v + truncate (float_mul (float64 f) (float_div (float64 unit) scale))) in
                                    if two63 <? v then Err InvalidDuration else Ok (v, s3)
                                  else Ok (v, s3)
                         end
           end
  end.
(** The loop; the length of the text is enough fuel ([components_fuel]). *)
Fixpoint components (fuel : nat) (d : Z) (s : gostring) : result duration_err Z :=
  match s with
  | [] => Ok d
  | _ => match fuel with
         | O => Err InvalidDuration
         | S n => '(v, s') ← component s;
                  let d := u64 (d + v) in
                  if two63 <? d then Err InvalidDuration else components n d s'
         end
  end.
Definition parse_duration (s : gostring) : result duration_err Z :=
  let '(neg, s) := match s with
                   | c :: s' => if Ascii.eqb c "-" || Ascii.eqb c "+" then (Ascii.eqb c "-", s') else (false, s)
                   | [] => (false, [])
                   end in
  if seqb s $"0" then Ok 0
  else if is_empty s then Err InvalidDuration
  else d ← components (length s) 0 s;
       if neg then Ok (- d) else if two63 - 1 <? d then Err InvalidDuration else Ok d.

(** * The loop ends *)
Lemma leading_int_length x s v r : leading_int x s = Some (v, r) -> (length r <= length s)%nat.
Proof.
  revert x. induction s as [|c s IH]; intros x; cbn [leading_int]; [by intros [= _ <-]|].
  destruct (is_digit c); [|by intros [= _ <-]]. cbv zeta. destruct (_ <? x); [done|]. destruct (two63 <? _); [done|].
  intros H%IH. cbn. lia.
Qed.
Lemma leading_fraction_length x k o s f k' r : leading_fraction x k o s = (f, k', r) -> (length r <= length s)%nat.
Proof.
  revert x k o. induction s as [|c s IH]; intros x k o; cbn [leading_fraction]; [by intros [= _ _ <-]|].
  destruct (is_digit c); [|by intros [= _ _ <-]]. cbv zeta.
  repeat (destruct o || destruct (_ <? _)); intros H%IH; cbn; lia.
Qed.
Lemma fraction_length s f k r post : fraction s = (f, k, r, post) -> (length r <= length s)%nat.
Proof.
  unfold fraction. destruct s as [|c s]; [by intros [= _ _ <- _]|]. destruct (Ascii.eqb c "."); [|by intros [= _ _ <- _]].
  destruct (leading_fraction _ _ _ _) as [[? ?] r'] eqn:Hf. apply leading_fraction_length in Hf. intros [= _ _ <- _]. cbn. lia.
Qed.
Lemma until_number_app s u r : until_number s = (u, r) -> s = u ++ r.
Proof.
  revert u. induction s as [|c s IH]; intros u; cbn [until_number]; [by intros [= <- <-]|].
  destruct (number_byte c); [by intros [= <- <-]|]. destruct (until_number s) as [u' r'] eqn:Hu. intros [= <- <-].
  cbn. f_equal. by apply IH.
Qed.
Lemma component_shorter s v r : component s = Ok (v, r) -> (length r < length s)%nat.
Proof.
  unfold component. destruct s as [|c s']; [done|]. set (s := c :: s'). destruct (negb _); [done|].
  destruct (leading_int 0 s) as [[n s1]|] eqn:Hi; [|done]. apply leading_int_length in Hi. cbv zeta.
  destruct (fraction s1) as [[[f scale] s2] post] eqn:Hl. apply fraction_length in Hl.
  destruct (_ && _); [done|]. destruct (until_number s2) as [u s3] eqn:Hu. apply until_number_app in Hu as ->.
  rewrite length_app in Hl. destruct u as [|b u]; [done|]. cbn [is_empty length] in *.
  destruct (unit_of _); [|done]. destruct (_ <? n); [done|].
  destruct (0 <? f); [destruct (two63 <? _); [done|]|]; intros [= _ <-]; lia.
Qed.
Lemma components_fuel n m d s : (length s <= n)%nat -> (length s <= m)%nat -> components n d s = components m d s.
Proof.
  revert m d s. induction n as [|n IH]; intros m d s Hn Hm; [by destruct s; [destruct m|cbn in Hn; lia]|].
  destruct m as [|m]; [by destruct s; [|cbn in Hm; lia]|]. destruct s as [|c s]; [done|]. cbn [components].
  destruct (component (c :: s)) as [[v r]|] eqn:Hc; [|done]. apply component_shorter in Hc. cbn [mbind result_bind length] in *.
  destruct (_ <? _); [done|]. apply IH; lia.
Qed.

(** * What is accepted *)
(** An accepted duration is a 64-bit number of nanoseconds. *)
Lemma components_range n d s x : 0 <= d <= two63 -> components n d s = Ok x -> 0 <= x <= two63.
Proof.
  revert d s. induction n as [|n IH]; intros d s Hd; (destruct s as [|c s]; [by intros [= <-]|]); [done|]. cbn [components].
  intros ([v r] & _ & Hx)%bind_ok_inv. revert Hx. cbv beta iota zeta. destruct (two63 <? _) eqn:Hb; [done|]. apply IH.
  apply Z.ltb_ge in Hb. split; [|done]. by apply Z.mod_pos_bound.
Qed.
Lemma duration_range s d : parse_duration s = Ok d -> min_int64 <= d <= max_int64.
Proof.
  unfold parse_duration. destruct (match s with [] => _ | _ => _ end) as [neg r].
  destruct (seqb r _); [by intros [= <-]|]. destruct (is_empty r); [done|].
  intros (x & Hx%components_range & Hd)%bind_ok_inv; [|by split]. revert Hd. cbv beta.
  assert (Hm : min_int64 = - two63 /\ max_int64 = two63 - 1 /\ 0 < two63) by (by split_and!).
  destruct neg; [intros [= <-]; lia|]. destruct (two63 - 1 <? x) eqn:Hb; [done|]. apply Z.ltb_ge in Hb. intros [= <-]. lia.
Qed.
Lemma digit_val_range c : is_digit c = true -> 0 <= digit_val c <= 9.
Proof. unfold is_digit, digit_val, byteZ. rewrite andb_true_iff, !Nat.leb_le. lia. Qed.
(** The number of a text of digits, up to [2^63]. *)
Lemma parse_digits_grows x ds v : 0 <= x -> parse_digits x ds = Some v -> x <= v /\ (ds <> [] -> x * 10 <= v).
Proof.
  revert x. induction ds as [|c ds IH]; intros x Hx; cbn [parse_digits]; [intros [= ->]; by split|].
  destruct (is_digit c) eqn:Hc; [|done]. apply digit_val_range in Hc. intros [Hv _]%IH; [|lia]. lia.
Qed.
Lemma u64_small x : 0 <= x <= two63 -> u64 x = x.
Proof. intros Hx. apply Z.mod_small. change (2 ^ 64) with (2 * two63). assert (0 < two63) by done. lia. Qed.
Definition starts_unit (r : gostring) : Prop := match r with c :: _ => is_digit c = false | [] => True end.
Lemma leading_int_digits x ds v r :
  0 <= x <= two63 -> starts_unit r -> parse_digits x ds = Some v ->
  leading_int x (ds ++ r) = if v <=? two63 then Some (v, r) else None.
Proof.
  intros Hx Hr. revert x Hx. induction ds as [|c ds IH]; intros x Hx; cbn [parse_digits app].
  - intros [= ->]. rewrite (proj2 (Z.leb_le _ _)) by lia. destruct r as [|c r]; [done|]. cbn in Hr |- *. by rewrite Hr.
  - destruct (is_digit c) eqn:Hc; [|done]. intros Hv. cbn [leading_int]. rewrite Hc. apply digit_val_range in Hc.
    pose proof (parse_digits_grows (x * 10 + digit_val c) ds v ltac:(lia) Hv) as [Hg _].
    assert (Hb : two63 = 9223372036854775808) by done. assert (Hq : two63 / 10 = 922337203685477580) by done.
    destruct (two63 / 10 <? x) eqn:Ho; [apply Z.ltb_lt in Ho; by rewrite (proj2 (Z.leb_gt _ _)) by lia|].
    apply Z.ltb_ge in Ho. cbv zeta. unfold u64. rewrite Z.mod_small by (change (2 ^ 64) with 18446744073709551616; lia).
    destruct (two63 <? _) eqn:Hl; [apply Z.ltb_lt in Hl; by rewrite (proj2 (Z.leb_gt _ _)) by lia|].
    apply Z.ltb_ge in Hl. apply IH; [lia|done].
Qed.
Lemma unit_facts u k : (u, k) ∈ units ->
  0 < k /\ unit_of u = Some k /\ until_number u = (u, []) /\ is_empty u = false /\ starts_unit u /\ fraction u = (0, float64 1, u, false).
Proof.
  intros Hin. assert (H : Forall (fun kv => let '(u, k) := kv in
    0 < k /\ unit_of u = Some k /\ until_number u = (u, []) /\ is_empty u = false /\ starts_unit u /\ fraction u = (0, float64 1, u, false)) units).
  { repeat constructor. }
  exact (proj1 (Forall_forall _ _) H _ Hin).
Qed.
Lemma component_of_number n u k : 0 <= n -> (u, k) ∈ units ->
  component (itoa n ++ u) = if n * k <=? two63 then Ok (n * k, []) else Err InvalidDuration.
Proof.
  intros Hn (Hk & Huk & Hun & Hne & Hst & Hfr)%unit_facts. unfold component.
  assert (Hi : itoa n = digits_of n) by (unfold itoa; by rewrite (proj2 (Z.ltb_ge _ _))).
  destruct (digits_of_cons n) as (c & ds & Hd & Hc). rewrite Hi.
  assert (Hnb : number_byte c = true) by (unfold number_byte; rewrite Hc; apply orb_true_r).
  assert (Hpre : (length u =? length (digits_of n ++ u))%nat = false).
  { apply Nat.eqb_neq. rewrite length_app, Hd. cbn. lia. }
  pose proof (leading_int_digits 0 (digits_of n) n u ltac:(by split) Hst (digits_of_parse n Hn)) as Hl.
  destruct (digits_of n ++ u) as [|c' r] eqn:Hs; [by rewrite Hd in Hs|].
  assert (c' = c) as -> by (rewrite Hd in Hs; by injection Hs). rewrite Hnb, Hl. cbn [negb].
  assert (Hb : two63 = 9223372036854775808) by done.
  destruct (n <=? two63) eqn:Hle; [|apply Z.leb_gt in Hle; by rewrite (proj2 (Z.leb_gt _ _)) by nia].
  cbv zeta. rewrite Hfr, Hpre, Hun, Hne, Huk. cbn [negb andb].
  destruct (two63 / k <? n) eqn:Hq.
  - apply Z.ltb_lt in Hq. rewrite (proj2 (Z.leb_gt _ _)); [done|]. pose proof (Z.mul_succ_div_gt two63 k Hk). nia.
  - apply Z.ltb_ge in Hq. pose proof (Z.mul_div_le two63 k Hk). rewrite (proj2 (Z.leb_le _ _)) by nia.
    rewrite (u64_small (n * k)) by nia. done.
Qed.
(** A whole number with a unit is that many of the unit, if it fits. *)
Theorem duration_of_number n u k : 0 <= n -> (u, k) ∈ units ->
  parse_duration (itoa n ++ u) = if n * k <=? max_int64 then Ok (n * k) else Err InvalidDuration.
Proof.
  intros Hn Hu. pose proof (component_of_number n u k Hn Hu) as Hc. destruct (unit_facts u k Hu) as (Hk & _ & _ & Hne & _).
  assert (Hi : itoa n = digits_of n) by (unfold itoa; by rewrite (proj2 (Z.ltb_ge _ _))).
  destruct (digits_of_cons n) as (c & ds & Hd & Hdig). apply digit_not_sign in Hdig as [Hp Hm].
  unfold parse_duration. rewrite Hi, Hd in *. cbn [app] in *. rewrite Hp, Hm. cbn [orb].
  destruct (seqb (c :: ds ++ u) $"0") eqn:H0.
  { apply seqb_eq in H0. injection H0 as _ H0. by apply app_eq_nil in H0 as [_ ->]. }
  cbn [is_empty length components]. rewrite Hc. assert (Hb : two63 = 9223372036854775808 /\ max_int64 = two63 - 1) by done.
  destruct (n * k <=? two63) eqn:Hle; cbn [mbind result_bind]; [|apply Z.leb_gt in Hle; by rewrite (proj2 (Z.leb_gt _ _)) by lia].
  apply Z.leb_le in Hle. rewrite Z.add_0_l, u64_small by nia. rewrite (proj2 (Z.ltb_ge _ _)) by lia.
  destruct (length (ds ++ u)); cbn [components mbind result_bind]; destruct (n * k <=? max_int64) eqn:Hx.
  all: first [apply Z.leb_le in Hx; by rewrite (proj2 (Z.ltb_ge _ _)) by lia | apply Z.leb_gt in Hx; by rewrite (proj2 (Z.ltb_lt _ _)) by lia].
Qed.
(** A number alone is no duration, with the exception of a single zero. *)
Theorem duration_needs_unit s : s <> [] -> Forall (fun c => is_digit c = true) s ->
  if seqb s $"0" then parse_duration s = Ok 0 else exists e, parse_duration s = Err e.
Proof.
  intros Hne Hd. unfold parse_duration. destruct s as [|c s']; [done|]. set (s := c :: s') in *.
  destruct (digit_not_sign c) as [Hp Hm]; [by inversion Hd|]. rewrite Hp, Hm. cbn [orb]. cbv iota.
  destruct (seqb s $"0") eqn:H0; [done|]. cbn [is_empty s length components]. fold s.
  assert (Hc : exists e, component s = Err e).
  { unfold component. unfold s at 1. destruct (negb _); [by eexists|].
    assert (Hl : forall x v r, leading_int x s = Some (v, r) -> r = []).
    { clearbody s. clear -Hd. induction Hd as [|c s Hc Hd IH]; intros x v r; cbn [leading_int]; [by intros [= _ <-]|].
      rewrite Hc. cbv zeta. destruct (_ <? x); [done|]. destruct (two63 <? _); [done|]. apply IH. }
    destruct (leading_int 0 s) as [[v r]|] eqn:Hv; [|by eexists]. apply Hl in Hv as ->. cbn. by eexists. }
  destruct Hc as [e ->]. by exists e.
Qed.
(** Fractions are cut off below a nanosecond; the sum of the components may
    wrap around to zero: twice [2^63] passes both of the checks. *)
Example durations :
  map parse_duration [$"1h30m"; $"1.5h"; $".5s"; $"-2s"; $"+0"; $"0.9ns"; $"100"; $"s"; $"1d"; $"9223372036854775808ns";
                      $"-9223372036854775808ns"; $"9223372036854775808ns9223372036854775808ns"; []; $"3.000000000000000000000001s"] =
  [Ok 5400000000000; Ok 5400000000000; Ok 500000000; Ok (-2000000000); Ok 0; Ok 0; Err MissingUnit; Err InvalidDuration;
   Err (UnknownUnit $"d"); Err InvalidDuration; Ok (-9223372036854775808); Ok 0; Err InvalidDuration; Ok 3000000000].
Proof. vm_compute. reflexivity. Qed.
