(* ===== verification/Frame.v ===== *)
(** The 2-byte length-prefix framing of [internal/frame/frame.go], used by
    the DNS channel, the delegation channel and the daemon.

    A reader is the list of bytes it will still deliver before EOF; a writer
    is a state with a [Write] that may fail.  The second half models several
    goroutines that share one writer: each [WriteFrame] is one [Write]. *)
From S2P Require Import Prelude.
Local Open Scope Z_scope.

Definition max_size : Z := 65535.

(** The errors of [io.ReadFull]. *)
Inductive read_err := EOF | UnexpectedEOF.
Inductive frame_err (E : Type) :=
  | TooLarge (n : Z)                         (* payload exceeds MaxSize *)
  | WriteFailed (e : E)                      (* frame: write *)
  | HeaderErr (e : read_err)                 (* frame: read header *)
  | PayloadErr (announced : Z) (e : read_err). (* frame: read payload *)
Arguments TooLarge {E} n.
Arguments WriteFailed {E} e.
Arguments HeaderErr {E} e.
Arguments PayloadErr {E} announced e.

(** [io.ReadFull(r, buf)] with [len(buf) = n]: the bytes and what remains. *)
Definition read_full (n : nat) (r : gostring) : result read_err (gostring * gostring) :=
  if (n <=? length r)%nat then Ok (take n r, drop n r)
  else Err (if is_empty r then EOF else UnexpectedEOF).

(** The bytes of one frame: big-endian length, then the payload. *)
Definition frame_bytes (b : gostring) : gostring :=
  put_be16 (Z.of_nat (length b)) ++ b.

Section writer.
Context {W E : Type} (write : W -> gostring -> result E W).
Definition write_frame (w : W) (b : gostring) : result (frame_err E) W :=
  if max_size <? Z.of_nat (length b) then Err (TooLarge (Z.of_nat (length b)))
  else map_err WriteFailed (write w (frame_bytes b)).
End writer.

Definition read_frame {E} (r : gostring) : result (frame_err E) (gostring * gostring) :=
  match read_full 2 r with
  | Err e => Err (HeaderErr e)
  | Ok (head, r1) =>
      let n := match head with [h; l] => be16 h l | _ => 0 end in
      match read_full (Z.to_nat n) r1 with
      | Err e => Err (PayloadErr n e)
      | Ok (payload, r2) => Ok (payload, r2)
      end
  end.

(** Reads frames until the first error; [fuel] bounds the number of frames,
    and every frame is at least two bytes long. *)
Fixpoint read_frames (fuel : nat) (r : gostring) : list gostring * frame_err Empty_set :=
  match fuel with
  | O => ([], HeaderErr EOF)
  | S f => match read_frame r with
           | Err e => ([], e)
           | Ok (p, r') => let '(ps, e) := read_frames f r' in (p :: ps, e)
           end
  end.
Definition read_all (r : gostring) : list gostring * frame_err Empty_set :=
  read_frames (S (length r)) r.

(** A writer that keeps everything, such as a socket's send side. *)
Definition append_write (w b : gostring) : result Empty_set gostring := Ok (w ++ b).

Lemma frame_bytes_length b : length (frame_bytes b) = S (S (length b)).
Proof. reflexivity. Qed.

Lemma read_full_app n a r : length a = n -> read_full n (a ++ r) = Ok (a, r).
Proof.
  intros <-. unfold read_full. rewrite length_app.
  destruct (Nat.leb_spec (length a) (length a + length r)); [|lia].
  by rewrite take_app_length, drop_app_length.
Qed.
Lemma read_full_short n r : (length r < n)%nat -> is_ok (read_full n r) = false.
Proof. intros H. unfold read_full. destruct (Nat.leb_spec n (length r)); [lia | done]. Qed.

Lemma read_frame_app {E} b r :
  Z.of_nat (length b) <= max_size -> @read_frame E (frame_bytes b ++ r) = Ok (b, r).
Proof.
  intros Hb. unfold read_frame, frame_bytes. rewrite <- app_assoc.
  rewrite read_full_app by done. unfold put_be16. cbv iota zeta beta.
  rewrite be16_put by (unfold max_size in Hb; lia).
  rewrite Nat2Z.id, read_full_app by done. done.
Qed.

Lemma read_frames_concat msgs f :
  (length msgs < f)%nat -> Forall (fun b => Z.of_nat (length b) <= max_size) msgs ->
  read_frames f (concat (map frame_bytes msgs)) = (msgs, HeaderErr EOF).
Proof.
  revert f; induction msgs as [|b msgs IH]; intros [|f] Hf Hm; cbn [length] in *; try lia.
  - done.
  - apply Forall_cons in Hm as [Hb Hm]. cbn [map concat read_frames].
    rewrite read_frame_app by done. by rewrite IH by (done || lia).
Qed.
Lemma concat_frames_length msgs :
  (length msgs <= length (concat (map frame_bytes msgs)))%nat.
Proof.
  induction msgs as [|b msgs IH]; cbn [map concat length]; [lia|].
  rewrite length_app, frame_bytes_length. lia.
Qed.

(** what [WriteFrame] sends, [ReadFrame] returns: a payload of at most
    [MaxSize] bytes is written as one chunk that reads back as the payload
    and leaves the following bytes untouched; a longer payload is refused
    and nothing is written. *)
Theorem write_read_frame (w b rest : gostring) :
  match write_frame append_write w b with
  | Ok w' => Z.of_nat (length b) <= max_size /\
             exists chunk, w' = w ++ chunk /\
               @read_frame Empty_set (chunk ++ rest) = Ok (b, rest)
  | Err e => max_size < Z.of_nat (length b) /\ e = TooLarge (Z.of_nat (length b))
  end.
Proof.
  unfold write_frame. destruct (Z.ltb_spec max_size (Z.of_nat (length b))); simpl; [done|].
  split; [done|]. exists (frame_bytes b). split; [done|]. by apply read_frame_app.
Qed.

(** a stream cut anywhere inside a frame is an error, never a wrong
    payload: reading any strict prefix of a frame fails with a truncation
    error, and with a bare EOF exactly when not one byte arrived. *)
Theorem read_frame_truncated (b p q : gostring)
  (Hb : Z.of_nat (length b) <= max_size) (Hpq : frame_bytes b = p ++ q) (Hq : q <> []) :
  match @read_frame Empty_set p with
  | Ok _ => False
  | Err (HeaderErr EOF) => p = []
  | Err (HeaderErr UnexpectedEOF) => length p = 1%nat
  | Err (PayloadErr n _) => n = Z.of_nat (length b) /\ (2 <= length p)%nat
  | Err _ => False
  end.
Proof.
  assert (Hlen : (length p < length (frame_bytes b))%nat).
  { rewrite Hpq, length_app. destruct q; [done|]. simpl. lia. }
  rewrite frame_bytes_length in Hlen.
  unfold read_frame. destruct p as [|h [|l p]]; [done..|].
  unfold frame_bytes, put_be16 in Hpq. cbn [app] in Hpq. injection Hpq as <- <- Hp.
  change (read_full 2 ?x) with (Ok (E:=read_err) (take 2 x, drop 2 x)).
  cbn [take drop]. rewrite take_0, drop_0. cbv iota zeta.
  rewrite be16_put by (unfold max_size in Hb; lia). rewrite Nat2Z.id.
  cbn [length] in *.
  pose proof (read_full_short (length b) p ltac:(lia)) as Hs.
  destruct (read_full (length b) p) as [[]|]; [discriminate|]. split; [done|]. lia.
Qed.
Lemma read_frame_truncated_witness :
  match @read_frame Empty_set (take 2 (frame_bytes $"ab")) with
  | Ok _ => False
  | Err (HeaderErr EOF) => take 2 (frame_bytes $"ab") = []
  | Err (HeaderErr UnexpectedEOF) => length (take 2 (frame_bytes $"ab")) = 1%nat
  | Err (PayloadErr n _) => n = Z.of_nat (length $"ab") /\ (2 <= length (take 2 (frame_bytes $"ab")))%nat
  | Err _ => False
  end.
Proof.
  apply (read_frame_truncated $"ab" (take 2 (frame_bytes $"ab")) $"ab");
    [vm_compute; discriminate | reflexivity | discriminate].
Defined.

(** * Several writers on one stream

    Each goroutine has a queue of messages; a step is one [WriteFrame] by one
    of them through the lock of [lockedWriter] (runner/server.go), which
    serializes whole [Write] calls. *)
Record shared := Shared { queues : list (list gostring); wire : gostring }.
Inductive send : shared -> shared -> Prop :=
  | send_one i b q qs w w' :
      qs !! i = Some (b :: q) ->
      write_frame append_write w b = Ok w' ->
      send (Shared qs w) (Shared (<[i := q]> qs) w').

(** [m] merges what the queues lost between two states: each message of
    [m] was the head of a queue when it was sent. *)
Inductive merges : list (list gostring) -> list gostring -> list (list gostring) -> Prop :=
  | merges_nil qs : merges qs [] qs
  | merges_snoc qs m qs1 i b q :
      merges qs m qs1 -> qs1 !! i = Some (b :: q) ->
      merges qs (m ++ [b]) (<[i := q]> qs1).

Lemma send_merges qs s :
  rtc send (Shared qs []) s ->
  exists m, merges qs m (queues s) /\ wire s = concat (map frame_bytes m) /\
            Forall (fun b => Z.of_nat (length b) <= max_size) m.
Proof.
  apply (rtc_ind_r (fun s => exists m, merges qs m (queues s) /\
           wire s = concat (map frame_bytes m) /\
           Forall (fun b => Z.of_nat (length b) <= max_size) m)).
  - exists []. split_and!; [constructor | done | constructor].
  - intros s1 s2 _ Hstep (m & Hm & Hw & Hf).
    destruct Hstep as [i b q qs1 w w' Hi Hwr]. simpl in *.
    unfold write_frame in Hwr.
    destruct (Z.ltb_spec max_size (Z.of_nat (length b))); [done|].
    simpl in Hwr. injection Hwr as <-. exists (m ++ [b]). split_and!.
    + by apply merges_snoc.
    + by rewrite map_app, concat_app, Hw; simpl; rewrite app_nil_r.
    + apply Forall_app. auto.
Qed.

(** concurrent senders never corrupt the stream: after any interleaving
    of [WriteFrame] calls, the peer reads exactly the messages sent, one
    merge of the goroutines' queues with each queue's own order kept, and
    then a clean end of stream. *)
Theorem interleaved_frames_intact (qs : list (list gostring)) (s : shared)
  (Hrun : rtc send (Shared qs []) s) :
  exists m, merges qs m (queues s) /\ read_all (wire s) = (m, HeaderErr EOF).
Proof.
  destruct (send_merges qs s Hrun) as (m & Hm & Hw & Hf).
  exists m. split; [done|]. rewrite Hw. unfold read_all.
  apply read_frames_concat; [|done].
  pose proof (concat_frames_length m). lia.
Qed.
Lemma interleaved_frames_intact_witness :
  let qs := [[$"out1"; $"out2"]; [$"err"]] in
  exists s, rtc send (Shared qs []) s /\
    exists m, merges qs m (queues s) /\ read_all (wire s) = (m, HeaderErr EOF).
Proof.
  assert (Hrun : rtc send (Shared [[$"out1"; $"out2"]; [$"err"]] [])
                     (Shared [[$"out2"]; []] (frame_bytes $"out1" ++ frame_bytes $"err"))).
  { eapply rtc_l; [eapply (send_one 0); reflexivity|].
    eapply rtc_l; [eapply (send_one 1); reflexivity|]. constructor. }
  eexists. split; [exact Hrun|]. exact (interleaved_frames_intact _ _ Hrun).
Defined.
