(* ===== verification/Seccomp.v ===== *)
(** The seccomp filter compiler of [internal/seccomp]: the default profile
    ([profile.go]), the translation to classic BPF and its serialization
    ([compile.go]).

    [bpf_run] is the specification side: the classic-BPF machine as the
    kernel documents it, restricted to the three instruction forms the
    compiler emits; anything else is stuck. *)
From S2P Require Import Prelude SeccompTables.
Local Open Scope Z_scope.

(** * Data *)
Record syscall_rule := SyscallRule { rule_name : gostring; rule_errno : Z (* uint16 *) }.
Record profile := Profile { default_action : Z (* uint32 *); blocked_syscalls : list syscall_rule }.
(** [unix.SockFilter]: uint16, uint8, uint8, uint32. *)
Record sock_filter := SockFilter { sf_code : Z; sf_jt : Z; sf_jf : Z; sf_k : Z }.

Definition BPF_LD_W_ABS : Z := 0x20.      (* BPF_LD | BPF_W | BPF_ABS *)
Definition BPF_JMP_JEQ_K : Z := 0x15.     (* BPF_JMP | BPF_JEQ | BPF_K *)
Definition BPF_RET_K : Z := 0x06.         (* BPF_RET | BPF_K *)
Definition SECCOMP_RET_ERRNO : Z := 0x50000.
Definition SECCOMP_RET_ALLOW : Z := 0x7fff0000.
Definition SECCOMP_RET_DATA : Z := 0xffff.
Definition EPERM : Z := 1.
Definition ret_errno (errno : Z) : Z := Z.lor SECCOMP_RET_ERRNO (Z.land errno SECCOMP_RET_DATA).

(** [NativeArch], with [runtime.GOARCH] as its argument. *)
Definition native_arch (goarch : gostring) : Z :=
  if seqb goarch $"amd64" then AUDIT_ARCH_X86_64
  else if seqb goarch $"arm64" then AUDIT_ARCH_AARCH64
  else if seqb goarch $"386" then AUDIT_ARCH_I386
  else if seqb goarch $"arm" then AUDIT_ARCH_ARM
  else if seqb goarch $"riscv64" then AUDIT_ARCH_RISCV64
  else 0.

(** [DefaultProfile] *)
Definition default_blocked : list gostring :=
  [$"bpf"; $"perf_event_open"; $"io_uring_setup"; $"io_uring_enter"; $"io_uring_register";
   $"keyctl"; $"add_key"; $"request_key"; $"userfaultfd"; $"kexec_load"; $"kexec_file_load";
   $"init_module"; $"finit_module"; $"delete_module"; $"mount"; $"pivot_root"; $"swapon";
   $"swapoff"; $"reboot"; $"lookup_dcookie"; $"sysfs"; $"_sysctl"; $"uselib"].
Definition default_profile : profile :=
  Profile SECCOMP_RET_ALLOW (map (fun n => SyscallRule n EPERM) default_blocked).

(** * Compiler *)
Inductive compile_err :=
  | UnsupportedArch (arch : Z)
  | UnknownSyscall (name : gostring).

Definition is_some_table {A} (o : option A) : bool := match o with Some _ => true | None => false end.
Definition is_some_entry (o : option Z) : bool := match o with Some _ => true | None => false end.
Definition known_anywhere (name : gostring) : bool :=
  existsb (fun at_ => is_some_entry (snd at_ !! name)) arch_syscalls.
(** The validation loop: a name of no architecture at all is refused. *)
Definition validate_rule (table : gmap gostring Z) (r : syscall_rule) : result compile_err unit :=
  match table !! rule_name r with
  | Some _ => Ok tt
  | None => if known_anywhere (rule_name r) then Ok tt else Err (UnknownSyscall (rule_name r))
  end.
(** The two instructions of one rule; none when the syscall does not exist
    on this architecture. *)
Definition emit_rule (table : gmap gostring Z) (r : syscall_rule) : list sock_filter :=
  match table !! rule_name r with
  | None => []
  | Some nr =>
      let errno := if rule_errno r =? 0 then EPERM else rule_errno r in
      [SockFilter BPF_JMP_JEQ_K 0 1 nr; SockFilter BPF_RET_K 0 0 (ret_errno errno)]
  end.
Definition emit (table : gmap gostring Z) (p : profile) (arch : Z) : list sock_filter :=
  let dflt := if default_action p =? 0 then SECCOMP_RET_ALLOW else default_action p in
  [SockFilter BPF_LD_W_ABS 0 0 4;
   SockFilter BPF_JMP_JEQ_K 1 0 arch;
   SockFilter BPF_RET_K 0 0 (ret_errno EPERM);
   SockFilter BPF_LD_W_ABS 0 0 0]
  ++ concat (map (emit_rule table) (blocked_syscalls p))
  ++ [SockFilter BPF_RET_K 0 0 dflt].

(** [binary.LittleEndian.PutUint16] and [PutUint32] *)
Definition put_le16 (n : Z) : list ascii := [Zbyte n; Zbyte (n / 256)].
Definition put_le32 (n : Z) : list ascii :=
  [Zbyte n; Zbyte (n / 256); Zbyte (n / 65536); Zbyte (n / 16777216)].
Definition serialize_filter (f : sock_filter) : list ascii :=
  put_le16 (sf_code f) ++ [Zbyte (sf_jt f); Zbyte (sf_jf f)] ++ put_le32 (sf_k f).
Definition serialize_filters (fs : list sock_filter) : list ascii :=
  concat (map serialize_filter fs).

Definition compile (p : profile) (arch : Z) : result compile_err (list ascii) :=
  match table_of arch arch_syscalls with
  | None => Err (UnsupportedArch arch)
  | Some table =>
      match iterM (fun _ => validate_rule table) (blocked_syscalls p) with
      | Err e => Err e
      | Ok _ => Ok (serialize_filters (emit table p arch))
      end
  end.

(** * Specification: the filter machine *)

(** The kernel's view of the byte stream: an array of [sock_filter]. *)
Fixpoint decode_filters (b : list ascii) : option (list sock_filter) :=
  match b with
  | [] => Some []
  | c0 :: c1 :: jt :: jf :: k0 :: k1 :: k2 :: k3 :: r =>
      fs ← decode_filters r;
      Some (SockFilter (byteZ c0 + 256 * byteZ c1) (byteZ jt) (byteZ jf)
              (byteZ k0 + 256 * byteZ k1 + 65536 * byteZ k2 + 16777216 * byteZ k3) :: fs)
  | _ => None
  end.
(** The part of [struct seccomp_data] the filters read. *)
Record seccomp_data := SeccompData { sd_nr : Z; sd_arch : Z }.
Definition load_word (d : seccomp_data) (off : Z) : option Z :=
  if off =? 0 then Some (sd_nr d) else if off =? 4 then Some (sd_arch d) else None.
(** Classic BPF has forward jumps only, so the rest of the program is the
    state and its length bounds the number of steps. *)
Fixpoint bpf_run (fuel : nat) (prog : list sock_filter) (d : seccomp_data) (A : Z) : option Z :=
  match fuel, prog with
  | S f, i :: rest =>
      if sf_code i =? BPF_RET_K then Some (sf_k i)
      else if sf_code i =? BPF_LD_W_ABS then
        a ← load_word d (sf_k i); bpf_run f rest d a
      else if sf_code i =? BPF_JMP_JEQ_K then
        bpf_run f (drop (Z.to_nat (if A =? sf_k i then sf_jt i else sf_jf i)) rest) d A
      else None
  | _, _ => None
  end.
Definition run_filter (bytes : list ascii) (d : seccomp_data) : option Z :=
  prog ← decode_filters bytes; bpf_run (length prog) prog d 0.

(** What a profile asks for: a foreign architecture is refused; otherwise
    the first rule whose name has this number on this architecture decides,
    and the default action applies when there is none. *)
Fixpoint first_rule (table : gmap gostring Z) (rs : list syscall_rule) (nr : Z) : option Z :=
  match rs with
  | [] => None
  | r :: rs' => if decide (table !! rule_name r = Some nr)
                then Some (if rule_errno r =? 0 then EPERM else rule_errno r)
                else first_rule table rs' nr
  end.
Definition verdict (table : gmap gostring Z) (p : profile) (arch : Z) (d : seccomp_data) : Z :=
  if negb (sd_arch d =? arch) then ret_errno EPERM
  else match first_rule table (blocked_syscalls p) (sd_nr d) with
       | Some e => ret_errno e
       | None => if default_action p =? 0 then SECCOMP_RET_ALLOW else default_action p
       end.

(** The Go types of the fields. *)
Definition u32 (n : Z) : Prop := 0 <= n < 2 ^ 32.
Definition profile_typed (p : profile) : Prop :=
  u32 (default_action p) /\ Forall (fun r => 0 <= rule_errno r < 2 ^ 16) (blocked_syscalls p).
Definition filter_typed (f : sock_filter) : Prop :=
  0 <= sf_code f < 2 ^ 16 /\ 0 <= sf_jt f < 256 /\ 0 <= sf_jf f < 256 /\ u32 (sf_k f).

(** * Serialization *)
Lemma le16_put n : 0 <= n < 2 ^ 16 -> byteZ (Zbyte n) + 256 * byteZ (Zbyte (n / 256)) = n.
Proof.
  intros Hn. rewrite !byteZ_Zbyte. rewrite (Z.mod_small (n / 256)).
  - pose proof (Z_div_mod_eq_full n 256). lia.
  - split; [apply Z.div_pos | apply Z.div_lt_upper_bound]; lia.
Qed.
Lemma le32_put n : u32 n ->
  byteZ (Zbyte n) + 256 * byteZ (Zbyte (n / 256)) + 65536 * byteZ (Zbyte (n / 65536))
  + 16777216 * byteZ (Zbyte (n / 16777216)) = n.
Proof.
  intros [H0 H1]. rewrite !byteZ_Zbyte.
  change 65536 with (256 * 256). change 16777216 with (256 * (256 * 256)).
  rewrite <- !Z.div_div by lia. set (a := n / 256). set (b := a / 256). set (c := b / 256).
  assert (Ha : 0 <= a < 2 ^ 24) by (split; [apply Z.div_pos | apply Z.div_lt_upper_bound]; lia).
  assert (Hb : 0 <= b < 2 ^ 16) by (split; [apply Z.div_pos | apply Z.div_lt_upper_bound]; lia).
  assert (Hc : 0 <= c < 256) by (split; [apply Z.div_pos | apply Z.div_lt_upper_bound]; lia).
  rewrite (Z.mod_small c) by done.
  pose proof (Z_div_mod_eq_full n 256). pose proof (Z_div_mod_eq_full a 256).
  pose proof (Z_div_mod_eq_full b 256). fold a in H. fold b in H2. fold c in H3. lia.
Qed.
Lemma decode_serialize fs :
  Forall filter_typed fs -> decode_filters (serialize_filters fs) = Some fs.
Proof.
  unfold serialize_filters. induction 1 as [|[c jt jf k] fs (Hc & Hjt & Hjf & Hk) _ IH]; [done|].
  cbn [map concat serialize_filter put_le16 put_le32 app sf_code sf_jt sf_jf sf_k decode_filters] in *.
  rewrite IH. cbn [mbind option_bind]. rewrite le16_put, le32_put by done.
  rewrite !byteZ_Zbyte, !Z.mod_small by done. done.
Qed.

(** * Running the emitted program *)
Lemma bpf_run_ret f c1 c2 k rest d A :
  bpf_run (S f) (SockFilter BPF_RET_K c1 c2 k :: rest) d A = Some k.
Proof. reflexivity. Qed.
Lemma bpf_run_jeq f jt jf k rest d A :
  bpf_run (S f) (SockFilter BPF_JMP_JEQ_K jt jf k :: rest) d A
  = bpf_run f (drop (Z.to_nat (if A =? k then jt else jf)) rest) d A.
Proof. reflexivity. Qed.

Lemma run_rules table rs dflt d f :
  (length (concat (map (emit_rule table) rs)) < f)%nat ->
  bpf_run f (concat (map (emit_rule table) rs) ++ [SockFilter BPF_RET_K 0 0 dflt]) d (sd_nr d)
  = Some (match first_rule table rs (sd_nr d) with Some e => ret_errno e | None => dflt end).
Proof.
  revert f; induction rs as [|r rs IH]; intros f Hf; cbn [map concat first_rule] in *.
  - destruct f; [simpl in Hf; lia|]. apply bpf_run_ret.
  - unfold emit_rule at 1. unfold emit_rule at 1 in Hf.
    destruct (table !! rule_name r) as [nr|]; cbn [app length] in *.
    + destruct f as [|[|f]]; [lia..|]. rewrite bpf_run_jeq.
      destruct (Z.eqb_spec (sd_nr d) nr) as [Heq|Hne]; case_decide; simplify_eq; try done.
      change (Z.to_nat 1) with 1%nat. rewrite skipn_cons, drop_0. apply IH. lia.
    + case_decide; [done|]. by apply IH.
Qed.
Lemma run_emit table p arch d :
  let prog := emit table p arch in
  bpf_run (length prog) prog d 0 = Some (verdict table p arch d).
Proof.
  unfold emit, verdict. cbv zeta. set (dflt := if default_action p =? 0 then _ else _).
  set (rules := concat _). cbn [app length].
  change (bpf_run (S ?f) (SockFilter BPF_LD_W_ABS 0 0 4 :: ?r) d 0)
    with (bpf_run f r d (sd_arch d)).
  rewrite bpf_run_jeq. destruct (sd_arch d =? arch); cbn [negb].
  - change (Z.to_nat 1) with 1%nat. rewrite skipn_cons, drop_0.
    change (bpf_run (S ?f) (SockFilter BPF_LD_W_ABS 0 0 0 :: ?r) d ?A)
      with (bpf_run f r d (sd_nr d)).
    apply run_rules. fold rules. rewrite length_app. simpl. lia.
  - change (Z.to_nat 0) with 0%nat. rewrite drop_0. apply bpf_run_ret.
Qed.

Lemma ret_errno_u32 e : 0 <= e < 2 ^ 16 -> u32 (ret_errno e).
Proof.
  intros He. unfold ret_errno, SECCOMP_RET_DATA, SECCOMP_RET_ERRNO.
  change 0xffff with (Z.ones 16). rewrite Z.land_ones, Z.mod_small by lia.
  split; [apply Z.lor_nonneg; lia|].
  destruct (Z.eq_dec (Z.lor 0x50000 e) 0) as [->|Hn]; [lia|].
  apply Z.log2_lt_pow2; [pose proof (proj2 (Z.lor_nonneg 0x50000 e)); lia|].
  rewrite Z.log2_lor by lia.
  change (Z.log2 0x50000) with 18.
  destruct (Z.eq_dec e 0) as [->|]; [simpl; lia|].
  pose proof (proj1 (Z.log2_lt_pow2 e 16 ltac:(lia)) ltac:(lia)). lia.
Qed.
Definition table_typed (t : gmap gostring Z) : Prop := map_Forall (fun _ n => u32 n) t.
Lemma table_of_elem arch l t : table_of arch l = Some t -> In (arch, t) l.
Proof.
  induction l as [|[a t'] l IH]; cbn [table_of]; [done|].
  destruct (Z.eqb_spec a arch) as [->|_]; [intros [= ->]; by left | right; by apply IH].
Qed.
Lemma table_typed_check t :
  forallb (fun kv => (0 <=? kv.2) && (kv.2 <? 2 ^ 32)) (map_to_list t) = true -> table_typed t.
Proof.
  rewrite forallb_forall. intros H k n Hn. apply elem_of_map_to_list, list_elem_of_In, H in Hn.
  cbn in Hn. breflect. unfold u32. lia.
Qed.
Lemma tables_typed arch t : table_of arch arch_syscalls = Some t -> table_typed t /\ u32 arch.
Proof.
  assert (Ha : table_typed amd64_syscalls /\ table_typed arm64_syscalls).
  { split; apply table_typed_check; vm_compute; reflexivity. }
  destruct Ha as [H1 H2]. cbn [arch_syscalls table_of].
  assert (Hu : Forall u32 [AUDIT_ARCH_X86_64; AUDIT_ARCH_AARCH64; AUDIT_ARCH_RISCV64]).
  { repeat constructor; discriminate. }
  rewrite !Forall_cons in Hu. destruct Hu as (Hx & Ha & Hr & _).
  repeat match goal with |- context [if ?a =? arch then _ else _] =>
    destruct (Z.eqb_spec a arch) as [<-|_]; [intros [= <-]; done|] end.
  discriminate.
Qed.
Lemma filter_typed_intro c jt jf k :
  ((0 <=? c) && (c <? 2 ^ 16) && (0 <=? jt) && (jt <? 256) && (0 <=? jf) && (jf <? 256) = true) ->
  u32 k -> filter_typed (SockFilter c jt jf k).
Proof. intros H Hk. breflect. unfold filter_typed. cbn. split_and!; done || lia. Qed.
Lemma emit_typed table p arch :
  table_typed table -> u32 arch -> profile_typed p -> Forall filter_typed (emit table p arch).
Proof.
  intros Ht Ha [Hd Hr]. assert (HE : u32 (ret_errno EPERM)) by (vm_compute; by split).
  unfold emit. rewrite !Forall_app. split_and!.
  - repeat (apply Forall_cons_2; [by apply filter_typed_intro|]). done.
  - rewrite Forall_concat, Forall_map. eapply Forall_impl; [exact Hr|].
    intros r Hre. cbn in Hre |- *. unfold emit_rule.
    destruct (table !! rule_name r) as [nr|] eqn:Hn; [|done].
    specialize (Ht _ _ Hn). cbn in Ht.
    assert (u32 (ret_errno (if rule_errno r =? 0 then EPERM else rule_errno r))).
    { destruct (_ =? 0); [done | by apply ret_errno_u32]. }
    repeat (apply Forall_cons_2; [by apply filter_typed_intro|]). done.
  - apply Forall_cons_2; [|done]. apply filter_typed_intro; try done.
    by destruct (default_action p =? 0).
Qed.

Lemma validate_rule_known arch t r :
  table_of arch arch_syscalls = Some t ->
  validate_rule t r = if known_anywhere (rule_name r) then Ok tt else Err (UnknownSyscall (rule_name r)).
Proof.
  intros Ht. unfold validate_rule. destruct (t !! rule_name r) as [x|] eqn:Hn; [|reflexivity].
  replace (known_anywhere (rule_name r)) with true; [reflexivity|]. symmetry.
  unfold known_anywhere. apply existsb_exists. exists (arch, t).
  split; [by apply table_of_elem | cbn; by rewrite Hn].
Qed.
Lemma validate_rules_ok arch t rs :
  table_of arch arch_syscalls = Some t ->
  Forall (fun r => validate_rule t r = Ok tt) rs <->
  Forall (fun r => known_anywhere (rule_name r) = true) rs.
Proof.
  intros Ht. rewrite !Forall_forall. split; intros H r Hr; specialize (H r Hr);
    rewrite (validate_rule_known arch) in * by exact Ht;
    destruct (known_anywhere (rule_name r)); congruence.
Qed.

(** * Properties *)

(** C3: the compiled filter enforces the profile.  Whenever [Compile]
    succeeds, running the bytes it returns on any syscall gives the verdict
    the profile asks for: EPERM for a foreign architecture, the errno of the
    first matching rule (EPERM when the rule leaves it 0), otherwise the
    default action. *)
Theorem compile_enforces (p : profile) (arch : Z) (d : seccomp_data) (bytes : list ascii)
  (Hp : profile_typed p) (Hc : compile p arch = Ok bytes) :
  exists table, table_of arch arch_syscalls = Some table /\
    run_filter bytes d = Some (verdict table p arch d).
Proof.
  unfold compile in Hc. destruct (table_of arch arch_syscalls) as [t|] eqn:Ht; [|done].
  destruct (iterM _ _) in Hc; [|done]. injection Hc as <-.
  exists t. split; [done|]. destruct (tables_typed arch t Ht) as [Htt Ha].
  unfold run_filter. rewrite decode_serialize by by apply emit_typed.
  apply run_emit.
Qed.
Lemma default_profile_typed : profile_typed default_profile.
Proof.
  split; [vm_compute; by split|]. unfold default_profile; cbn [blocked_syscalls].
  rewrite Forall_map. apply Forall_true. intros n. cbn. unfold EPERM. lia.
Qed.
Lemma compile_enforces_witness :
  exists bytes, compile default_profile AUDIT_ARCH_X86_64 = Ok bytes /\
  exists table, table_of AUDIT_ARCH_X86_64 arch_syscalls = Some table /\
    run_filter bytes (SeccompData 321 AUDIT_ARCH_X86_64)
    = Some (verdict table default_profile AUDIT_ARCH_X86_64 (SeccompData 321 AUDIT_ARCH_X86_64)).
Proof.
  assert (H : exists bytes, compile default_profile AUDIT_ARCH_X86_64 = Ok bytes).
  { vm_compute. eexists. reflexivity. }
  destruct H as [bytes H]. exists bytes. split; [exact H|].
  exact (compile_enforces default_profile AUDIT_ARCH_X86_64 (SeccompData 321 AUDIT_ARCH_X86_64)
           bytes default_profile_typed H).
Defined.

(** when compilation succeeds and when it fails: an architecture without
    a table is refused first; then the first rule whose name no table knows
    is refused; a name another architecture has is accepted and emits
    nothing here. *)
Theorem compile_outcome (p : profile) (arch : Z) :
  match compile p arch with
  | Ok _ => is_Some (table_of arch arch_syscalls) /\
            Forall (fun r => known_anywhere (rule_name r) = true) (blocked_syscalls p)
  | Err (UnsupportedArch a) => a = arch /\ table_of arch arch_syscalls = None
  | Err (UnknownSyscall n) =>
      is_Some (table_of arch arch_syscalls) /\ known_anywhere n = false /\
      exists before r after, blocked_syscalls p = before ++ r :: after /\ rule_name r = n /\
        Forall (fun r => known_anywhere (rule_name r) = true) before
  end.
Proof.
  unfold compile. destruct (table_of arch arch_syscalls) as [t|] eqn:Ht; [|done].
  destruct (iterM _ _) as [[]|e] eqn:Hi.
  - apply iterM_const_ok, (validate_rules_ok arch) in Hi; [|exact Ht]. eauto.
  - apply iterM_const_err in Hi as (b & r & a & -> & Hb & Hr).
    apply (validate_rules_ok arch) in Hb; [|exact Ht].
    rewrite (validate_rule_known arch) in Hr by exact Ht.
    destruct (known_anywhere (rule_name r)) eqn:Hk; [discriminate|]. injection Hr as <-.
    eauto 10.
Qed.

Lemma first_rule_eperm table ns nr :
  first_rule table (map (fun n => SyscallRule n EPERM) ns) nr
  = if existsb (fun n => bool_decide (table !! n = Some nr)) ns then Some EPERM else None.
Proof.
  induction ns as [|n ns IH]; [reflexivity|]. cbn [map first_rule existsb rule_name rule_errno].
  case_bool_decide; case_decide; (done || exact IH).
Qed.

(** what the default profile blocks.  On each supported architecture it
    compiles, and the filter answers EPERM to a native syscall number exactly
    when it is the number of one of the blocked names, and allows every other
    number of that architecture. *)
Theorem default_profile_blocks (goarch : gostring) (nr : Z)
  (Ha : goarch = $"amd64" \/ goarch = $"arm64" \/ goarch = $"riscv64") :
  exists bytes table,
    compile default_profile (native_arch goarch) = Ok bytes /\
    table_of (native_arch goarch) arch_syscalls = Some table /\
    run_filter bytes (SeccompData nr (native_arch goarch))
    = Some (if existsb (fun n => bool_decide (table !! n = Some nr)) default_blocked
            then ret_errno EPERM else SECCOMP_RET_ALLOW).
Proof.
  assert (Hc : is_ok (compile default_profile (native_arch goarch)) = true).
  { destruct Ha as [-> | [-> | ->]]; vm_compute; reflexivity. }
  destruct (compile default_profile (native_arch goarch)) as [bytes|] eqn:Hb; [|discriminate].
  assert (Ht : is_some_table (table_of (native_arch goarch) arch_syscalls) = true).
  { destruct Ha as [-> | [-> | ->]]; vm_compute; reflexivity. }
  destruct (table_of (native_arch goarch) arch_syscalls) as [t|] eqn:Ht'; [|discriminate].
  exists bytes, t. split; [reflexivity|]. split; [reflexivity|].
  unfold compile in Hb. rewrite Ht' in Hb. destruct (iterM _ _) in Hb; [|discriminate].
  injection Hb as <-. destruct (tables_typed _ t Ht') as [Htt Hu].
  unfold run_filter.
  pose proof (emit_typed t default_profile _ Htt Hu default_profile_typed) as He.
  rewrite (decode_serialize _ He).
  cbn [mbind option_bind]. rewrite run_emit. unfold verdict, default_profile.
  cbn [sd_arch sd_nr blocked_syscalls default_action]. rewrite Z.eqb_refl. cbn [negb].
  rewrite first_rule_eperm. destruct (existsb _ default_blocked); reflexivity.
Qed.
Lemma default_profile_blocks_witness :
  exists bytes table,
    compile default_profile (native_arch $"amd64") = Ok bytes /\
    table_of (native_arch $"amd64") arch_syscalls = Some table /\
    run_filter bytes (SeccompData 321 (native_arch $"amd64"))
    = Some (if existsb (fun n => bool_decide (table !! n = Some 321)) default_blocked
            then ret_errno EPERM else SECCOMP_RET_ALLOW).
Proof. exact (default_profile_blocks $"amd64" 321 (or_introl eq_refl)). Defined.

(** The filter compares whole numbers, so the x32 variant of a blocked
    syscall ([nr] with bit 30 set, same audit architecture) is allowed. *)
Example x32_bpf_allowed :
  match compile default_profile AUDIT_ARCH_X86_64 with
  | Ok bytes => run_filter bytes (SeccompData (Z.lor 0x40000000 321) AUDIT_ARCH_X86_64)
                = Some SECCOMP_RET_ALLOW
  | Err _ => False
  end.
Proof. vm_compute. reflexivity. Qed.
