(* ===== verification/Sni.v ===== *)
(** TLS ClientHello inspection: [internal/orchestrator/sni.go].

    Every index and slice expression of the Go code is a read that can fail
    ([None] is the run-time panic, and also a loop that does not end within
    its fuel), so the totality theorem is the claim of the source comment:
    bounds-checked throughout, never panics on attacker-controlled input.
    Slice bounds are checked against the length, which is at most the
    capacity Go checks against. *)
From S2P Require Import Prelude.
Local Open Scope go_scope.

(** * Reads that can panic *)
(** [int(binary.BigEndian.Uint16(s[p:p+2]))] *)
Definition u16_at (s : gostring) (p : nat) : option nat :=
  hi ← s !! p; lo ← s !! S p; Some (nat_of_ascii hi * 256 + nat_of_ascii lo).
(** [int(s[p])] *)
Definition u8_at (s : gostring) (p : nat) : option nat := nat_of_ascii <$> s !! p.
(** [s[lo:hi]] *)
Definition slice (s : gostring) (lo hi : nat) : option gostring :=
  if (lo <=? hi) && (hi <=? length s) then Some (take (hi - lo) (drop lo s)) else None.

(** * ParseSNI *)
(** The [server_name] branch of the loop body: [Some (Some h)] returns [h],
    [Some None] falls through to the next extension.  The name loop runs its
    body at most once, since the body breaks or returns. *)
Inductive name_outcome := NotFound | Malformed | Found (host : gostring).
Definition sni_names (body : gostring) (p ext_len end_ : nat) : option name_outcome :=
  list_len ← u16_at body p;
  let q := p + 2 in
  if (ext_len - 2 <? list_len) || (end_ <? q + list_len) then Some Malformed
  else if q + 3 <=? p + 2 + list_len then
    name_type ← u8_at body q;
    name_len ← u16_at body (q + 1);
    let q := q + 3 in
    if negb (name_type =? 0) || (p + 2 + list_len <? q + name_len) then Some NotFound
    else host ← slice body q (q + name_len); Some (Found host)
  else Some NotFound.

Fixpoint ext_loop (fuel : nat) (body : gostring) (p end_ : nat) : option (option gostring) :=
  match fuel with
  | O => None
  | S f =>
      if p + 4 <=? end_ then
        ext_type ← u16_at body p;
        ext_len ← u16_at body (p + 2);
        let p := p + 4 in
        if end_ <? p + ext_len then Some None
        else if (ext_type =? 0) && (5 <=? ext_len) then
          r ← sni_names body p ext_len end_;
          match r with
          | Malformed => Some None
          | Found h => Some (Some h)
          | NotFound => ext_loop f body (p + ext_len) end_
          end
        else ext_loop f body (p + ext_len) end_
      else Some None
  end.

(** Everything after the handshake header. *)
Definition parse_body (body : gostring) : option (option gostring) :=
  let p := 34 in
  if length body <? p then Some None
  else if length body <? p + 1 then Some None
  else
    n ← u8_at body p;
    let p := p + (1 + n) in
    if length body <? p + 2 then Some None
    else
      n ← u16_at body p;
      let p := p + (2 + n) in
      if length body <? p + 1 then Some None
      else
        n ← u8_at body p;
        let p := p + (1 + n) in
        if length body <? p + 2 then Some None
        else
          ext_total ← u16_at body p;
          let p := p + 2 in
          let ext_total := if length body - p <? ext_total then length body - p else ext_total in
          ext_loop (S (length body)) body p (p + ext_total).

Definition parse_sni (data : gostring) : option (option gostring) :=
  if length data <? 5 then Some None
  else
    b0 ← u8_at data 0;
    if negb (b0 =? 22) then Some None
    else
      rec_len ← u16_at data 3;
      if (rec_len <? 4) || (length data <? 5 + rec_len) then Some None
      else
        hs ← slice data 5 (5 + rec_len);
        h0 ← u8_at hs 0;
        if negb (h0 =? 1) then Some None
        else
          h1 ← u8_at hs 1; h2 ← u8_at hs 2; h3 ← u8_at hs 3;
          let hs_len := (h1 * 256 + h2) * 256 + h3 in
          if length hs <? hs_len + 4 then Some None
          else body ← slice hs 4 (4 + hs_len); parse_body body.

(** * Specification: the wire format *)
Definition put16 (n : nat) : gostring := [ascii_of_nat (n / 256); ascii_of_nat (n mod 256)].
Definition vec8 (s : gostring) : gostring := ascii_of_nat (length s) :: s.
Definition vec16 (s : gostring) : gostring := put16 (length s) ++ s.
Definition extension (t : nat) (payload : gostring) : gostring := put16 t ++ vec16 payload.
Definition server_name (host : gostring) : gostring :=
  extension 0 (vec16 (ascii_of_nat 0 :: vec16 host)).
Definition hello_body (version_random sid ciphers comp exts : gostring) : gostring :=
  version_random ++ vec8 sid ++ vec16 ciphers ++ vec8 comp ++ vec16 exts.
(** A TLS record holding one ClientHello; [ver] is the record version. *)
Definition hello_record (ver body : gostring) : gostring :=
  ascii_of_nat 22 :: ver ++
  vec16 (ascii_of_nat 1 :: ascii_of_nat (length body / 256 / 256)
         :: ascii_of_nat ((length body / 256) mod 256) :: ascii_of_nat (length body mod 256) :: body).

(** * Reads *)
Lemma u8_at_ok s p : p < length s -> exists n, u8_at s p = Some n.
Proof. intros H. apply lookup_lt_is_Some in H as [c Hc]. unfold u8_at. rewrite Hc. eauto. Qed.
Lemma u16_at_ok s p : p + 2 <= length s -> exists n, u16_at s p = Some n.
Proof.
  intros H. unfold u16_at.
  destruct (lookup_lt_is_Some_2 s p) as [c ->]; [lia|].
  destruct (lookup_lt_is_Some_2 s (S p)) as [d ->]; [lia|]. eauto.
Qed.
Lemma slice_ok s lo hi : lo <= hi -> hi <= length s ->
  slice s lo hi = Some (take (hi - lo) (drop lo s)).
Proof.
  intros H1 H2. unfold slice. by rewrite (proj2 (Nat.leb_le _ _) H1), (proj2 (Nat.leb_le _ _) H2).
Qed.
Lemma slice_some s lo hi r : slice s lo hi = Some r ->
  exists a b, s = a ++ r ++ b /\ length a = lo /\ length r = hi - lo.
Proof.
  unfold slice. intros H. case_match_hyp H; [|done]. breflect. injection H as <-.
  exists (take lo s), (drop (hi - lo) (drop lo s)). rewrite !take_drop.
  rewrite !length_take, length_drop. split_and!; lia || done.
Qed.

(** Case analysis of the parser: failed guards return, reads are in bounds. *)
Ltac read_step :=
  match goal with
  | |- context [u8_at ?s ?p] =>
      let n := fresh "n" in let H := fresh "Hread" in
      destruct (u8_at_ok s p ltac:(lia)) as [n H]; rewrite H; cbn [mbind option_bind]
  | |- context [u16_at ?s ?p] =>
      let n := fresh "n" in let H := fresh "Hread" in
      destruct (u16_at_ok s p ltac:(lia)) as [n H]; rewrite H; cbn [mbind option_bind]
  | |- context [if ?b then _ else _] =>
      let Hb := fresh "Hb" in destruct b eqn:Hb; breflect; try solve [eauto]
  end.

Lemma sni_names_ok body p ext_len end_ :
  p + ext_len <= end_ -> end_ <= length body -> 5 <= ext_len ->
  exists r, sni_names body p ext_len end_ = Some r.
Proof.
  intros H1 H2 H3. unfold sni_names. cbv zeta.
  repeat read_step.
  rewrite slice_ok by lia. cbn [mbind option_bind]. eauto.
Qed.
(** Each iteration consumes at least the four header bytes. *)
Lemma ext_loop_ok fuel body p end_ :
  end_ <= length body -> 0 < fuel -> length body < fuel + p ->
  exists r, ext_loop fuel body p end_ = Some r.
Proof.
  revert p; induction fuel as [|f IH]; intros p He H0 Hf; cbn [ext_loop]; [lia|].
  cbv zeta. repeat read_step; try (apply IH; lia).
  match goal with |- context [sni_names body ?q ?e end_] =>
    destruct (sni_names_ok body q e end_) as [r ->]; [lia..|] end. cbn [mbind option_bind].
  destruct r; eauto. apply IH; lia.
Qed.
Lemma parse_body_ok body : exists r, parse_body body = Some r.
Proof.
  unfold parse_body. cbv zeta. repeat read_step; apply ext_loop_ok; lia.
Qed.

Lemma parse_sni_total_aux data : exists r, parse_sni data = Some r.
Proof.
  unfold parse_sni. cbv zeta. repeat read_step.
  rewrite slice_ok by lia. cbn [mbind option_bind].
  match goal with |- context [u8_at ?h 0] => set (hs := h) end.
  assert (Hhs : length hs = n0) by (unfold hs; rewrite length_take, length_drop; lia).
  repeat read_step. rewrite slice_ok by lia. cbn [mbind option_bind]. apply parse_body_ok.
Qed.

(** * Where the returned name comes from *)
(** [names_at body h]: [body] holds a name entry of type 0 and name [h]. *)
Definition names_at (s h : gostring) : Prop :=
  exists a b hi lo, s = a ++ "000"%char :: hi :: lo :: h ++ b /\
    length h = nat_of_ascii hi * 256 + nat_of_ascii lo.
Lemma names_at_app a s b h : names_at s h -> names_at (a ++ s ++ b) h.
Proof.
  intros (x & y & hi & lo & -> & Hl). exists (a ++ x), (y ++ b), hi, lo. split; [|done].
  rewrite <- !app_assoc. cbn. by rewrite <- !app_assoc.
Qed.
Lemma names_at_slice s lo hi r h : slice s lo hi = Some r -> names_at r h -> names_at s h.
Proof. intros (a & b & -> & _ & _)%slice_some. apply names_at_app. Qed.
Lemma nat_of_ascii_0 c : nat_of_ascii c = 0 -> c = "000"%char.
Proof. intros H. rewrite <- (ascii_nat_embedding c), H. reflexivity. Qed.
Lemma sni_names_found body p ext_len end_ h :
  sni_names body p ext_len end_ = Some (Found h) -> names_at body h.
Proof.
  unfold sni_names, u16_at, u8_at. cbv zeta. intros H.
  destruct (body !! p); [cbn [mbind option_bind] in H | done].
  destruct (body !! S p); [cbn [mbind option_bind] in H | done].
  case_match_hyp H; [done|]. case_match_hyp H; [|done].
  destruct (body !! (p + 2)) as [c|] eqn:Hc; [cbn [fmap option_fmap option_map mbind option_bind] in H | done].
  replace (p + 2 + 1) with (S (p + 2)) in H by lia.
  destruct (body !! S (p + 2)) as [hi|] eqn:Hhi; [cbn [mbind option_bind] in H | done].
  destruct (body !! S (S (p + 2))) as [lo|] eqn:Hlo; [cbn [mbind option_bind] in H | done].
    case_match_hyp H; [done|]. breflect.
  destruct (slice _ _ _) as [h'|] eqn:Hs; [|done]. injection H as ->.
  unfold slice in Hs. case_match_hyp Hs; [|done]. breflect. injection Hs as <-.
  match goal with |- context [take ?n (drop ?q body)] => set (nl := n); set (d := drop q body) end.
  exists (take (p + 2) body), (drop nl d), hi, lo. split.
  - rewrite take_drop. rewrite <- (take_drop (p + 2) body) at 1. f_equal.
    rewrite (drop_S body c), (drop_S body hi), (drop_S body lo) by done.
    rewrite (nat_of_ascii_0 c) by done. unfold d. do 4 f_equal. lia.
  - unfold d. rewrite length_take, length_drop. lia.
Qed.
Lemma ext_loop_found fuel body p end_ h :
  ext_loop fuel body p end_ = Some (Some h) -> names_at body h.
Proof.
  revert p; induction fuel as [|f IH]; intros p; cbn [ext_loop]; [done|]. intros H.
  case_match_hyp H; [|done].
  destruct (u16_at body p); [cbn [mbind option_bind] in H | done].
  destruct (u16_at body (p + 2)); [cbn [mbind option_bind] in H | done].
  case_match_hyp H; [done|]. case_match_hyp H; [|by eapply IH].
  destruct (sni_names _ _ _ _) as [[]|] eqn:Hn; cbn [mbind option_bind] in H; try done.
  - by eapply IH.
  - injection H as <-. by eapply sni_names_found.
Qed.
(** Inverts the chain of guards and reads of a successful run. *)
Ltac run_inv H :=
  cbv zeta in H;
  repeat match type of H with
  | (if ?b then Some None else _) = _ => destruct b eqn:?; [discriminate|]
  | mbind _ ?m = _ => destruct m eqn:?; cbn [mbind option_bind] in H; [|discriminate]
  end.
Lemma parse_sni_found data h : parse_sni data = Some (Some h) -> names_at data h.
Proof.
  unfold parse_sni. intros H. run_inv H. unfold parse_body in H. run_inv H.
  apply ext_loop_found in H. by do 2 (eapply names_at_slice; [eassumption|]).
Qed.

(** A hello that parses is still parsed when more bytes follow. *)
Lemma u8_at_app s t p n : u8_at s p = Some n -> u8_at (s ++ t) p = Some n.
Proof. unfold u8_at. intros (c & Hc & ->)%fmap_Some. by rewrite (lookup_app_l_Some _ _ _ _ Hc). Qed.
Lemma u16_at_app s t p n : u16_at s p = Some n -> u16_at (s ++ t) p = Some n.
Proof.
  unfold u16_at. destruct (s !! p) as [hi|] eqn:Hhi; [|done]. destruct (s !! S p) as [lo|] eqn:Hlo; [|done].
  by rewrite (lookup_app_l_Some _ _ _ _ Hhi), (lookup_app_l_Some _ _ _ _ Hlo).
Qed.
Lemma slice_app s t lo hi r : slice s lo hi = Some r -> slice (s ++ t) lo hi = Some r.
Proof.
  unfold slice. destruct (lo <=? hi) eqn:Hlo; [|done]. destruct (hi <=? length s) eqn:Hhi; [|done]. cbn [andb]. breflect.
  intros [= <-]. rewrite length_app. destruct (hi <=? length s + length t) eqn:Hx; [|apply Nat.leb_gt in Hx; lia].
  f_equal. rewrite drop_app_le, take_app_le by (rewrite ?length_drop; lia). done.
Qed.
Lemma parse_sni_app d e h : parse_sni d = Some (Some h) -> parse_sni (d ++ e) = Some (Some h).
Proof.
  unfold parse_sni. intros H. cbv zeta in H. destruct (length d <? 5) eqn:Hl; [done|].
  destruct (u8_at d 0) as [b0|] eqn:H0; [cbn [mbind option_bind] in H | done]. destruct (negb (b0 =? 22)) eqn:Hb; [done|].
  destruct (u16_at d 3) as [rec_len|] eqn:H3; [cbn [mbind option_bind] in H | done].
  destruct ((rec_len <? 4) || (length d <? 5 + rec_len)) eqn:Hr; [done|].
  destruct (slice d 5 (5 + rec_len)) as [hs|] eqn:Hs; [cbn [mbind option_bind] in H | done].
  apply Nat.ltb_ge in Hl. apply orb_false_iff in Hr as [Hr1 Hr2]. apply Nat.ltb_ge in Hr2.
  cbv zeta. rewrite length_app. replace (length d + length e <? 5) with false by (symmetry; apply Nat.ltb_ge; lia).
  rewrite (u8_at_app _ e _ _ H0). cbn [mbind option_bind]. rewrite Hb, (u16_at_app _ e _ _ H3). cbn [mbind option_bind].
  rewrite Hr1. replace (length d + length e <? 5 + rec_len) with false by (symmetry; apply Nat.ltb_ge; lia).
  cbn [orb]. by rewrite (slice_app _ e _ _ _ Hs).
Qed.

(** * Reading what was written *)
Lemma ascii_nat n : n < 256 -> nat_of_ascii (ascii_of_nat n) = n.
Proof. apply nat_ascii_embedding. Qed.
Lemma u8_at_put s p n a b :
  s = a ++ ascii_of_nat n :: b -> p = length a -> n < 256 -> u8_at s p = Some n.
Proof.
  intros -> -> Hn. unfold u8_at. rewrite list_lookup_middle by done. cbn. by rewrite ascii_nat.
Qed.
Lemma u16_at_put s p n a b :
  s = a ++ put16 n ++ b -> p = length a -> n < 256 * 256 -> u16_at s p = Some n.
Proof.
  intros -> -> Hn. unfold u16_at, put16. cbn [app].
  assert (H1 : forall x y : ascii, (a ++ x :: y :: b) !! length a = Some x)
    by (intros; by apply list_lookup_middle).
  assert (H2 : forall x y : ascii, (a ++ x :: y :: b) !! S (length a) = Some y).
  { intros. rewrite lookup_app_r by lia. by replace (S (length a) - length a) with 1 by lia. }
  rewrite H1. cbn [mbind option_bind]. rewrite H2.
  cbn [mbind option_bind]. rewrite !ascii_nat.
  2: apply Nat.mod_upper_bound; lia.
  2: apply Nat.Div0.div_lt_upper_bound; lia.
  f_equal. pose proof (Nat.div_mod_eq n 256). lia.
Qed.
Lemma slice_put s lo hi r a b :
  s = a ++ r ++ b -> lo = length a -> hi = length a + length r -> slice s lo hi = Some r.
Proof.
  intros -> -> ->. rewrite slice_ok by (rewrite ?length_app; lia). f_equal.
  rewrite drop_app_length. replace (_ + _ - _) with (length r) by lia. apply take_app_length.
Qed.
Ltac app_eq := subst; unfold extension, vec16, vec8;
  repeat progress (cbn [app]; rewrite <- ?app_assoc); reflexivity.
Ltac len := subst; unfold server_name, extension, vec16, vec8, put16;
  repeat (cbn [length app]; rewrite ?length_app); lia.

Lemma sni_names_server_name body pfx host post end_ :
  body = pfx ++ vec16 ("000"%char :: vec16 host) ++ post ->
  length host < 256 * 256 - 3 -> length pfx + (5 + length host) <= end_ ->
  sni_names body (length pfx) (5 + length host) end_ = Some (Found host).
Proof.
  intros Hb Hh He. unfold sni_names. cbv zeta.
  rewrite (u16_at_put body (length pfx) (3 + length host) pfx ("000"%char :: vec16 host ++ post));
     [|app_eq | done | lia]. cbn [mbind option_bind].
  rewrite (proj2 (orb_false_iff _ _)) by (rewrite !Nat.ltb_ge; lia).
  rewrite (proj2 (Nat.leb_le _ _)) by lia.
  rewrite (u8_at_put body (length pfx + 2) 0 (pfx ++ put16 (3 + length host)) (vec16 host ++ post)); [|app_eq | len | lia].
  cbn [mbind option_bind].
  rewrite (u16_at_put body (length pfx + 2 + 1) (length host) (pfx ++ put16 (3 + length host) ++ ["000"%char]) (host ++ post));
    [|app_eq | len | lia].
  cbn [mbind option_bind]. rewrite (proj2 (orb_false_iff _ _)) by (split; [done | apply Nat.ltb_ge; lia]).
  rewrite (slice_put _ _ _ host (pfx ++ put16 (3 + length host) ++ "000"%char :: put16 (length host)) post);
    [done | app_eq | len | len].
Qed.

Definition ext_ok (e : nat * gostring) : Prop := e.1 <> 0 /\ e.1 < 256 * 256 /\ length e.2 < 256 * 256.
Definition exts (l : list (nat * gostring)) : gostring := concat (map (fun e => extension e.1 e.2) l).
Lemma ext_loop_finds body pfx pre host post fuel :
  body = pfx ++ exts pre ++ server_name host ++ post ->
  Forall ext_ok pre -> length host < 256 * 256 - 5 ->
  0 < fuel -> length body < fuel + length pfx ->
  ext_loop fuel body (length pfx) (length body) = Some (Some host).
Proof.
  intros Hb Hpre Hh. revert pfx Hb fuel.
  induction Hpre as [|[t pl] pre (Ht & Ht' & Hpl) _ IH]; intros pfx Hb fuel H0 Hf;
    destruct fuel as [|fuel]; try lia; cbn [ext_loop]; cbv zeta.
  - cbn [exts concat map app] in Hb. unfold server_name in Hb.
    assert (Hlen : length body = length pfx + (9 + length host + length post)) by (rewrite Hb; len).
    rewrite (proj2 (Nat.leb_le _ _)) by lia.
    rewrite (u16_at_put body (length pfx) 0 pfx (vec16 (vec16 ("000"%char :: vec16 host)) ++ post)); [|app_eq | done | lia].
    cbn [mbind option_bind].
    rewrite (u16_at_put body (length pfx + 2) (5 + length host) (pfx ++ put16 0) (vec16 ("000"%char :: vec16 host) ++ post));
      [|app_eq | len | lia].
    cbn [mbind option_bind]. rewrite (proj2 (Nat.ltb_ge _ _)) by lia. cbn [Nat.eqb andb Nat.leb].
    replace (length pfx + 4) with (length (pfx ++ put16 0 ++ put16 (5 + length host))) by len.
    rewrite (sni_names_server_name _ _ host post); [done | app_eq | lia | len].
  - cbn [exts concat map fst snd] in Hb. fold (exts pre) in Hb. cbn [fst snd] in *.
    assert (Hlen : length pfx + 4 + length pl <= length body) by (rewrite Hb; len).
    rewrite (proj2 (Nat.leb_le _ _)) by lia.
    rewrite (u16_at_put body (length pfx) t pfx (vec16 pl ++ exts pre ++ server_name host ++ post)); [|app_eq | done | lia].
    cbn [mbind option_bind].
    rewrite (u16_at_put body (length pfx + 2) (length pl) (pfx ++ put16 t) (pl ++ exts pre ++ server_name host ++ post));
      [|app_eq | len | lia].
    cbn [mbind option_bind]. rewrite (proj2 (Nat.ltb_ge _ _)) by lia.
    rewrite (proj2 (Nat.eqb_neq _ _)) by done. cbn [andb].
    replace (length pfx + 4 + length pl) with (length (pfx ++ extension t pl)) by len.
    apply IH; [app_eq | lia |].
    replace (length (pfx ++ extension t pl)) with (length pfx + 4 + length pl) by len. lia.
Qed.

Lemma parse_body_hello vr sid ciphers comp pre host post :
  length vr = 34 -> length sid < 256 -> length ciphers < 256 * 256 -> length comp < 256 ->
  Forall ext_ok pre -> length (exts pre ++ server_name host ++ post) < 256 * 256 ->
  parse_body (hello_body vr sid ciphers comp (exts pre ++ server_name host ++ post)) = Some (Some host).
Proof.
  intros Hvr Hsid Hci Hco Hpre Hex. set (es := exts pre ++ server_name host ++ post) in *.
  assert (Hh : length host < 256 * 256 - 5).
  { assert (length es = length (exts pre) + (9 + length host + length post)); [unfold es; len | lia]. }
  set (body := hello_body vr sid ciphers comp es).
  assert (Hl : length body = 40 + length sid + length ciphers + length comp + length es).
  { unfold body, hello_body. clearbody es. len. }
  unfold parse_body. cbv zeta.
  rewrite (proj2 (Nat.ltb_ge _ _)) by lia. rewrite (proj2 (Nat.ltb_ge _ _)) by lia.
  rewrite (u8_at_put body 34 (length sid) vr (sid ++ vec16 ciphers ++ vec8 comp ++ vec16 es));
    [|unfold body, hello_body; app_eq | done | lia]. cbn [mbind option_bind].
  rewrite (proj2 (Nat.ltb_ge _ _)) by lia.
  rewrite (u16_at_put body _ (length ciphers) (vr ++ vec8 sid) (ciphers ++ vec8 comp ++ vec16 es));
    [|unfold body, hello_body; app_eq | clearbody es; len | lia]. cbn [mbind option_bind].
  rewrite (proj2 (Nat.ltb_ge _ _)) by lia.
  rewrite (u8_at_put body _ (length comp) (vr ++ vec8 sid ++ vec16 ciphers) (comp ++ vec16 es));
    [|unfold body, hello_body; app_eq | clearbody es; len | lia]. cbn [mbind option_bind].
  rewrite (proj2 (Nat.ltb_ge _ _)) by lia.
  rewrite (u16_at_put body _ (length es) (vr ++ vec8 sid ++ vec16 ciphers ++ vec8 comp) es);
    [|unfold body, hello_body; app_eq | clearbody es; len | lia]. cbn [mbind option_bind].
  rewrite (proj2 (Nat.ltb_ge _ _)) by lia.
  set (pfx := vr ++ vec8 sid ++ vec16 ciphers ++ vec8 comp ++ put16 (length es)).
  assert (Hp : length pfx = 40 + length sid + length ciphers + length comp) by (clearbody es; unfold pfx; len).
  replace (_ + 2) with (length pfx) by lia.
  replace (length pfx + length es) with (length body) by lia.
  apply (ext_loop_finds _ _ pre host post); [|done|done|lia|lia].
  unfold pfx, body, hello_body. fold es. clearbody es. app_eq.
Qed.

(** * Properties *)

(** ParseSNI never panics and always returns, whatever the peeked bytes
    are: no index or slice expression is out of bounds, the extension loop
    ends; and any host name it returns is, byte for byte, the contents of a
    name entry of type 0 in the input whose length field says so. *)
Theorem parse_sni_total (data : gostring) :
  exists r, parse_sni data = Some r /\
    match r with
    | Some h => exists before after hi lo,
        data = before ++ "000"%char :: hi :: lo :: h ++ after /\
        length h = nat_of_ascii hi * 256 + nat_of_ascii lo
    | None => True
    end.
Proof.
  destruct (parse_sni_total_aux data) as [[h|] H]; [|by exists None].
  exists (Some h). split; [done|]. by apply parse_sni_found in H.
Qed.

(** ParseSNI reads back the name of every well-formed ClientHello: any
    session id, cipher suites and compression methods, any other extensions
    before the server_name extension, anything after it and after the
    record. *)
Theorem parse_sni_roundtrip
    (ver vr sid ciphers comp host post trailing : gostring) (pre : list (nat * gostring))
    (Hver : length ver = 2) (Hvr : length vr = 34) (Hsid : length sid < 256)
    (Hciphers : length ciphers < 256 * 256) (Hcomp : length comp < 256)
    (Hpre : Forall ext_ok pre)
    (Hrec : length (hello_body vr sid ciphers comp (exts pre ++ server_name host ++ post)) < 256 * 256 - 4) :
  parse_sni (hello_record ver (hello_body vr sid ciphers comp (exts pre ++ server_name host ++ post))
             ++ trailing) = Some (Some host).
Proof.
  pose proof (parse_body_hello vr sid ciphers comp pre host post Hvr Hsid Hciphers Hcomp Hpre) as Hbody.
  assert (Hes : length (exts pre ++ server_name host ++ post) < 256 * 256).
  { assert (Hle : forall es, length es <= length (hello_body vr sid ciphers comp es)).
    { intros es. unfold hello_body. len. }
    specialize (Hle (exts pre ++ server_name host ++ post)). lia. }
  specialize (Hbody Hes).
  set (body := hello_body _ _ _ _ _) in *. clearbody body.
  unfold hello_record. match goal with |- context [vec16 ?x] => set (hs := x) end.
  assert (Hhs : length hs = 4 + length body) by done.
  unfold parse_sni. cbv zeta. 
  match goal with |- context [u8_at ?d 0] => set (data := d) end.
  assert (Hd : length data = 5 + length hs + length trailing)
    by (unfold data; clearbody hs; len).
  rewrite (proj2 (Nat.ltb_ge _ _)) by lia.
  rewrite (u8_at_put data 0 22 [] ((ver ++ vec16 hs) ++ trailing)) by (done || lia).
  cbn [mbind option_bind Nat.eqb negb].
  rewrite (u16_at_put data 3 (length hs) (ascii_of_nat 22 :: ver) (hs ++ trailing));
    [|unfold data; clearbody hs; app_eq | len | lia]. cbn [mbind option_bind].
  rewrite (proj2 (orb_false_iff _ _)) by (rewrite !Nat.ltb_ge; lia).
  rewrite (slice_put data _ _ hs (ascii_of_nat 22 :: ver ++ put16 (length hs)) trailing);
    [|unfold data; clearbody hs; app_eq | clearbody hs; len | clearbody hs; len].
  cbn [mbind option_bind].
  set (L := length body) in *.
  rewrite (u8_at_put hs 0 1 [] (drop 1 hs)) by (done || lia). cbn [mbind option_bind Nat.eqb negb].
  rewrite (u8_at_put hs 1 (L / 256 / 256) (take 1 hs) (drop 2 hs));
    [|done|done|repeat apply Nat.Div0.div_lt_upper_bound; lia]. cbn [mbind option_bind].
  rewrite (u8_at_put hs 2 ((L / 256) mod 256) (take 2 hs) (drop 3 hs));
    [|done|done|apply Nat.mod_upper_bound; lia]. cbn [mbind option_bind].
  rewrite (u8_at_put hs 3 (L mod 256) (take 3 hs) (drop 4 hs));
    [|done|done|apply Nat.mod_upper_bound; lia]. cbn [mbind option_bind].
  replace ((_ * 256 + _) * 256 + _) with L.
  2:{ pose proof (Nat.div_mod_eq L 256). pose proof (Nat.div_mod_eq (L / 256) 256). lia. }
  rewrite (proj2 (Nat.ltb_ge _ _)) by lia.
  rewrite (slice_put hs _ _ body (take 4 hs) []); [done | | done | done].
  unfold hs. cbn. by rewrite app_nil_r.
Qed.
Lemma parse_sni_roundtrip_witness :
  parse_sni (hello_record $"xx" (hello_body (repeat "r"%char 34) $"s" $"ci" $"c"
    (exts [(10, $"groups")] ++ server_name $"api.github.com" ++ [])) ++ $"rest")
  = Some (Some $"api.github.com").
Proof.
  apply (parse_sni_roundtrip $"xx" (repeat "r"%char 34) $"s" $"ci" $"c" $"api.github.com" [] $"rest"
           [(10, $"groups")]); first [apply Nat.ltb_lt; vm_compute; reflexivity | reflexivity | idtac].
  apply Forall_cons_2; [|apply Forall_nil_2].
  split; [discriminate|]. split; apply Nat.ltb_lt; vm_compute; reflexivity.
Defined.
