(* ===== verification/Matcher.v ===== *)
(** The egress policy of [internal/egress/proxy/matcher.go]: the domain
    whitelist ([Match]) and the allow/block network policy
    ([NewNetworkPolicy], [Evaluate], [parseCIDRorIP]). *)
From S2P Require Import GoStrings GoNet.
Local Open Scope Z_scope.

(** * Domain whitelist *)
Inductive decision := Deny | Allow.
#[export] Instance decision_eq_dec : EqDecision decision.
Proof. solve_decision. Defined.

(** The pair [(suffix, ok)] of the source; [None] is [ok = false]. *)
Definition wildcard_suffix (pattern : gostring) : option gostring :=
  if negb (has_prefix pattern $"*.") then None
  else let suffix := drop 2 pattern in
       if contains_byte "*" suffix then None else Some suffix.
Definition matches_single_level (domain suffix : gostring) : bool :=
  if negb (has_suffix domain ("."%char :: suffix)) then false
  else let label := take (length domain - length suffix - 1) domain in
       negb (is_empty label) && negb (contains_byte "." label).

(** The loop over the patterns; [best] is the length of the longest wildcard
    suffix matched so far, -1 before the first. *)
Fixpoint match_loop `{UnicodeCase} (domain : gostring) (best : Z) (patterns : list gostring) : decision :=
  match patterns with
  | [] => if 0 <=? best then Allow else Deny
  | p :: rest =>
      let pat := to_lower p in
      if is_empty pat then match_loop domain best rest
      else if seqb pat $"*" then Allow
      else if negb (contains_byte "*" pat) then
        if seqb pat domain then Allow else match_loop domain best rest
      else match wildcard_suffix pat with
           | None => match_loop domain best rest
           | Some suffix =>
               let n := Z.of_nat (length suffix) in
               if n <=? best then match_loop domain best rest
               else if matches_single_level domain suffix then match_loop domain n rest
               else match_loop domain best rest
           end
  end.
Definition normalize_domain `{UnicodeCase} (domain : gostring) : gostring :=
  to_lower (trim_suffix domain $".").
Definition Match `{UnicodeCase} (domain : gostring) (patterns : list gostring) : decision :=
  let domain := normalize_domain domain in
  if is_empty domain then Deny else match_loop domain (-1) patterns.

(** * Network policy *)
Inductive network_action := ActionNone | ActionAllow | ActionBlock.
#[export] Instance network_action_eq_dec : EqDecision network_action.
Proof. solve_decision. Defined.
Record cidr_rule := CIDRRule { rule_net : ipnet; rule_action : network_action; rule_bits : Z }.
Record network_policy := NetworkPolicy
  { np_rules : list cidr_rule; has_explicit_allow : bool; allow_all : bool }.

Inductive cidr_err := InvalidIPOrCIDR (raw : gostring) | InvalidCIDR (raw : gostring).
Inductive policy_err := AllowNetwork (e : cidr_err) | BlockNetwork (e : cidr_err).

(** [None] is the nil network of a blank entry. *)
Definition parse_cidr_or_ip (raw : gostring) : result cidr_err (option ipnet) :=
  let raw := trim_space raw in
  let net (s : gostring) :=
    match parse_cidr s with Some n => Ok (Some n) | None => Err (InvalidCIDR s) end in
  if is_empty raw then Ok None
  else if negb (contains_byte "/" raw) then
    match parse_ip raw with
    | None => Err (InvalidIPOrCIDR raw)
    | Some a => if is_some (to4 a) then net (raw ++ $"/32") else net (raw ++ $"/128")
    end
  else net raw.

(** One of the two loops of [NewNetworkPolicy]. *)
Fixpoint add_rules (act : network_action) (cidrs : list gostring) : result cidr_err (list cidr_rule) :=
  match cidrs with
  | [] => Ok []
  | raw :: rest =>
      match parse_cidr_or_ip raw with
      | Err e => Err e
      | Ok None => add_rules act rest
      | Ok (Some n) => match add_rules act rest with
                       | Err e => Err e
                       | Ok rs => Ok (CIDRRule n act (ones n) :: rs)
                       end
      end
  end.
Definition new_network_policy (allow block : list gostring) (all : bool)
  : result policy_err network_policy :=
  if all then Ok (NetworkPolicy [] false true)
  else match add_rules ActionAllow allow with
       | Err e => Err (AllowNetwork e)
       | Ok ra => match add_rules ActionBlock block with
                  | Err e => Err (BlockNetwork e)
                  | Ok rb => Ok (NetworkPolicy (ra ++ rb) (negb (length ra =? 0)%nat) all)
                  end
       end.

Definition eval_step (a : ip) (best : Z * network_action) (r : cidr_rule) : Z * network_action :=
  let '(best_bits, best_action) := best in
  if net_contains (rule_net r) a then
    if best_bits <? rule_bits r then (rule_bits r, rule_action r)
    else if (rule_bits r =? best_bits) && bool_decide (rule_action r = ActionBlock)
         then (best_bits, ActionBlock)
         else best
  else best.
(** [p] and [a] are [None] for a nil policy and a nil address. *)
Definition evaluate (p : option network_policy) (a : option ip) : bool :=
  match p, a with
  | Some p, Some a =>
      if allow_all p || (length (np_rules p) =? 0)%nat then true
      else let '(best_bits, best_action) := fold_left (eval_step a) (np_rules p) (-1, ActionNone) in
           if 0 <=? best_bits then bool_decide (best_action = ActionAllow)
           else negb (has_explicit_allow p)
  | _, _ => true
  end.

(** * Specification *)
(** What a pattern means for a normalized domain. *)
Inductive pattern_accepts (d : gostring) : gostring -> Prop :=
  | accepts_any : pattern_accepts d $"*"
  | accepts_exact : "*"%char ∉ d -> d <> [] -> pattern_accepts d d
  | accepts_wildcard label suffix :
      d = label ++ "."%char :: suffix -> label <> [] -> "."%char ∉ label ->
      "*"%char ∉ suffix -> pattern_accepts d ($"*." ++ suffix).

(** Longest-prefix match with block winning ties; with no matching rule the
    address passes exactly in blacklist-only mode. *)
Definition permitted (allow block : list ipnet) (a : ip) : Prop :=
  (exists n, n ∈ allow /\ net_contains n a = true /\
     forall m, m ∈ block -> net_contains m a = true -> ones m < ones n) \/
  (allow = [] /\ forall m, m ∈ block -> net_contains m a = false).

(** * Lemmas: domains *)
Lemma matches_single_level_spec d s :
  matches_single_level d s = true <->
  exists label, d = label ++ "."%char :: s /\ label <> [] /\ "."%char ∉ label.
Proof.
  unfold matches_single_level. split.
  - intros H. case_match_hyp H; [done|]. breflect.
    apply has_suffix_true in Heqb as [l ->].
    replace (take _ _) with l in *; [eauto using contains_byte_false |].
    + rewrite contains_byte_false in *. eauto.
    + rewrite length_app. cbn [length]. replace (_ - _ - 1)%nat with (length l) by lia.
      by rewrite take_app_length.
  - intros (l & -> & Hl & Hd). rewrite has_suffix_app. cbn [negb].
    rewrite length_app. cbn [length]. replace (_ - _ - 1)%nat with (length l) by lia.
    rewrite take_app_length. apply is_empty_false in Hl. apply contains_byte_false in Hd.
    by rewrite Hl, Hd.
Qed.
Lemma wildcard_suffix_some p s :
  wildcard_suffix p = Some s <-> p = $"*." ++ s /\ "*"%char ∉ s.
Proof.
  unfold wildcard_suffix. split.
  - intros H. case_match_hyp H; [done|]. breflect. apply has_prefix_true in Heqb as [t ->].
    cbn [String.list_ascii_of_string app drop] in *. rewrite drop_0 in *.
    case_match_hyp H; [done|]. injection H as <-. by rewrite <- contains_byte_false.
  - intros [-> Hs]. rewrite has_prefix_app. cbn [negb]. cbn [String.list_ascii_of_string app drop].
    rewrite drop_0. apply contains_byte_false in Hs. by rewrite Hs.
Qed.
(** The checks one pattern goes through, before the length comparison. *)
Definition accepts (d pat : gostring) : bool :=
  negb (is_empty pat) &&
  (seqb pat $"*" ||
   (if negb (contains_byte "*" pat) then seqb pat d
    else match wildcard_suffix pat with
         | Some s => matches_single_level d s
         | None => false
         end)).
Lemma accepts_spec d pat : d <> [] -> accepts d pat = true <-> pattern_accepts d pat.
Proof.
  intros Hd. unfold accepts. rewrite andb_true_iff, orb_true_iff, seqb_eq, negb_true_iff, is_empty_false.
  split.
  - intros [Hne [->|H]]; [constructor|]. case_match_hyp H; breflect.
    + subst. apply contains_byte_false in Heqb. by constructor.
    + destruct (wildcard_suffix pat) as [s|] eqn:Hw; [|done].
      apply wildcard_suffix_some in Hw as [-> Hs].
      apply matches_single_level_spec in H as (l & Hl & ? & ?). by eapply accepts_wildcard.
  - intros H. inversion H as [|Hs Hne|l s Hl ? ? Hs]; subst.
    + split; [done|]. by left.
    + split; [done|]. right. apply contains_byte_false in Hs. rewrite Hs. cbn. apply seqb_refl.
    + split; [done|]. right. cbn [contains_byte existsb]. cbn [String.list_ascii_of_string app].
      replace (contains_byte "*" _) with true by done. cbn [negb].
      rewrite (proj2 (wildcard_suffix_some _ s)) by done.
      apply matches_single_level_spec. eauto.
Qed.
Lemma match_loop_spec `{UnicodeCase} d best ps :
  -1 <= best ->
  match_loop d best ps = Allow <-> 0 <= best \/ exists p, p ∈ ps /\ accepts d (to_lower p) = true.
Proof.
  revert best; induction ps as [|p ps IH]; intros best Hb; cbn [match_loop].
  - setoid_rewrite elem_of_nil. case_match_goal; breflect; naive_solver lia.
  - assert (Hskip : forall b, -1 <= b -> accepts d (to_lower p) = false ->
      match_loop d b ps = Allow <-> 0 <= b \/ exists q, q ∈ p :: ps /\ accepts d (to_lower q) = true).
    { intros b Hb' Ha. rewrite IH by done. setoid_rewrite elem_of_cons.
      split; [intros [?|(q & ? & ?)]; [by left | right; eauto] |].
      intros [?|(q & [->|?] & ?)]; [by left | congruence | right; eauto]. }
    assert (Hacc : accepts d (to_lower p) = true ->
      forall P : Prop, P -> P <-> 0 <= best \/ exists q, q ∈ p :: ps /\ accepts d (to_lower q) = true).
    { intros Ha P HP. split; [|done]. intros _. right. exists p. split; [left | done]. }
    unfold accepts in Hskip, Hacc.
    destruct (is_empty (to_lower p)) eqn:He; [by apply Hskip|]. cbn [negb andb] in *.
    destruct (seqb (to_lower p) $"*") eqn:Hs; [by apply Hacc|]. cbn [orb] in *.
    destruct (contains_byte "*" (to_lower p)) eqn:Hc; cbn [negb] in *.
    + destruct (wildcard_suffix (to_lower p)) as [s|] eqn:Hw; [|by apply Hskip].
      assert (Hpos : forall b, 0 <= b -> match_loop d b ps = Allow) by (intros; apply IH; lia).
      destruct (Z.leb_spec (Z.of_nat (length s)) best).
      * split; [intros _; left; lia | intros _; apply Hpos; lia].
      * destruct (matches_single_level d s) eqn:Hm; [|by apply Hskip].
        apply Hacc; [done|]. apply Hpos. lia.
    + destruct (seqb (to_lower p) d) eqn:Hd; [by apply Hacc | by apply Hskip].
Qed.

(** * Lemmas: network policy *)
Definition rule_ok (r : cidr_rule) : Prop :=
  rule_bits r = ones (rule_net r) /\ 0 <= rule_bits r /\ rule_action r <> ActionNone.
(** What the scan knows after the rules [rs]. *)
Definition best_inv (a : ip) (rs : list cidr_rule) (st : Z * network_action) : Prop :=
  let m r := r ∈ rs /\ net_contains (rule_net r) a = true in
  (forall r, m r -> rule_bits r <= st.1) /\
  ((st.1 = -1) \/
   (0 <= st.1 /\ st.2 = ActionAllow /\ (exists r, m r /\ rule_action r = ActionAllow /\ rule_bits r = st.1) /\
      (forall r, m r -> rule_action r = ActionBlock -> rule_bits r < st.1)) \/
   (0 <= st.1 /\ st.2 = ActionBlock /\ exists r, m r /\ rule_action r = ActionBlock /\ rule_bits r = st.1)).
Lemma fold_eval_inv a rs :
  Forall rule_ok rs -> best_inv a rs (fold_left (eval_step a) rs (-1, ActionNone)).
Proof.
  induction rs as [|r rs IH] using rev_ind; intros Hok.
  - split; [|by left]. intros r [Hr _]. by apply not_elem_of_nil in Hr.
  - apply Forall_app in Hok as [Hrs Hr]. apply Forall_cons in Hr as [(Hb & H0 & Hn) _].
    specialize (IH Hrs). rewrite fold_left_app. cbn [fold_left].
    destruct (fold_left _ rs _) as [b act]. destruct IH as [Hmax Hcase]. cbn [fst snd] in *.
    assert (Hsnoc : forall x, x ∈ rs ++ [r] <-> x ∈ rs \/ x = r).
    { intros x. by rewrite elem_of_app, list_elem_of_singleton. }
    unfold eval_step. destruct (net_contains (rule_net r) a) eqn:Hc.
    + assert (Hrm : forall P : cidr_rule -> Prop, P r ->
        exists x, (x ∈ rs ++ [r] /\ net_contains (rule_net x) a = true) /\ P x).
      { intros P HP. exists r. rewrite Hsnoc. auto. }
      destruct (Z.ltb_spec b (rule_bits r)) as [Hlt|Hge].
      * split; cbn [fst snd].
        -- intros x [[Hx| ->]%Hsnoc Hxc]; [|lia]. specialize (Hmax x (conj Hx Hxc)). lia.
        -- right. destruct (rule_action r) eqn:Ha; [done | left | right].
           ++ split_and!; [done | done | by apply Hrm |].
              intros x [[Hx| ->]%Hsnoc Hxc] Hxa; [|congruence]. specialize (Hmax x (conj Hx Hxc)). lia.
           ++ split_and!; [done | done | by apply Hrm].
      * assert (Hb0 : 0 <= b) by lia.
        destruct (Z.eqb_spec (rule_bits r) b) as [Heq|Hne]; cbn [andb].
        -- case_bool_decide as Ha; (split; cbn [fst snd];
             [intros x [[Hx| ->]%Hsnoc Hxc]; [by apply Hmax | lia] |]).
           ++ right; right. split_and!; [done | done | by apply Hrm].
           ++ destruct Hcase as [?|[(_ & -> & (x & [Hx Hxc] & Hxa) & Hbl)|(_ & -> & (x & [Hx Hxc] & Hxa))]];
                [lia | right; left | right; right].
              ** split_and!; [done | done | exists x; rewrite Hsnoc; auto |].
                 intros y [[Hy| ->]%Hsnoc Hyc] Hya; [by apply Hbl | done].
              ** split_and!; [done | done | exists x; rewrite Hsnoc; auto].
        -- split; cbn [fst snd]; [intros x [[Hx| ->]%Hsnoc Hxc]; [by apply Hmax | lia] |].
           destruct Hcase as [?|[(_ & -> & (x & [Hx Hxc] & Hxa) & Hbl)|(_ & -> & (x & [Hx Hxc] & Hxa))]];
             [lia | right; left | right; right].
           ++ split_and!; [done | done | exists x; rewrite Hsnoc; auto |].
              intros y [[Hy| ->]%Hsnoc Hyc] Hya; [by apply Hbl | lia].
           ++ split_and!; [done | done | exists x; rewrite Hsnoc; auto].
    + assert (Hsame : forall x, (x ∈ rs ++ [r] /\ net_contains (rule_net x) a = true) <->
                                (x ∈ rs /\ net_contains (rule_net x) a = true)).
      { intros x. rewrite Hsnoc. split; [intros [[Hx| ->] Hxc]; [done | congruence] | intros [Hx Hxc]; auto]. }
      unfold best_inv. cbn [fst snd]. setoid_rewrite Hsame. done.
Qed.

Lemma digit_val_nonneg c : is_digit c = true -> 0 <= digit_val c.
Proof.
  unfold is_digit, digit_val, byteZ. rewrite andb_true_iff, !Nat.leb_le. lia.
Qed.
Lemma parse_digits_nonneg acc s n : 0 <= acc -> parse_digits acc s = Some n -> 0 <= n.
Proof.
  revert acc; induction s as [|c s IH]; intros acc Ha; cbn [parse_digits]; [naive_solver|].
  destruct (is_digit c) eqn:Hd; [|done]. apply IH. apply digit_val_nonneg in Hd. lia.
Qed.
Lemma parse_cidr_ones s n : parse_cidr s = Some n -> 0 <= ones n.
Proof.
  unfold parse_cidr. destruct (cut "/" s) as [[x m]|]; [|done]. cbn [mbind option_bind].
  destruct (parse_addr x) as [ad|]; [|done]. cbn [mbind option_bind].
  destruct (is_empty m); [done|]. destruct (parse_digits 0 m) as [k|] eqn:Hk; [|done].
  cbn [mbind option_bind]. case_match_goal; [|done]. intros [= <-]. cbn.
  by eapply parse_digits_nonneg.
Qed.
Lemma parse_cidr_or_ip_ones raw n : parse_cidr_or_ip raw = Ok (Some n) -> 0 <= ones n.
Proof.
  unfold parse_cidr_or_ip. cbv zeta. intros H.
  repeat (case_match_hyp H; try discriminate); simplify_eq; by eapply parse_cidr_ones.
Qed.
(** The networks of a list of entries, blank ones skipped. *)
Definition networks_of (cidrs : list gostring) : list ipnet :=
  omap (fun raw => match parse_cidr_or_ip raw with Ok o => o | Err _ => None end) cidrs.
Lemma add_rules_spec act cidrs rs :
  add_rules act cidrs = Ok rs ->
  rs = map (fun n => CIDRRule n act (ones n)) (networks_of cidrs) /\
  Forall (fun n => 0 <= ones n) (networks_of cidrs).
Proof.
  revert rs; induction cidrs as [|raw l IH]; intros rs; cbn [add_rules]; [by intros [= <-]|].
  unfold networks_of in *. cbn [omap list_omap].
  destruct (parse_cidr_or_ip raw) as [[n|]|e] eqn:Hp; [| |done].
  - destruct (add_rules act l) as [rs'|]; [|done]. intros [= <-].
    destruct (IH rs' eq_refl) as [-> HF]. split; [done|]. constructor; [|done].
    by eapply parse_cidr_or_ip_ones.
  - apply IH.
Qed.
Lemma evaluate_permitted allow block a :
  Forall (fun n => 0 <= ones n) allow -> Forall (fun n => 0 <= ones n) block ->
  let rs := map (fun n => CIDRRule n ActionAllow (ones n)) allow
            ++ map (fun n => CIDRRule n ActionBlock (ones n)) block in
  evaluate (Some (NetworkPolicy rs (negb (length allow =? 0)%nat) false)) (Some a) = true
  <-> permitted allow block a.
Proof.
  intros Ha Hb rs.
  assert (Hok : Forall rule_ok rs).
  { apply Forall_app. split; apply Forall_map; (eapply Forall_impl; [eassumption|]); intros n Hn; by split_and!. }
  assert (Hin : forall r, r ∈ rs <-> exists n, (n ∈ allow /\ r = CIDRRule n ActionAllow (ones n)) \/
                                               (n ∈ block /\ r = CIDRRule n ActionBlock (ones n))).
  { intros r. unfold rs. rewrite elem_of_app, !list_elem_of_fmap. naive_solver. }
  pose proof (fold_eval_inv a rs Hok) as Hinv. unfold evaluate.
  cbn [allow_all np_rules orb has_explicit_allow].
  destruct (length rs =? 0)%nat eqn:Hz; breflect.
  { apply nil_length_inv in Hz. apply app_eq_nil in Hz as [->%map_eq_nil ->%map_eq_nil].
    split; [|done]. intros _. right. split; [done|]. intros m Hm. by apply not_elem_of_nil in Hm. }
  destruct (fold_left _ rs _) as [b act]. destruct Hinv as [Hmax Hcase]. cbn [fst snd] in *.
  assert (Hmb : forall n, n ∈ allow \/ n ∈ block -> net_contains n a = true -> ones n <= b).
  { intros n Hn Hc. destruct Hn as [Hn|Hn];
      [apply (Hmax (CIDRRule n ActionAllow (ones n))) | apply (Hmax (CIDRRule n ActionBlock (ones n)))];
      (split; [apply Hin; exists n; auto | done]). }
  rewrite Forall_forall in Ha, Hb.
  destruct Hcase as [->|[(H0 & -> & (r & [Hr Hc] & Hra & Hrb) & Hbl)|(H0 & -> & (r & [Hr Hc] & Hra & Hrb))]].
  - cbn. rewrite negb_involutive, Nat.eqb_eq. split.
    + intros ->%nil_length_inv. right. split; [done|]. intros m Hm.
      destruct (net_contains m a) eqn:Hc; [|done].
      specialize (Hmb m (or_intror Hm) Hc). specialize (Hb m Hm). lia.
    + intros [(n & Hn & Hc & _)|[-> _]]; [|done].
      specialize (Hmb n (or_introl Hn) Hc). specialize (Ha n Hn). lia.
  - rewrite (proj2 (Z.leb_le _ _)) by done. split; [|done]. intros _. left.
    apply Hin in Hr as (n & [[Hn ->]|[Hn ->]]); [|done]. cbn in *. exists n. split_and!; [done..|].
    intros m Hm Hmc. rewrite Hrb. apply (Hbl (CIDRRule m ActionBlock (ones m))); [|done].
    split; [apply Hin; eauto | done].
  - rewrite (proj2 (Z.leb_le _ _)) by done. split; [by rewrite bool_decide_eq_true|].
    apply Hin in Hr as (n & [[Hn ->]|[Hn ->]]); [done|]. cbn in *.
    intros [(k & Hk & Hkc & Hlt)|[-> Hno]].
    + specialize (Hlt n Hn Hc). specialize (Hmb k (or_introl Hk) Hkc). lia.
    + by rewrite (Hno n Hn) in Hc.
Qed.

(** * Properties *)

(** Match allows exactly the domains some pattern accepts: after
    lower-casing and dropping one trailing dot the domain is non-empty and a
    pattern is "*", the domain itself, or "*.suffix" with exactly one
    non-empty label before the suffix. *)
Theorem match_allow_iff `{UnicodeCase} (domain : gostring) (patterns : list gostring) :
  Match domain patterns = Allow <->
  normalize_domain domain <> [] /\
  exists p, p ∈ patterns /\ pattern_accepts (normalize_domain domain) (to_lower p).
Proof.
  unfold Match. cbv zeta. destruct (is_empty (normalize_domain domain)) eqn:He; breflect.
  - rewrite He. naive_solver.
  - rewrite match_loop_spec by lia. split.
    + intros [?|(p & Hp & Ha)]; [lia|]. split; [done|]. exists p. split; [done|]. by apply accepts_spec.
    + intros [_ (p & Hp & Ha)]. right. exists p. split; [done|]. by apply accepts_spec.
Qed.

(** C28: Evaluate is longest-prefix match.  A policy built without allowAll
    permits an address exactly when some allow network contains it and every
    block network containing it is strictly less specific (block wins ties),
    or when there are no allow networks and no block network contains it. *)
Theorem evaluate_lpm (allow block : list gostring) (a : ip) :
  match new_network_policy allow block false with
  | Ok p => evaluate (Some p) (Some a) = true <->
            permitted (networks_of allow) (networks_of block) a
  | Err (AllowNetwork _) => exists raw e, raw ∈ allow /\ parse_cidr_or_ip raw = Err e
  | Err (BlockNetwork _) => exists raw e, raw ∈ block /\ parse_cidr_or_ip raw = Err e
  end.
Proof.
  assert (Herr : forall act l e, add_rules act l = Err e ->
                 exists raw e, raw ∈ l /\ parse_cidr_or_ip raw = Err e).
  { intros act l e. induction l as [|raw l IH]; cbn [add_rules]; [done|].
    destruct (parse_cidr_or_ip raw) as [[n|]|e'] eqn:Hp.
    - destruct (add_rules act l); [done|]. intros He. destruct IH as (r & e' & Hr & ?); [done|].
      exists r, e'. split; [by right | done].
    - intros He. destruct IH as (r & e' & Hr & ?); [done|]. exists r, e'. split; [by right | done].
    - intros _. exists raw, e'. split; [left | done]. }
  unfold new_network_policy. destruct (add_rules ActionAllow allow) as [ra|e] eqn:Ha; [|by eapply Herr].
  destruct (add_rules ActionBlock block) as [rb|e] eqn:Hb; [|by eapply Herr].
  apply add_rules_spec in Ha as [-> Ha]. apply add_rules_spec in Hb as [-> Hb].
  rewrite length_map. by apply evaluate_permitted.
Qed.

(** A bare IPv4-mapped IPv6 address is widened to the network ::/32: the
    block entry does not block the address it names. *)
Example mapped_address_not_blocked :
  match new_network_policy [] [$"::ffff:1.2.3.4"] false, parse_ip $"::ffff:1.2.3.4" with
  | Ok p, Some a => evaluate (Some p) (Some a) = true
  | _, _ => False
  end.
Proof. vm_compute. reflexivity. Qed.
