(* ===== verification/ProxyServer.v ===== *)
(** The host side of egress channel A, [internal/egress/proxy/server.go]:
    the policy decision of every request, the choice of the address that is
    dialed, the upstream CONNECT handshake and the replies.

    Sockets and the HTTP parser are outside the model: a handler is a
    function from a parsed request to the decision, the audit events it
    emits, the dial it performs and the bytes it writes. *)
From S2P Require Import GoStrings GoNet Matcher.
Local Open Scope go_scope.

Record audit_event := AuditEvent { ev_allowed : bool; ev_host : gostring }.

(** [Server]; [None] is a nil hook.  [custom_dial] says whether [Dial] is
    set: the hook only replaces the dialer, so its value is not modelled. *)
Record server := Server {
  sni_domains : list gostring;
  upstream_proxy : gostring;
  dial_timeout_cfg : Z;
  audit : bool;
  custom_dial : bool;
  raw_target_check : option (gostring -> bool);
  resolve_raw_host : option (gostring -> gostring);
  net_policy : option network_policy }.

Definition format_audit (allowed : bool) (host : gostring) : gostring :=
  if allowed then $"ERLAUBT " ++ host else $"BLOCKIERT " ++ host.

(** Nanoseconds of [time.Duration]. *)
Definition default_dial_timeout : Z := 10 * 1000000000.
Definition dial_timeout (cfg : server) : Z :=
  if (0 <? dial_timeout_cfg cfg)%Z then dial_timeout_cfg cfg else default_dial_timeout.

(** [hostOnly := x; if h, _, err := net.SplitHostPort(x); err == nil { hostOnly = h }] *)
Definition host_only (hp : gostring) : gostring :=
  match split_host_port hp with Some (h, _) => h | None => hp end.

(** [decide]: the verdict and the audit events, in order. *)
Definition decide_ `{UnicodeCase} (cfg : server) (host_port : gostring) : bool * list audit_event :=
  let host := host_only host_port in
  let allowed := bool_decide (Match host (sni_domains cfg) = Allow) in
  let allowed :=
    match raw_target_check cfg with
    | Some check => if negb allowed
                    then if is_some (parse_ip host) then check host_port else allowed
                    else allowed
    | None => allowed
    end in
  let allowed :=
    match net_policy cfg with
    | Some p => if allowed
                then match parse_ip host with
                     | Some a => evaluate (Some p) (Some a)
                     | None => allowed
                     end
                else allowed
    | None => allowed
    end in
  (allowed, if audit cfg then [AuditEvent allowed host_port] else []).

(** [shouldBypassProxy]: [env] is [os.Getenv]. *)
Definition bypass_item `{UnicodeCase} (item h : gostring) : bool :=
  let h_lower := to_lower h in
  let item_lower := to_lower item in
  (seqb item_lower $"*" || seqb h_lower item_lower)
  || (has_prefix item_lower $"."
      && (has_suffix h_lower item_lower || seqb h_lower (trim_prefix item_lower $".")))
  || has_suffix h_lower ("."%char :: item_lower)
  || match parse_ip h with
     | Some a => match parse_cidr item with Some n => net_contains n a | None => false end
     | None => false
     end.
Definition should_bypass_proxy `{UnicodeCase} (env : gostring -> gostring) (target : gostring)
    (resolve : option (gostring -> gostring)) : bool :=
  let no_proxy := or_else (env $"NO_PROXY") (env $"no_proxy") in
  if is_empty no_proxy then false
  else if seqb no_proxy $"*" then true
  else
    let host := host_only target in
    let hosts := [host] ++ match resolve with
                           | Some f => if is_empty (f host) then [] else [f host]
                           | None => []
                           end in
    existsb (fun item => let item := trim_space item in
                         if is_empty item then false else existsb (bypass_item item) hosts)
            (split "," no_proxy).

(** * Dialing *)
Inductive dial_err :=
  | TargetIPBlocked (a : ip)
  | ResolvesOnlyToBlocked (host : gostring)
  | DialFailed (addr : gostring)
  | DialUpstream (addr : gostring)
  | SendConnect
  | ReadConnectResponse
  | UpstreamRefused (status : Z).
(** The network, as the outcomes it gives: a lookup (empty on error), a TCP
    dial, and the exchange with an upstream proxy for the request bytes sent:
    [None] when the write fails, [Some None] when no response can be read. *)
Record network := Network {
  lookup_ip : gostring -> list ip;
  tcp_dial : gostring -> bool;
  connect_exchange : gostring -> gostring -> option (option Z) }.
(** A connection: to an address, or a tunnel to a target by an upstream. *)
Inductive conn := Direct (addr : gostring) | Tunnel (upstream target : gostring).

Definition connect_request (target : gostring) : gostring :=
  let crlf := ["013"%char; "010"%char] in
  $"CONNECT " ++ target ++ $" HTTP/1.1" ++ crlf ++ $"Host: " ++ target ++ crlf ++ crlf.

(** The address resolution and policy part of [dialTarget]: the address a
    direct dial uses. *)
Definition dial_address (net : network) (cfg : server) (target : gostring) : result dial_err gostring :=
  match net_policy cfg with
  | None => Ok target
  | Some p =>
      let '(host, port) := match split_host_port target with
                           | Some hp => hp
                           | None => (target, $"80")
                           end in
      match parse_ip host with
      | Some a => if evaluate (Some p) (Some a) then Ok target else Err (TargetIPBlocked a)
      | None =>
          if custom_dial cfg then Ok target
          else match lookup_ip net host with
               | [] => Ok target
               | ips => match List.find (fun a => evaluate (Some p) (Some a)) ips with
                        | None => Err (ResolvesOnlyToBlocked host)
                        | Some a => if is_empty (upstream_proxy cfg)
                                    then Ok (join_host_port (ip_string a) port)
                                    else Ok target
                        end
               end
      end
  end.
Definition dial_upstream (net : network) (up target : gostring) : result dial_err conn :=
  if negb (tcp_dial net up) then Err (DialUpstream up)
  else match connect_exchange net up (connect_request target) with
       | None => Err SendConnect
       | Some None => Err ReadConnectResponse
       | Some (Some status) => if (status =? 200)%Z then Ok (Tunnel up target)
                               else Err (UpstreamRefused status)
       end.
Definition dial_target `{UnicodeCase} (net : network) (env : gostring -> gostring) (cfg : server)
    (target : gostring) : result dial_err conn :=
  addr ← dial_address net cfg target;
  if is_empty (upstream_proxy cfg) || should_bypass_proxy env target (resolve_raw_host cfg)
  then if tcp_dial net addr then Ok (Direct addr) else Err (DialFailed addr)
  else dial_upstream net (upstream_proxy cfg) target.

(** * Handlers *)
Definition status_text (code : Z) : gostring :=
  if (code =? 400)%Z then $"Bad Request"
  else if (code =? 403)%Z then $"Forbidden"
  else if (code =? 502)%Z then $"Bad Gateway" else [].
Definition simple_status (code : Z) (message : gostring) : gostring :=
  let nl := ["013"%char; "010"%char] in
  let body := message ++ ["010"%char] in
  $"HTTP/1.1 " ++ itoa code ++ $" " ++ status_text code ++ nl
  ++ $"Content-Type: text/plain; charset=utf-8" ++ nl
  ++ $"Content-Length: " ++ itoa (Z.of_nat (length body)) ++ nl
  ++ $"Connection: close" ++ nl ++ nl ++ body.
Definition established : gostring :=
  let crlf := ["013"%char; "010"%char] in $"HTTP/1.1 200 Connection Established" ++ crlf ++ crlf.

(** What a handler does with its stream: a reply with an error status, a
    tunnel after [established], or the relayed answer to a forwarded request;
    a request that could not be forwarded is answered with 502, too, with the
    connection on which it failed, if it came to one. *)
Inductive served :=
  | Refused (code : Z)
  | BadGateway (e : dial_err)
  | Tunneled (c : conn)
  | Forwarded (host : gostring) (c : conn)
  | ForwardFailed (c : option conn).
Definition opened (s : served) : option conn :=
  match s with Tunneled c | Forwarded _ c => Some c | ForwardFailed c => c | _ => None end.
Record request := Request { req_method : gostring; request_uri : gostring;
                            req_host : gostring; url_host : gostring }.
Definition handle_connect `{UnicodeCase} (net : network) (env : gostring -> gostring) (cfg : server)
    (req : request) : served * list audit_event :=
  let target := request_uri req in
  let '(ok, evs) := decide_ cfg target in
  if negb ok then (Refused 403, evs)
  else match dial_target net env cfg target with
       | Err e => (BadGateway e, evs)
       | Ok c => (Tunneled c, evs)
       end.
(** [http.Transport], as far as it is asked here: the punycode of a name with
    other characters than ASCII ([None] on error), whether it refuses a
    request before it dials (a header or method that is not valid), and
    whether an answer with complete headers comes on a connection within the
    timeout.  A transport is made for each request, so it dials for each, with
    the host and port of the URL. *)
Record transport := Transport {
  to_ascii : gostring -> option gostring;
  refuses : request -> bool;
  responds : conn -> request -> bool }.
Definition canonical_addr (tr : transport) (host : gostring) : gostring :=
  let '(name, port) := url_split host in
  join_host_port (if forallb is_ascii name then name else default name (to_ascii tr name)) (or_else port $"80").
Definition round_trip `{UnicodeCase} (tr : transport) (net : network) (env : gostring -> gostring) (cfg : server)
    (req : request) (host : gostring) : served :=
  if refuses tr req then ForwardFailed None
  else match dial_target net env cfg (canonical_addr tr host) with
       | Err e => BadGateway e
       | Ok c => if responds tr c req then Forwarded host c else ForwardFailed (Some c)
       end.
Definition handle_http `{UnicodeCase} (tr : transport) (net : network) (env : gostring -> gostring) (cfg : server)
    (req : request) : served * list audit_event :=
  let host := or_else (req_host req) (url_host req) in
  if is_empty host then (Refused 400, [])
  else let '(ok, evs) := decide_ cfg host in
       if negb ok then (Refused 403, evs) else (round_trip tr net env cfg req host, evs).
Definition handle_stream `{UnicodeCase} (tr : transport) (net : network) (env : gostring -> gostring) (cfg : server)
    (req : option request) : option (served * list audit_event) :=
  match req with
  | None => None
  | Some r => Some (if seqb (req_method r) $"CONNECT" then handle_connect net env cfg r
                    else handle_http tr net env cfg r)
  end.
(** [Serve]: the streams that [Accept] gives, each with its request, until it
    fails; each has a goroutine of its own. *)
Definition serve `{UnicodeCase} (tr : transport) (net : network) (env : gostring -> gostring) (cfg : server)
    (accepted : list (option request)) : list (option (served * list audit_event)) :=
  map (handle_stream tr net env cfg) accepted.
(** What a request asks for, as the whitelist sees it, and what is dialed. *)
Definition asked (req : request) : gostring :=
  if seqb (req_method req) $"CONNECT" then request_uri req else or_else (req_host req) (url_host req).
Definition dial_name (tr : transport) (req : request) : gostring :=
  if seqb (req_method req) $"CONNECT" then request_uri req else canonical_addr tr (asked req).

(** * Lemmas *)
Definition policy_allows (cfg : server) (a : ip) : bool :=
  match net_policy cfg with Some p => evaluate (Some p) (Some a) | None => true end.

Lemma decide_verdict `{UnicodeCase} cfg hp :
  (decide_ cfg hp).1 = true <->
  (Match (host_only hp) (sni_domains cfg) = Allow \/
   exists check a, raw_target_check cfg = Some check /\ parse_ip (host_only hp) = Some a /\ check hp = true)
  /\ forall a, parse_ip (host_only hp) = Some a -> policy_allows cfg a = true.
Proof.
  unfold decide_, policy_allows. cbv zeta. cbn [fst].
  destruct (parse_ip (host_only hp)) as [a|], (net_policy cfg) as [p|], (raw_target_check cfg) as [f|];
    case_bool_decide; cbn; try (destruct (f hp) eqn:?); cbn; naive_solver.
Qed.

Lemma dial_address_direct net cfg t addr :
  dial_address net cfg t = Ok addr ->
  addr = t \/
  exists a port, a ∈ lookup_ip net (host_only t) /\
    policy_allows cfg a = true /\ addr = join_host_port (ip_string a) port.
Proof.
  unfold dial_address, policy_allows, host_only.
  destruct (net_policy cfg) as [p|]; [|by intros [= <-]; left].
  destruct (split_host_port t) as [[h port]|]; intros H;
    (destruct (parse_ip _); [case_match_hyp H; [injection H as <-; by left | done]|]);
    (destruct (custom_dial cfg); [injection H as <-; by left|]);
    (destruct (lookup_ip net _) as [|a0 ips] eqn:Hl; [injection H as <-; by left|]);
    (destruct (List.find _ _) as [a|] eqn:Hf; [|done]; apply List.find_some in Hf as [Hin Ha]);
    (destruct (is_empty _); injection H as <-; [right | by left]);
    (eexists _, _; split_and!; [by apply list_elem_of_In | done | done]).
Qed.
(** Without an upstream, a resolved name is dialed at a checked address. *)
Lemma dial_address_pinned net cfg t addr :
  dial_address net cfg t = Ok addr ->
  upstream_proxy cfg = [] -> custom_dial cfg = false -> is_some (net_policy cfg) = true ->
  parse_ip (host_only t) = None -> lookup_ip net (host_only t) <> [] ->
  exists a port, a ∈ lookup_ip net (host_only t) /\
    policy_allows cfg a = true /\ addr = join_host_port (ip_string a) port.
Proof.
  unfold dial_address, policy_allows, host_only. intros H Hup Hcd Hp Hip Hl.
  destruct (net_policy cfg) as [p|]; [|done]. rewrite Hup, Hcd in H.
  destruct (split_host_port t) as [[h port]|]; rewrite Hip in H;
    (destruct (lookup_ip net _) as [|a0 ips]; [done|]);
    (destruct (List.find _ _) as [a|] eqn:Hf; [|done]; apply List.find_some in Hf as [Hin Ha]);
    cbn [is_empty] in H; injection H as <-;
    (eexists _, _; split_and!; [by apply list_elem_of_In | done | done]).
Qed.
Lemma dial_upstream_ok net up t c : dial_upstream net up t = Ok c -> c = Tunnel up t.
Proof. unfold dial_upstream. intros H. repeat (case_match_hyp H; try discriminate); congruence. Qed.

(** Where a connection for [target] leads: an address has passed the policy;
    a direct connection is to the target or to an address of its name that
    has; and to such an address if the name can be looked up here. *)
Definition reaches (net : network) (cfg : server) (target : gostring) (c : conn) : Prop :=
  (forall a, parse_ip (host_only target) = Some a -> policy_allows cfg a = true) /\
  match c with
  | Tunnel up t => up = upstream_proxy cfg /\ t = target /\ up <> []
  | Direct addr =>
      addr = target \/
      exists a port, a ∈ lookup_ip net (host_only target) /\
        policy_allows cfg a = true /\ addr = join_host_port (ip_string a) port
  end /\
  (upstream_proxy cfg = [] -> custom_dial cfg = false -> is_some (net_policy cfg) = true ->
   parse_ip (host_only target) = None -> lookup_ip net (host_only target) <> [] ->
   exists a port, a ∈ lookup_ip net (host_only target) /\
     policy_allows cfg a = true /\ c = Direct (join_host_port (ip_string a) port)).
Lemma dial_address_literal net cfg t addr a :
  dial_address net cfg t = Ok addr -> parse_ip (host_only t) = Some a -> policy_allows cfg a = true.
Proof.
  unfold dial_address, policy_allows, host_only. destruct (net_policy cfg) as [p|]; [|done]. intros H Ha.
  destruct (split_host_port t) as [[h port]|]; rewrite Ha in H; by case_match_hyp H.
Qed.
Lemma dial_target_reaches `{UnicodeCase} net env cfg target c :
  dial_target net env cfg target = Ok c -> reaches net cfg target c.
Proof.
  unfold dial_target. intros (addr & Haddr & Hc)%bind_ok_inv.
  assert (Hdirect : forall c', (if tcp_dial net addr then Ok (Direct addr) else Err (DialFailed addr)) = Ok c' ->
                    c' = Direct addr) by (intros c'; destruct (tcp_dial _ _); congruence).
  split; [intros a; by eapply dial_address_literal|]. split.
  - destruct (_ || _) eqn:Hb; [apply Hdirect in Hc as ->; by eapply dial_address_direct|].
    apply dial_upstream_ok in Hc as ->. breflect. done.
  - intros Hup Hcd Hp Hip Hl. rewrite Hup in Hc. cbn [is_empty orb] in Hc.
    apply Hdirect in Hc as ->.
    destruct (dial_address_pinned net cfg target addr) as (a & p' & ? & ? & ->); eauto.
Qed.
(** Whatever a handler opens was allowed by [decide] and dialed by
    [dialTarget]. *)
Lemma stream_opened `{UnicodeCase} tr net env cfg req s evs c :
  handle_stream tr net env cfg (Some req) = Some (s, evs) -> opened s = Some c ->
  (decide_ cfg (asked req)).1 = true /\ reaches net cfg (dial_name tr req) c.
Proof.
  unfold handle_stream, asked, dial_name, asked. intros [= Hrun] Hc.
  destruct (seqb (req_method req) _).
  - unfold handle_connect in Hrun. destruct (decide_ _ _) as [[] evs'] eqn:Hd; [|by injection Hrun as <- _].
    destruct (dial_target _ _ _ _) as [c'|e] eqn:Ht; injection Hrun as <- _; [|done].
    injection Hc as ->. split; [done|]. by eapply dial_target_reaches.
  - unfold handle_http in Hrun. destruct (is_empty _); [by injection Hrun as <- _|].
    destruct (decide_ _ _) as [[] evs'] eqn:Hd; [|by injection Hrun as <- _].
    cbn [negb] in Hrun. injection Hrun as <- _. split; [done|]. unfold round_trip in Hc.
    destruct (refuses tr req); [done|]. destruct (dial_target _ _ _ _) as [c'|e] eqn:Ht; [|done].
    apply dial_target_reaches in Ht. destruct (responds tr c' req); cbn in Hc; by injection Hc as ->.
Qed.
(** The name that is dialed for a plain request is the one that was decided
    on, when it has no brackets or colons. *)
Lemma canonical_same_name tr name port :
  forallb is_ascii name = true -> name <> [] -> (forall c, c ∈ name -> c ∉ $":%[]") -> Forall (fun c => is_digit c = true) port -> port <> [] ->
  canonical_addr tr (name ++ ":"%char :: port) = name ++ ":"%char :: port /\
  canonical_addr tr name = name ++ $":80".
Proof.
  intros Ha Hn Hfree Hp Hpn.
  assert (Hc : forall c, c ∈ $":%[]" -> c ∉ name) by (intros c Hc Hin; by apply (Hfree c)).
  assert (Hcolon : ":"%char ∉ name) by (apply Hc; set_solver). assert (Hpct : "%"%char ∉ name) by (apply Hc; set_solver).
  assert (Hopen : has_prefix name $"[" = false).
  { destruct (has_prefix name _) eqn:Hx; [|done]. apply has_prefix_true in Hx as [t ->]. exfalso. apply (Hc "["%char); set_solver. }
  assert (Hjoin : forall p, join_host_port name p = name ++ ":"%char :: p).
  { intros q. unfold join_host_port. by rewrite (proj2 (contains_byte_false _ _) Hcolon), (proj2 (contains_byte_false _ _) Hpct). }
  assert (Hdrop : drop (S (length name)) (name ++ ":"%char :: port) = port).
  { rewrite drop_app_ge by lia. by replace (S (length name) - length name) with 1 by lia. }
  assert (Hpc : ":"%char ∉ port) by (intros Hin; by apply (proj1 (Forall_forall _ _) Hp) in Hin).
  assert (Hdig : forallb is_digit port = true).
  { apply forallb_forall. intros c Hin%list_elem_of_In. by apply (proj1 (Forall_forall _ _) Hp). }
  unfold canonical_addr, url_split. split.
  - rewrite last_index_byte_app by done. rewrite Hdrop, Hdig.
    rewrite take_app_length, Hopen. cbn [andb]. rewrite Ha, Hjoin. destruct port; done.
  - rewrite (proj2 (last_index_byte_none _ _) Hcolon), Hopen. cbn [andb]. by rewrite Ha, Hjoin.
Qed.

(** * Properties *)

(** the policy decision.  A request is allowed exactly when the
    whitelist allows its host, or the host is an IP literal the raw-target
    hook accepts; and in either case an IP literal must also pass the network
    policy.  Exactly one audit event with that verdict is emitted. *)
Theorem decide_spec `{UnicodeCase} (cfg : server) (hp : gostring) :
  let '(ok, evs) := decide_ cfg hp in
  evs = (if audit cfg then [AuditEvent ok hp] else []) /\
  (ok = true <->
   (Match (host_only hp) (sni_domains cfg) = Allow \/
    exists check a, raw_target_check cfg = Some check /\
                    parse_ip (host_only hp) = Some a /\ check hp = true) /\
   forall a, parse_ip (host_only hp) = Some a -> policy_allows cfg a = true).
Proof.
  pose proof (decide_verdict cfg hp) as Hv. destruct (decide_ cfg hp) as [ok evs] eqn:Hd.
  split; [|exact Hv]. unfold decide_ in Hd. by injection Hd as <- <-.
Qed.

(** No connection that the policy refuses, for a CONNECT and for a plain
    request: when a handler opens a connection the decision was to allow the
    request, an IP literal passed the network policy when it was dialed, and
    a direct dial of a resolved name without an upstream goes to an address of
    the lookup that passed the policy. *)
Theorem requests_respect_policy `{UnicodeCase} (tr : transport) (net : network) (env : gostring -> gostring)
    (cfg : server) (req : request) (s : served) (evs : list audit_event) (c : conn)
    (Hrun : handle_stream tr net env cfg (Some req) = Some (s, evs)) (Hopened : opened s = Some c) :
  (decide_ cfg (asked req)).1 = true /\ reaches net cfg (dial_name tr req) c /\
  evs = (if audit cfg then [AuditEvent true (asked req)] else []).
Proof.
  destruct (stream_opened _ _ _ _ _ _ _ _ Hrun Hopened) as [Hd Hr]. split; [done|]. split; [done|].
  pose proof (decide_spec cfg (asked req)) as Hs. unfold handle_stream, asked in *. injection Hrun as Hrun.
  destruct (seqb (req_method req) _).
  - unfold handle_connect in Hrun. destruct (decide_ _ _) as [ok es]. cbn in Hd. subst ok. destruct Hs as [-> _].
    cbn [negb] in Hrun. by destruct (dial_target _ _ _ _); injection Hrun as _ <-.
  - unfold handle_http in Hrun. destruct (is_empty _); [by injection Hrun as <- _|].
    destruct (decide_ _ _) as [ok es]. cbn in Hd. subst ok. destruct Hs as [-> _]. by injection Hrun as _ <-.
Qed.
(** * Concrete requests *)
Module Example_.
#[local] Instance lower : UnicodeCase := fun s => s.
Definition tr1 : transport := Transport (fun _ => None) (fun _ => false) (fun _ _ => true).
Definition block_ten : network_policy := NetworkPolicy [CIDRRule (IPNet [10;0;0;0]%Z 8 4) ActionBlock 8] false false.
Definition cfg1 (domains : list gostring) : server := Server domains [] 0 true false None None (Some block_ten).
Definition looks_up (ips : list ip) : network := Network (fun _ => ips) (fun _ => true) (fun _ _ => None).
Definition both (net : network) (cfg : server) (host : gostring) : list (option served) :=
  map (option_map fst) (serve tr1 net (fun _ => []) cfg
    [Some (Request $"CONNECT" (host ++ $":80") [] []); Some (Request $"GET" $"/" host [])]).
Example first_allowed_address :
  both (looks_up [[10;0;0;1]; [1;2;3;4]]%Z) (cfg1 [$"example.com"]) $"example.com" =
  [Some (Tunneled (Direct $"1.2.3.4:80")); Some (Forwarded $"example.com" (Direct $"1.2.3.4:80"))].
Proof. vm_compute. reflexivity. Qed.
(** A lookup that fails is not an error: the name is dialed, and resolved
    again by the dialer, whose addresses nobody holds against the policy. *)
Example failed_lookup_dials_by_name :
  both (looks_up []) (cfg1 [$"example.com"]) $"example.com" =
  [Some (Tunneled (Direct $"example.com:80")); Some (Forwarded $"example.com" (Direct $"example.com:80"))].
Proof. vm_compute. reflexivity. Qed.
(** A bracketed address without a port is no address for [decide]; it is one
    when it is dialed. *)
Example bracketed_address :
  let cfg := Server [$"*"] [] 0 true false None None
    (Some (NetworkPolicy [CIDRRule (IPNet (replicate 16 0)%Z 64 16) ActionBlock 64] false false)) in
  (fst (decide_ cfg $"[::1]"), handle_stream tr1 (looks_up []) (fun _ => []) cfg (Some (Request $"GET" $"/" $"[::1]" []))) =
  (true, Some (BadGateway (TargetIPBlocked (replicate 15 0 ++ [1])%Z), [AuditEvent true $"[::1]"])).
Proof. vm_compute. reflexivity. Qed.
Example refused_and_failed :
  (both (looks_up []) (cfg1 [$"example.com"]) $"10.0.0.1", both (looks_up [[10;0;0;1]%Z]) (cfg1 [$"*"]) $"db",
   handle_stream tr1 (looks_up []) (fun _ => []) (cfg1 [$"*"]) (Some (Request $"GET" $"/" [] [])),
   serve tr1 (looks_up []) (fun _ => []) (cfg1 []) [None]) =
  ([Some (Refused 403); Some (Refused 403)],
   [Some (BadGateway (ResolvesOnlyToBlocked $"db")); Some (BadGateway (ResolvesOnlyToBlocked $"db"))],
   Some (Refused 400, []), [None]).
Proof. vm_compute. reflexivity. Qed.
Lemma requests_respect_policy_witness :
  reaches (looks_up [[10;0;0;1]; [1;2;3;4]]%Z) (cfg1 [$"example.com"]) $"example.com:80" (Direct $"1.2.3.4:80").
Proof.
  refine (proj1 (proj2 (requests_respect_policy tr1 (looks_up [[10;0;0;1]; [1;2;3;4]]%Z) (fun _ => []) (cfg1 [$"example.com"])
    (Request $"GET" $"/" $"example.com" []) (Forwarded $"example.com" (Direct $"1.2.3.4:80"))
    [AuditEvent true $"example.com"] (Direct $"1.2.3.4:80") _ eq_refl))).
  vm_compute. reflexivity.
Defined.
End Example_.
