(* ===== verification/ConfigTypes.v ===== *)
(** The configuration model of [internal/config/types.go]: the schema of the
    repository file [.keg.yaml] and of the user file [config.yaml], and the
    validation both go through before anything is launched. *)
From S2P Require Import GoStrings GoPath.
Local Open Scope go_scope.
Local Open Scope Z_scope.

(** * Schema *)
Definition supported_version : gostring := $"1".
Definition builtin_templates : list gostring := [$"go"; $"golang"; $"java"; $"node"; $"python"].

Abbreviation strmap := (gmap gostring gostring).

Definition MountRO : gostring := $"ro".
Definition MountRW : gostring := $"rw".
Definition MountDev : gostring := $"dev".
Definition MountTmpfs : gostring := $"tmpfs".
Definition MountEphemeral : gostring := $"ephemeral".
Definition MountDisk : gostring := $"disk".
Definition mount_mode_valid (m : gostring) : bool :=
  smem m [MountRO; MountRW; MountDev; MountTmpfs; MountEphemeral; MountDisk].

Record env_spec := EnvSpec {
  env_unset : list gostring; env_set : strmap; env_inherit : list gostring; env_inherit_all : bool }.
Record mount := Mount {
  m_src : gostring; m_dest : gostring; m_mode : gostring;
  m_overlay_rw : gostring; m_overlay_work : gostring }.
Record secret_ref := SecretRef { ref_name : gostring; ref_env : gostring }.
Record port_spec := PortSpec {
  ps_name : gostring; ps_host_ip : gostring; ps_guest : Z; ps_host : Z; ps_dynamic : bool }.
Record forward_host_spec := ForwardHostSpec { fh_guest : Z; fh_target : gostring; fh_target_port : Z }.
Record tcp_endpoint := TCPEndpoint { te_host : gostring; te_ports : list Z }.
Record dns_cfg := DNS { dns_enabled : bool; dns_upstream : gostring; dns_hosts : strmap }.
Record network_cfg := Network {
  nw_mode : gostring; nw_dns : dns_cfg; nw_sni : list gostring; nw_allow : list gostring;
  nw_block : list gostring; nw_tcp : list tcp_endpoint }.
Record raw_rule := RawRule {
  rr_cmd : gostring; rr_description : gostring; rr_subcommands : list gostring;
  rr_opts_with_value : list gostring; rr_flags : list gostring;
  rr_allow_opt_value_form : bool; rr_forbidden : list gostring }.
Record delegated_tasks := DelegatedTasks {
  dt_exact : list gostring; dt_prefixes : list gostring; dt_raw : list raw_rule;
  dt_descriptions : strmap }.
Record repo_paths := RepoPaths {
  rp_extra : list gostring; rp_prepend : list gostring; rp_append : list gostring }.
Record repo := Repo {
  r_version : gostring; r_vars : strmap; r_templates : list gostring; r_paths : repo_paths;
  r_env : env_spec; r_bwrap_args : list gostring; r_mounts : list mount;
  r_secrets : list secret_ref; r_ports : list port_spec; r_forward : list forward_host_spec;
  r_network : network_cfg; r_tasks : delegated_tasks; r_anchors : list gostring }.
Record paths_cfg := Paths {
  pa_storage : gostring; pa_tmp : gostring; pa_gomod : gostring; pa_gobuild : gostring;
  pa_extra : list gostring; pa_prepend : list gostring; pa_append : list gostring }.
(** [RunnerCfg] and [RunnerOverride] have the same fields. *)
Record runner_cfg := RunnerCfg {
  rc_just_bin : gostring; rc_exact : list gostring; rc_prefixes : list gostring;
  rc_raw : list raw_rule; rc_descriptions : strmap }.
Record exec_source := ExecSource { es_cmd : list gostring; es_cache : gostring; es_timeout : Z }.
Record security_cfg := Security {
  allow_weak_bwrap : option bool; sec_landlock : gostring; sec_seccomp : gostring }.
Record secret_source := SecretSource {
  ss_cmd : list gostring; ss_interval : Z; ss_timeout : Z; ss_on_error : gostring;
  ss_always : bool; ss_async : bool }.
Record repo_override := RepoOverride {
  ro_paths : option paths_cfg; ro_runner : option runner_cfg; ro_vars : strmap;
  ro_mounts : list mount; ro_network : network_cfg; ro_env : env_spec;
  ro_secrets : list secret_ref }.
Record user := User {
  u_paths : paths_cfg; u_runner : runner_cfg; u_vars : strmap; u_allow_env : option bool;
  u_vars_from_exec : gmap gostring exec_source; u_security : security_cfg; u_audit_file : gostring;
  u_secret_sources : gmap gostring secret_source; u_inject_needs : list secret_ref;
  u_secrets : strmap; u_mounts : list mount; u_network : network_cfg; u_env : env_spec;
  u_repos : gmap gostring repo_override }.

Definition empty_env : env_spec := EnvSpec [] ∅ [] false.
Definition empty_network : network_cfg := Network [] (DNS false [] ∅) [] [] [] [].
Definition empty_paths : paths_cfg := Paths [] [] [] [] [] [] [].
Definition empty_runner : runner_cfg := RunnerCfg [] [] [] [] ∅.
Definition empty_security : security_cfg := Security None [] [].
Definition empty_user : user :=
  User empty_paths empty_runner ∅ None ∅ empty_security [] ∅ [] ∅ [] empty_network empty_env ∅.
Definition empty_repo : repo :=
  Repo [] ∅ [] (RepoPaths [] [] []) empty_env [] [] [] [] [] empty_network (DelegatedTasks [] [] [] ∅) [].

(** * Validation *)
(** The file section an error message names. *)
Inductive scope := InRepo | InUser | InOverride (pattern : gostring).
Inductive path_list := PExtra | PPrepend | PAppend.
Inductive config_err :=
  | VersionRequired
  | UnsupportedVersion (v : gostring)
  | UnknownTemplate (t : gostring)
  | MountDestRequired (i : nat)
  | MountInvalidMode (i : nat) (mode : gostring)
  | PortOutOfRange (i : nat) (p : port_spec)
  | DynamicNeedsName (i : nat)
  | RawNoSubcommands (i : nat) (cmd : gostring)
  | BadNetworkMode
  | EndpointHostRequired (i : nat)
  | EndpointPortRequired (i : nat) (host : gostring)
  | EndpointInvalidPort (i : nat) (port : Z)
  | HostsEmptyTarget (name : gostring)
  | AnchorEmpty (i : nat)
  | AnchorAbsolute (i : nat) (a : gostring)
  | AnchorEscapes (i : nat) (a : gostring)
  | PathEmpty (s : scope) (l : path_list) (i : nat)
  | InheritEmpty (s : scope) (i : nat)
  | InheritHasEq (s : scope) (i : nat) (name : gostring)
  | UnsetEmpty (s : scope) (i : nat)
  | UnsetHasEq (s : scope) (i : nat) (name : gostring)
  | SecretEmptyName
  | SecretEmptyPath (name : gostring)
  | SecretClash (name : gostring)
  | BadOnRefreshError (name : gostring)
  | SourceCmdRequired (name : gostring)
  | OverrideSecretEmptyName (pattern : gostring)
  | ExecCmdRequired (name : gostring)
  | ExecBadCache (name : gostring)
  | BadLandlock
  | BadSeccomp.
Abbreviation check := (result config_err unit).
Definition fail_if (b : bool) (e : config_err) : check := if b then Err e else Ok tt.

Definition check_nonblank (s : scope) (l : path_list) (ps : list gostring) : check :=
  iterM (fun i p => fail_if (is_empty (trim_space p)) (PathEmpty s l i)) ps.
Definition check_names (empty : nat -> config_err) (has_eq : nat -> gostring -> config_err)
    (names : list gostring) : check :=
  iterM (fun i name =>
    if is_empty (trim_space name) then Err (empty i)
    else fail_if (contains_byte "=" name) (has_eq i name)) names.
Definition env_validate (s : scope) (e : env_spec) : check :=
  _ ← check_names (InheritEmpty s) (InheritHasEq s) (env_inherit e);
  check_names (UnsetEmpty s) (UnsetHasEq s) (env_unset e).

Definition check_mount (i : nat) (m : mount) : check :=
  if is_empty (m_dest m) && negb (seqb (m_mode m) MountTmpfs) then Err (MountDestRequired i)
  else if is_empty (m_mode m) then Ok tt
  else fail_if (negb (mount_mode_valid (m_mode m))) (MountInvalidMode i (m_mode m)).
Definition check_port (i : nat) (p : port_spec) : check :=
  if (ps_guest p <=? 0) || (65535 <? ps_guest p) || (ps_host p <=? 0) || (65535 <? ps_host p)
  then Err (PortOutOfRange i p)
  else fail_if (ps_dynamic p && is_empty (ps_name p)) (DynamicNeedsName i).
Definition check_endpoint (i : nat) (ep : tcp_endpoint) : check :=
  if is_empty (te_host ep) then Err (EndpointHostRequired i)
  else if (length (te_ports ep) =? 0)%nat then Err (EndpointPortRequired i (te_host ep))
  else iterM (fun _ port => fail_if ((port <=? 0) || (65535 <? port)) (EndpointInvalidPort i port))
             (te_ports ep).
Definition check_anchor (i : nat) (anchor : gostring) : check :=
  let trimmed := trim_space anchor in
  if is_empty trimmed then Err (AnchorEmpty i)
  else if is_abs trimmed then Err (AnchorAbsolute i anchor)
  else let cleaned := clean trimmed in
       fail_if (seqb cleaned $".." || has_prefix cleaned $"../") (AnchorEscapes i anchor).

Definition repo_validate `{MapRange gostring} (r : repo) : check :=
  _ ← fail_if (is_empty (r_version r)) VersionRequired;
  _ ← fail_if (negb (seqb (r_version r) supported_version)) (UnsupportedVersion (r_version r));
  _ ← iterM (fun _ t => fail_if (negb (smem t builtin_templates)) (UnknownTemplate t)) (r_templates r);
  _ ← iterM check_mount (r_mounts r);
  _ ← iterM check_port (r_ports r);
  _ ← iterM (fun i raw => fail_if (length (rr_subcommands raw) =? 0)%nat (RawNoSubcommands i (rr_cmd raw)))
            (dt_raw (r_tasks r));
  _ ← fail_if (negb (smem (nw_mode (r_network r)) [[]; $"proxy"; $"transparent"; $"both"])) BadNetworkMode;
  _ ← iterM check_endpoint (nw_tcp (r_network r));
  _ ← iterM (fun _ kv => fail_if (is_empty (snd kv)) (HostsEmptyTarget (fst kv)))
            (map_range (dns_hosts (nw_dns (r_network r))));
  _ ← iterM check_anchor (r_anchors r);
  _ ← check_nonblank InRepo PExtra (rp_extra (r_paths r));
  _ ← check_nonblank InRepo PPrepend (rp_prepend (r_paths r));
  _ ← check_nonblank InRepo PAppend (rp_append (r_paths r));
  env_validate InRepo (r_env r).

Definition check_paths (s : scope) (p : paths_cfg) : check :=
  _ ← check_nonblank s PExtra (pa_extra p);
  _ ← check_nonblank s PPrepend (pa_prepend p);
  check_nonblank s PAppend (pa_append p).
Definition check_secret (sources : gmap gostring secret_source) (kv : gostring * gostring) : check :=
  let '(name, host_path) := kv in
  if is_empty name then Err SecretEmptyName
  else if is_empty (trim_space host_path) then Err (SecretEmptyPath name)
  else match sources !! name with Some _ => Err (SecretClash name) | None => Ok tt end.
Definition check_source (kv : gostring * secret_source) : check :=
  let '(name, src) := kv in
  if negb (smem (ss_on_error src) [[]; $"keep"; $"fail"]) then Err (BadOnRefreshError name)
  else fail_if (length (ss_cmd src) =? 0)%nat (SourceCmdRequired name).
Definition check_override (kv : gostring * repo_override) : check :=
  let '(pat, o) := kv in
  _ ← match ro_paths o with Some p => check_paths (InOverride pat) p | None => Ok tt end;
  _ ← env_validate (InOverride pat) (ro_env o);
  iterM (fun _ ref => fail_if (is_empty (ref_name ref)) (OverrideSecretEmptyName pat)) (ro_secrets o).
Definition check_exec (kv : gostring * exec_source) : check :=
  let '(name, src) := kv in
  if (length (es_cmd src) =? 0)%nat then Err (ExecCmdRequired name)
  else fail_if (negb (smem (es_cache src) [[]; $"session"; $"none"])) (ExecBadCache name).
Definition user_validate `{MapRange gostring, MapRange secret_source, MapRange repo_override,
    MapRange exec_source} (u : user) : check :=
  _ ← env_validate InUser (u_env u);
  _ ← check_paths InUser (u_paths u);
  _ ← iterM (fun _ => check_secret (u_secret_sources u)) (map_range (u_secrets u));
  _ ← iterM (fun _ => check_source) (map_range (u_secret_sources u));
  _ ← iterM (fun _ => check_override) (map_range (u_repos u));
  _ ← iterM (fun _ => check_exec) (map_range (u_vars_from_exec u));
  _ ← fail_if (negb (smem (sec_landlock (u_security u)) [[]; $"auto"; $"on"; $"off"])) BadLandlock;
  fail_if (negb (smem (sec_seccomp (u_security u)) [[]; $"auto"; $"on"; $"off"])) BadSeccomp.

(** [DefaultUserPath]: [env] is [os.Getenv], [home] is [os.UserHomeDir] or
    empty. *)
Definition default_user_path (env : gostring -> gostring) (home : gostring) : gostring :=
  let dir := env $"XDG_CONFIG_HOME" in
  if negb (is_empty dir) then dir ++ $"/keg/config.yaml" else home ++ $"/.config/keg/config.yaml".

(** * Specification *)
Definition blank (s : gostring) : Prop := trim_space s = [].
Definition nonblank (s : gostring) : Prop := ~ blank s.
Definition port_num (n : Z) : Prop := 1 <= n <= 65535.
Definition mount_wf (m : mount) : Prop :=
  (m_dest m = [] -> m_mode m = MountTmpfs) /\
  (m_mode m = [] \/ m_mode m ∈ [MountRO; MountRW; MountDev; MountTmpfs; MountEphemeral; MountDisk]).
Definition port_wf (p : port_spec) : Prop :=
  port_num (ps_guest p) /\ port_num (ps_host p) /\ (ps_dynamic p = true -> ps_name p <> []).
Definition endpoint_wf (e : tcp_endpoint) : Prop :=
  te_host e <> [] /\ te_ports e <> [] /\ Forall port_num (te_ports e).
Definition var_name_wf (n : gostring) : Prop := nonblank n /\ "="%char ∉ n.
Definition env_wf (e : env_spec) : Prop :=
  Forall var_name_wf (env_inherit e) /\ Forall var_name_wf (env_unset e).
Definition paths_wf (p : paths_cfg) : Prop :=
  Forall nonblank (pa_extra p) /\ Forall nonblank (pa_prepend p) /\ Forall nonblank (pa_append p).
(** The file an anchor names, for a repository at [root]. *)
Definition anchor_path (root anchor : gostring) : gostring := path_join root (clean (trim_space anchor)).
Definition anchor_wf (a : gostring) : Prop :=
  nonblank a /\ is_abs (trim_space a) = false /\
  clean (trim_space a) <> $".." /\ has_prefix (clean (trim_space a)) $"../" = false.
Record repo_wf (r : repo) : Prop := {
  wf_version : r_version r = supported_version;
  wf_templates : Forall (fun t => t ∈ builtin_templates) (r_templates r);
  wf_mounts : Forall mount_wf (r_mounts r);
  wf_ports : Forall port_wf (r_ports r);
  wf_raw : Forall (fun rr => rr_subcommands rr <> []) (dt_raw (r_tasks r));
  wf_mode : nw_mode (r_network r) ∈ [[]; $"proxy"; $"transparent"; $"both"];
  wf_endpoints : Forall endpoint_wf (nw_tcp (r_network r));
  wf_hosts : map_Forall (fun _ v => v <> []) (dns_hosts (nw_dns (r_network r)));
  wf_anchors : Forall anchor_wf (r_anchors r);
  wf_extra : Forall nonblank (rp_extra (r_paths r));
  wf_prepend : Forall nonblank (rp_prepend (r_paths r));
  wf_append : Forall nonblank (rp_append (r_paths r));
  wf_env : env_wf (r_env r) }.
Record user_wf (u : user) : Prop := {
  uwf_env : env_wf (u_env u);
  uwf_paths : paths_wf (u_paths u);
  uwf_secrets : map_Forall (fun k v => k <> [] /\ nonblank v /\ u_secret_sources u !! k = None) (u_secrets u);
  uwf_sources : map_Forall (fun _ s => ss_on_error s ∈ [[]; $"keep"; $"fail"] /\ ss_cmd s <> [])
                           (u_secret_sources u);
  uwf_repos : map_Forall (fun _ o => (forall p, ro_paths o = Some p -> paths_wf p) /\ env_wf (ro_env o) /\
                                     Forall (fun ref => ref_name ref <> []) (ro_secrets o)) (u_repos u);
  uwf_exec : map_Forall (fun _ s => es_cmd s <> [] /\ es_cache s ∈ [[]; $"session"; $"none"])
                        (u_vars_from_exec u);
  uwf_landlock : sec_landlock (u_security u) ∈ [[]; $"auto"; $"on"; $"off"];
  uwf_seccomp : sec_seccomp (u_security u) ∈ [[]; $"auto"; $"on"; $"off"] }.

(** * Lemmas *)
Lemma check_bind (m k : check) : (_ ← m; k) = Ok tt <-> m = Ok tt /\ k = Ok tt.
Proof. destruct m as [[]|e]; cbn; naive_solver. Qed.
Lemma fail_if_ok b e : fail_if b e = Ok tt <-> b = false.
Proof. destruct b; cbn; naive_solver. Qed.
Lemma iterM_forall {A} (f : nat -> A -> check) (P : A -> Prop) l :
  (forall i x, f i x = Ok tt <-> P x) -> iterM f l = Ok tt <-> Forall P l.
Proof.
  intros Hf. rewrite iterM_ok, Forall_lookup. split; intros H k x Hk; specialize (H k x Hk); by apply (Hf k x).
Qed.
Lemma nil_length {A} (l : list A) : (length l =? 0)%nat = false <-> l <> [].
Proof. destruct l; naive_solver. Qed.
Lemma nonblank_check p : is_empty (trim_space p) = false <-> nonblank p.
Proof. apply is_empty_false. Qed.
Lemma check_nonblank_ok s l ps : check_nonblank s l ps = Ok tt <-> Forall nonblank ps.
Proof. apply iterM_forall. intros i p. by rewrite fail_if_ok, nonblank_check. Qed.
Lemma check_names_ok f g ns : check_names f g ns = Ok tt <-> Forall var_name_wf ns.
Proof.
  apply iterM_forall. intros i n. unfold var_name_wf. rewrite <- nonblank_check, <- contains_byte_false.
  destruct (is_empty _); [naive_solver|]. rewrite fail_if_ok. naive_solver.
Qed.
Lemma env_validate_ok s e : env_validate s e = Ok tt <-> env_wf e.
Proof. unfold env_validate. by rewrite check_bind, !check_names_ok. Qed.
Lemma check_paths_ok s p : check_paths s p = Ok tt <-> paths_wf p.
Proof. unfold check_paths. by rewrite !check_bind, !check_nonblank_ok. Qed.
Lemma check_mount_ok i m : check_mount i m = Ok tt <-> mount_wf m.
Proof.
  unfold check_mount, mount_wf. rewrite <- !is_empty_true, <- smem_true.
  destruct (is_empty (m_dest m)), (seqb_spec (m_mode m) MountTmpfs) as [->|Hm]; cbn [andb negb];
    try (destruct (is_empty (m_mode m)); [naive_solver|]); rewrite ?fail_if_ok, ?negb_false_iff;
    unfold mount_mode_valid; naive_solver.
Qed.
Lemma check_port_ok i p : check_port i p = Ok tt <-> port_wf p.
Proof.
  unfold check_port, port_wf, port_num. case_match_goal.
  - split; [done|]. intros (? & ? & _). exfalso.
    rewrite !orb_true_iff, !Z.leb_le, !Z.ltb_lt in Heqb. lia.
  - breflect. rewrite fail_if_ok, andb_false_iff, is_empty_false.
    split; [intros H3; split_and!; try lia; destruct (ps_dynamic p); naive_solver |].
    intros (_ & _ & H3). destruct (ps_dynamic p); naive_solver.
Qed.
Lemma check_endpoint_ok i e : check_endpoint i e = Ok tt <-> endpoint_wf e.
Proof.
  unfold check_endpoint, endpoint_wf. rewrite <- is_empty_false, <- nil_length.
  destruct (is_empty (te_host e)); [naive_solver|]. destruct (length (te_ports e) =? 0)%nat; [naive_solver|].
  rewrite (iterM_forall _ port_num); [naive_solver|]. intros j x. unfold port_num.
  rewrite fail_if_ok, orb_false_iff, Z.leb_gt, Z.ltb_ge. lia.
Qed.
Lemma check_anchor_ok i a : check_anchor i a = Ok tt <-> anchor_wf a.
Proof.
  unfold check_anchor, anchor_wf. cbv zeta. rewrite <- nonblank_check.
  destruct (is_empty _); [naive_solver|]. destruct (is_abs _); [naive_solver|].
  rewrite fail_if_ok, orb_false_iff, seqb_neq. naive_solver.
Qed.
Lemma range_check {V} `{MapRangeLaws V} (f : gostring * V -> check) (P : gostring -> V -> Prop) m :
  (forall k v, f (k, v) = Ok tt <-> P k v) -> iterM (fun _ => f) (map_range m) = Ok tt <-> map_Forall P m.
Proof.
  intros Hf. rewrite iterM_const_ok, map_range_forall. unfold map_Forall.
  split; intros H' k v Hk; by apply Hf, H'.
Qed.
Lemma anchor_inside root a :
  is_abs root = true -> anchor_wf a ->
  exists cs, comps (anchor_path root a) = comps root ++ cs /\ Forall plain cs.
Proof.
  intros Hr (Hb & Ha & Hd & Hp). unfold anchor_path.
  destruct (clean_rel_inside _ Ha Hd Hp) as [Hc _].
  exists (comps (trim_space a)). by rewrite comps_join_inside.
Qed.

(** * Properties *)

Lemma repo_validate_wf `{MapRangeLaws gostring} (r : repo) :
  repo_validate r = Ok tt <-> repo_wf r.
Proof.
  unfold repo_validate. rewrite !check_bind, !fail_if_ok, !check_nonblank_ok, env_validate_ok.
  rewrite is_empty_false, !negb_false_iff, seqb_eq, smem_true.
  rewrite (iterM_forall _ (fun t => t ∈ builtin_templates))
    by (intros; by rewrite fail_if_ok, negb_false_iff, smem_true).
  rewrite (iterM_forall _ mount_wf), (iterM_forall _ port_wf), (iterM_forall _ endpoint_wf),
    (iterM_forall _ anchor_wf)
    by (intros; apply check_mount_ok || apply check_port_ok || apply check_endpoint_ok || apply check_anchor_ok).
  rewrite (iterM_forall _ (fun rr => rr_subcommands rr <> [])) by (intros; by rewrite fail_if_ok, nil_length).
  rewrite (range_check _ (fun _ v => v <> [])) by (intros; by rewrite fail_if_ok, is_empty_false).
  split.
  - intros (_ & ? & ? & ? & ? & ? & ? & ? & ? & ? & ? & ? & ? & ?). by constructor.
  - intros []. split_and!; try done. by rewrite wf_version0.
Qed.

(** repository configuration validation accepts exactly the well-formed
    configurations, whatever order the host map is visited in: the supported
    version, known templates, valid mounts, ports in 1..65535 (named when
    dynamic), raw rules with subcommands, a known network mode, endpoints
    with a host and valid ports, non-empty host targets, anchors inside the
    repository, non-blank paths, and legal environment names. *)
Theorem repo_validate_iff `{MapRangeLaws gostring} (r : repo) :
  repo_validate r = Ok tt <-> repo_wf r.
Proof. apply repo_validate_wf. Qed.

Definition sample_repo : repo :=
  Repo $"1" ∅ [$"go"] (RepoPaths [] [] []) empty_env [] [Mount $"~/x" $"/x" MountRO [] []] []
    [PortSpec $"web" $"127.0.0.1" 80 8080 true] [] (Network $"both" (DNS true [] {[$"db" := $"10.0.0.1"]}) [] [] [] [TCPEndpoint $"db" [5432]])
    (DelegatedTasks [] [] [RawRule $"git" [] [$"status"] [] [] false []] ∅) [$"scripts/../build.sh"].
Lemma repo_validate_iff_witness :
  @repo_validate map_range_default sample_repo = Ok tt /\ repo_wf sample_repo.
Proof.
  assert (H : @repo_validate map_range_default sample_repo = Ok tt) by (vm_compute; reflexivity).
  split; [exact H|]. exact (proj1 (@repo_validate_iff _ map_range_default_laws sample_repo) H).
Defined.

Lemma user_validate_wf `{MapRangeLaws gostring, MapRangeLaws secret_source,
    MapRangeLaws repo_override, MapRangeLaws exec_source} (u : user) :
  user_validate u = Ok tt <-> user_wf u.
Proof.
  unfold user_validate. rewrite !check_bind, !fail_if_ok, env_validate_ok, check_paths_ok.
  rewrite !negb_false_iff, !smem_true.
  rewrite (range_check _ (fun k v => k <> [] /\ nonblank v /\ u_secret_sources u !! k = None)).
  2:{ intros k v. cbn. rewrite <- nonblank_check, <- is_empty_false. destruct (is_empty k); [naive_solver|].
      destruct (is_empty _); [naive_solver|]. destruct (_ !! k); naive_solver. }
  rewrite (range_check _ (fun _ s => ss_on_error s ∈ [[]; $"keep"; $"fail"] /\ ss_cmd s <> [])).
  2:{ intros k v. unfold check_source. rewrite <- smem_true, <- nil_length.
      destruct (smem _ _); cbn [negb]; [rewrite fail_if_ok|]; naive_solver. }
  rewrite (range_check _ (fun _ o => (forall p, ro_paths o = Some p -> paths_wf p) /\ env_wf (ro_env o) /\
                                     Forall (fun ref => ref_name ref <> []) (ro_secrets o))).
  2:{ intros k o. unfold check_override. rewrite !check_bind, env_validate_ok.
      rewrite (iterM_forall _ (fun ref => ref_name ref <> [])) by (intros; by rewrite fail_if_ok, is_empty_false).
      destruct (ro_paths o) as [p|]; [rewrite check_paths_ok|]; naive_solver. }
  rewrite (range_check _ (fun _ s => es_cmd s <> [] /\ es_cache s ∈ [[]; $"session"; $"none"])).
  2:{ intros k v. unfold check_exec. rewrite <- smem_true, <- nil_length.
      destruct (length _ =? 0)%nat; [naive_solver|]. rewrite fail_if_ok, negb_false_iff. naive_solver. }
  split; [intros (? & ? & ? & ? & ? & ? & ? & ?); by constructor | by intros []].
Qed.

(** user configuration validation accepts exactly the well-formed
    configurations, whatever order the maps are visited in; in particular an
    accepted secret name has one origin only. *)
Theorem user_validate_iff `{MapRangeLaws gostring, MapRangeLaws secret_source,
    MapRangeLaws repo_override, MapRangeLaws exec_source} (u : user) :
  user_validate u = Ok tt <-> user_wf u.
Proof. apply user_validate_wf. Qed.

Definition sample_user : user :=
  User empty_paths empty_runner ∅ None {[$"v" := ExecSource [$"id"] $"none" 0]} (Security None $"auto" []) []
    {[$"tok" := SecretSource [$"pass"] 0 0 $"keep" false false]} [] {[$"key" := $"~/.key"]} [] empty_network
    (EnvSpec [] ∅ [$"HOME"] false)
    {[$"/w/*" := RepoOverride (Some empty_paths) None ∅ [] empty_network empty_env [SecretRef $"tok" []]]}.
Lemma user_validate_iff_witness :
  @user_validate map_range_default map_range_default map_range_default map_range_default sample_user = Ok tt
  /\ user_wf sample_user.
Proof.
  assert (H : @user_validate map_range_default map_range_default map_range_default map_range_default
                sample_user = Ok tt) by (vm_compute; reflexivity).
  split; [exact H|].
  exact (proj1 (@user_validate_iff _ map_range_default_laws _ map_range_default_laws
                  _ map_range_default_laws _ map_range_default_laws sample_user) H).
Defined.

(** no trust anchor of an accepted repository configuration leaves the
    repository: joined to the (absolute) repository root it names that root
    followed by plain components. *)
Theorem anchors_stay_inside `{MapRangeLaws gostring} (r : repo) (root anchor : gostring)
    (Hv : repo_validate r = Ok tt) (Hroot : is_abs root = true) (Ha : anchor ∈ r_anchors r) :
  exists cs, comps (anchor_path root anchor) = comps root ++ cs /\ Forall plain cs.
Proof.
  apply repo_validate_wf in Hv as []. rewrite Forall_forall in wf_anchors0.
  apply anchor_inside; auto.
Qed.
Lemma anchors_stay_inside_witness :
  exists cs, comps (anchor_path $"/home/u/repo" $"scripts/../build.sh") = comps $"/home/u/repo" ++ cs
             /\ Forall plain cs.
Proof.
  apply (@anchors_stay_inside _ map_range_default_laws sample_repo);
    [vm_compute; reflexivity | reflexivity | left].
Defined.
