(* ===== verification/ConfigExpand.v ===== *)
(** Port and path syntax of [internal/config/expand.go]: the publish flag
    ([-p]), the forward flag ([-L]), the port strings of the repository file
    and the expansion of [~], [$VAR] and [${VAR}] in paths. *)
From S2P Require Import GoStrings GoNet ConfigTypes.
Local Open Scope go_scope.
Local Open Scope Z_scope.

Inductive port_kind := KSandbox | KHost | KTarget | KGuest | KPort.
Inductive port_err :=
  | EmptySpec
  | OnlyTCP
  | EmptyAfterProtocol
  | MissingBracket
  | InvalidAfterIPv6
  | InvalidHostIP (ip : gostring)
  | InvalidSpec
  | InvalidPortNumber
  | InvalidSandboxPort
  | InvalidHostPort
  | WantPortOrPair
  | NotANumber (k : port_kind) (p : gostring)
  | OutOfRange (k : port_kind) (n : Z)
  | BracketSyntax
  | EmptyBracketHost
  | MissingTargetPort
  | EmptyTargetHost
  | WantForwardSpec.

Definition parse_port_num (p : gostring) (k : port_kind) : result port_err Z :=
  match atoi p with
  | None => Err (NotANumber k p)
  | Some n => if (n <? 1) || (65535 <? n) then Err (OutOfRange k n) else Ok n
  end.
Definition is_allowed_host_ip (s : gostring) : bool :=
  if is_empty s || seqb s $"localhost" then true else is_some (parse_ip s).
Definition is_ip_or_host (s : gostring) : bool :=
  if seqb s $"localhost" then true else is_some (parse_ip s).

(** The final normalisation: "" and "localhost" become 127.0.0.1. *)
Definition publish (host_ip : gostring) (guest host : Z) (dynamic : bool) : port_spec :=
  let host_ip := if is_empty host_ip || seqb host_ip $"localhost" then $"127.0.0.1" else host_ip in
  PortSpec [] host_ip guest host dynamic.
(** The optional host port: empty or "0" asks for a dynamic one. *)
Definition host_or_dynamic (p : gostring) : result port_err (Z * bool) :=
  if is_empty p || seqb p $"0" then Ok (0, true)
  else h ← parse_port_num p KHost; Ok (h, false).
(** The three shapes after the protocol was removed and no bracket given. *)
Definition publish_plain (parts : list gostring) : result port_err port_spec :=
  match parts with
  | [a] => g ← parse_port_num a KSandbox; Ok (publish [] g g false)
  | [a; b] =>
      if is_empty a || seqb a $"0" then
        g ← parse_port_num b KSandbox; Ok (publish [] g 0 true)
      else if is_ip_or_host a then
        if negb (is_allowed_host_ip a) then Err (InvalidHostIP a)
        else g ← parse_port_num b KSandbox; Ok (publish a g 0 true)
      else
        h ← parse_port_num a KHost; g ← parse_port_num b KSandbox; Ok (publish [] g h false)
  | [a; b; c] =>
      if negb (is_empty a) && negb (is_allowed_host_ip a) then Err (InvalidHostIP a)
      else '(h, dyn) ← host_or_dynamic b;
           g ← parse_port_num c KSandbox; Ok (publish a g h dyn)
  | _ => Err InvalidSpec
  end.
(** The shapes after a non-empty bracketed host address. *)
Definition publish_bracketed (host_ip : gostring) (parts : list gostring) : result port_err port_spec :=
  match parts with
  | [a] => g ← parse_port_num a KSandbox; Ok (publish host_ip g 0 true)
  | [a; b] => '(h, dyn) ← host_or_dynamic a;
              g ← parse_port_num b KSandbox; Ok (publish host_ip g h dyn)
  | _ => Err InvalidSpec
  end.
Definition strip_protocol `{UnicodeCase} (s : gostring) : result port_err gostring :=
  match last_index_byte "/" s with
  | None => Ok s
  | Some idx => if seqb (to_lower (drop (S idx) s)) $"tcp" then Ok (take idx s) else Err OnlyTCP
  end.
(** [hostIP] ("" without brackets) and [portPart]. *)
Definition split_bracket (raw : gostring) : result port_err (gostring * gostring) :=
  if has_prefix raw $"[" then
    match index_byte "]" raw with
    | None => Err MissingBracket
    | Some close =>
        let rest := drop (S close) raw in
        if negb (is_empty rest) && negb (has_prefix rest $":") then Err InvalidAfterIPv6
        else Ok (drop 1 (take close raw), trim_prefix rest $":")
    end
  else Ok ([], raw).
Definition parse_publish_flag `{UnicodeCase} (s : gostring) : result port_err port_spec :=
  if is_empty s then Err EmptySpec
  else
    raw ← strip_protocol s;
    if is_empty raw then Err EmptyAfterProtocol
    else
      '(host_ip, port_part) ← split_bracket raw;
      if negb (is_empty host_ip) && negb (is_allowed_host_ip host_ip) then Err (InvalidHostIP host_ip)
      else
        let parts := split ":" port_part in
        if negb (is_empty host_ip) then publish_bracketed host_ip parts else publish_plain parts.

(** [(guest, host, hostIP)] *)
Definition parse_port_string `{UnicodeCase} (s : gostring) : result port_err (Z * Z * gostring) :=
  if contains_byte "[" s || ((2 <=? count_byte ":" s)%nat && negb (has_prefix s $":")) then
    spec ← parse_publish_flag s; Ok (ps_guest spec, ps_host spec, ps_host_ip spec)
  else
    let num (p : gostring) (e : port_err) :=
      match atoi p with Some n => Ok n | None => Err e end in
    match split ":" s with
    | [a] => g ← num a InvalidPortNumber; Ok (g, g, $"127.0.0.1")
    | [a; b] => g ← num a InvalidSandboxPort; h ← num b InvalidHostPort; Ok (g, h, $"127.0.0.1")
    | _ => Err WantPortOrPair
    end.

Definition parse_forward_bracketed (raw : gostring) (open close : nat) : result port_err forward_host_spec :=
  if (close <? open)%nat then Err BracketSyntax
  else
    let target_host := drop (S open) (take close raw) in
    if is_empty target_host then Err EmptyBracketHost
    else
      let prefix := trim_suffix (take open raw) $":" in
      let rest := drop (S close) raw in
      if negb (has_prefix rest $":") then Err MissingTargetPort
      else
        target_port ← parse_port_num (trim_prefix rest $":") KTarget;
        guest_port ← (if is_empty prefix then Ok target_port else parse_port_num prefix KGuest);
        Ok (ForwardHostSpec guest_port target_host target_port).
Definition parse_forward_host_flag (s : gostring) : result port_err forward_host_spec :=
  if is_empty s then Err EmptySpec
  else
    match index_byte "[" s, index_byte "]" s with
    | Some open, Some close => parse_forward_bracketed s open close
    | _, _ =>
        match split ":" s with
        | [a] => p ← parse_port_num a KPort; Ok (ForwardHostSpec p $"127.0.0.1" p)
        | [h; b] =>
            if is_empty h then Err EmptyTargetHost
            else t ← parse_port_num b KTarget; Ok (ForwardHostSpec t h t)
        | [a; h; b] =>
            g ← parse_port_num a KGuest;
            if is_empty h then Err EmptyTargetHost
            else t ← parse_port_num b KTarget; Ok (ForwardHostSpec g h t)
        | _ => Err WantForwardSpec
        end
    end.

(** * Path expansion *)
Inductive expand_err := NoHome | UnclosedBrace | VarNotSet (name : gostring).
Definition is_name_char (c : ascii) : bool := Ascii.eqb c "_" || is_alpha c || is_digit c.
Fixpoint name_run (s : gostring) : gostring :=
  match s with
  | c :: s' => if is_name_char c then c :: name_run s' else []
  | [] => []
  end.
(** The loop of [ExpandPath] over the rest of the path; [env] is
    [os.LookupEnv].  Every iteration drops at least one byte. *)
Fixpoint expand_loop (fuel : nat) (env : gostring -> option gostring) (s : gostring)
  : result expand_err gostring :=
  match fuel with
  | O => Ok []
  | S f =>
      match s with
      | [] => Ok []
      | c :: rest =>
          if negb (Ascii.eqb c "$") then out ← expand_loop f env rest; Ok (c :: out)
          else
            let subst (name rest' : gostring) :=
              match env name with
              | None => Err (VarNotSet name)
              | Some v => out ← expand_loop f env rest'; Ok (v ++ out)
              end in
            if has_prefix rest $"{" then
              match index_byte "}" rest with
              | None => Err UnclosedBrace
              | Some e => subst (drop 1 (take e rest)) (drop (S e) rest)
              end
            else
              let name := name_run rest in
              if is_empty name then out ← expand_loop f env rest; Ok ("$"%char :: out)
              else subst name (drop (length name) rest)
      end
  end.
(** [home] is [os.UserHomeDir]. *)
Definition expand_path (env : gostring -> option gostring) (home : option gostring) (path : gostring)
  : result expand_err gostring :=
  if is_empty path then Ok []
  else
    path ← (if seqb path $"~" || has_prefix path $"~/"
            then match home with None => Err NoHome | Some h => Ok (h ++ trim_prefix path $"~") end
            else Ok path);
    expand_loop (length path) env path.

(** * Specification of path expansion *)
(** [expands env s out]: [out] is [s] with every reference replaced. *)
Inductive expands (env : gostring -> option gostring) : gostring -> gostring -> Prop :=
  | expands_nil : expands env [] []
  | expands_lit c s out : c <> "$"%char -> expands env s out -> expands env (c :: s) (c :: out)
  | expands_dollar s out :
      has_prefix s $"{" = false -> name_run s = [] -> expands env s out ->
      expands env ("$"%char :: s) ("$"%char :: out)
  | expands_braced name v s out :
      "}"%char ∉ name -> env name = Some v -> expands env s out ->
      expands env ($"${" ++ name ++ "}"%char :: s) (v ++ out)
  | expands_name name v s out :
      name <> [] -> name_run (name ++ s) = name -> has_prefix name $"{" = false ->
      env name = Some v -> expands env s out ->
      expands env ("$"%char :: name ++ s) (v ++ out).

(** * Lemmas *)
Lemma parse_port_num_ok p k n : parse_port_num p k = Ok n -> port_num n.
Proof.
  unfold parse_port_num, port_num. destruct (atoi p); [|done]. intros H. case_match_hyp H; [done|].
  breflect. injection H as <-. lia.
Qed.
Lemma parse_port_num_itoa n k : port_num n -> parse_port_num (itoa n) k = Ok n.
Proof.
  unfold parse_port_num, port_num. intros Hn. rewrite atoi_itoa by (unfold max_int64; lia).
  destruct (Z.ltb_spec n 1); [lia|]. destruct (Z.ltb_spec 65535 n); [lia | done].
Qed.
Definition published_ok (p : port_spec) : Prop :=
  ps_name p = [] /\ is_some (parse_ip (ps_host_ip p)) = true /\ port_num (ps_guest p) /\
  (if ps_dynamic p then ps_host p = 0 else port_num (ps_host p)).
Lemma publish_ok ip g h (d : bool) :
  is_allowed_host_ip ip = true -> port_num g -> (if d then h = 0 else port_num h) ->
  published_ok (publish ip g h d).
Proof.
  intros Hip Hg Hh. unfold publish, published_ok. cbn. split_and!; try done.
  unfold is_allowed_host_ip in Hip. destruct (is_empty ip || seqb ip _); done.
Qed.
Lemma host_or_dynamic_ok p h d : host_or_dynamic p = Ok (h, d) -> if d then h = 0 else port_num h.
Proof.
  unfold host_or_dynamic. destruct (_ || _); [by intros [= <- <-]|].
  intros (n & Hn & [= <- <-])%bind_ok_inv. by eapply parse_port_num_ok.
Qed.
(** Inverts the binds of a successful parse and collects the port bounds. *)
Ltac parse_inv :=
  repeat match goal with
  | H : mbind _ ?m = Ok _ |- _ =>
      let x := fresh "x" in let Hx := fresh "Hx" in apply bind_ok_inv in H as (x & Hx & H)
  | H : parse_port_num _ _ = Ok _ |- _ => apply parse_port_num_ok in H
  | H : host_or_dynamic _ = Ok _ |- _ => apply host_or_dynamic_ok in H
  | H : (let '(_, _) := ?x in _) = Ok _ |- _ => destruct x
  | H : Ok _ = Ok _ |- _ => injection H as <-
  | H : Err _ = Ok _ |- _ => discriminate H
  end.
Lemma publish_plain_ok parts p : publish_plain parts = Ok p -> published_ok p.
Proof.
  destruct parts as [|a [|b [|c [|]]]]; cbn [publish_plain]; intros H; try discriminate.
  - parse_inv. by apply publish_ok.
  - destruct (_ || _); [parse_inv; by apply publish_ok|].
    destruct (is_ip_or_host a); [|parse_inv; by apply publish_ok].
    destruct (is_allowed_host_ip a) eqn:Ha; cbn [negb] in H; [|discriminate].
    parse_inv. by apply publish_ok.
  - destruct (is_allowed_host_ip a) eqn:Ha; cbn [negb] in H; [rewrite andb_false_r in H|].
    + parse_inv. by apply publish_ok.
    + rewrite andb_true_r in H. destruct (is_empty a) eqn:He; cbn [negb] in H; [|discriminate].
      parse_inv. apply publish_ok; try done. unfold is_allowed_host_ip. by rewrite He.
Qed.
Lemma publish_bracketed_ok ip parts p :
  is_allowed_host_ip ip = true -> publish_bracketed ip parts = Ok p -> published_ok p.
Proof.
  intros Hip. destruct parts as [|a [|b [|]]]; cbn [publish_bracketed]; intros H; try discriminate;
    parse_inv; by apply publish_ok.
Qed.
Lemma drop_cons_length {A} (a : list A) c b : drop (S (length a)) (a ++ c :: b) = b.
Proof. replace (S (length a)) with (length (a ++ [c])) by (rewrite length_app; cbn; lia).
  change (c :: b) with ([c] ++ b). by rewrite app_assoc, drop_app_length. Qed.

Lemma name_run_prefix s : name_run s ++ drop (length (name_run s)) s = s.
Proof.
  induction s as [|c s IH]; [done|]. cbn [name_run]. destruct (is_name_char c); [|by rewrite drop_0].
  cbn [length app]. rewrite skipn_cons. by rewrite IH.
Qed.
Lemma name_run_brace s : name_run s <> [] -> has_prefix (name_run s) $"{" = false.
Proof.
  destruct s as [|c s]; [done|]. cbn [name_run]. destruct (is_name_char c) eqn:Hc; [|done]. intros _.
  cbn [has_prefix String.list_ascii_of_string]. destruct (Ascii.eqb_spec "{" c) as [<-|]; [discriminate | done].
Qed.
Lemma expand_loop_sound fuel env s out :
  (length s <= fuel)%nat -> expand_loop fuel env s = Ok out -> expands env s out.
Proof.
  revert s out; induction fuel as [|f IH]; intros s out Hf; cbn [expand_loop].
  { destruct s; cbn in Hf; [|lia]. intros [= <-]. constructor. }
  destruct s as [|c rest]; [intros [= <-]; constructor|]. cbn [length] in Hf.
  destruct (Ascii.eqb_spec c "$") as [->|Hc]; cbn [negb].
  2:{ intros (o & Ho & [= <-])%bind_ok_inv. constructor; [done|]. apply IH; [lia | done]. }
  destruct (has_prefix rest $"{") eqn:Hb.
  - apply has_prefix_true in Hb as [t ->]. cbn [String.list_ascii_of_string app].
    destruct (index_byte "}" ("{"%char :: t)) as [e|] eqn:He; [|done].
    apply index_byte_some in He as (a & b & Hab & Hn & ->).
    destruct a as [|x a]; [discriminate|]. cbn [app] in Hab. injection Hab as <- ->.
    cbn [length take firstn drop]. rewrite drop_0, take_app_length.
    rewrite drop_cons_length.
    destruct (env a) as [v|] eqn:Hv; [|done]. intros (o & Ho & [= <-])%bind_ok_inv.
    apply (expands_braced env a v b o); [rewrite elem_of_cons in Hn; naive_solver | done |].
    apply IH; [|done]. cbn [String.list_ascii_of_string app length] in Hf. rewrite length_app in Hf. cbn [length] in Hf. lia.
  - destruct (name_run rest) as [|n0 ns] eqn:Hn; cbn [is_empty].
    + intros (o & Ho & [= <-])%bind_ok_inv. constructor; [done..|]. apply IH; [lia | done].
    + destruct (env (n0 :: ns)) as [v|] eqn:Hv; [|done]. intros (o & Ho & [= <-])%bind_ok_inv.
      pose proof (name_run_prefix rest) as Hp. rewrite Hn in Hp. rewrite <- Hp.
      apply expands_name; try done.
      * by rewrite Hp.
      * rewrite <- Hn. apply name_run_brace. by rewrite Hn.
      * apply IH; [|done]. rewrite length_drop. cbn [length]. lia.
Qed.
Lemma expand_loop_complete fuel env s out :
  (length s <= fuel)%nat -> expands env s out -> expand_loop fuel env s = Ok out.
Proof.
  intros Hf H; revert fuel Hf.
  induction H as [|c s out Hc _ IH|s out Hb Hn _ IH|name v s out Hn Hv _ IH|name v s out Hne Hr Hb Hv _ IH];
    intros fuel Hf; (destruct fuel as [|f]; [cbn in Hf; try done; lia|]); cbn [length] in Hf.
  - done.
  - cbn [expand_loop]. rewrite (proj2 (Ascii.eqb_neq c "$") Hc). cbn [negb]. rewrite IH by lia. done.
  - cbn [expand_loop]. rewrite Ascii.eqb_refl. cbn [negb]. rewrite Hb, Hn. cbn [is_empty].
    rewrite IH by lia. done.
  - cbn [String.list_ascii_of_string app expand_loop] in *. rewrite Ascii.eqb_refl. cbn [negb].
    change (has_prefix ("{"%char :: name ++ "}"%char :: s) $"{") with true. cbv iota.
    change ("{"%char :: name ++ "}"%char :: s) with (("{"%char :: name) ++ "}"%char :: s).
    rewrite index_byte_app by (rewrite elem_of_cons; naive_solver).
    rewrite drop_cons_length, take_app_length. cbn [drop]. rewrite drop_0, Hv.
    cbn [length] in Hf. rewrite length_app in Hf. cbn [length] in Hf. rewrite IH by lia. done.
  - cbn [expand_loop]. rewrite Ascii.eqb_refl. cbn [negb].
    destruct name as [|n0 ns]; [done|]. cbn [app] in *.
    change (has_prefix (n0 :: ns ++ s) $"{") with (has_prefix (n0 :: ns) $"{"). rewrite Hb.
    rewrite Hr. cbn [is_empty]. rewrite Hv.
    change (n0 :: ns ++ s) with ((n0 :: ns) ++ s). rewrite drop_app_length.
    cbn [length] in Hf; rewrite length_app in Hf. rewrite IH by lia. done.
Qed.
(** A decimal number is not an address: it has no dot and no colon. *)
Lemma index_any_none cs s : Forall (fun c => c ∉ s) cs -> index_any cs s = None.
Proof.
  induction s as [|d s IH]; intros H; cbn [index_any]; [done|].
  destruct (contains_byte d cs) eqn:Hd.
  - apply contains_byte_true in Hd. rewrite Forall_forall in H. specialize (H d Hd).
    rewrite elem_of_cons in H. naive_solver.
  - rewrite IH; [done|]. eapply Forall_impl; [exact H|]. intros c. cbn. rewrite elem_of_cons. naive_solver.
Qed.
Lemma itoa_not_ip n : port_num n -> is_ip_or_host (itoa n) = false.
Proof.
  unfold port_num. intros Hn. unfold is_ip_or_host.
  assert (Hf : forall c, is_digit c = false -> c ∉ itoa n) by (intros; apply itoa_free; [lia | done]).
  destruct (seqb_spec (itoa n) $"localhost") as [He|_].
  - exfalso. apply (Hf "l"%char eq_refl). rewrite He. left.
  - unfold parse_ip, parse_addr. rewrite index_any_none; [done|].
    repeat (apply Forall_cons_2; [by apply Hf|]). apply Forall_nil_2.
Qed.
Lemma expand_loop_err fuel env s e :
  expand_loop fuel env s = Err e ->
  match e with NoHome => False | UnclosedBrace => True | VarNotSet name => env name = None end.
Proof.
  revert s; induction fuel as [|f IH]; intros s; cbn [expand_loop]; [done|].
  assert (Hb : forall t (k : gostring -> gostring), (out ← expand_loop f env t; Ok (k out)) = Err e ->
    match e with NoHome => False | UnclosedBrace => True | VarNotSet name => env name = None end).
  { intros t k. destruct (expand_loop f env t) eqn:Ht; cbn; [done|]. intros [= <-]. by eapply IH. }
  destruct s as [|c rest]; [done|]. cbv zeta. destruct (negb _); [apply Hb|].
  destruct (has_prefix _ _).
  - destruct (index_byte _ _); [|by intros [= <-]].
    destruct (env _) eqn:Hv; [apply Hb | by intros [= <-]].
  - destruct (is_empty _); [apply Hb|]. destruct (env _) eqn:Hv; [apply Hb | by intros [= <-]].
Qed.

(** * Properties *)

(** a published port that parses is usable: the sandbox port is in
    1..65535, the host port is too unless a dynamic one is asked for (then it
    is 0), and the host address is a valid IP address. *)
Theorem publish_flag_sound `{UnicodeCase} (s : gostring) :
  match parse_publish_flag s with
  | Ok p => ps_name p = [] /\ is_some (parse_ip (ps_host_ip p)) = true /\ port_num (ps_guest p) /\
            (if ps_dynamic p then ps_host p = 0 else port_num (ps_host p))
  | Err _ => True
  end.
Proof.
  destruct (parse_publish_flag s) as [p|] eqn:Hs; [|done]. unfold parse_publish_flag in Hs.
  destruct (is_empty s); [done|]. apply bind_ok_inv in Hs as (raw & _ & Hs).
  destruct (is_empty raw); [done|]. apply bind_ok_inv in Hs as ([ip part] & _ & Hs).
  destruct (is_empty ip); cbn [negb andb] in Hs;
    [exact (publish_plain_ok _ _ Hs)|].
  destruct (is_allowed_host_ip ip) eqn:Hip; [|done].
  exact (publish_bracketed_ok _ _ _ Hip Hs).
Qed.

(** Without a bracket the parts decide, and a "/tcp" suffix changes nothing. *)
Lemma parse_publish_plain `{UnicodeCase} s :
  s <> [] -> "/"%char ∉ s -> "["%char ∉ s ->
  parse_publish_flag s = publish_plain (split ":" s) /\
  parse_publish_flag (s ++ $"/tcp") = publish_plain (split ":" s).
Proof.
  intros Hne Hslash Hbr. apply is_empty_false in Hne.
  assert (Hsb : split_bracket s = Ok ([], s)).
  { unfold split_bracket. destruct s as [|x r]; [done|]. rewrite elem_of_cons in Hbr.
    cbn [has_prefix String.list_ascii_of_string].
    destruct (Ascii.eqb_spec "[" x) as [<-|]; [naive_solver | done]. }
  unfold parse_publish_flag, strip_protocol. split.
  - rewrite Hne, (proj2 (last_index_byte_none _ _) Hslash). cbn [mbind result_bind].
    rewrite Hne, Hsb. done.
  - change $"/tcp" with ("/"%char :: $"tcp"). destruct (is_empty (_ ++ _)) eqn:He; [by destruct s|].
    rewrite last_index_byte_app by (cbn; rewrite !elem_of_cons, elem_of_nil; naive_solver).
    rewrite drop_cons_length, take_app_length. change (seqb (to_lower $"tcp") $"tcp") with true. cbv iota.
    cbn [mbind result_bind]. rewrite Hne, Hsb. done.
Qed.
(** The text of a port is a number and nothing else. *)
Lemma itoa_port_free n c : port_num n -> is_digit c = false -> c ∉ itoa n.
Proof. unfold port_num. intros Hn Hc. apply itoa_free; [lia | done]. Qed.
Lemma itoa_port_given n : port_num n -> is_empty (itoa n) || seqb (itoa n) $"0" = false.
Proof.
  unfold port_num. intros Hn. apply orb_false_iff.
  split; [apply is_empty_false, itoa_nonempty; lia|]. apply seqb_neq. intros H0.
  pose proof (atoi_itoa n ltac:(unfold max_int64 in *; lia)) as Ha. rewrite H0 in Ha.
  change (atoi $"0") with (Some 0) in Ha. injection Ha as <-. lia.
Qed.
Lemma publish_pair h g : port_num h -> port_num g ->
  publish_plain [itoa h; itoa g] = Ok (PortSpec [] $"127.0.0.1" g h false).
Proof.
  intros Hh Hg. cbn [publish_plain]. by rewrite itoa_port_given, itoa_not_ip, !parse_port_num_itoa.
Qed.
Lemma publish_triple ip h g : port_num h -> port_num g -> is_some (parse_ip ip) = true ->
  publish_plain [ip; itoa h; itoa g] = Ok (PortSpec [] ip g h false).
Proof.
  intros Hh Hg Hip. cbn [publish_plain]. unfold host_or_dynamic, is_allowed_host_ip.
  assert (Hlh : is_empty ip || seqb ip $"localhost" = false).
  { apply orb_false_iff. split; [by destruct ip|]. apply seqb_neq. by intros ->. }
  rewrite Hlh, Hip, andb_false_r, itoa_port_given, !parse_port_num_itoa by done. cbn. unfold publish. by rewrite Hlh.
Qed.

(** the flag forms "host:guest", "ip:host:guest" and "ip:host:guest/tcp"
    are read back as the ports and the (unbracketed) address they print. *)
Theorem publish_flag_roundtrip `{UnicodeCase} (ip : gostring) (h g : Z)
    (Hh : port_num h) (Hg : port_num g) (Hip : is_some (parse_ip ip) = true)
    (Hplain : Forall (fun c => c ∉ ip) [":"%char; "["%char; "/"%char]) :
  parse_publish_flag (itoa h ++ ":"%char :: itoa g) = Ok (PortSpec [] $"127.0.0.1" g h false) /\
  parse_publish_flag (ip ++ ":"%char :: itoa h ++ ":"%char :: itoa g) = Ok (PortSpec [] ip g h false) /\
  parse_publish_flag (ip ++ ":"%char :: itoa h ++ ":"%char :: itoa g ++ $"/tcp") = Ok (PortSpec [] ip g h false).
Proof.
  rewrite !Forall_cons in Hplain. destruct Hplain as (Hc & Hb & Hs & _).
  set (hg := itoa h ++ ":"%char :: itoa g).
  assert (Hsplit : split ":" hg = [itoa h; itoa g]).
  { unfold hg. rewrite split_app, split_none by by apply itoa_port_free. done. }
  assert (Hfree : forall c, is_digit c = false -> c <> ":"%char -> c ∉ hg).
  { intros c Hd Hne. unfold hg. rewrite elem_of_app, elem_of_cons.
    pose proof (itoa_port_free h c Hh Hd). pose proof (itoa_port_free g c Hg Hd). naive_solver. }
  assert (Hfree' : forall c, c ∉ ip -> c ∉ hg -> c <> ":"%char -> c ∉ ip ++ ":"%char :: hg).
  { intros c. rewrite elem_of_app, elem_of_cons. naive_solver. }
  destruct (parse_publish_plain (ip ++ ":"%char :: hg)) as [H2 H3]; [by destruct ip | auto 6.. |].
  rewrite split_app, Hsplit in H2, H3 by done. rewrite publish_triple in H2, H3 by done. split_and!.
  - rewrite (proj1 (parse_publish_plain hg ltac:(by destruct (itoa h)) ltac:(auto) ltac:(auto))).
    rewrite Hsplit. by apply publish_pair.
  - exact H2.
  - rewrite <- H3. f_equal. unfold hg. rewrite <- !app_assoc. cbn [app]. by rewrite <- app_assoc.
Qed.
Lemma publish_flag_roundtrip_witness :
  let UC : UnicodeCase := fun s => s in
  parse_publish_flag $"8080:80" = Ok (PortSpec [] $"127.0.0.1" 80 8080 false) /\
  parse_publish_flag $"10.0.0.1:8080:80" = Ok (PortSpec [] $"10.0.0.1" 80 8080 false) /\
  parse_publish_flag $"10.0.0.1:8080:80/tcp" = Ok (PortSpec [] $"10.0.0.1" 80 8080 false).
Proof.
  intros UC. apply (publish_flag_roundtrip $"10.0.0.1" 8080 80); try (unfold port_num; lia); [reflexivity|].
  repeat (apply Forall_cons_2; [apply contains_byte_false; reflexivity|]). apply Forall_nil_2.
Defined.

(** ExpandPath replaces every [$NAME] and [${NAME}] by the value of the
    variable and nothing else: after the [~] prefix is replaced by the home
    directory, the result is an expansion of the path, every expansion is
    found, and the errors are a missing home directory, an unclosed brace or
    a variable that is not set. *)
Theorem expand_path_spec (env : gostring -> option gostring) (home : option gostring) (path : gostring) :
  let tilde := seqb path $"~" || has_prefix path $"~/" in
  let full := match home with
              | Some h => if tilde then h ++ trim_prefix path $"~" else path
              | None => path
              end in
  match expand_path env home path with
  | Ok out => expands env full out /\ forall out', expands env full out' -> out' = out
  | Err NoHome => home = None /\ tilde = true
  | Err UnclosedBrace => ~ exists out, expands env full out
  | Err (VarNotSet name) => env name = None /\ ~ exists out, expands env full out
  end.
Proof.
  intros tilde full. unfold expand_path.
  assert (Hfull : (path' ← (if tilde then match home with None => Err NoHome | Some h => Ok (h ++ trim_prefix path $"~") end
                            else Ok path); expand_loop (length path') env path')
                  = match home, tilde with None, true => Err NoHome | _, _ => expand_loop (length full) env full end).
  { unfold full. by destruct home, tilde. }
  destruct (is_empty path) eqn:He.
  { breflect. subst path. assert (Hf : full = []) by (unfold full, tilde; by destruct home).
    rewrite Hf. split; [constructor|]. intros out' Ho. by inversion Ho. }
  fold tilde. rewrite Hfull.
  assert (Hno : forall e, expand_loop (length full) env full = Err e -> ~ exists out, expands env full out).
  { intros e Herr [out Ho]. apply (expand_loop_complete (length full)) in Ho; [congruence | done]. }
  destruct home as [h|]; [|destruct tilde eqn:Ht; [done|]];
    (destruct (expand_loop (length full) env full) as [out|[| |name]] eqn:Hl;
     [split; [by apply expand_loop_sound in Hl
             | intros out' Ho; apply (expand_loop_complete (length full)) in Ho; [congruence | done]]
     | by apply expand_loop_err in Hl
     | by eapply Hno
     | split; [by apply expand_loop_err in Hl | by eapply Hno]]).
Qed.
