(* ===== verification/ConfigYaml.v ===== *)
(** The custom YAML decoders of [internal/config/types.go]: durations, port
    and forward entries, delegated tasks and runner settings.

    A [yaml.Node] is the third-party parser's tree; the decoders only read
    its kind, tag, value and children.  [node.Decode] into a plain struct is
    a parameter.  Reading past the children (a mapping with a key and no
    value, which the parser never builds) is the error [IndexOutOfRange]. *)
From S2P Require Import GoStrings GoTime ConfigTypes ConfigExpand.
Local Open Scope go_scope.
Local Open Scope Z_scope.

Inductive yaml_kind := ScalarNode | MappingNode | SequenceNode | OtherNode.
#[warnings="-register-all"]
Inductive yaml_node := Node (kind : yaml_kind) (tag value : gostring) (content : list yaml_node).
Definition node_kind (n : yaml_node) : yaml_kind := let 'Node k _ _ _ := n in k.
Definition node_tag (n : yaml_node) : gostring := let 'Node _ t _ _ := n in t.
Definition node_value (n : yaml_node) : gostring := let 'Node _ _ v _ := n in v.
Definition node_content (n : yaml_node) : list yaml_node := let 'Node _ _ _ c := n in c.
#[export] Instance yaml_kind_eq_dec : EqDecision yaml_kind.
Proof. solve_decision. Defined.
Definition is_kind (k : yaml_kind) (n : yaml_node) : bool := bool_decide (node_kind n = k).
Definition is_null (n : yaml_node) : bool := is_kind ScalarNode n && seqb (node_tag n) $"!!null".

Inductive yaml_err :=
  | MustBe (field : gostring)                     (* wrong node kind *)
  | TaskNameEmpty (field : gostring) (i : nat)
  | EntryFieldNotString (field : gostring) (i : nat) (k : gostring)
  | EntryFieldUnknown (field : gostring) (i : nat) (k : gostring)
  | EntryNeedsName (field : gostring) (i : nat)
  | EntryKind (field : gostring) (i : nat)
  | RuleNotMapping (field : gostring) (i : nat)
  | RuleFieldUnknown (field : gostring) (i : nat) (k : gostring)
  | RuleDecode (field : gostring) (i : nat)
  | FieldUnknown (field k : gostring)
  | DescriptionsDecode (field : gostring)
  | MappingDecode
  | GuestPortRange (n : Z)
  | TargetHostEmpty
  | TargetPortRange (n : Z)
  | BadPortSpec (e : port_err)
  | BadDuration (v : gostring) (e : duration_err)
  | IndexOutOfRange.

(** ** Durations *)
Definition unmarshal_duration (value : yaml_node) : result yaml_err Z :=
  if negb (is_kind ScalarNode value) then Err (MustBe $"duration")
  else map_err (BadDuration (node_value value)) (parse_duration (node_value value)).

(** ** Ports *)
(** The struct form of a port entry, as the parser decodes it. *)
Record raw_port := RawPort {
  rp_name : gostring; rp_host_ip : gostring; rp_guest : Z; rp_host : Z; rp_port : Z;
  rp_guest_port : Z; rp_host_port : Z; rp_dynamic : bool }.
Definition first_nonzero (a b c : Z) : Z :=
  if negb (a =? 0) then a else if negb (b =? 0) then b else c.
(** [PortSpec.UnmarshalYAML]; [p] is the receiver before the call. *)
Definition unmarshal_port_spec `{UnicodeCase} (decode : yaml_node -> option raw_port) (p : port_spec)
    (value : yaml_node) : result yaml_err port_spec :=
  if is_kind MappingNode value then
    match decode value with
    | None => Err MappingDecode
    | Some raw =>
        Ok (PortSpec (rp_name raw) (or_else (rp_host_ip raw) $"127.0.0.1")
              (first_nonzero (rp_guest_port raw) (rp_guest raw) (rp_port raw))
              (first_nonzero (rp_host_port raw) (rp_host raw) (rp_port raw)) (rp_dynamic raw))
    end
  else if negb (is_kind ScalarNode value) then Err (MustBe $"port spec")
  else
    '(guest, host, ip) ← map_err BadPortSpec (parse_port_string (node_value value));
    Ok (PortSpec (ps_name p) (or_else ip $"127.0.0.1") guest host (ps_dynamic p)).

Definition unmarshal_forward_host (decode : yaml_node -> option forward_host_spec)
    (value : yaml_node) : result yaml_err forward_host_spec :=
  if is_kind MappingNode value then
    match decode value with
    | None => Err MappingDecode
    | Some raw =>
        if (fh_guest raw <? 1) || (65535 <? fh_guest raw) then Err (GuestPortRange (fh_guest raw))
        else if is_empty (fh_target raw) then Err TargetHostEmpty
        else if (fh_target_port raw <? 1) || (65535 <? fh_target_port raw)
             then Err (TargetPortRange (fh_target_port raw))
             else Ok raw
    end
  else if negb (is_kind ScalarNode value) then Err (MustBe $"forward_hosts")
  else map_err BadPortSpec (parse_forward_host_flag (node_value value)).

(** ** Delegated tasks *)
(** The inner loop over one {name, description} mapping: [(name, desc)]. *)
Fixpoint decode_entry (field : gostring) (i : nat) (acc : gostring * gostring) (content : list yaml_node)
  : result yaml_err (gostring * gostring) :=
  match content with
  | [] => Ok acc
  | [_] => Err IndexOutOfRange
  | kn :: v :: rest =>
      let k := node_value kn in
      if negb (is_kind ScalarNode v) then Err (EntryFieldNotString field i k)
      else if seqb k $"name" then decode_entry field i (node_value v, snd acc) rest
      else if seqb k $"description" then decode_entry field i (fst acc, node_value v) rest
      else Err (EntryFieldUnknown field i k)
  end.
Definition decode_item (field : gostring) (i : nat) (st : list gostring * strmap) (item : yaml_node)
  : result yaml_err (list gostring * strmap) :=
  let '(names, descs) := st in
  match node_kind item with
  | ScalarNode =>
      if is_empty (trim_space (node_value item)) then Err (TaskNameEmpty field i)
      else Ok (names ++ [node_value item], descs)
  | MappingNode =>
      '(name, desc) ← decode_entry field i ([], []) (node_content item);
      if is_empty (trim_space name) then Err (EntryNeedsName field i)
      else Ok (names ++ [name], if negb (is_empty desc) then <[name := desc]> descs else descs)
  | _ => Err (EntryKind field i)
  end.
Fixpoint decode_items (field : gostring) (i : nat) (st : list gostring * strmap) (items : list yaml_node)
  : result yaml_err (list gostring * strmap) :=
  match items with
  | [] => Ok st
  | item :: rest => st ← decode_item field i st item; decode_items field (S i) st rest
  end.
Definition decode_task_entries (node : yaml_node) (field : gostring)
  : result yaml_err (list gostring * strmap) :=
  if is_null node then Ok ([], ∅)
  else if negb (is_kind SequenceNode node) then Err (MustBe field)
  else decode_items field 0 ([], ∅) (node_content node).

Definition allowed_raw_rule_keys : list gostring :=
  [$"cmd"; $"description"; $"subcommands"; $"opts_with_value"; $"flags"; $"allow_opt_value_form";
   $"forbidden_args_matching"].

Section decode.
Context (decode_rule : yaml_node -> option raw_rule) (decode_map : yaml_node -> option strmap).

Fixpoint check_rule_keys (field : gostring) (i : nat) (content : list yaml_node) : result yaml_err unit :=
  match content with
  | [] => Ok tt
  | kn :: rest =>
      if negb (smem (node_value kn) allowed_raw_rule_keys) then Err (RuleFieldUnknown field i (node_value kn))
      else match rest with
           | [] => Ok tt
           | _ :: rest' => check_rule_keys field i rest'
           end
  end.
Fixpoint decode_rules (field : gostring) (i : nat) (items : list yaml_node)
  : result yaml_err (list raw_rule) :=
  match items with
  | [] => Ok []
  | item :: rest =>
      if negb (is_kind MappingNode item) then Err (RuleNotMapping field i)
      else
        _ ← check_rule_keys field i (node_content item);
        match decode_rule item with
        | None => Err (RuleDecode field i)
        | Some r => rs ← decode_rules field (S i) rest; Ok (r :: rs)
        end
  end.
Definition decode_raw_rules (node : yaml_node) (field : gostring) : result yaml_err (list raw_rule) :=
  if is_null node then Ok []
  else if negb (is_kind SequenceNode node) then Err (MustBe field)
  else decode_rules field 0 (node_content node).

(** The key loop of [DelegatedTasks.UnmarshalYAML]: the receiver, the
    inline descriptions and the explicit ones so far.  A copied map is the
    union that prefers the copied one. *)
Fixpoint tasks_loop (d : delegated_tasks) (descs explicit : strmap) (content : list yaml_node)
  : result yaml_err (delegated_tasks * strmap) :=
  match content with
  | [] => Ok (d, explicit ∪ descs)
  | [_] => Err IndexOutOfRange
  | kn :: val :: rest =>
      let key := node_value kn in
      if seqb key $"exact" then
        '(names, inline) ← decode_task_entries val $"delegated_tasks.exact";
        tasks_loop (DelegatedTasks names (dt_prefixes d) (dt_raw d) (dt_descriptions d))
                   (inline ∪ descs) explicit rest
      else if seqb key $"prefixes" then
        '(names, inline) ← decode_task_entries val $"delegated_tasks.prefixes";
        tasks_loop (DelegatedTasks (dt_exact d) names (dt_raw d) (dt_descriptions d))
                   (inline ∪ descs) explicit rest
      else if seqb key $"raw" then
        rules ← decode_raw_rules val $"delegated_tasks.raw";
        tasks_loop (DelegatedTasks (dt_exact d) (dt_prefixes d) rules (dt_descriptions d))
                   descs explicit rest
      else if seqb key $"descriptions" then
        match decode_map val with
        | None => Err (DescriptionsDecode $"delegated_tasks")
        | Some m => tasks_loop d descs (m ∪ explicit) rest
        end
      else Err (FieldUnknown $"delegated_tasks" key)
  end.
Definition unmarshal_delegated_tasks (d : delegated_tasks) (value : yaml_node)
  : result yaml_err delegated_tasks :=
  if negb (is_kind MappingNode value) then Err (MustBe $"delegated_tasks")
  else
    '(d, descs) ← tasks_loop d ∅ ∅ (node_content value);
    Ok (DelegatedTasks (dt_exact d) (dt_prefixes d) (dt_raw d)
          (if (0 <? size descs)%nat then descs else dt_descriptions d)).

(** [decodeRunnerNode] for [RunnerCfg] and [RunnerOverride]. *)
Fixpoint runner_loop (field : gostring) (r : runner_cfg) (descs explicit : strmap) (content : list yaml_node)
  : result yaml_err (runner_cfg * strmap) :=
  match content with
  | [] => Ok (r, explicit ∪ descs)
  | [_] => Err IndexOutOfRange
  | kn :: val :: rest =>
      let key := node_value kn in
      if seqb key $"just_bin" then
        if negb (is_kind ScalarNode val) then Err (MustBe (field ++ $".just_bin"))
        else runner_loop field (RunnerCfg (node_value val) (rc_exact r) (rc_prefixes r) (rc_raw r)
                                  (rc_descriptions r)) descs explicit rest
      else if seqb key $"extra_exact" then
        '(names, inline) ← decode_task_entries val (field ++ $".extra_exact");
        runner_loop field (RunnerCfg (rc_just_bin r) names (rc_prefixes r) (rc_raw r) (rc_descriptions r))
                    (inline ∪ descs) explicit rest
      else if seqb key $"extra_prefixes" then
        '(names, inline) ← decode_task_entries val (field ++ $".extra_prefixes");
        runner_loop field (RunnerCfg (rc_just_bin r) (rc_exact r) names (rc_raw r) (rc_descriptions r))
                    (inline ∪ descs) explicit rest
      else if seqb key $"extra_raw" then
        rules ← decode_raw_rules val (field ++ $".extra_raw");
        runner_loop field (RunnerCfg (rc_just_bin r) (rc_exact r) (rc_prefixes r) rules (rc_descriptions r))
                    descs explicit rest
      else if seqb key $"descriptions" then
        match decode_map val with
        | None => Err (DescriptionsDecode field)
        | Some m => runner_loop field r descs (m ∪ explicit) rest
        end
      else Err (FieldUnknown field key)
  end.
Definition unmarshal_runner (r : runner_cfg) (value : yaml_node) : result yaml_err runner_cfg :=
  if negb (is_kind MappingNode value) then Err (MustBe $"runner")
  else
    '(r, descs) ← runner_loop $"runner" r ∅ ∅ (node_content value);
    Ok (RunnerCfg (rc_just_bin r) (rc_exact r) (rc_prefixes r) (rc_raw r)
          (if (0 <? size descs)%nat then descs else rc_descriptions r)).
End decode.

(** * Lemmas *)
(** What a decoded entry list satisfies: names that are not blank, and
    descriptions of named tasks only, none of them empty. *)
Definition entries_ok (st : list gostring * strmap) : Prop :=
  Forall nonblank st.1 /\ map_Forall (fun k v => k ∈ st.1 /\ v <> []) st.2.
Lemma decode_item_ok field i st item st' :
  entries_ok st -> decode_item field i st item = Ok st' -> entries_ok st' /\ length st'.1 = S (length st.1).
Proof.
  destruct st as [names descs]. intros [Hn Hd]. cbn [fst snd] in *. unfold decode_item. cbn [fst snd].
  assert (Hadd : forall n, is_empty (trim_space n) = false -> Forall nonblank (names ++ [n])).
  { intros n He. apply Forall_app. split; [done|]. apply Forall_singleton. by apply nonblank_check. }
  assert (Hold : forall n, map_Forall (fun k v => k ∈ names ++ [n] /\ v <> []) descs).
  { intros n k v Hk. destruct (Hd k v Hk). split; [|done]. apply elem_of_app. by left. }
  destruct (node_kind item); try discriminate.
  - destruct (is_empty _) eqn:He; [discriminate|]. intros [= <-].
    split; [by split; [apply Hadd | apply Hold] | cbn [fst]; rewrite length_app; cbn; lia].
  - intros ([n d] & _ & H)%bind_ok_inv. destruct (is_empty (trim_space n)) eqn:He; [discriminate|].
    injection H as <-. split; [|cbn [fst]; rewrite length_app; cbn; lia]. split; [by apply Hadd|]. cbn [snd].
    destruct (is_empty d) eqn:Hde; cbn [negb]; [apply Hold|]. breflect.
    apply map_Forall_insert_2; [|apply Hold]. split; [|done]. apply elem_of_app. right. left.
Qed.
Lemma decode_items_ok field i st items st' :
  entries_ok st -> decode_items field i st items = Ok st' ->
  entries_ok st' /\ length st'.1 = (length st.1 + length items)%nat.
Proof.
  revert i st; induction items as [|item items IH]; intros i st Hst; cbn [decode_items].
  - intros [= <-]. split; [done | cbn; lia].
  - intros (st1 & H1 & H2)%bind_ok_inv. apply decode_item_ok in H1 as [Hok Hl]; [|done].
    apply IH in H2 as [Hok' Hl']; [|done]. split; [done|]. cbn [length]. lia.
Qed.
Lemma decode_task_entries_ok node field st :
  decode_task_entries node field = Ok st -> entries_ok st.
Proof.
  unfold decode_task_entries. destruct (is_null node); [intros [= <-]; by split|].
  destruct (negb _); [discriminate|]. intros H. apply decode_items_ok in H as [H _]; [done|]. by split.
Qed.
Definition tasks_ok (d : delegated_tasks) : Prop :=
  Forall nonblank (dt_exact d) /\ Forall nonblank (dt_prefixes d).
Lemma tasks_loop_ok dr dm n d descs explicit content r :
  (length content <= n)%nat ->
  tasks_ok d -> tasks_loop dr dm d descs explicit content = Ok r -> tasks_ok r.1.
Proof.
  revert d descs explicit content; induction n as [|n IH]; intros d descs explicit content Hl Hd.
  { destruct content; [by intros [= <-] | cbn in Hl; lia]. }
  destruct content as [|kn [|val rest]]; cbn [tasks_loop]; [by intros [= <-] | discriminate|].
  cbn [length] in Hl. destruct Hd as [He Hp].
  repeat case_match_goal; try discriminate.
  - intros ([ns ds] & Hx & H)%bind_ok_inv. apply decode_task_entries_ok in Hx as [Hx _].
    apply IH in H; [done | lia | by split].
  - intros ([ns ds] & Hx & H)%bind_ok_inv. apply decode_task_entries_ok in Hx as [Hx _].
    apply IH in H; [done | lia | by split].
  - intros (rs & Hx & H)%bind_ok_inv. apply IH in H; [done | lia | by split].
  - intros H. apply IH in H; [done | lia | by split].
Qed.

(** * Properties *)

(** decoding a task list keeps one entry per child, refuses blank names,
    and records descriptions only for names of the list, never empty ones. *)
Theorem decode_task_entries_sound (node : yaml_node) (field : gostring) :
  match decode_task_entries node field with
  | Ok (names, descs) =>
      Forall nonblank names /\ map_Forall (fun k v => k ∈ names /\ v <> []) descs /\
      (is_null node = false -> length names = length (node_content node))
  | Err _ => is_null node = false
  end.
Proof.
  destruct (decode_task_entries node field) as [[names descs]|e] eqn:H.
  - pose proof (decode_task_entries_ok _ _ _ H) as [Hn Hd]. split_and!; [done..|]. intros Hnull.
    unfold decode_task_entries in H. rewrite Hnull in H. destruct (negb _); [discriminate|].
    apply decode_items_ok in H as [_ Hl]; [done | by split].
  - unfold decode_task_entries in H. by destruct (is_null node).
Qed.

(** no blank task name gets into the delegation whitelist: whatever the
    library decoders return, delegated_tasks decoded into an empty receiver
    have only non-blank exact and prefix names. *)
Theorem unmarshal_tasks_nonblank (decode_rule : yaml_node -> option raw_rule)
    (decode_map : yaml_node -> option strmap) (value : yaml_node) :
  match unmarshal_delegated_tasks decode_rule decode_map (DelegatedTasks [] [] [] ∅) value with
  | Ok d => Forall nonblank (dt_exact d) /\ Forall nonblank (dt_prefixes d)
  | Err _ => True
  end.
Proof.
  unfold unmarshal_delegated_tasks. destruct (negb _); [done|].
  destruct (tasks_loop _ _ _ _ _ _) as [[d descs]|] eqn:H; [|done]. cbn.
  by apply (tasks_loop_ok _ _ (length (node_content value))) in H.
Qed.

(** The string form of a port entry loses the request for a dynamic host
    port: the entry keeps host port 0, which validation then refuses. *)
(** An accepted duration is a scalar with a 64-bit value; a whole number of
    a unit is decoded as such, or refused when it does not fit, and a number
    without a unit is refused, but for a single zero. *)
Theorem unmarshal_duration_spec (value : yaml_node) :
  (forall d, unmarshal_duration value = Ok d -> node_kind value = ScalarNode /\ min_int64 <= d <= max_int64) /\
  (forall n u k, node_kind value = ScalarNode -> node_value value = itoa n ++ u -> 0 <= n -> (u, k) ∈ units ->
     unmarshal_duration value =
       if n * k <=? max_int64 then Ok (n * k) else Err (BadDuration (itoa n ++ u) InvalidDuration)) /\
  (forall d, node_value value <> [] -> Forall (fun c => is_digit c = true) (node_value value) ->
     unmarshal_duration value = Ok d -> node_value value = $"0" /\ d = 0).
Proof.
  unfold unmarshal_duration, is_kind. split_and!.
  - intros d. case_bool_decide as Hk; [|done]. cbn [negb]. destruct (parse_duration _) as [x|] eqn:Hp; [|done].
    cbn. intros [= <-]. split; [done|]. by eapply duration_range.
  - intros n u k Hk Hv Hn Hu. rewrite bool_decide_true by done. cbn [negb]. rewrite Hv, (duration_of_number n u k Hn Hu).
    by destruct (_ <=? _).
  - intros d Hne Hd. case_bool_decide; [|done]. cbn [negb]. pose proof (duration_needs_unit _ Hne Hd) as Hu.
    destruct (seqb (node_value value) $"0") eqn:H0; [|by destruct Hu as [e ->]].
    rewrite Hu. cbn. intros [= <-]. by apply seqb_eq in H0.
Qed.
(** A zero needs no unit, and a duration may be negative. *)
Example durations_accepted :
  map (fun s => unmarshal_duration (Node ScalarNode $"!!str" s [])) [$"0"; $"-5s"; $"30"] =
  [Ok 0; Ok (-5000000000); Err (BadDuration $"30" MissingUnit)].
Proof. vm_compute. reflexivity. Qed.
Example dynamic_port_string_refused :
  let UC : UnicodeCase := fun s => s in
  match parse_publish_flag $"127.0.0.1::8080",
        unmarshal_port_spec (fun _ => None) (PortSpec [] [] 0 0 false)
          (Node ScalarNode $"!!str" $"127.0.0.1::8080" []) with
  | Ok flag, Ok entry => ps_dynamic flag = true /\ ps_dynamic entry = false /\
                         check_port 0 entry = Err (PortOutOfRange 0 entry)
  | _, _ => False
  end.
Proof. vm_compute. auto. Qed.
