(* ===== verification/ConfigMerge.v ===== *)
(** The configuration merge rules of [internal/config/merge.go]: lists union,
    scalars are replaced, maps merge keywise; the choice of the per-repository
    override; the glob matcher; the precedence of template variables. *)
From S2P Require Import GoStrings GoPath ConfigTypes ConfigExpand.
Local Open Scope go_scope.

(** * Merging *)
(** [UnionStrings]: appends what is not there yet, one element at a time. *)
Definition union_strings (base add : list gostring) : list gostring :=
  fold_left (fun out v => if smem v out then out else out ++ [v]) add base.
(** [MergeStringMaps]: keys of [over] win. *)
Definition merge_string_maps (base over : strmap) : strmap := over ∪ base.
Definition merge_network (base over : network_cfg) : network_cfg :=
  let d := nw_dns base in
  let e := nw_dns over in
  Network (or_else (nw_mode over) (nw_mode base))
    (DNS (dns_enabled e || dns_enabled d) (or_else (dns_upstream e) (dns_upstream d))
         (merge_string_maps (dns_hosts d) (dns_hosts e)))
    (union_strings (nw_sni base) (nw_sni over))
    (union_strings (nw_allow base) (nw_allow over))
    (union_strings (nw_block base) (nw_block over))
    (nw_tcp base ++ nw_tcp over).
Definition merge_env (base over : env_spec) : env_spec :=
  EnvSpec (union_strings (env_unset base) (env_unset over))
    (merge_string_maps (env_set base) (env_set over))
    (union_strings (env_inherit base) (env_inherit over))
    (env_inherit_all base || env_inherit_all over).
Definition merge_env_chain (specs : list env_spec) : env_spec := fold_left merge_env specs empty_env.
Definition merge_paths (base : paths_cfg) (over : option paths_cfg) : paths_cfg :=
  match over with
  | None => base
  | Some over =>
      Paths (or_else (pa_storage over) (pa_storage base)) (or_else (pa_tmp over) (pa_tmp base))
        (or_else (pa_gomod over) (pa_gomod base)) (or_else (pa_gobuild over) (pa_gobuild base))
        (union_strings (pa_extra base) (pa_extra over))
        (union_strings (pa_prepend base) (pa_prepend over))
        (union_strings (pa_append base) (pa_append over))
  end.
Definition merge_runner (base over : runner_cfg) : runner_cfg :=
  RunnerCfg (or_else (rc_just_bin over) (rc_just_bin base))
    (union_strings (rc_exact base) (rc_exact over))
    (union_strings (rc_prefixes base) (rc_prefixes over))
    (rc_raw base ++ rc_raw over)
    (if (0 <? size (rc_descriptions base)) || (0 <? size (rc_descriptions over))
     then merge_string_maps (rc_descriptions base) (rc_descriptions over) else rc_descriptions base).
Definition merge_users (global over : user) : user :=
  User (merge_paths (u_paths global) (Some (u_paths over)))
    (merge_runner (u_runner global) (u_runner over))
    (merge_string_maps (u_vars global) (u_vars over))
    (u_allow_env global) (u_vars_from_exec global) (u_security global) (u_audit_file global)
    (u_secret_sources global) (u_inject_needs global ++ u_inject_needs over) (u_secrets global)
    (u_mounts global ++ u_mounts over)
    (merge_network (u_network global) (u_network over))
    (merge_env (u_env global) (u_env over))
    (u_repos global).

(** [MergeVars]; [environ] is [os.Environ()]. *)
Definition env_var (out : strmap) (env : gostring) : strmap :=
  let name := trim_prefix env $"KEG_VAR_" in
  if has_prefix env $"KEG_VAR_" && negb (is_empty name) then
    match cut "=" name with
    | Some (k, v) => <[k := v]> out
    | None => out
    end
  else out.
Definition merge_vars (environ : list gostring) (repo_vars user_vars match_vars : strmap)
    (cli : list strmap) : strmap :=
  let out := match_vars ∪ (user_vars ∪ (repo_vars ∪ ∅)) in
  let out := fold_left env_var environ out in
  fold_left (fun out cv => cv ∪ out) cli out.

(** * Globs *)
(** The loop of [matchGlob] on the indices [px] and [sx]; [star] is the pair
    [(starP, starS)], [None] while they are -1. *)
Fixpoint glob_loop (fuel : nat) (pattern s : gostring) (px sx : nat) (star : option (nat * nat))
  : option (option nat) :=
  match fuel with
  | O => None
  | S f =>
      if sx <? length s then
        let back :=
          match star with
          | Some (star_p, star_s) => glob_loop f pattern s (star_p + 1) (star_s + 1) (Some (star_p, star_s + 1))
          | None => Some None
          end in
        match pattern !! px, s !! sx with
        | Some p, Some c =>
            if Ascii.eqb p "?" || Ascii.eqb p c then glob_loop f pattern s (px + 1) (sx + 1) star
            else if Ascii.eqb p "*" then glob_loop f pattern s (px + 1) sx (Some (px, sx))
            else back
        | _, _ => back
        end
      else Some (Some px)
  end.
Fixpoint star_run (s : gostring) : nat :=
  match s with c :: s' => if Ascii.eqb c "*" then S (star_run s') else 0 | [] => 0 end.
(** Each star position is tried at most once for each character of [s], and
    between two backtracks the indices only grow. *)
Definition glob_fuel (pattern s : gostring) : nat := (length s + 2) * (length s + length pattern + 2).
Definition match_glob (pattern s : gostring) : option bool :=
  r ← glob_loop (glob_fuel pattern s) pattern s 0 0 None;
  Some (match r with
        | None => false
        | Some px => px + star_run (drop px pattern) =? length pattern
        end).
Definition glob_matches (pattern path : gostring) : bool := default false (match_glob pattern path).
Definition literal_prefix_len (pattern : gostring) : Z :=
  match index_any $"*?[" pattern with
  | Some i => Z.of_nat i
  | None => Z.of_nat (length pattern)
  end.

(** * The repository override *)
Section find.
Context (env : gostring -> option gostring) (home : option gostring).

Definition key_pattern (key : gostring) : option gostring :=
  match expand_path env home key with Ok p => Some (clean p) | Err _ => None end.
Definition is_some_index (o : option nat) : bool := match o with Some _ => true | None => false end.
(** The loop over the keys in the visiting order: [(exactKey, best.key)]. *)
Fixpoint find_loop (repo_path : gostring) (best : gostring * Z) (keys : list gostring)
  : gostring * gostring :=
  match keys with
  | [] => ([], fst best)
  | key :: rest =>
      match key_pattern key with
      | None => find_loop repo_path best rest
      | Some pattern =>
          if seqb pattern repo_path then (key, fst best)
          else if is_some_index (index_any $"*?" pattern) && glob_matches pattern repo_path then
            let spec := literal_prefix_len pattern in
            find_loop repo_path (if (snd best <? spec)%Z then (key, spec) else best) rest
          else find_loop repo_path best rest
      end
  end.
Definition find_repo_override `{MapRange repo_override} (u : user) (repo_path : gostring)
  : option repo_override :=
  let repo_path := clean repo_path in
  let '(exact, best) := find_loop repo_path ([], (-1)%Z) (map fst (map_range (u_repos u))) in
  let chosen := or_else exact best in
  if is_empty chosen then None else u_repos u !! chosen.

Definition deref_paths (p : option paths_cfg) : paths_cfg := default empty_paths p.
Definition deref_runner (r : option runner_cfg) : runner_cfg := default empty_runner r.
Definition match_repo `{MapRange repo_override} (u : user) (repo_path : gostring) : user :=
  match find_repo_override u repo_path with
  | None => u
  | Some o =>
      merge_users u
        (User (deref_paths (ro_paths o)) (deref_runner (ro_runner o)) (ro_vars o) None ∅ empty_security []
              ∅ (ro_secrets o) ∅ (ro_mounts o) (ro_network o) (ro_env o) ∅)
  end.
End find.

(** * Specification of globs *)
Inductive glob : gostring -> gostring -> Prop :=
  | glob_nil : glob [] []
  | glob_any p c s : glob p s -> glob ("?"%char :: p) (c :: s)
  | glob_lit p c s : c <> "*"%char -> glob p s -> glob (c :: p) (c :: s)
  | glob_star_none p s : glob p s -> glob ("*"%char :: p) s
  | glob_star_more p c s : glob ("*"%char :: p) s -> glob ("*"%char :: p) (c :: s).
(** One pattern character that is not a star, against one character. *)
Definition char_ok (p c : ascii) : Prop := p <> "*"%char /\ (p = "?"%char \/ p = c).

Lemma glob_star_iff p s : glob ("*"%char :: p) s <-> exists k, k <= length s /\ glob p (drop k s).
Proof.
  split.
  - intros H. remember ("*"%char :: p) as q eqn:Hq. revert p Hq.
    induction H as [| | |q s Hg _|q c s Hg IH]; intros p0 Hq; simplify_eq.
    + exists 0. rewrite drop_0. split; [lia | done].
    + destruct (IH _ eq_refl) as (k & Hk & Hd). exists (S k). cbn. split; [lia | done].
  - intros (k & Hk & Hd). revert k Hk Hd. induction s as [|c s IH]; intros k Hk Hd.
    + constructor. by destruct k.
    + destruct k as [|k]; [by apply glob_star_none|]. cbn in Hk, Hd.
      apply glob_star_more. apply (IH k); [lia | done].
Qed.
Lemma glob_char_iff p q c s : char_ok p c -> glob (p :: q) (c :: s) <-> glob q s.
Proof.
  intros [Hp Hc]. split.
  - intros H. inversion H; subst; done.
  - intros H. destruct Hc as [->| ->]; [by constructor|]. by apply glob_lit.
Qed.
Lemma glob_char_bad p q c s : p <> "*"%char -> ~ char_ok p c -> ~ glob (p :: q) (c :: s).
Proof. unfold char_ok. intros Hp Hn H. apply Hn. split; [done|]. inversion H; subst; naive_solver. Qed.
Lemma glob_nil_cons c s : ~ glob [] (c :: s).
Proof. inversion 1. Qed.
Lemma glob_end p : glob p [] <-> star_run p = length p.
Proof.
  induction p as [|c p IH]; [split; [done | constructor]|]. cbn [star_run length].
  destruct (Ascii.eqb_spec c "*") as [->|Hc].
  - rewrite Nat.succ_inj_wd, <- IH. split; [by inversion 1 | by constructor].
  - split; [by inversion 1 | done].
Qed.
(** A block of the pattern without stars takes as many characters. *)
Lemma glob_prefix u p s : Forall (fun c => c <> "*"%char) u ->
  glob (u ++ p) s -> glob p (drop (length u) s) /\ length u <= length s.
Proof.
  intros Hu. revert s. induction Hu as [|c u Hc Hu IH]; intros s H; cbn [app length] in *.
  - rewrite drop_0. split; [done | lia].
  - inversion H; subst; try done; cbn [drop length];
      (destruct (IH _ ltac:(eassumption)); split; [done | lia]).
Qed.

(** * The loop implements the specification *)
(** What a state still accepts: the current position, or a later start for
    the text after the last star. *)
Definition state_accepts (P S : gostring) (px sx : nat) (star : option (nat * nat)) : Prop :=
  glob (drop px P) (drop sx S) \/
  match star with
  | None => False
  | Some (p, t) => exists k, t < k <= length S /\ glob (drop (p + 1) P) (drop k S)
  end.
(** Since the last star the pattern advanced over [u], which has no star, by
    as many characters as the text. *)
Definition star_inv (P S : gostring) (px sx : nat) (star : option (nat * nat)) : Prop :=
  px <= length P /\ sx <= length S /\
  match star with
  | None => True
  | Some (p, t) => p < px /\ t <= sx /\ sx - t = px - (p + 1) /\
      Forall (fun c => c <> "*"%char) (take (px - (p + 1)) (drop (p + 1) P))
  end.
Definition star_pos (S : gostring) (star : option (nat * nat)) : nat :=
  match star with None => length S + 1 | Some (_, t) => length S - t end.
Definition glob_measure (P S : gostring) (px sx : nat) (star : option (nat * nat)) : nat :=
  star_pos S star * (length S + length P + 2) + (length S - sx) + (length P - px).

Lemma star_absorbs P S px sx p t q :
  star_inv P S px sx (Some (p, t)) -> drop px P = "*"%char :: q ->
  (exists k, t < k <= length S /\ glob (drop (p + 1) P) (drop k S)) -> glob ("*"%char :: q) (drop sx S).
Proof.
  intros (Hpx & Hsx & Hp & Ht & Heq & Hu) Hq (k & Hk & Hg).
  set (u := take (px - (p + 1)) (drop (p + 1) P)) in *.
  assert (Hlu : length u = px - (p + 1)) by (unfold u; rewrite length_take, length_drop; lia).
  assert (Hsplit : drop (p + 1) P = u ++ "*"%char :: q).
  { rewrite <- Hq. unfold u. rewrite <- (take_drop (px - (p + 1)) (drop (p + 1) P)) at 1. f_equal.
    rewrite drop_drop. f_equal. lia. }
  rewrite Hsplit in Hg. apply glob_prefix in Hg as [Hg Hlen]; [|done].
  rewrite drop_drop in Hg. rewrite length_drop in Hlen. apply glob_star_iff in Hg as (j & Hj & Hg).
  rewrite drop_drop in Hg. rewrite length_drop in Hj. apply glob_star_iff.
  exists (k + length u + j - sx). rewrite length_drop, drop_drop. split; [lia|].
  by replace (sx + (k + length u + j - sx)) with (k + length u + j) by lia.
Qed.
Lemma star_tail P S p t :
  t < length S ->
  (exists k, t < k <= length S /\ glob (drop (p + 1) P) (drop k S)) <->
  state_accepts P S (p + 1) (t + 1) (Some (p, t + 1)).
Proof.
  intros Ht. unfold state_accepts. split.
  - intros (k & Hk & Hg). destruct (decide (k = t + 1)) as [->|]; [by left|].
    right. exists k. split; [lia | done].
  - intros [Hg|(k & Hk & Hg)]; [exists (t + 1) | exists k]; (split; [lia | done]).
Qed.
Lemma drop_lookup {A} (l : list A) i x : l !! i = Some x -> drop i l = x :: drop (i + 1) l.
Proof. intros H. rewrite Nat.add_1_r. by apply drop_S. Qed.
Lemma star_inv_step P S px sx star p :
  star_inv P S px sx star -> P !! px = Some p -> p <> "*"%char -> sx < length S ->
  star_inv P S (px + 1) (sx + 1) star.
Proof.
  intros (Hpx & Hsx & Hst) Hp Hps Hlt. pose proof (lookup_lt_Some _ _ _ Hp).
  split; [lia|]. split; [lia|]. destruct star as [[p0 t]|]; [|done].
  destruct Hst as (H1 & H2 & H3 & Hu). split_and!; [lia.. |].
  replace (px + 1 - (p0 + 1)) with (Datatypes.S (px - (p0 + 1))) by lia.
  rewrite (take_S_r _ _ p); [apply Forall_app; split; [done | by apply Forall_singleton]|].
  rewrite lookup_drop. by replace (p0 + 1 + (px - (p0 + 1))) with px by lia.
Qed.
Lemma back_measure P S px sx p t :
  p < px -> px <= length P -> t < length S ->
  glob_measure P S (p + 1) (t + 1) (Some (p, t + 1)) < glob_measure P S px sx (Some (p, t)).
Proof.
  intros H1 H2 H3. unfold glob_measure, star_pos.
  replace (length S - t) with (Datatypes.S (length S - (t + 1))) by lia.
  rewrite Nat.mul_succ_l. lia.
Qed.
Lemma star_measure P S px sx star :
  star_inv P S px sx star -> px < length P ->
  glob_measure P S (px + 1) sx (Some (px, sx)) < glob_measure P S px sx star.
Proof.
  intros (_ & Hsx & Hst) Hpx. unfold glob_measure, star_pos.
  assert (Hle : length S - sx <= match star with Some (_, t) => length S - t | None => length S + 1 end).
  { destruct star as [[p t]|]; [destruct Hst as (_ & ? & _)|]; lia. }
  apply (Nat.mul_le_mono_r _ _ (length S + length P + 2)) in Hle. lia.
Qed.
(** Backtracking, when the current position cannot match. *)
Lemma back_spec P S f px sx star c :
  (forall px sx star, star_inv P S px sx star -> glob_measure P S px sx star < f ->
     exists r, glob_loop f P S px sx star = Some r /\
       (state_accepts P S px sx star <->
        match r with None => False | Some px' => px' <= length P /\ glob (drop px' P) [] end)) ->
  star_inv P S px sx star -> glob_measure P S px sx star < Datatypes.S f ->
  S !! sx = Some c -> ~ glob (drop px P) (drop sx S) ->
  exists r,
    match star with
    | Some (p, t) => glob_loop f P S (p + 1) (t + 1) (Some (p, t + 1))
    | None => Some None
    end = Some r /\
    (state_accepts P S px sx star <->
     match r with None => False | Some px' => px' <= length P /\ glob (drop px' P) [] end).
Proof.
  intros IH Hinv Hm Hc Hno. pose proof Hinv as (Hpx & Hsx & Hst).
  apply lookup_lt_Some in Hc. destruct star as [[p t]|].
  - destruct Hst as (H1 & H2 & H3 & H4). destruct (IH (p + 1) (t + 1) (Some (p, t + 1))) as (r & Hr & Hiff).
    + split; [lia|]. split; [lia|]. split_and!; [lia..|]. by rewrite Nat.sub_diag.
    + pose proof (back_measure P S px sx p t H1 Hpx ltac:(lia)). lia.
    + exists r. split; [done|]. rewrite <- Hiff, <- star_tail by lia. unfold state_accepts.
      split; [intros [?|?]; done | by right].
  - exists None. split; [done|]. unfold state_accepts. tauto.
Qed.
(** At the end of the text only the rest of the pattern counts: a later
    start for the text after the star leaves too few characters. *)
Lemma end_accepts P S px sx star :
  star_inv P S px sx star -> length S <= sx ->
  state_accepts P S px sx star <-> glob (drop px P) [].
Proof.
  intros (Hpx & Hsx & Hstar) Hge. unfold state_accepts.
  replace sx with (length S) in * by lia. rewrite drop_all. split; [|intros ?; by left].
  intros [Hg|Hb]; [done|]. destruct star as [[p t]|]; [|done].
  destruct Hstar as (_ & Ht & Heq & Hu), Hb as (k & Hk & Hg).
  destruct (glob_prefix (take (px - (p + 1)) (drop (p + 1) P)) (drop px P) (drop k S)) as [_ Hlen]; [done | |].
  - replace (take _ _ ++ drop px P) with (drop (p + 1) P); [done|].
    rewrite <- (take_drop (px - (p + 1)) (drop (p + 1) P)) at 1. f_equal. rewrite drop_drop. f_equal. lia.
  - rewrite length_take, !length_drop in Hlen. exfalso. lia.
Qed.
(** Entering a star keeps what is accepted and forgets the last star. *)
Lemma star_accepts P S px sx star :
  star_inv P S px sx star -> P !! px = Some "*"%char ->
  state_accepts P S (px + 1) sx (Some (px, sx)) <-> state_accepts P S px sx star.
Proof.
  intros Hinv Hp. apply drop_lookup in Hp. pose proof Hinv as (Hpx & Hsx & Hstar).
  assert (Hnew : state_accepts P S (px + 1) sx (Some (px, sx)) <-> glob (drop px P) (drop sx S)).
  { rewrite Hp, glob_star_iff. unfold state_accepts. split.
    - intros [Hg|(k & Hk & Hg)]; [exists 0; rewrite drop_0; split; [lia | done]|].
      exists (k - sx). rewrite length_drop, drop_drop. split; [lia|].
      by replace (sx + (k - sx)) with k by lia.
    - intros (k & Hk & Hg). rewrite length_drop in Hk. rewrite drop_drop in Hg.
      destruct k as [|k]; [left; by rewrite Nat.add_0_r in Hg|]. right.
      exists (sx + Datatypes.S k). split; [lia | done]. }
  rewrite Hnew. unfold state_accepts. split; [by left|]. intros [Hg|Hb]; [done|].
  destruct star as [[p0 t]|]; [|done]. rewrite Hp. by eapply star_absorbs.
Qed.
Lemma glob_loop_spec P S fuel px sx star :
  "*"%char ∉ S -> star_inv P S px sx star -> glob_measure P S px sx star < fuel ->
  exists r, glob_loop fuel P S px sx star = Some r /\
    (state_accepts P S px sx star <->
     match r with None => False | Some px' => px' <= length P /\ glob (drop px' P) [] end).
Proof.
  intros HS. revert px sx star.
  induction fuel as [|f IH]; intros px sx star Hinv Hm; [lia|]. cbn [glob_loop].
  pose proof Hinv as (Hpx & Hsx & _).
  destruct (Nat.ltb_spec sx (length S)) as [Hlt|Hge].
  2:{ exists (Some px). split; [done|]. rewrite end_accepts by done.
      split; [by split | by intros [_ ?]]. }
  destruct (lookup_lt_is_Some_2 S sx Hlt) as [c Hc]. rewrite Hc.
  pose proof (drop_lookup _ _ _ Hc) as HdS.
  pose proof (back_spec P S f px sx star c IH Hinv Hm Hc) as Hback.
  destruct (P !! px) as [p|] eqn:Hp.
  2:{ apply Hback. apply lookup_ge_None in Hp. rewrite (drop_ge P px), HdS by lia. apply glob_nil_cons. }
  pose proof (drop_lookup _ _ _ Hp) as HdP. pose proof (lookup_lt_Some _ _ _ Hp) as Hpl.
  destruct (Ascii.eqb p "?" || Ascii.eqb p c) eqn:Hmatch.
  - assert (Hok : char_ok p c).
    { apply orb_true_iff in Hmatch. rewrite !Ascii.eqb_eq in Hmatch. split; [|done].
      intros ->. destruct Hmatch as [?| <-]; [done|]. apply HS. by eapply list_elem_of_lookup_2. }
    destruct (IH (px + 1) (sx + 1) star) as (r & Hr & Hiff).
    + eapply star_inv_step; [done | done | apply Hok | done].
    + unfold glob_measure in *. lia.
    + exists r. split; [done|]. rewrite <- Hiff. unfold state_accepts. by rewrite HdP, HdS, glob_char_iff.
  - destruct (Ascii.eqb_spec p "*") as [->|Hps].
    + destruct (IH (px + 1) sx (Some (px, sx))) as (r & Hr & Hiff).
      * split; [lia|]. split; [lia|]. split_and!; [lia..|]. by rewrite Nat.sub_diag.
      * pose proof (star_measure P S px sx star Hinv Hpl). lia.
      * exists r. split; [done|]. by rewrite <- Hiff, star_accepts.
    + apply Hback. rewrite HdP, HdS. apply glob_char_bad; [done|]. intros [_ Hor].
      apply orb_false_iff in Hmatch. rewrite !Ascii.eqb_neq in Hmatch. tauto.
Qed.

(** * Lemmas: unions and maps *)
Lemma union_strings_step base v l :
  union_strings base (v :: l) = union_strings (if smem v base then base else base ++ [v]) l.
Proof. reflexivity. Qed.
Lemma union_strings_elem base add x : x ∈ union_strings base add <-> x ∈ base \/ x ∈ add.
Proof.
  revert base; induction add as [|v add IH]; intros base.
  - unfold union_strings. cbn. rewrite elem_of_nil. tauto.
  - rewrite union_strings_step, IH, elem_of_cons.
    destruct (smem v base) eqn:Hv; breflect; rewrite ?elem_of_app, ?list_elem_of_singleton; naive_solver.
Qed.
Lemma union_strings_prefix base add : base `prefix_of` union_strings base add.
Proof.
  revert base; induction add as [|v add IH]; intros base; [done|].
  rewrite union_strings_step. destruct (smem v base); [apply IH|].
  etrans; [|apply IH]. by eexists.
Qed.
Lemma union_strings_nodup base add : NoDup base -> NoDup (union_strings base add).
Proof.
  revert base; induction add as [|v add IH]; intros base Hb; [done|].
  rewrite union_strings_step. destruct (smem v base) eqn:Hv; [by apply IH|]. breflect. apply IH.
  apply NoDup_app. split_and!; [done | intros x Hx ->%list_elem_of_singleton; done | apply NoDup_singleton].
Qed.

Lemma merge_lookup (base over : strmap) k :
  merge_string_maps base over !! k = match over !! k with Some v => Some v | None => base !! k end.
Proof. unfold merge_string_maps. rewrite lookup_union. by destruct (over !! k), (base !! k). Qed.
(** The last element of a chain that gives an answer. *)
Definition last_some {A B} (f : A -> option B) (l : list A) : option B :=
  fold_left (fun acc x => match f x with Some y => Some y | None => acc end) l None.
Lemma last_some_snoc {A B} (f : A -> option B) l x :
  last_some f (l ++ [x]) = match f x with Some y => Some y | None => last_some f l end.
Proof. unfold last_some. by rewrite fold_left_app. Qed.
Lemma merge_env_chain_snoc l e : merge_env_chain (l ++ [e]) = merge_env (merge_env_chain l) e.
Proof. unfold merge_env_chain. by rewrite fold_left_app. Qed.

Lemma match_glob_some P S : "*"%char ∉ S ->
  exists b, match_glob P S = Some b /\ (b = true <-> glob P S).
Proof.
  intros HS. destruct (glob_loop_spec P S (glob_fuel P S) 0 0 None HS) as (r & Hr & Hiff).
  - split_and!; [lia | lia | done].
  - unfold glob_measure, glob_fuel, star_pos. nia.
  - unfold match_glob. rewrite Hr. cbn [mbind option_bind]. eexists. split; [reflexivity|].
    unfold state_accepts in Hiff. rewrite !drop_0 in Hiff.
    destruct r as [px|].
    + rewrite glob_end, length_drop in Hiff. rewrite Nat.eqb_eq. destruct Hiff as [H1 H2]. split.
      * intros He. destruct (decide (px <= length P)); [destruct H2; [lia | done | done]|].
        rewrite drop_ge in He by lia. cbn in He. lia.
      * intros Hg. destruct (H1 (or_introl Hg)). lia.
    + split; [done|]. intros Hg. destruct Hiff as [H1 _]. destruct (H1 (or_introl Hg)).
Qed.
(** The loop ends within its fuel on every text, starred or not. *)
Lemma glob_loop_total P S fuel px sx star :
  px <= length P -> sx <= length S ->
  match star with Some (p, t) => p < px /\ t <= sx | None => True end ->
  glob_measure P S px sx star < fuel -> exists r, glob_loop fuel P S px sx star = Some r.
Proof.
  revert px sx star. induction fuel as [|f IH]; intros px sx star Hpx Hsx Hst Hm; [lia|].
  cbn [glob_loop]. destruct (Nat.ltb_spec sx (length S)) as [Hlt|]; [|eauto].
  assert (Hback : exists r, match star with
    | Some (p, t) => glob_loop f P S (p + 1) (t + 1) (Some (p, t + 1)) | None => Some None end = Some r).
  { destruct star as [[p t]|]; [|eauto]. destruct Hst as [H1 H2].
    pose proof (back_measure P S px sx p t H1 Hpx ltac:(lia)). apply IH; try lia. }
  destruct (P !! px) as [p|] eqn:Hp; [|done]. apply lookup_lt_Some in Hp.
  destruct (S !! sx); [|done]. destruct (_ || _).
  - apply IH; [lia | lia | | unfold glob_measure in *; lia].
    destruct star as [[? ?]|]; [|done]. lia.
  - destruct (Ascii.eqb p "*"); [|done]. apply IH; [lia | lia | lia |].
    unfold glob_measure, star_pos in *.
    assert (Hle : length S - sx <= match star with Some (_, t) => length S - t | None => length S + 1 end).
    { destruct star as [[? ?]|]; lia. }
    apply (Nat.mul_le_mono_r _ _ (length S + length P + 2)) in Hle. lia.
Qed.
Lemma or_else_cases s d : or_else s d = match s with [] => d | _ => s end.
Proof. by destruct s. Qed.

Lemma fold_cli_lookup cli m k :
  fold_left (fun out cv => cv ∪ out) cli m !! k
  = match last_some (fun cv : strmap => cv !! k) cli with Some v => Some v | None => m !! k end.
Proof.
  induction cli as [|cv cli IH] using rev_ind; [done|].
  rewrite fold_left_app, last_some_snoc. cbn. rewrite lookup_union, IH.
  destruct (cv !! k), (last_some _ _); cbn; try done; by destruct (m !! k).
Qed.
(** The assignment an environment entry makes to the variable [k]. *)
Definition env_assign (k : gostring) (env : gostring) : option gostring :=
  if has_prefix env $"KEG_VAR_" && negb (is_empty (trim_prefix env $"KEG_VAR_")) then
    match cut "=" (trim_prefix env $"KEG_VAR_") with
    | Some (k', v) => if seqb k' k then Some v else None
    | None => None
    end
  else None.
Lemma fold_env_lookup environ m k :
  fold_left env_var environ m !! k
  = match last_some (env_assign k) environ with Some v => Some v | None => m !! k end.
Proof.
  induction environ as [|e environ IH] using rev_ind; [done|].
  rewrite fold_left_app, last_some_snoc. cbn. unfold env_var at 1, env_assign at 1. cbv zeta.
  destruct (_ && _); [|done]. destruct (cut _ _) as [[k' v]|]; [|done].
  destruct (seqb_spec k' k) as [->|Hne]; [by rewrite lookup_insert_eq | by rewrite lookup_insert_ne].
Qed.

Section find_lemmas.
Context (env : gostring -> option gostring) (home : option gostring).
(** The keys that name the repository, exactly or by a glob. *)
Definition exact_key (repo_path key : gostring) : Prop := key_pattern env home key = Some repo_path.
Definition glob_key (repo_path key : gostring) (spec : Z) : Prop :=
  exists p, key_pattern env home key = Some p /\ p <> repo_path /\
    is_some_index (index_any $"*?" p) = true /\ glob_matches p repo_path = true /\
    spec = literal_prefix_len p.
(** What the scan knows of the keys [seen]. *)
Definition best_of (repo_path : gostring) (seen : list gostring) (best : gostring * Z) : Prop :=
  (best = ([], (-1)%Z) /\ forall k s, k ∈ seen -> ~ glob_key repo_path k s) \/
  (fst best ∈ seen /\ glob_key repo_path (fst best) (snd best) /\
   forall k s, k ∈ seen -> glob_key repo_path k s -> (s <= snd best)%Z).
Lemma literal_prefix_len_nonneg p : (0 <= literal_prefix_len p)%Z.
Proof. unfold literal_prefix_len. destruct (index_any _ _); lia. Qed.
Lemma find_loop_spec repo_path keys seen best exact b :
  best_of repo_path seen best -> (forall k, k ∈ seen -> ~ exact_key repo_path k) ->
  find_loop env home repo_path best keys = (exact, b) ->
  (exact_key repo_path exact /\ exact ∈ keys) \/
  (exact = [] /\ (forall k, k ∈ seen ++ keys -> ~ exact_key repo_path k) /\
   exists spec, best_of repo_path (seen ++ keys) (b, spec)).
Proof.
  revert seen best. induction keys as [|key keys IH]; intros seen best Hbest Hseen; cbn [find_loop].
  { intros [= <- <-]. right. rewrite app_nil_r. split_and!; [done..|]. exists (snd best). by destruct best. }
  assert (Hgo : forall best', best_of repo_path (seen ++ [key]) best' -> ~ exact_key repo_path key ->
    find_loop env home repo_path best' keys = (exact, b) ->
    (exact_key repo_path exact /\ exact ∈ key :: keys) \/
    (exact = [] /\ (forall k, k ∈ seen ++ key :: keys -> ~ exact_key repo_path k) /\
     exists spec, best_of repo_path (seen ++ key :: keys) (b, spec))).
  { intros best' Hb Hk Hrun. apply (IH (seen ++ [key])) in Hrun; [|done|].
    - rewrite <- app_assoc in Hrun. cbn [app] in Hrun. destruct Hrun as [[? ?]|?]; [left | by right].
      split; [done | by right].
    - intros k [Hk'|Hk']%elem_of_app; [by apply Hseen | by apply list_elem_of_singleton in Hk' as ->]. }
  assert (Hskip : (forall s, ~ glob_key repo_path key s) -> best_of repo_path (seen ++ [key]) best).
  { intros Hn. destruct Hbest as [[-> Hb]|(Hb1 & Hb2 & Hb3)]; [left | right].
    - split; [done|]. intros k s [Hk|Hk]%elem_of_app; [by apply Hb | apply list_elem_of_singleton in Hk as ->; apply Hn].
    - split_and!; [apply elem_of_app; by left | done |].
      intros k s [Hk|Hk]%elem_of_app; [by apply Hb3|]. apply list_elem_of_singleton in Hk as ->.
      intros Hg. by destruct (Hn s). }
  destruct (key_pattern env home key) as [p|] eqn:Hp.
  2:{ apply Hgo; [apply Hskip|].
      - intros s (p & Hp' & _). congruence.
      - unfold exact_key. congruence. }
  destruct (seqb_spec p repo_path) as [->|Hne].
  { intros [= <- <-]. left. split; [done | left]. }
  assert (Hnex : ~ exact_key repo_path key) by (unfold exact_key; congruence).
  destruct (is_some_index _ && glob_matches p repo_path) eqn:Hg; cycle 1.
  { apply Hgo; [apply Hskip | done]. intros s (p' & Hp' & _ & Hi & Hm & _).
    rewrite Hp in Hp'. injection Hp' as <-. by rewrite Hi, Hm in Hg. }
  apply andb_true_iff in Hg as [Hi Hm]. apply Hgo; [|done].
  assert (Hkey : glob_key repo_path key (literal_prefix_len p)) by (exists p; auto).
  assert (Huniq : forall s, glob_key repo_path key s -> s = literal_prefix_len p).
  { intros s (p' & Hp' & _ & _ & _ & ->). congruence. }
  pose proof (literal_prefix_len_nonneg p) as H0.
  destruct (Z.ltb_spec (snd best) (literal_prefix_len p)) as [Hlt|Hge]; right; cbn [fst snd].
  - split_and!; [apply elem_of_app; right; left | done |].
    intros k s [Hk|Hk]%elem_of_app Hks;
      [|apply list_elem_of_singleton in Hk as ->; apply Huniq in Hks; lia].
    destruct Hbest as [[_ Hb]|(_ & _ & Hb)]; [by destruct (Hb k s)|]. specialize (Hb k s Hk Hks). lia.
  - destruct Hbest as [[-> _]|(Hb1 & Hb2 & Hb3)]; [cbn in Hge; lia|].
    split_and!; [apply elem_of_app; by left | done |].
    intros k s [Hk|Hk]%elem_of_app Hks; [by apply (Hb3 k)|].
    apply list_elem_of_singleton in Hk as ->. apply Huniq in Hks. lia.
Qed.
End find_lemmas.

(** * Properties *)

(** the two-pointer glob matcher terminates on every pattern and text
    within its fuel, and on a text without "*" it accepts exactly what the
    glob means: "?" one character, "*" any sequence, including "/". *)
Theorem match_glob_correct (pattern s : gostring) :
  exists b, match_glob pattern s = Some b /\
            ("*"%char ∉ s -> (b = true <-> glob pattern s)).
Proof.
  destruct (glob_loop_total pattern s (glob_fuel pattern s) 0 0 None) as [r Hr]; [lia | lia | done | |].
  { unfold glob_measure, glob_fuel, star_pos. nia. }
  unfold match_glob at 1. rewrite Hr. cbn [mbind option_bind]. eexists. split; [reflexivity|]. intros HS.
  destruct (match_glob_some pattern s HS) as (b & Hb & Hiff). unfold match_glob in Hb.
  rewrite Hr in Hb. cbn [mbind option_bind] in Hb. injection Hb as ->. exact Hiff.
Qed.
Lemma match_glob_correct_witness :
  exists b, match_glob $"/home/*/w?rk" $"/home/me/src/work" = Some b /\
            (b = true <-> glob $"/home/*/w?rk" $"/home/me/src/work").
Proof.
  destruct (match_glob_correct $"/home/*/w?rk" $"/home/me/src/work") as (b & Hb & Hiff).
  exists b. split; [exact Hb|]. apply Hiff. apply contains_byte_false. reflexivity.
Defined.
(** A text that itself holds a "*" can be refused although the glob accepts
    it: the loop takes the equal characters for an ordinary match and never
    records the star. *)
Example match_glob_star_in_text : match_glob $"*b" $"*ab" = Some false /\ glob $"*b" $"*ab".
Proof.
  split; [vm_compute; reflexivity|]. apply (glob_star_iff $"b" $"*ab"). exists 2.
  split; [cbn; lia|]. cbn. apply glob_lit; [discriminate | constructor].
Qed.

(** merging network policies only adds: the merged allow, block and SNI
    lists start with the base list and hold exactly the entries of both, the
    endpoints are appended, a host mapping of the override wins, and a scalar
    is replaced only when the override declares it. *)
Theorem merge_network_additive (base over : network_cfg) :
  let m := merge_network base over in
  (nw_sni base `prefix_of` nw_sni m /\ nw_allow base `prefix_of` nw_allow m /\
   nw_block base `prefix_of` nw_block m /\ nw_tcp m = nw_tcp base ++ nw_tcp over) /\
  (forall x, (x ∈ nw_sni m <-> x ∈ nw_sni base \/ x ∈ nw_sni over) /\
             (x ∈ nw_allow m <-> x ∈ nw_allow base \/ x ∈ nw_allow over) /\
             (x ∈ nw_block m <-> x ∈ nw_block base \/ x ∈ nw_block over)) /\
  (forall k, dns_hosts (nw_dns m) !! k =
             match dns_hosts (nw_dns over) !! k with Some v => Some v | None => dns_hosts (nw_dns base) !! k end) /\
  nw_mode m = match nw_mode over with [] => nw_mode base | s => s end /\
  (dns_enabled (nw_dns m) = true <-> dns_enabled (nw_dns base) = true \/ dns_enabled (nw_dns over) = true).
Proof.
  cbv zeta. unfold merge_network. cbn [nw_sni nw_allow nw_block nw_tcp nw_dns nw_mode dns_hosts dns_enabled].
  split_and!; try apply union_strings_prefix; try done.
  - intros x. by rewrite !union_strings_elem.
  - intros k. apply merge_lookup.
  - by destruct (nw_mode over).
  - destruct (dns_enabled (nw_dns over)), (dns_enabled (nw_dns base)); naive_solver.
Qed.

(** precedence in an environment chain.  A variable has the value the
    last specification that sets it gives; a name is unset or inherited when
    any specification says so, and everything is inherited when any does. *)
Theorem merge_env_chain_spec (specs : list env_spec) (k : gostring) :
  let m := merge_env_chain specs in
  env_set m !! k = last_some (fun e => env_set e !! k) specs /\
  (k ∈ env_unset m <-> exists e, e ∈ specs /\ k ∈ env_unset e) /\
  (k ∈ env_inherit m <-> exists e, e ∈ specs /\ k ∈ env_inherit e) /\
  env_inherit_all m = existsb env_inherit_all specs.
Proof.
  cbv zeta. induction specs as [|e specs IH] using rev_ind.
  - cbn. setoid_rewrite elem_of_nil. naive_solver.
  - destruct IH as (IH1 & IH2 & IH3 & IH4).
    rewrite merge_env_chain_snoc, last_some_snoc. unfold merge_env.
    cbn [env_set env_unset env_inherit env_inherit_all].
    rewrite merge_lookup, !union_strings_elem, IH1, IH2, IH3, IH4, existsb_app. cbn [existsb].
    rewrite orb_false_r. setoid_rewrite elem_of_app. setoid_rewrite list_elem_of_singleton.
    split_and!; [done | naive_solver | naive_solver | done].
Qed.

(** precedence of template variables: the last command-line map that has
    the key wins, then the last KEG_VAR_ entry of the environment, then the
    matched repository scope, the user scope and the repository file. *)
Theorem merge_vars_precedence (environ : list gostring) (repo_vars user_vars match_vars : strmap)
    (cli : list strmap) (k : gostring) :
  merge_vars environ repo_vars user_vars match_vars cli !! k
  = last_some (fun o => o)
      [repo_vars !! k; user_vars !! k; match_vars !! k; last_some (env_assign k) environ;
       last_some (fun cv : strmap => cv !! k) cli].
Proof.
  unfold merge_vars. cbv zeta. rewrite fold_cli_lookup, fold_env_lookup, !lookup_union, lookup_empty.
  generalize (last_some (fun cv : strmap => cv !! k) cli), (last_some (env_assign k) environ),
    (match_vars !! k), (user_vars !! k), (repo_vars !! k).
  intros [] [] [] [] []; reflexivity.
Qed.

(** which override applies to a repository, whatever order the map is
    visited in: a key whose expanded, cleaned pattern is the repository path
    if there is one; otherwise a matching glob with the longest literal
    prefix of all matching globs; none only when no key matches. *)
Theorem find_repo_override_spec `{MapRangeLaws repo_override}
    (env : gostring -> option gostring) (home : option gostring) (u : user) (repo_path : gostring)
    (Hkeys : u_repos u !! [] = None) :
  let path := clean repo_path in
  match find_repo_override env home u repo_path with
  | Some o => exists key, u_repos u !! key = Some o /\
      (exact_key env home path key \/
       (forall k, is_Some (u_repos u !! k) -> ~ exact_key env home path k) /\
       exists spec, glob_key env home path key spec /\
         forall k s, is_Some (u_repos u !! k) -> glob_key env home path k s -> (s <= spec)%Z)
  | None => forall k, is_Some (u_repos u !! k) ->
      ~ exact_key env home path k /\ forall s, ~ glob_key env home path k s
  end.
Proof.
  cbv zeta. unfold find_repo_override. cbv zeta. set (keys := map fst (map_range (u_repos u))).
  assert (Hin : forall k, k ∈ keys <-> is_Some (u_repos u !! k)).
  { intros k. unfold keys. rewrite list_elem_of_fmap. split.
    - intros ([k' o] & -> & Ho). apply map_range_elem in Ho. by eexists.
    - intros [o Ho]. exists (k, o). split; [done | by apply map_range_elem]. }
  assert (Hne : forall k, k ∈ keys -> k <> []) by (intros k Hk ->; apply Hin in Hk as [? ?]; congruence).
  destruct (find_loop env home (clean repo_path) ([], (-1)%Z) keys) as [exact b] eqn:Hf.
  apply (find_loop_spec env home (clean repo_path) keys []) in Hf;
    [|left; split; [done | intros k s Hk; by apply not_elem_of_nil in Hk]
     |intros k Hk; by apply not_elem_of_nil in Hk].
  cbn [app] in Hf. destruct Hf as [[He Hk]|(-> & Hno & spec & Hbest)].
  - rewrite or_else_cases. pose proof (Hne _ Hk). destruct exact as [|c exact]; [done|]. cbn [is_empty].
    apply Hin in Hk as [o Ho]. rewrite Ho. exists (c :: exact). split; [done | by left].
  - change (or_else [] b) with b.
    destruct Hbest as [[[= -> _] Hb]|(Hb1 & Hb2 & Hb3)]; cbn [fst snd] in *.
    { cbn. intros k Hk%Hin. split; [by apply Hno | intros s; by apply Hb]. }
    pose proof (Hne _ Hb1). destruct b as [|c b]; [done|]. cbn [is_empty].
    pose proof Hb1 as [o Ho]%Hin. rewrite Ho. exists (c :: b). split; [done|]. right.
    split; [intros k Hk%Hin; by apply Hno|].
    exists spec. split; [done|]. intros k s Hk%Hin. by apply Hb3.
Qed.
Lemma find_repo_override_spec_witness :
  let o1 := RepoOverride None None ∅ [] empty_network empty_env [SecretRef $"a" []] in
  let o2 := RepoOverride None None ∅ [] empty_network empty_env [SecretRef $"b" []] in
  let u := User empty_paths empty_runner ∅ None ∅ empty_security [] ∅ [] ∅ [] empty_network empty_env
             (<[$"~/w/*" := o1]> {[$"~/*" := o2]}) in
  exists key o, @find_repo_override (fun _ => None) (Some $"/home/u") map_range_default u $"/home/u/w/p" = Some o
    /\ u_repos u !! key = Some o /\ o = o1.
Proof.
  intros o1 o2 u.
  assert (Hf : @find_repo_override (fun _ => None) (Some $"/home/u") map_range_default u $"/home/u/w/p" = Some o1)
    by (vm_compute; reflexivity).
  pose proof (@find_repo_override_spec map_range_default map_range_default_laws (fun _ => None)
    (Some $"/home/u") u $"/home/u/w/p" eq_refl) as Hs.
  cbv zeta in Hs. rewrite Hf in Hs. destruct Hs as (key & Hk & _).
  exists key, o1. split; [exact Hf|]. split; [exact Hk | reflexivity].
Defined.
