(* ===== verification/Justfile.v ===== *)
(** Justfile inspection, [internal/config/justfile.go], and the trust anchors
    of a repository, [EffectiveTrustAnchors] of [types.go].

    The file system is a finite map from absolute paths to directories and
    files; a file that can be stat'ed but not read has no content. *)
From S2P Require Import GoStrings GoPath ConfigTypes.
Local Open Scope go_scope.

(** * Line scanning *)
Definition lf : ascii := "010"%char.
Definition cr : ascii := "013"%char.
Definition tab : ascii := "009"%char.
Definition squote : ascii := "039"%char.
Definition dquote : ascii := "034"%char.
Definition backquote : ascii := "096"%char.
(** [bufio.MaxScanTokenSize]: a line that fills the buffer ends the scan. *)
Definition max_token : Z := 64 * 1024.
Definition drop_cr (l : gostring) : gostring := trim_suffix l [cr].
(** The tokens of [bufio.ScanLines] until the end or a line that is too
    long; the text after the last line feed is a line unless empty. *)
Fixpoint scan_parts (parts : list gostring) : list gostring :=
  match parts with
  | [] => []
  | [l] => if is_empty l then [] else if (max_token <=? Z.of_nat (length l))%Z then [] else [drop_cr l]
  | l :: rest => if (max_token <=? Z.of_nat (length l))%Z then [] else drop_cr l :: scan_parts rest
  end.
Definition scan_lines (content : gostring) : list gostring := scan_parts (split lf content).

(** * Imports *)
(** The loop of [stripJustComment]: the bytes before an unquoted '#'. *)
Fixpoint strip_comment_loop (in_single in_double : bool) (line : gostring) : gostring :=
  match line with
  | [] => []
  | c :: rest =>
      if Ascii.eqb c squote then
        c :: strip_comment_loop (if negb in_double then negb in_single else in_single) in_double rest
      else if Ascii.eqb c dquote then
        c :: strip_comment_loop in_single (if negb in_single then negb in_double else in_double) rest
      else if Ascii.eqb c "#" && negb in_single && negb in_double then []
      else c :: strip_comment_loop in_single in_double rest
  end.
Definition strip_just_comment (line : gostring) : gostring := strip_comment_loop false false line.
Definition unquote_just_path (s : gostring) : gostring :=
  let s := trim_space s in
  let quoted :=
    match s, last s with
    | first :: _, Some l =>
        (2 <=? length s) && existsb (fun q => Ascii.eqb first q && Ascii.eqb l q) [squote; dquote; backquote]
    | _, _ => false
    end in
  if quoted then drop 1 (take (length s - 1) s)
  else match fields s with f :: _ => f | [] => s end.
(** The target of an import line, empty when the line is none. *)
Definition import_target (clean_line : gostring) : gostring :=
  if has_prefix clean_line $"import?" then trim_space (trim_prefix clean_line $"import?")
  else if has_prefix clean_line $"import " || has_prefix clean_line ($"import" ++ [tab])
  then trim_space (trim_prefix clean_line $"import")
  else if has_prefix clean_line $"!include " || has_prefix clean_line ($"!include" ++ [tab])
  then trim_space (trim_prefix clean_line $"!include")
  else [].
Definition line_import (text : gostring) : list gostring :=
  let line := trim_space text in
  if is_empty line || has_prefix line $"#" || has_prefix line $"//" then []
  else
    let clean_line := trim_space (strip_just_comment line) in
    if is_empty clean_line then []
    else
      let target := import_target clean_line in
      if is_empty target then []
      else let u := unquote_just_path target in if is_empty u then [] else [u].
Definition parse_justfile_imports (content : gostring) : list gostring :=
  concat (map line_import (scan_lines content)).

(** * Descriptions *)
Definition utf8_bar : gostring := map ascii_of_nat [226; 148; 128].    (* U+2500 *)
Definition is_banner_comment (c : gostring) : bool :=
  (has_prefix c (utf8_bar ++ utf8_bar) || has_prefix c $"==" || has_prefix c $"--")
  || (has_suffix c (utf8_bar ++ utf8_bar ++ utf8_bar) || has_suffix c $"===" || has_suffix c $"---").
(** [attr_line] starts with "[" and ends with "]". *)
Definition parse_just_doc_attr (attr_line : gostring) : option gostring :=
  let inner := trim_space (drop 1 (take (length attr_line - 1) attr_line)) in
  if seqb inner $"doc" then Some []
  else if negb (has_prefix inner $"doc(") || negb (has_suffix inner $")") then None
  else Some (unquote_just_path (trim_space (drop 4 (take (length inner - 1) inner)))).
Definition is_name_start (r : Z) : bool :=
  ((97 <=? r) && (r <=? 122) || (65 <=? r) && (r <=? 90) || (r =? 95))%Z.
Definition is_name_rest (r : Z) : bool := is_name_start r || ((48 <=? r) && (r <=? 57) || (r =? 45))%Z.
Definition is_valid_just_recipe_name (name : gostring) : bool :=
  match runes name with
  | [] => false
  | r :: rest => is_name_start r && forallb is_name_rest rest
  end.
Definition recipe_keywords : list gostring :=
  [$"set "; $"set" ++ [tab]; $"export "; $"export" ++ [tab]; $"alias "; $"alias" ++ [tab];
   $"import "; $"import" ++ [tab]; $"import?"; $"!include "; $"!include" ++ [tab];
   $"mod "; $"mod" ++ [tab]; $"mod?"].
(** The recipe name a header line declares, "" when it declares none. *)
Definition parse_just_recipe_header (line : gostring) : gostring :=
  let clean := strip_just_comment line in
  if existsb (has_prefix clean) recipe_keywords then []
  else match index_byte ":" clean with
  | None | Some O => []
  | Some i =>
      if match clean !! S i with Some "="%char => true | _ => false end then []
      else match fields (trim_space (take i clean)) with
           | [] => []
           | f :: _ => let name := trim_left_bytes $"@-" f in
                       if is_valid_just_recipe_name name then name else []
           end
  end.
Record doc_state := DocState {
  ds_descs : strmap; ds_pending : list gostring; ds_doc : option gostring }.
Definition desc_line (st : doc_state) (raw_line : gostring) : doc_state :=
  let reset := DocState (ds_descs st) [] None in
  if has_prefix raw_line $" " || has_prefix raw_line [tab] then reset
  else
    let trimmed := trim_space raw_line in
    if is_empty trimmed then reset
    else if has_prefix trimmed $"#" then
      if has_prefix trimmed $"#!" then st
      else let c := trim_space (trim_left_bytes $"#" trimmed) in
           if negb (is_empty c) && negb (is_banner_comment c)
           then DocState (ds_descs st) (ds_pending st ++ [c]) (ds_doc st) else st
    else if has_prefix trimmed $"[" && has_suffix trimmed $"]" then
      match parse_just_doc_attr trimmed with
      | Some d => DocState (ds_descs st) (ds_pending st) (Some d)
      | None => st
      end
    else
      let recipe := parse_just_recipe_header trimmed in
      if is_empty recipe then reset
      else
        let chosen := match ds_doc st with
                      | Some d => d
                      | None => default [] (last (ds_pending st))
                      end in
        DocState (if is_empty chosen then ds_descs st else <[recipe := chosen]> (ds_descs st)) [] None.
Definition parse_justfile_descriptions (content : gostring) : strmap :=
  ds_descs (fold_left desc_line (scan_lines content) (DocState ∅ [] None)).

(** * Discovery *)
Inductive fs_entry := FSDir | FSFile (content : option gostring).
Abbreviation filesystem := (gmap gostring fs_entry).
(** [os.Stat] succeeds on something that is not a directory. *)
Definition is_file (fs : filesystem) (p : gostring) : bool :=
  match fs !! p with Some (FSFile _) => true | _ => false end.
Definition read_file (fs : filesystem) (p : gostring) : option gostring :=
  match fs !! p with Some (FSFile c) => c | _ => None end.
Definition escapes (cleaned : gostring) : bool := seqb cleaned $".." || has_prefix cleaned $"../".
(** [seen] is the set of the elements of [list], so the list is the state. *)
Definition next_rel (dir imp : gostring) : gostring :=
  let imp_clean := clean imp in
  clean (if seqb dir $"." || is_empty dir then imp_clean else path_join dir imp_clean).
Fixpoint collect (fuel : nat) (fs : filesystem) (repo_dir rel : gostring) (seen : list gostring)
  : option (list gostring) :=
  match fuel with
  | O => None
  | S f =>
      let cleaned := clean rel in
      if seqb cleaned $"." || escapes cleaned then Some seen
      else
        let abs := path_join repo_dir cleaned in
        if negb (is_file fs abs) then Some seen
        else
          let seen := if smem cleaned seen then seen else seen ++ [cleaned] in
          match read_file fs abs with
          | None => Some seen
          | Some data =>
              let dir := path_dir cleaned in
              foldl (fun (acc : option (list gostring)) imp =>
                seen ← acc;
                if seqb (clean imp) $"." then Some seen
                else
                  let next := next_rel dir imp in
                  if escapes next then Some seen
                  else if smem next seen then Some seen
                  else collect f fs repo_dir next seen)
                (Some seen) (parse_justfile_imports data)
          end
  end.
(** Every nested call adds a file that was not seen, and a file has at most
    an absolute and a relative spelling. *)
Definition collect_fuel (fs : filesystem) : nat := 2 * size fs + 3.
Definition collect_justfile_anchors (fs : filesystem) (repo_dir rel : gostring) (seen : list gostring)
  : option (list gostring) := collect (collect_fuel fs) fs repo_dir rel seen.

Definition justfile_names : list gostring := [$"justfile"; $"Justfile"; $".justfile"].
Definition root_justfile (fs : filesystem) (repo_dir : gostring) : option gostring :=
  List.find (fun name => is_file fs (path_join repo_dir name)) justfile_names.
Definition anchor_step (fs : filesystem) (repo_dir : gostring) (acc : option (list gostring)) (a : gostring)
  : option (list gostring) :=
  seen ← acc;
  let cleaned := clean (trim_space a) in
  if is_empty cleaned || seqb cleaned $"." || escapes cleaned then Some seen
  else collect_justfile_anchors fs repo_dir cleaned (if smem cleaned seen then seen else seen ++ [cleaned]).
(** [EffectiveTrustAnchors] of a non-nil repository. *)
Definition effective_trust_anchors (fs : filesystem) (r : repo) (repo_dir : gostring)
  : option (list gostring) :=
  list ← foldl (anchor_step fs repo_dir) (Some []) (r_anchors r);
  list ← (if (0 <? length (dt_exact (r_tasks r))) || (0 <? length (dt_prefixes (r_tasks r)))
          then match root_justfile fs repo_dir with
               | Some name => collect_justfile_anchors fs repo_dir name list
               | None => Some list
               end
          else Some list);
  Some (sort_strings list).

Definition discover_justfile_descriptions (fs : filesystem) (repo_dir : gostring) : option strmap :=
  if is_empty repo_dir then Some ∅
  else match root_justfile fs repo_dir with
  | None => Some ∅
  | Some root =>
      files ← collect_justfile_anchors fs repo_dir root [];
      Some (fold_left (fun descs f =>
              match read_file fs (path_join repo_dir f) with
              | None => descs
              | Some data => parse_justfile_descriptions data ∪ descs
              end) (reverse files) ∅)
  end.

(** * Lemmas *)
Section collect.
Context (fs : filesystem) (repo_dir : gostring) (Hrepo : is_abs repo_dir = true).

(** A cleaned path inside the repository, as [seen] holds them. *)
Definition good (r : gostring) : Prop := clean r = r /\ r <> $"." /\ escapes r = false.
Definition file_rel (r : gostring) : bool := is_file fs (path_join repo_dir r).
Definition inv (seen : list gostring) : Prop := NoDup seen /\ Forall good seen.
(** [y] is a file inside the repository that the justfile [x] imports. *)
Definition imports (x y : gostring) : Prop :=
  exists data imp, read_file fs (path_join repo_dir x) = Some data /\
    imp ∈ parse_justfile_imports data /\ clean imp <> $"." /\
    y = next_rel (path_dir x) imp /\ y <> $"." /\ escapes y = false /\ file_rel y = true.
Definition closed (L : list gostring) (x : gostring) : Prop := forall y, imports x y -> y ∈ L.

Lemma escapes_false r : escapes r = false <-> r <> dotdot /\ has_prefix r $"../" = false.
Proof. unfold escapes. by rewrite orb_false_iff, seqb_neq. Qed.
Lemma good_inside r : good r ->
  exists cs, Forall plain cs /\ r = render (is_abs r) cs /\
             comps (path_join repo_dir r) = comps repo_dir ++ cs.
Proof. intros (Hc & _ & [Hd Hp]%escapes_false). by apply comps_join_cleaned. Qed.
Lemma good_inj r1 r2 :
  good r1 -> good r2 -> is_abs r1 = is_abs r2 -> path_join repo_dir r1 = path_join repo_dir r2 -> r1 = r2.
Proof.
  intros H1 H2 Ha Hj. destruct (good_inside _ H1) as (c1 & _ & E1 & J1).
  destruct (good_inside _ H2) as (c2 & _ & E2 & J2). rewrite Hj, J2 in J1.
  apply app_inv_head in J1 as <-. by rewrite E1, E2, Ha.
Qed.
(** The files among the good paths are at most twice the files of [fs]. *)
Definition file_count (seen : list gostring) : nat := length (filter (fun r => file_rel r = true) seen).
Lemma file_count_bound seen : inv seen -> file_count seen <= 2 * size fs.
Proof.
  intros [Hnd Hg]. unfold file_count.
  set (key := fun r => (is_abs r, path_join repo_dir r)).
  set (l := filter (fun r => file_rel r = true) seen).
  assert (Hinj : NoDup (map key l)).
  { apply NoDup_fmap_2_strong; [|by apply NoDup_filter].
    intros x y Hx Hy. unfold key. intros [= Ha Hj]. rewrite Forall_forall in Hg.
    apply list_elem_of_filter in Hx as [_ Hx], Hy as [_ Hy]. apply good_inj; auto. }
  assert (Hsub : map key l ⊆ list_prod [true; false] (map fst (map_to_list fs))).
  { intros k (r & -> & Hr)%list_elem_of_fmap. apply list_elem_of_filter in Hr as [Hf _].
    apply list_elem_of_In, in_prod; [destruct (is_abs r); simpl; auto|].
    unfold file_rel, is_file in Hf. destruct (fs !! path_join repo_dir r) as [e|] eqn:He; [|done].
    apply list_elem_of_In, list_elem_of_fmap. exists (path_join repo_dir r, e). split; [done|].
    by apply elem_of_map_to_list. }
  pose proof (NoDup_submseteq _ _ Hinj Hsub) as Hs.
  apply submseteq_length in Hs. rewrite length_map, length_prod, length_map, length_map_to_list in Hs. cbn [length] in Hs. lia.
Qed.
Lemma file_count_app a b : file_count (a ++ b) = file_count a + file_count b.
Proof. unfold file_count. by rewrite filter_app, length_app. Qed.
Lemma inv_snoc seen r : inv seen -> good r -> r ∉ seen -> inv (seen ++ [r]).
Proof.
  intros [Hn Hg] Hr Hin. split; [|apply Forall_app; split; [done | by apply Forall_singleton]].
  apply NoDup_app. split_and!; [done | intros x Hx ->%list_elem_of_singleton; done | apply NoDup_singleton].
Qed.

(** The body of the import loop. *)
Definition collect_imp (f : nat) (dir : gostring) (acc : option (list gostring)) (imp : gostring)
  : option (list gostring) :=
  seen ← acc;
  if seqb (clean imp) $"." then Some seen
  else
    let next := next_rel dir imp in
    if escapes next then Some seen
    else if smem next seen then Some seen
    else collect f fs repo_dir next seen.
Lemma collect_unfold f rel seen :
  collect (S f) fs repo_dir rel seen =
  let cleaned := clean rel in
  if seqb cleaned $"." || escapes cleaned then Some seen
  else if negb (file_rel cleaned) then Some seen
  else
    let seen := if smem cleaned seen then seen else seen ++ [cleaned] in
    match read_file fs (path_join repo_dir cleaned) with
    | None => Some seen
    | Some data => foldl (collect_imp f (path_dir cleaned)) (Some seen) (parse_justfile_imports data)
    end.
Proof. reflexivity. Qed.
Lemma foldl_none {A} (g : option (list gostring) -> A -> option (list gostring)) l :
  (forall x, g None x = None) -> foldl g None l = None.
Proof. intros Hg. induction l as [|x l IH]; [done|]. cbn. by rewrite Hg. Qed.
Lemma next_rel_clean dir imp : clean (next_rel dir imp) = next_rel dir imp.
Proof. apply clean_idem. Qed.

(** The result of a call: an extension whose new files have all their
    imports in it. *)
Definition extends (seen L : list gostring) : Prop :=
  (exists ext, L = seen ++ ext) /\ inv L /\
  forall x, x ∈ L -> x ∉ seen -> file_rel x = true /\ closed L x.
Lemma extends_refl seen : inv seen -> extends seen seen.
Proof. intros H. split; [exists []; by rewrite app_nil_r|]. by split. Qed.
Lemma extends_trans a b c : extends a b -> extends b c -> extends a c.
Proof.
  intros ((e1 & ->) & _ & H1) ((e2 & ->) & Hi & H2). split; [exists (e1 ++ e2); by rewrite app_assoc|].
  split; [done|]. intros x Hx Hn. destruct (decide (x ∈ a ++ e1)) as [Hin|Hnin]; [|by apply H2].
  destruct (H1 x Hin Hn) as [Hf Hc]. split; [done|]. intros y Hy. apply elem_of_app. left. by apply Hc.
Qed.
Lemma extends_elem a b x : extends a b -> x ∈ a -> x ∈ b.
Proof. intros ((e & ->) & _) H. apply elem_of_app. by left. Qed.
(** What a call of [collect] establishes. *)
Definition collected (rel : gostring) (seen L : list gostring) : Prop :=
  extends seen L /\
  (clean rel <> $"." -> escapes (clean rel) = false -> file_rel (clean rel) = true ->
   clean rel ∈ L /\ closed L (clean rel)).
Lemma collected_skip rel seen :
  inv seen -> clean rel = $"." \/ escapes (clean rel) = true \/ file_rel (clean rel) = false ->
  collected rel seen seen.
Proof. intros Hi Hskip. split; [by apply extends_refl|]. intros. exfalso. naive_solver congruence. Qed.
(** Marking a good file, then extending the list with its imports. *)
Lemma collected_mark rel seen L :
  inv seen -> good (clean rel) -> file_rel (clean rel) = true ->
  let seen1 := if smem (clean rel) seen then seen else seen ++ [clean rel] in
  inv seen1 /\ (extends seen1 L -> closed L (clean rel) -> collected rel seen L).
Proof.
  set (c := clean rel). intros Hinv Hgood Hf. cbv zeta. destruct (smem c seen) eqn:Hs; breflect.
  { split; [done|]. intros HL Hcl. split; [done|]. split; [by eapply extends_elem | done]. }
  split; [by apply inv_snoc|]. intros HL Hcl.
  assert (Hc : c ∈ L) by (eapply extends_elem; [exact HL|]; apply elem_of_app; right; left).
  split; [|done]. destruct HL as ((e & ->) & Hi & Hx). split; [exists (c :: e); by rewrite <- app_assoc|].
  split; [done|]. intros x Hx' Hn. destruct (decide (x = c)) as [->|Hne]; [done|].
  apply Hx; [done|]. rewrite elem_of_app, list_elem_of_singleton. tauto.
Qed.
(** The import loop, given the calls it makes. *)
Lemma collect_imp_loop f dir imps seen L :
  (forall rel seen L, inv seen -> collect f fs repo_dir rel seen = Some L -> collected rel seen L) ->
  inv seen -> foldl (collect_imp f dir) (Some seen) imps = Some L ->
  extends seen L /\ forall imp, imp ∈ imps -> clean imp <> $"." ->
    let y := next_rel dir imp in y <> $"." -> escapes y = false -> file_rel y = true -> y ∈ L.
Proof.
  intros IH. revert seen L. induction imps as [|imp imps IHi]; intros s L Hs HL; cbn [foldl] in HL.
  { injection HL as <-. split; [by apply extends_refl|]. intros imp Hn. by apply not_elem_of_nil in Hn. }
  destruct (collect_imp f dir (Some s) imp) as [s'|] eqn:Hstep; [|by rewrite foldl_none in HL].
  assert (Hs' : extends s s' /\ (clean imp <> $"." -> let y := next_rel dir imp in
                y <> $"." -> escapes y = false -> file_rel y = true -> y ∈ s')).
  { unfold collect_imp in Hstep. cbn [mbind option_bind] in Hstep. cbv zeta in Hstep |- *.
    destruct (seqb_spec (clean imp) $"."); [injection Hstep as <-; split; [by apply extends_refl | done]|].
    destruct (escapes (next_rel _ imp)) eqn:Hesc; [injection Hstep as <-; split; [by apply extends_refl | done]|].
    destruct (smem _ s) eqn:Hm; breflect; [injection Hstep as <-; split; [by apply extends_refl | done]|].
    apply IH in Hstep as [Hx Hy]; [|done]. rewrite next_rel_clean in Hy. split; [done|].
    intros _ Hnd _ Hfile. by destruct Hy. }
  destruct Hs' as [Hx Hy]. apply IHi in HL as [Hx' Hy']; [|apply Hx].
  split; [by eapply extends_trans|]. intros imp' [->|Hin]%elem_of_cons; [|by apply Hy'].
  intros. eapply extends_elem; [exact Hx'|]. by apply Hy.
Qed.
Lemma collect_spec f rel seen L :
  inv seen -> collect f fs repo_dir rel seen = Some L -> collected rel seen L.
Proof.
  revert rel seen L; induction f as [|f IH]; intros rel seen L Hinv; [done|].
  rewrite collect_unfold. cbv zeta.
  destruct (seqb_spec (clean rel) $"."); [intros [= <-]; apply collected_skip; [done | tauto]|].
  destruct (escapes (clean rel)) eqn:He; [intros [= <-]; apply collected_skip; [done | tauto]|]. cbn [orb].
  destruct (file_rel (clean rel)) eqn:Hf; cbn [negb]; [|intros [= <-]; apply collected_skip; [done | tauto]].
  assert (Hgood : good (clean rel)) by (split_and!; [apply clean_idem | done | done]).
  destruct (collected_mark rel seen L Hinv Hgood Hf) as [Hinv1 Hmark].
  destruct (read_file fs (path_join repo_dir (clean rel))) as [data|] eqn:Hr.
  2:{ intros [= <-]. apply Hmark; [by apply extends_refl|]. intros y (d & imp & Hd' & _). congruence. }
  intros Hfold. apply collect_imp_loop in Hfold as [Hext Hall]; [|done | done].
  apply Hmark; [done|]. intros y (d & imp & Hd' & Himp & Hcl & -> & Hyd & Hye & Hyf).
  rewrite Hr in Hd'. injection Hd' as <-. by apply (Hall imp).
Qed.

Lemma extends_count a b : extends a b -> file_count a <= file_count b.
Proof. intros ((e & ->) & _). rewrite file_count_app. lia. Qed.
(** Enough fuel: each nested call adds a file to [seen]. *)
Lemma collect_imps_total f dir imps s :
  (forall rel seen, inv seen -> clean rel ∉ seen -> 2 * size fs - file_count seen < f ->
     exists L, collect f fs repo_dir rel seen = Some L) ->
  inv s -> 2 * size fs - file_count s < f ->
  exists L, foldl (collect_imp f dir) (Some s) imps = Some L.
Proof.
  intros IH. revert s. induction imps as [|imp imps IHi]; intros s Hs Hc; cbn [foldl]; [eauto|].
  assert (Hstep : exists s', collect_imp f dir (Some s) imp = Some s' /\ extends s s').
  { unfold collect_imp. cbn [mbind option_bind]. cbv zeta. pose proof (extends_refl s Hs).
    destruct (seqb _ _); [eauto|]. destruct (escapes _); [eauto|].
    destruct (smem _ s) eqn:Hm; breflect; [eauto|].
    destruct (IH (next_rel dir imp) s Hs) as [L HL]; [by rewrite next_rel_clean | done |].
    exists L. split; [done|]. by eapply collect_spec in HL as [? _]. }
  destruct Hstep as (s' & -> & Hx). apply IHi; [apply Hx|].
  pose proof (extends_count _ _ Hx). lia.
Qed.
Lemma collect_total_unseen f rel seen :
  inv seen -> clean rel ∉ seen -> 2 * size fs - file_count seen < f ->
  exists L, collect f fs repo_dir rel seen = Some L.
Proof.
  revert rel seen; induction f as [|f IH]; intros rel seen Hinv Hn Hf; [lia|].
  rewrite collect_unfold. cbv zeta. destruct (_ || _) eqn:Hce; [eauto|].
  destruct (file_rel (clean rel)) eqn:Hfile; cbn [negb]; [|eauto].
  apply smem_false in Hn as Hm. rewrite Hm. destruct (read_file _ _); [|eauto].
  apply orb_false_iff in Hce as [Hd He]. apply seqb_neq in Hd.
  assert (Hinv' : inv (seen ++ [clean rel])) by (apply inv_snoc; [done | split_and!; [apply clean_idem | done | done] | done]).
  apply collect_imps_total; [exact IH | done|]. rewrite file_count_app.
  assert (H1 : file_count [clean rel] = 1).
  { unfold file_count. rewrite filter_cons_True by done. reflexivity. }
  pose proof (file_count_bound _ Hinv') as Hb. rewrite file_count_app in Hb. lia.
Qed.
Lemma collect_total rel seen : inv seen ->
  exists L, collect_justfile_anchors fs repo_dir rel seen = Some L.
Proof.
  intros Hinv. unfold collect_justfile_anchors, collect_fuel.
  replace (2 * size fs + 3) with (S (2 * size fs + 2)) by lia.
  destruct (decide (clean rel ∈ seen)) as [Hin|Hn]; [|apply collect_total_unseen; [done | done | lia]].
  rewrite collect_unfold. cbv zeta. destruct (_ || _); [eauto|].
  destruct (negb _); [eauto|]. apply smem_true in Hin. rewrite Hin. destruct (read_file _ _); [|eauto].
  apply collect_imps_total; [intros; by apply collect_total_unseen | done | lia].
Qed.

(** The state of [EffectiveTrustAnchors]: everything found so far is closed,
    and the declared anchors [done] are in. *)
Definition anchors_inv (declared : list gostring) (seen : list gostring) : Prop :=
  inv seen /\ (forall x, x ∈ seen -> closed seen x) /\
  forall a, a ∈ declared -> good (clean (trim_space a)) -> clean (trim_space a) ∈ seen.
Lemma closed_mono a b x : extends a b -> closed a x -> closed b x.
Proof. intros Hx Hc y Hy. eapply extends_elem; [exact Hx|]. by apply Hc. Qed.
Lemma collect_keeps rel seen L :
  inv seen -> (forall x, x ∈ seen -> x <> clean rel -> closed seen x) ->
  (clean rel ∈ seen -> good (clean rel)) ->
  collect_justfile_anchors fs repo_dir rel seen = Some L ->
  extends seen L /\ forall x, x ∈ L -> closed L x.
Proof.
  intros Hinv Hcl Hg HL. apply collect_spec in HL as [Hx Hrel]; [|done]. split; [done|].
  intros x Hin. destruct (decide (x ∈ seen)) as [Hs|Hs]; [|by apply Hx].
  destruct (decide (x = clean rel)) as [->|Hne]; [|by eapply closed_mono; [|apply Hcl]].
  destruct (Hg Hs) as (_ & Hd & He). destruct (file_rel (clean rel)) eqn:Hf; [by apply Hrel|].
  intros y (data & imp & Hr & _). unfold file_rel, is_file in Hf. unfold read_file in Hr.
  by destruct (fs !! path_join repo_dir (clean rel)) as [[|]|].
Qed.
Lemma anchor_step_inv declared seen a :
  anchors_inv declared seen ->
  exists L, anchor_step fs repo_dir (Some seen) a = Some L /\ anchors_inv (declared ++ [a]) L.
Proof.
  intros (Hi & Hc & Hd). unfold anchor_step. cbn [mbind option_bind]. cbv zeta.
  set (c := clean (trim_space a)).
  assert (Hcc : clean c = c) by apply clean_idem.
  destruct (is_empty c || seqb c $"." || escapes c) eqn:Hskip.
  { exists seen. split; [done|]. split_and!; [done..|].
    intros b [Hb|Hb]%elem_of_app Hg; [by apply Hd|]. apply list_elem_of_singleton in Hb as ->. fold c in Hg |- *.
    destruct Hg as (_ & Hnd & Hne). exfalso. apply orb_true_iff in Hskip as [Hskip|Hskip]; [|congruence].
    apply orb_true_iff in Hskip as [He|He]; breflect; [|done]. rewrite He in Hcc. discriminate. }
  apply orb_false_iff in Hskip as [Hskip He]. apply orb_false_iff in Hskip as [_ Hdot]. apply seqb_neq in Hdot.
  assert (Hg : good c) by (by split_and!).
  set (seen1 := if smem c seen then seen else seen ++ [c]).
  assert (H1 : inv seen1 /\ c ∈ seen1 /\ (forall x, x ∈ seen -> x ∈ seen1) /\
               forall x, x ∈ seen1 -> x <> clean c -> closed seen1 x).
  { unfold seen1. destruct (smem c seen) eqn:Hs; breflect.
    - split_and!; [done | done | done | intros; by apply Hc].
    - split_and!; [by apply inv_snoc | apply elem_of_app; right; left | intros; apply elem_of_app; by left |].
      intros x [Hx|Hx]%elem_of_app Hne y Hy; [apply elem_of_app; left; by eapply Hc|].
      apply list_elem_of_singleton in Hx as ->. by rewrite Hcc in Hne. }
  destruct H1 as (Hi1 & Hc1 & Hsub & Hcl1).
  destruct (collect_total c seen1 Hi1) as [L HL]. exists L. split; [done|].
  apply collect_keeps in HL as [Hx HcL]; [|done|done|by rewrite Hcc].
  split_and!; [apply Hx | done |].
  intros b [Hb|Hb]%elem_of_app Hgb; [eapply extends_elem; [exact Hx | by apply Hsub, Hd]|].
  apply list_elem_of_singleton in Hb as ->. by eapply extends_elem.
Qed.
Lemma anchors_loop declared anchors seen :
  anchors_inv declared seen ->
  exists L, foldl (anchor_step fs repo_dir) (Some seen) anchors = Some L /\
            anchors_inv (declared ++ anchors) L.
Proof.
  revert declared seen; induction anchors as [|a anchors IH]; intros declared seen Hi; cbn [foldl].
  - exists seen. by rewrite app_nil_r.
  - destruct (anchor_step_inv _ _ a Hi) as (s & -> & Hs). destruct (IH _ _ Hs) as (L & HL & Hinv).
    exists L. split; [done|]. by rewrite <- app_assoc in Hinv.
Qed.
End collect.

Lemma root_justfile_some fs repo_dir name :
  root_justfile fs repo_dir = Some name ->
  clean name = name /\ name <> $"." /\ escapes name = false /\ is_file fs (path_join repo_dir name) = true.
Proof.
  unfold root_justfile. intros [Hin Hf]%List.find_some.
  cbn [justfile_names In] in Hin. destruct Hin as [<- | [<- | [<- | []]]];
    (split_and!; [reflexivity | discriminate | reflexivity | exact Hf]).
Qed.

(** * Properties *)

(** The trust anchors of a repository are complete and confined.  The
    computation always ends; the list is sorted and duplicate-free; every
    anchor lies inside the repository; every declared anchor that is a path
    inside the repository is in it, and the root justfile is when tasks are
    delegated to just; and the list is closed under imports: whatever file of
    the repository an anchored justfile imports is an anchor too. *)
Theorem effective_trust_anchors_complete (fs : filesystem) (r : repo) (repo_dir : gostring)
    (Hrepo : is_abs repo_dir = true) :
  exists L, effective_trust_anchors fs r repo_dir = Some L /\
    NoDup L /\ StronglySorted (fun a b => sleb a b = true) L /\
    (forall x, x ∈ L -> exists cs, comps (path_join repo_dir x) = comps repo_dir ++ cs /\ Forall plain cs) /\
    (forall a, a ∈ r_anchors r -> good (clean (trim_space a)) -> clean (trim_space a) ∈ L) /\
    (dt_exact (r_tasks r) <> [] \/ dt_prefixes (r_tasks r) <> [] ->
     forall name, root_justfile fs repo_dir = Some name -> name ∈ L) /\
    (forall x y, x ∈ L -> imports fs repo_dir x y -> y ∈ L).
Proof.
  assert (Hnil : anchors_inv fs repo_dir [] []).
  { split_and!; [by split; constructor | intros x Hx; by apply not_elem_of_nil in Hx
                | intros a Ha; by apply not_elem_of_nil in Ha]. }
  destruct (anchors_loop fs repo_dir Hrepo [] (r_anchors r) [] Hnil) as (L1 & H1 & Hi1 & Hc1 & Hd1).
  assert (H2 : exists L, (if (0 <? length (dt_exact (r_tasks r))) || (0 <? length (dt_prefixes (r_tasks r)))
      then match root_justfile fs repo_dir with
           | Some name => collect_justfile_anchors fs repo_dir name L1
           | None => Some L1 end
      else Some L1) = Some L /\ extends fs repo_dir L1 L /\ (forall x, x ∈ L -> closed fs repo_dir L x) /\
      (dt_exact (r_tasks r) <> [] \/ dt_prefixes (r_tasks r) <> [] ->
       forall name, root_justfile fs repo_dir = Some name -> name ∈ L)).
  { pose proof (extends_refl fs repo_dir L1 Hi1) as Hrefl.
    destruct (_ || _) eqn:Htasks.
    2:{ exists L1. split_and!; [done..|]. apply orb_false_iff in Htasks as [Ha Hb].
        breflect. destruct (dt_exact _), (dt_prefixes _); cbn in *; intros [?|?]; done || lia. }
    destruct (root_justfile fs repo_dir) as [name|] eqn:Hroot; [|exists L1; by split_and!].
    destruct (root_justfile_some _ _ _ Hroot) as (Hcl & Hdot & Hesc & Hfile).
    destruct (collect_total fs repo_dir Hrepo name L1 Hi1) as [L HL]. exists L. split; [done|].
    pose proof (collect_spec fs repo_dir _ _ _ _ Hi1 HL) as [_ Hin]. rewrite Hcl in Hin.
    apply collect_keeps in HL as [Hx Hc]; [|done | intros; by apply Hc1 | intros _; rewrite Hcl; by split_and!].
    split_and!; [done | done |]. destruct (Hin Hdot Hesc Hfile) as [HinL _].
    intros _ n [= <-]. exact HinL. }
  destruct H2 as (L & HL & Hx & Hc & Hroot).
  exists (sort_strings L). unfold effective_trust_anchors. rewrite H1. cbn [mbind option_bind].
  rewrite HL. cbn [mbind option_bind]. destruct Hx as (Hpre & [Hnd Hg] & _). split_and!.
  - done.
  - by rewrite sort_strings_perm.
  - apply sort_strings_sorted.
  - intros x Hx. rewrite sort_strings_elem in Hx. rewrite Forall_forall in Hg.
    destruct (good_inside repo_dir Hrepo x (Hg x Hx)) as (cs & ? & _ & ?). eauto.
  - intros a Ha Hga. apply sort_strings_elem. destruct Hpre as [ext ->]. apply elem_of_app. left. by apply Hd1.
  - intros Ht name Hn. apply sort_strings_elem. by apply Hroot.
  - intros x y Hx Hy. rewrite sort_strings_elem in Hx. apply sort_strings_elem. by eapply Hc.
Qed.
Definition sample_fs : filesystem :=
  <[$"/r/justfile" := FSFile (Some $"import 'ci/a.just' # x")]>
  (<[$"/r/ci/a.just" := FSFile (Some ($"!include ../b.just" ++ [lf] ++ $"import? '../../out.just'"))]>
  (<[$"/r/b.just" := FSFile None]> {[$"/r/ci" := FSDir]})).
Lemma effective_trust_anchors_complete_witness :
  exists L, effective_trust_anchors sample_fs
              (Repo $"1" ∅ [] (RepoPaths [] [] []) empty_env [] [] [] [] [] empty_network
                 (DelegatedTasks [$"build"] [] [] ∅) [$"Makefile"]) $"/r" = Some L
    /\ L = [$"Makefile"; $"b.just"; $"ci/a.just"; $"justfile"] /\ NoDup L.
Proof.
  destruct (effective_trust_anchors_complete sample_fs
              (Repo $"1" ∅ [] (RepoPaths [] [] []) empty_env [] [] [] [] [] empty_network
                 (DelegatedTasks [$"build"] [] [] ∅) [$"Makefile"]) $"/r" eq_refl) as (L & HL & Hnd & _).
  exists L. split; [exact HL|]. split; [|exact Hnd].
  assert (Hrun : effective_trust_anchors sample_fs
              (Repo $"1" ∅ [] (RepoPaths [] [] []) empty_env [] [] [] [] [] empty_network
                 (DelegatedTasks [$"build"] [] [] ∅) [$"Makefile"]) $"/r"
              = Some [$"Makefile"; $"b.just"; $"ci/a.just"; $"justfile"]) by (vm_compute; reflexivity).
  rewrite Hrun in HL. injection HL as <-. reflexivity.
Defined.

(** The scanner gives up at a line that fills its buffer and the error is
    not looked at: imports after such a line are not anchored. *)
Example long_line_hides_imports :
  parse_justfile_imports ($"import 'a'" ++ [lf] ++ replicate (Z.to_nat max_token) "#"%char ++ [lf] ++ $"import 'b'")
  = [$"a"].
Proof. vm_compute. reflexivity. Qed.
Example parse_imports_ex :
  parse_justfile_imports ($"import 'a'" ++ [lf] ++ $"# import 'x'" ++ [lf] ++ $"import? b.just # c") = [$"a"; $"b.just"].
Proof. vm_compute. reflexivity. Qed.
Example parse_descs_ex :
  map_to_list (parse_justfile_descriptions ($"# Build it" ++ [lf] ++ $"build target: dep" ++ [lf] ++ $"x := 'y'"))
  = [($"build", $"Build it")].
Proof. vm_compute. reflexivity. Qed.
