(* ===== verification/Whitelist.v ===== *)
(** The delegation whitelist engine, [internal/runner/whitelist.go]: which
    commands of the sandbox may run on the host, and how.

    The [regexp] package is the class [Regexp]: whether an expression
    compiles, and whether it matches somewhere in a text.  The fixed
    expressions the engine builds itself (the "/regex/" form and the
    translation of globs) are modelled as matchers over runes. *)
From S2P Require Import GoStrings ConfigTypes.
Local Open Scope go_scope.

Class Regexp := { regexp_ok : gostring -> bool; regexp_match : gostring -> gostring -> bool }.

(** * Data *)
Inductive kind := KindJust | KindRaw.
Definition kind_string (k : kind) : gostring := match k with KindRaw => $"raw" | KindJust => $"just" end.
(** The reason of a denial, one constructor per message. *)
Inductive reason :=
  | EmptyRequest
  | ExactTakesNoArguments (task : gostring) (given : nat)
  | NotWhitelisted (task : gostring)
  | Argv0Mismatch (argv0 cmd : gostring)
  | OptionMissingValue (arg : gostring)
  | NoSubcommand (cmd : gostring)
  | NotASubcommand (arg cmd : gostring)
  | ForbiddenArgument (arg pattern : gostring).
Inductive verdict := Allowed (k : kind) | Denied (r : reason).

Record engine := Engine {
  e_exact : gmap gostring bool; e_exact_order : list gostring;
  e_prefixes : gmap gostring bool; e_prefix_order : list gostring;
  e_descriptions : strmap; e_raw : list raw_rule }.
Record task_info := TaskInfo {
  ti_name : gostring; ti_kind : gostring; ti_description : gostring;
  ti_subcommands : list gostring; ti_flags : list gostring; ti_opts_with_value : list gostring;
  ti_allow_opt_value_form : bool; ti_forbidden : list gostring }.

(** * Patterns *)
(** [regexForm]: a slash, any runes but line feeds, a slash.  The result is
    what is between the slashes. *)
Definition regex_form (pattern : gostring) : option gostring :=
  match pattern with
  | c :: rest =>
      if Ascii.eqb c "/" && has_suffix rest $"/" then
        let inner := take (length rest - 1) rest in
        if contains_byte "010" inner then None else Some inner
      else None
  | [] => None
  end.
(** The expression [globMatch] builds: anchored, one item per rune. *)
Inductive glob_item := AnyRunes | OneRune | LitRune (r : Z).
Definition glob_items (pattern : gostring) : list glob_item :=
  map (fun r => if (r =? 42)%Z then AnyRunes else if (r =? 63)%Z then OneRune else LitRune r) (runes pattern).
(** Whether the anchored expression matches the whole text. *)
Fixpoint items_match (items : list glob_item) (text : list Z) : bool :=
  match items with
  | [] => match text with [] => true | _ => false end
  | OneRune :: rest => match text with _ :: t => items_match rest t | [] => false end
  | LitRune r :: rest => match text with c :: t => (c =? r)%Z && items_match rest t | [] => false end
  | AnyRunes :: rest =>
      (fix any (text : list Z) : bool :=
         items_match rest text || match text with _ :: t => any t | [] => false end) text
  end.
Definition glob_match (pattern arg : gostring) : bool := items_match (glob_items pattern) (runes arg).

Section engine.
Context `{Regexp}.

Definition validate_pattern (pattern : gostring) : bool :=
  match regex_form pattern with Some re => regexp_ok re | None => true end.
Definition forbidden_match (pattern arg : gostring) : bool :=
  match regex_form pattern with
  | Some re => if regexp_ok re then regexp_match re arg else false
  | None => glob_match pattern arg
  end.

(** * Construction *)
Inductive engine_err :=
  | SubcommandsEmpty (i : nat) (cmd : gostring)
  | BadPattern (cmd pattern : gostring).
(** One of the two loops that fill a set and its order. *)
Definition add_name (st : gmap gostring bool * list gostring) (name : gostring)
  : gmap gostring bool * list gostring :=
  let '(set, order) := st in
  match set !! name with
  | Some true => st
  | _ => (<[name := true]> set, order ++ [name])
  end.
Definition nonempty_values (m : strmap) : strmap := filter (fun kv => kv.2 <> []) m.
Definition check_raw (i : nat) (rule : raw_rule) : result engine_err unit :=
  if (length (rr_subcommands rule) =? 0)%nat then Err (SubcommandsEmpty i (rr_cmd rule))
  else iterM (fun _ p => if validate_pattern p then Ok tt else Err (BadPattern (rr_cmd rule) p))
             (rr_forbidden rule).
Definition new_engine (tasks : delegated_tasks) (extra : runner_cfg) : result engine_err engine :=
  let raw := dt_raw tasks ++ rc_raw extra in
  let '(exact, exact_order) := fold_left add_name (dt_exact tasks ++ rc_exact extra) (∅, []) in
  let '(prefixes, prefix_order) := fold_left add_name (dt_prefixes tasks ++ rc_prefixes extra) (∅, []) in
  let descriptions := nonempty_values (rc_descriptions extra) ∪ nonempty_values (dt_descriptions tasks) in
  _ ← iterM check_raw raw;
  Ok (Engine exact exact_order prefixes prefix_order descriptions raw).

(** [SetFallbackDescriptions] on a non-nil engine: only where there is no
    description yet. *)
Definition set_fallback (e : engine) (fallback : strmap) : engine :=
  let pick (cur fb : option gostring) : option gostring :=
    match fb with
    | Some v => if negb (is_empty v) && is_empty (default [] cur) then Some v else cur
    | None => cur
    end in
  Engine (e_exact e) (e_exact_order e) (e_prefixes e) (e_prefix_order e)
         (merge pick (e_descriptions e) fallback) (e_raw e).

Definition describe (e : engine) (name : gostring) : gostring := default [] (e_descriptions e !! name).
Definition rules (e : engine) : list task_info :=
  map (fun n => TaskInfo n $"exact" (describe e n) [] [] [] false []) (e_exact_order e)
  ++ map (fun n => TaskInfo n $"prefix" (describe e n) [] [] [] false []) (e_prefix_order e)
  ++ map (fun r => TaskInfo (rr_cmd r) $"raw" (or_else (rr_description r) (describe e (rr_cmd r)))
                     (rr_subcommands r) (rr_flags r) (rr_opts_with_value r)
                     (rr_allow_opt_value_form r) (rr_forbidden r)) (e_raw e).

(** * Matching *)
Definition is_opt_value_form (arg : gostring) (opts : list gostring) : bool :=
  match index_byte "=" arg with
  | None => false
  | Some eq => if (eq <=? 2) || negb (has_prefix arg $"--") then false
               else smem (take eq arg) opts
  end.
(** The [scan] loop over the arguments after the command: the arguments left
    when it stops, or the option whose value is missing. *)
Fixpoint scan_options (rule : raw_rule) (args : list gostring) : result gostring (list gostring) :=
  match args with
  | [] => Ok []
  | arg :: rest =>
      if smem arg (rr_opts_with_value rule) then
        match rest with
        | [] => Err arg
        | _ :: rest' => scan_options rule rest'
        end
      else if smem arg (rr_flags rule) then scan_options rule rest
      else if rr_allow_opt_value_form rule && is_opt_value_form arg (rr_opts_with_value rule)
           then scan_options rule rest
      else Ok args
  end.
Definition first_of (argv : list gostring) : gostring := match argv with [] => [] | a :: _ => a end.
Definition check_arg (rule : raw_rule) (arg : gostring) : result reason unit :=
  iterM (fun _ p => if forbidden_match p arg then Err (ForbiddenArgument arg p) else Ok tt) (rr_forbidden rule).
Definition match_raw (argv : list gostring) (rule : raw_rule) : verdict :=
  match argv with
  | [] => Denied (Argv0Mismatch (first_of argv) (rr_cmd rule))
  | argv0 :: args =>
      if negb (seqb argv0 (rr_cmd rule)) then Denied (Argv0Mismatch argv0 (rr_cmd rule))
      else match scan_options rule args with
      | Err arg => Denied (OptionMissingValue arg)
      | Ok [] => Denied (NoSubcommand (rr_cmd rule))
      | Ok (sub :: rest) =>
          if negb (smem sub (rr_subcommands rule)) then Denied (NotASubcommand sub (rr_cmd rule))
          else match iterM (fun _ => check_arg rule) rest with
               | Err r => Denied r
               | Ok _ => Allowed KindRaw
               end
      end
  end.
Definition in_set (s : gmap gostring bool) (name : gostring) : bool := default false (s !! name).
Fixpoint match_rules (argv : list gostring) (task : gostring) (rs : list raw_rule) : verdict :=
  match rs with
  | [] => Denied (NotWhitelisted task)
  | rule :: rest =>
      if seqb (rr_cmd rule) task then
        match match_raw argv rule with
        | Denied r => Denied r
        | Allowed _ => Allowed KindRaw
        end
      else match_rules argv task rest
  end.
Definition engine_match (e : engine) (argv : list gostring) : verdict :=
  match argv with
  | [] => Denied EmptyRequest
  | task :: rest =>
      if in_set (e_exact e) task && (length rest =? 0)%nat then Allowed KindJust
      else if in_set (e_exact e) task then Denied (ExactTakesNoArguments task (length rest))
      else if in_set (e_prefixes e) task then Allowed KindJust
      else match_rules argv task (e_raw e)
  end.

(** * Specification *)
(** What a glob means on runes: [42] is the star, [63] the question mark. *)
Inductive rune_glob : list Z -> list Z -> Prop :=
  | rg_nil : rune_glob [] []
  | rg_star p a b : rune_glob p b -> rune_glob (42%Z :: p) (a ++ b)
  | rg_one p c s : rune_glob p s -> rune_glob (63%Z :: p) (c :: s)
  | rg_lit p c s : c <> 42%Z -> c <> 63%Z -> rune_glob p s -> rune_glob (c :: p) (c :: s).
(** Global options in front of the subcommand. *)
Inductive option_run (rule : raw_rule) : list gostring -> Prop :=
  | run_nil : option_run rule []
  | run_opt o v args : o ∈ rr_opts_with_value rule -> option_run rule args -> option_run rule (o :: v :: args)
  | run_flag f args : f ∈ rr_flags rule -> f ∉ rr_opts_with_value rule ->
                      option_run rule args -> option_run rule (f :: args)
  | run_form a args : a ∉ rr_opts_with_value rule -> a ∉ rr_flags rule ->
                      rr_allow_opt_value_form rule = true ->
                      is_opt_value_form a (rr_opts_with_value rule) = true ->
                      option_run rule args -> option_run rule (a :: args).
Definition not_an_option (rule : raw_rule) (a : gostring) : Prop :=
  a ∉ rr_opts_with_value rule /\ a ∉ rr_flags rule /\
  (rr_allow_opt_value_form rule && is_opt_value_form a (rr_opts_with_value rule)) = false.
(** The command lines a raw rule lets through. *)
Definition raw_accepts (rule : raw_rule) (argv : list gostring) : Prop :=
  exists opts sub rest,
    argv = rr_cmd rule :: opts ++ sub :: rest /\ option_run rule opts /\ not_an_option rule sub /\
    sub ∈ rr_subcommands rule /\
    forall arg p, arg ∈ rest -> p ∈ rr_forbidden rule -> forbidden_match p arg = false.
(** The command lines a whitelist lets through. *)
Definition whitelisted (exact prefixes : list gostring) (raw : list raw_rule) (argv : list gostring)
    (k : kind) : Prop :=
  exists task rest, argv = task :: rest /\
    ((task ∈ exact /\ rest = [] /\ k = KindJust) \/
     (task ∉ exact /\ task ∈ prefixes /\ k = KindJust) \/
     (task ∉ exact /\ task ∉ prefixes /\ k = KindRaw /\
      exists before rule after, raw = before ++ rule :: after /\ rr_cmd rule = task /\
        Forall (fun r => rr_cmd r <> task) before /\ raw_accepts rule argv)).

(** * Lemmas *)
Lemma any_match rest text :
  (fix any (text : list Z) : bool :=
     items_match rest text || match text with _ :: t => any t | [] => false end) text = true <->
  exists a b, text = a ++ b /\ items_match rest b = true.
Proof.
  induction text as [|c text IH]; rewrite orb_true_iff.
  - split; [intros [Hm|?]; [by exists [], [] | done] |].
    intros ([|] & b & Hab & Hm); [|done]. cbn in Hab. subst b. by left.
  - rewrite IH. split.
    + intros [Hm|(a & b & -> & Hm)]; [by exists [], (c :: text) | by exists (c :: a), b].
    + intros ([|x a] & b & Hab & Hm); cbn in Hab; [subst b; by left|].
      injection Hab as -> ->. right. eauto.
Qed.
Lemma items_match_spec pattern text :
  items_match (map (fun r => if (r =? 42)%Z then AnyRunes else if (r =? 63)%Z then OneRune else LitRune r) pattern)
    text = true <-> rune_glob pattern text.
Proof.
  revert text; induction pattern as [|r pattern IH]; intros text; cbn [map items_match].
  { destruct text; split; try done; [intros _; constructor | by inversion 1]. }
  destruct (Z.eqb_spec r 42) as [->|H42]; [|destruct (Z.eqb_spec r 63) as [->|H63]].
  - cbn [items_match]. rewrite any_match. setoid_rewrite IH. split.
    + intros (a & b & -> & Hg). by constructor.
    + inversion 1; subst; [eauto | done].
  - cbn [items_match]. destruct text as [|c text]; [split; [done | by inversion 1]|]. rewrite IH. split.
    + by constructor.
    + inversion 1; subst; done.
  - cbn [items_match]. destruct text as [|c text]; [split; [done | inversion 1; done]|].
    rewrite andb_true_iff, Z.eqb_eq, IH. split.
    + intros [-> Hg]. by constructor.
    + inversion 1; subst; done.
Qed.

Lemma scan_options_ok rule args rest :
  scan_options rule args = Ok rest <->
  exists opts, args = opts ++ rest /\ option_run rule opts /\
    match rest with [] => True | sub :: _ => not_an_option rule sub end.
Proof.
  split.
  - remember (length args) as n eqn:Hn. assert (Hle : length args <= n) by lia. clear Hn.
    revert args Hle; induction n as [|n IH]; intros [|arg args] Hle; cbn [scan_options length] in *; try lia;
      try (intros [= <-]; exists []; split_and!; [done | constructor | done]).
    destruct (smem arg (rr_opts_with_value rule)) eqn:Ho.
    { destruct args as [|v args]; [done|]. intros (opts & -> & Hr & Hs)%IH; [|cbn in Hle; lia].
      breflect. exists (arg :: v :: opts). split_and!; [done | by constructor | done]. }
    destruct (smem arg (rr_flags rule)) eqn:Hf.
    { intros (opts & -> & Hr & Hs)%IH; [|lia]. breflect.
      exists (arg :: opts). split_and!; [done | by constructor | done]. }
    destruct (rr_allow_opt_value_form rule && is_opt_value_form arg (rr_opts_with_value rule)) eqn:Hv.
    { intros (opts & -> & Hr & Hs)%IH; [|lia]. breflect.
      exists (arg :: opts). split_and!; [done | by apply run_form | done]. }
    intros [= <-]. breflect. exists []. split_and!; [done | constructor | by split_and!].
  - intros (opts & -> & Hr & Hs). induction Hr as [|o v args Ho Hr IH|f args Hf Hn Hr IH|a args H1 H2 H3 H4 Hr IH];
      cbn [app scan_options].
    + destruct rest as [|sub rest]; [done|]. destruct Hs as (H1 & H2 & H3).
      apply smem_false in H1, H2. cbn [scan_options]. by rewrite H1, H2, H3.
    + apply smem_true in Ho. by rewrite Ho.
    + apply smem_true in Hf. apply smem_false in Hn. by rewrite Hn, Hf.
    + apply smem_false in H1, H2. by rewrite H1, H2, H3, H4.
Qed.
Lemma check_arg_ok rule arg :
  check_arg rule arg = Ok tt <-> forall p, p ∈ rr_forbidden rule -> forbidden_match p arg = false.
Proof.
  unfold check_arg. rewrite iterM_const_ok, Forall_forall.
  split; intros Hp p Hin; specialize (Hp p Hin); by destruct (forbidden_match p arg).
Qed.
Lemma check_rest_ok rule rest :
  iterM (fun _ => check_arg rule) rest = Ok tt <->
  forall arg p, arg ∈ rest -> p ∈ rr_forbidden rule -> forbidden_match p arg = false.
Proof.
  rewrite iterM_const_ok, Forall_forall. split.
  - intros Hr arg p Ha. specialize (Hr arg Ha). rewrite check_arg_ok in Hr. auto.
  - intros Hr arg Ha. apply check_arg_ok. eauto.
Qed.
Lemma match_raw_spec rule argv :
  (exists k, match_raw argv rule = Allowed k) <-> raw_accepts rule argv.
Proof.
  split.
  - intros [k Hk]. destruct argv as [|argv0 args]; [done|]. cbn [match_raw] in Hk.
    destruct (seqb_spec argv0 (rr_cmd rule)) as [->|]; [|done]. cbn [negb] in Hk.
    destruct (scan_options rule args) as [[|sub rest]|] eqn:Hs; [done| |done].
    destruct (smem sub (rr_subcommands rule)) eqn:Hsub; [|done]. cbn [negb] in Hk.
    destruct (iterM _ rest) as [[]|] eqn:Hr; [|done]. pose proof (proj1 (check_rest_ok rule rest) Hr) as Hr2.
    apply scan_options_ok in Hs as (opts & -> & Ho & Hn). breflect.
    exists opts, sub, rest. by split_and!.
  - intros (opts & sub & rest & -> & Ho & Hn & Hsub & Hr). exists KindRaw. cbn [match_raw].
    rewrite seqb_refl. cbn [negb].
    rewrite (proj2 (scan_options_ok rule (opts ++ sub :: rest) (sub :: rest))) by (exists opts; by split_and!).
    apply smem_true in Hsub. rewrite Hsub. cbn [negb]. apply check_rest_ok in Hr. by rewrite Hr.
Qed.
Lemma match_rules_spec argv task rs k :
  match_rules argv task rs = Allowed k <->
  k = KindRaw /\ exists before rule after, rs = before ++ rule :: after /\ rr_cmd rule = task /\
    Forall (fun r => rr_cmd r <> task) before /\ raw_accepts rule argv.
Proof.
  induction rs as [|rule rs IH]; cbn [match_rules].
  - split; [done|]. intros (_ & [|] & ? & ? & ? & _); discriminate.
  - destruct (seqb_spec (rr_cmd rule) task) as [Heq|Hne].
    + split.
      * intros Hm. destruct (match_raw argv rule) as [k'|] eqn:Hr; [|done]. injection Hm as <-.
        split; [done|]. exists [], rule, rs. split_and!; [done | done | constructor |].
        apply match_raw_spec. eauto.
      * intros (-> & b & r & a & Hrs & Hr & Hb & Hacc). destruct b as [|x b]; cbn in Hrs; injection Hrs as -> ->.
        -- apply match_raw_spec in Hacc as [k Hk]. by rewrite Hk.
        -- apply Forall_cons in Hb as [Hx _]. done.
    + rewrite IH. split.
      * intros (-> & b & r & a & -> & Hr & Hb & Hacc). split; [done|].
        exists (rule :: b), r, a. split_and!; [done | done | by constructor | done].
      * intros (-> & b & r & a & Hrs & Hr & Hb & Hacc). destruct b as [|x b]; cbn in Hrs; injection Hrs as -> ->.
        -- congruence.
        -- apply Forall_cons in Hb as [_ Hb]. split; [done|]. by exists b, r, a.
Qed.
(** The set and the order built by the loop agree. *)
Definition set_agrees (st : gmap gostring bool * list gostring) (names : list gostring) : Prop :=
  NoDup st.2 /\ forall n, (in_set st.1 n = true <-> n ∈ names) /\ (n ∈ st.2 <-> n ∈ names).
Lemma add_names_agree names : set_agrees (fold_left add_name names (∅, [])) names.
Proof.
  induction names as [|n names IH] using rev_ind.
  - split; [constructor|]. intros n. cbn. unfold in_set. rewrite lookup_empty, elem_of_nil. naive_solver.
  - rewrite fold_left_app. cbn [fold_left]. destruct (fold_left _ names _) as [set order].
    destruct IH as [Hnd Hag]. cbn [fst snd] in *. unfold add_name.
    assert (Hin : in_set set n = true -> set_agrees (set, order) (names ++ [n])).
    { intros Ht. split; [done|]. intros m. cbn [fst snd]. destruct (Hag m) as [H1 H2].
      rewrite H1, H2, elem_of_app, list_elem_of_singleton. destruct (Hag n) as [H3 _]. naive_solver. }
    assert (Hout : in_set set n = false -> set_agrees (<[n := true]> set, order ++ [n]) (names ++ [n])).
    { intros Hf. destruct (Hag n) as [H3 H4]. split; cbn [fst snd].
      - apply NoDup_app. split_and!; [done | | apply NoDup_singleton].
        intros x Hx ->%list_elem_of_singleton. apply H4, H3 in Hx. congruence.
      - intros m. destruct (Hag m) as [H1 H2]. unfold in_set in *.
        rewrite !elem_of_app, list_elem_of_singleton, H2.
        destruct (decide (n = m)) as [->|Hne].
        + rewrite lookup_insert_eq. cbn. naive_solver.
        + rewrite lookup_insert_ne by done. rewrite H1. naive_solver. }
    unfold in_set in Hin, Hout. destruct (set !! n) as [[]|]; auto.
Qed.
End engine.

(** * Properties *)

Lemma engine_match_whitelisted `{Regexp} (tasks : delegated_tasks) (extra : runner_cfg) (e : engine)
    (argv : list gostring) (k : kind) (He : new_engine tasks extra = Ok e) :
  engine_match e argv = Allowed k <->
  whitelisted (dt_exact tasks ++ rc_exact extra) (dt_prefixes tasks ++ rc_prefixes extra)
    (dt_raw tasks ++ rc_raw extra) argv k.
Proof.
  unfold new_engine in He. cbv zeta in He.
  pose proof (add_names_agree (dt_exact tasks ++ rc_exact extra)) as [_ Hx].
  pose proof (add_names_agree (dt_prefixes tasks ++ rc_prefixes extra)) as [_ Hp].
  destruct (fold_left _ (dt_exact tasks ++ _) _) as [ex exo], (fold_left _ (dt_prefixes tasks ++ _) _) as [px pxo].
  apply bind_ok_inv in He as (_ & _ & [= <-]). cbn [fst snd] in *.
  unfold engine_match, whitelisted. cbn [e_exact e_prefixes e_raw].
  destruct argv as [|task rest]; [split; [done | intros (? & ? & ? & _); discriminate]|].
  destruct (Hx task) as [Hx1 _], (Hp task) as [Hp1 _]. clear Hx Hp.
  assert (Hcons : forall P : gostring -> list gostring -> Prop,
    (exists t r, task :: rest = t :: r /\ P t r) <-> P task rest).
  { intros P. split; [by intros (t & r & [= <- <-] & ?) | eauto]. }
  rewrite Hcons. clear Hcons.
  destruct (in_set ex task) eqn:Hex.
  - assert (Hin : task ∈ dt_exact tasks ++ rc_exact extra) by by apply Hx1.
    destruct rest as [|a rest]; cbn [length Nat.eqb andb]; [|naive_solver].
    split; [intros [= <-]; left; by split_and! | naive_solver].
  - assert (Hin : task ∉ dt_exact tasks ++ rc_exact extra) by (intros Hi; apply Hx1 in Hi; congruence).
    cbn [andb]. destruct (in_set px task) eqn:Hpx.
    + assert (Hin' : task ∈ dt_prefixes tasks ++ rc_prefixes extra) by by apply Hp1.
      split; [intros [= <-]; right; left; by split_and! | naive_solver].
    + assert (Hin' : task ∉ dt_prefixes tasks ++ rc_prefixes extra) by (intros Hi; apply Hp1 in Hi; congruence).
      rewrite match_rules_spec. split.
      * intros (-> & Hm). right; right. by split_and!.
      * intros [(? & _)|[(_ & ? & _)|(_ & _ & -> & Hm)]]; [done | done | by split].
Qed.

(** C4: deny by default.  An engine built from the repository tasks and the
    user extras allows a command line exactly when the whitelist does: an
    exact task without arguments, a prefix task, or the first raw rule of
    that command lets it through, whose global options are skipped, whose
    first other argument is a whitelisted subcommand and none of whose later
    arguments matches a forbidden pattern. *)
Theorem engine_match_iff `{Regexp} (tasks : delegated_tasks) (extra : runner_cfg) (e : engine)
    (argv : list gostring) (k : kind) (He : new_engine tasks extra = Ok e) :
  engine_match e argv = Allowed k <->
  whitelisted (dt_exact tasks ++ rc_exact extra) (dt_prefixes tasks ++ rc_prefixes extra)
    (dt_raw tasks ++ rc_raw extra) argv k.
Proof. by apply engine_match_whitelisted. Qed.
Lemma engine_match_iff_witness :
  let RE := {| regexp_ok := fun _ => true; regexp_match := fun re a => contains a re |} in
  let rule := RawRule $"git" [] [$"push"] [$"-C"] [$"-v"] true [$"/force/"; $"https://*"] in
  let tasks := DelegatedTasks [$"build"] [$"test"] [rule] ∅ in
  exists e, @new_engine RE tasks empty_runner = Ok e /\
    (@engine_match RE e [$"git"; $"-C"; $"/x"; $"-v"; $"push"; $"origin"] = Allowed KindRaw <->
     @whitelisted RE [$"build"] [$"test"] [rule] [$"git"; $"-C"; $"/x"; $"-v"; $"push"; $"origin"] KindRaw) /\
    @engine_match RE e [$"git"; $"-C"; $"/x"; $"-v"; $"push"; $"origin"] = Allowed KindRaw /\
    @engine_match RE e [$"git"; $"push"; $"--force"] = Denied (ForbiddenArgument $"--force" $"/force/").
Proof.
  intros RE rule tasks.
  assert (H : is_ok (@new_engine RE tasks empty_runner) = true) by (vm_compute; reflexivity).
  destruct (@new_engine RE tasks empty_runner) as [e|] eqn:He; [|discriminate].
  exists e. split; [reflexivity|].
  split; [exact (@engine_match_iff RE tasks empty_runner e _ _ He)|].
  assert (Hrun : match @new_engine RE tasks empty_runner with
    | Ok e => @engine_match RE e [$"git"; $"-C"; $"/x"; $"-v"; $"push"; $"origin"] = Allowed KindRaw /\
              @engine_match RE e [$"git"; $"push"; $"--force"] = Denied (ForbiddenArgument $"--force" $"/force/")
    | Err _ => False end) by (vm_compute; split; reflexivity).
  rewrite He in Hrun. exact Hrun.
Defined.

(** configuration errors are found before any command runs: the engine
    is built exactly when every raw rule has a subcommand and only patterns
    that compile; then its rules are listed once per name, in order. *)
Theorem new_engine_outcome `{Regexp} (tasks : delegated_tasks) (extra : runner_cfg) :
  let raw := dt_raw tasks ++ rc_raw extra in
  let fine r := rr_subcommands r <> [] /\ forall p, p ∈ rr_forbidden r -> validate_pattern p = true in
  match new_engine tasks extra with
  | Ok e => Forall fine raw /\ e_raw e = raw /\ NoDup (e_exact_order e) /\ NoDup (e_prefix_order e) /\
            (forall n, n ∈ e_exact_order e <-> n ∈ dt_exact tasks ++ rc_exact extra) /\
            (forall n, n ∈ e_prefix_order e <-> n ∈ dt_prefixes tasks ++ rc_prefixes extra)
  | Err _ => ~ Forall fine raw
  end.
Proof.
  cbv zeta. unfold new_engine. cbv zeta.
  pose proof (add_names_agree (dt_exact tasks ++ rc_exact extra)) as [Hnx Hx].
  pose proof (add_names_agree (dt_prefixes tasks ++ rc_prefixes extra)) as [Hnp Hp].
  destruct (fold_left _ (dt_exact tasks ++ _) _) as [ex exo], (fold_left _ (dt_prefixes tasks ++ _) _) as [px pxo].
  cbn [fst snd] in *. set (raw := dt_raw tasks ++ rc_raw extra).
  assert (Hfine : iterM check_raw raw = Ok tt <->
    Forall (fun r => rr_subcommands r <> [] /\ forall p, p ∈ rr_forbidden r -> validate_pattern p = true) raw).
  { rewrite iterM_ok, Forall_lookup.
    assert (Hone : forall i r, check_raw i r = Ok tt <->
      rr_subcommands r <> [] /\ forall p, p ∈ rr_forbidden r -> validate_pattern p = true).
    { intros i r. unfold check_raw. rewrite <- nil_length.
      destruct (length (rr_subcommands r) =? 0)%nat; [naive_solver|].
      rewrite iterM_const_ok, Forall_forall. split.
      - intros Hp'. split; [done|]. intros p Hin. specialize (Hp' p Hin). by destruct (validate_pattern p).
      - intros [_ Hp'] p Hin. by rewrite (Hp' p Hin). }
    split; intros Hall i r Hi; specialize (Hall i r Hi); by apply (Hone i r). }
  destruct (iterM check_raw raw) as [[]|err] eqn:Hraw; cbn [mbind result_bind].
  - cbn [e_raw e_exact_order e_prefix_order]. split_and!; try done; [by apply Hfine | |];
      intros n; [apply Hx | apply Hp].
  - intros Hf. apply Hfine in Hf. discriminate.
Qed.

(** a glob of forbidden_args_matching matches an argument exactly when
    the argument is the pattern with every star replaced by any runes (line
    feeds and slashes included) and every question mark by one rune. *)
Theorem glob_match_iff (pattern arg : gostring) :
  glob_match pattern arg = true <-> rune_glob (runes pattern) (runes arg).
Proof. apply items_match_spec. Qed.

(** fallback descriptions only fill gaps: an engine keeps every
    description it has, gains the non-empty fallbacks of the other names, and
    its whitelist does not change. *)
Theorem set_fallback_fills_gaps `{Regexp} (e : engine) (fallback : strmap) (name : gostring)
    (argv : list gostring) :
  describe (set_fallback e fallback) name
  = (if is_empty (describe e name) then default [] (fallback !! name) else describe e name) /\
  engine_match (set_fallback e fallback) argv = engine_match e argv.
Proof.
  split; [|done]. unfold describe, set_fallback. cbn [e_descriptions]. rewrite lookup_merge.
  destruct (e_descriptions e !! name) as [[|c s]|], (fallback !! name) as [[|d t]|]; reflexivity.
Qed.
