(* ===== verification/RunnerServer.v ===== *)
(** Delegation channel C: the host daemon of [internal/runner/server.go], the
    wire data of [protocol.go] and the client of [client.go].

    The JSON codec, the file system and the process runner are parameters:
    a handler maps a received frame to the command it starts or the event it
    replies with, and to the audit records it emits; [run_job_event] maps the
    outcome of a job to its final event, and [exec] is the client. *)
From S2P Require Import GoStrings GoPath GoBase64 ConfigTypes Whitelist.
Local Open Scope go_scope.

(** * Wire data *)
Definition CodeRejected : Z := 126.
Definition CodeProtocolError : Z := 125.
Definition CodeNoRunner : Z := 127.

Record job_request := JobRequest { argv_b64 : list gostring; jr_dir : gostring; jr_list : bool }.
Definition encode_strings (l : list gostring) : list gostring := map b64_encode l.
(** An element that does not decode stays the empty string. *)
Definition decode_strings (l : list gostring) : list gostring :=
  map (fun s => default [] (b64_decode s)) l.

Inductive jail_err := DirNotRelative | DirEscapes | DirMissing.
Inductive message :=
  | NoMessage
  | MalformedRequest
  | DeniedBecause (r : reason)
  | TrustFailed
  | BadDir (e : jail_err)
  | RawNotFound (argv0 : gostring)
  | SandboxShutDown
  | RunError.
Record event := Event {
  ev_type : gostring; ev_data : gostring; ev_code : Z; ev_message : message; ev_tasks : list task_info }.
Definition EventStdout : gostring := $"stdout".
Definition EventStderr : gostring := $"stderr".
Definition EventExit : gostring := $"exit".
Definition EventDenied : gostring := $"denied".
Definition EventError : gostring := $"error".
Definition EventList : gostring := $"list".
Definition error_event (m : message) : event := Event EventError [] 0 m [].
Definition denied_event (m : message) : event := Event EventDenied [] 0 m [].
Definition exit_event (code : Z) : event := Event EventExit [] code NoMessage [].

(** * Server *)
Record host := Host {
  look_path : gostring -> option gostring;   (* exec.LookPath *)
  is_dir : gostring -> bool }.               (* os.Stat succeeds on a directory *)
(** [ValidateTrust] as its result, [None] when it is not set. *)
Record server_config := ServerConfig {
  sc_engine : option engine; sc_just_bin : gostring; sc_repo_root : gostring; sc_hooks_dir : gostring;
  sc_validate_trust : option bool; sc_audit : bool }.
Record command := Command { c_path : gostring; c_args : list gostring; c_dir : gostring }.
Record audit_record := AuditRecord { ar_allowed : bool; ar_task : gostring; ar_reason : message }.
Inductive outcome :=
  | Dropped
  | Crashed                      (* nil engine dereferenced *)
  | Replied (ev : event)
  | Started (cmd : command).

Definition jail_dir (h : host) (root sub : gostring) : result jail_err gostring :=
  if is_abs sub then Err DirNotRelative
  else
    let abs := path_join root (clean sub) in
    match path_rel root abs with
    | None => Err DirEscapes
    | Some rel =>
        if seqb rel $".." || has_prefix rel $"../" then Err DirEscapes
        else if negb (is_dir h abs) then Err DirMissing
        else Ok abs
    end.
Definition build_command (h : host) (k : kind) (argv : list gostring) (dir : gostring)
    (cfg : server_config) : result message command :=
  match k with
  | KindJust => Ok (Command (or_else (sc_just_bin cfg) $"just") argv dir)
  | KindRaw =>
      match look_path h (first_of argv) with
      | None => Err (RawNotFound (first_of argv))
      | Some exe =>
          let args := drop 1 argv in
          let args := if seqb (path_base exe) $"git" && negb (is_empty (sc_hooks_dir cfg))
                      then [$"-c"; $"core.hooksPath=" ++ sc_hooks_dir cfg] ++ args else args in
          Ok (Command exe args dir)
      end
  end.

Section server.
Context `{Regexp} (decode_request : gostring -> option job_request) (h : host).

(** From the whitelist decision on: [argv] is not empty. *)
Definition handle_job (cfg : server_config) (e : engine) (argv : list gostring) (dir : gostring)
  : outcome * list audit_record :=
  let task := join $" " argv in
  let log (a : bool) (m : message) := if sc_audit cfg then [AuditRecord a task m] else [] in
  match engine_match e argv with
  | Denied r => (Replied (denied_event (DeniedBecause r)), log false (DeniedBecause r))
  | Allowed k =>
      let ok_log := log true NoMessage in
      match sc_validate_trust cfg with
      | Some false => (Replied (denied_event TrustFailed), ok_log ++ log false TrustFailed)
      | _ =>
          let run (dir : gostring) :=
            match build_command h k argv dir cfg with
            | Err m => (Replied (error_event m), ok_log)
            | Ok cmd => (Started cmd, ok_log)
            end in
          if is_empty dir then run (sc_repo_root cfg)
          else match jail_dir h (sc_repo_root cfg) dir with
               | Err x => (Replied (error_event (BadDir x)), ok_log)
               | Ok d => run d
               end
      end
  end.
(** [payload] is the frame read from the stream, [None] when reading it
    failed. *)
Definition handle_stream (cfg : server_config) (payload : option gostring)
  : outcome * list audit_record :=
  match payload with
  | None => (Dropped, [])
  | Some p =>
      match decode_request p with
      | None => (Replied (error_event MalformedRequest), [])
      | Some req =>
          if jr_list req then
            let tasks := match sc_engine cfg with Some e => rules e | None => [] end in
            (Replied (Event EventList [] 0 NoMessage tasks), [])
          else if (length (argv_b64 req) =? 0)%nat then (Replied (error_event MalformedRequest), [])
          else match sc_engine cfg with
               | None => (Crashed, [])
               | Some e => handle_job cfg e (decode_strings (argv_b64 req)) (jr_dir req)
               end
      end
  end.
End server.

(** How [cmd.Run] ended. *)
Inductive run_result :=
  | RunOk
  | RunExit (code : Z)           (* ExitError with a code *)
  | RunSignaled (signum : Z)     (* ExitError, code -1, killed by a signal *)
  | RunUnknown                   (* ExitError, code -1, otherwise *)
  | RunFailed.                   (* any other error *)
Definition run_job_event (cancelled : bool) (r : run_result) : event :=
  match r with
  | RunOk => exit_event 0
  | _ =>
      if cancelled then error_event SandboxShutDown
      else match r with
           | RunExit code => exit_event code
           | RunSignaled n => exit_event (128 + n)
           | RunUnknown => exit_event 128
           | _ => error_event RunError
           end
  end.
(** [eventWriter.Write]: one frame per chunk. *)
Definition chunk_event (typ p : gostring) : event := Event typ (b64_encode p) 0 NoMessage [].
Definition first_non_empty (a b : gostring) : gostring := or_else a b.
(** What [runJob] sets before it starts the process: the working directory
    and the environment, [os.Environ()] of the host. *)
Definition run_job_setup (environ : list gostring) (cmd : command) : command * list gostring :=
  (Command (c_path cmd) (c_args cmd) (first_non_empty (c_dir cmd) $"."), environ).

(** * Client *)
(** What the client adds to stderr, one constructor per message. *)
Inductive diagnostic :=
  | SendFailed
  | ReadFailed
  | MalformedEvent
  | CorruptChunk (typ : gostring)
  | WriteFailed
  | Declined (m : message)
  | JobError (m : message)
  | UnknownEvent (typ : gostring).
Inductive err_item := JobOutput (data : gostring) | Diagnostic (d : diagnostic).
(** The exit code and what reached stdout and stderr. *)
Record exec_result := ExecResult { xr_code : Z; xr_stdout : gostring; xr_stderr : list err_item }.
Section exec.
(** The writers: the bytes of a chunk that get through to stdout ([true]) or
    stderr, and whether the write succeeds.  It may depend on the number of
    frames read before. *)
Context (write : nat -> bool -> gostring -> gostring * bool).
Definition fail (out : gostring) (err : list err_item) (d : diagnostic) : exec_result :=
  ExecResult CodeProtocolError out (err ++ [Diagnostic d]).
(** The loop of [Exec] over the received frames, [None] being a payload that
    is not an event.  Running out of frames is a read error. *)
Fixpoint exec_loop (n : nat) (frames : list (option event)) (out : gostring) (err : list err_item)
  : exec_result :=
  match frames with
  | [] => fail out err ReadFailed
  | None :: _ => fail out err MalformedEvent
  | Some ev :: rest =>
      let typ := ev_type ev in
      if seqb typ EventStdout || seqb typ EventStderr then
        match b64_decode (ev_data ev) with
        | None => fail out err (CorruptChunk typ)
        | Some data =>
            let '(written, ok) := write n (seqb typ EventStdout) data in
            let out := if seqb typ EventStdout then out ++ written else out in
            let err := if seqb typ EventStdout then err else err ++ [JobOutput written] in
            if ok then exec_loop (S n) rest out err else fail out err WriteFailed
        end
      else if seqb typ EventExit then ExecResult (ev_code ev) out err
      else if seqb typ EventDenied then
        ExecResult CodeRejected out (err ++ [Diagnostic (Declined (ev_message ev))])
      else if seqb typ EventError then
        ExecResult CodeProtocolError out (err ++ [Diagnostic (JobError (ev_message ev))])
      else fail out err (UnknownEvent typ)
  end.
(** [sent]: the request frame was written. *)
Definition exec (sent : bool) (frames : list (option event)) : exec_result :=
  if sent then exec_loop 0 frames [] [] else fail [] [] SendFailed.
End exec.
(** [List]. *)
Inductive list_err := ListRead | ListDecode | ListError (m : message) | ListUnexpected (typ : gostring).
Definition list_tasks (frame : option (option event)) : result list_err (list task_info) :=
  match frame with
  | None => Err ListRead
  | Some None => Err ListDecode
  | Some (Some ev) =>
      if seqb (ev_type ev) EventList then Ok (ev_tasks ev)
      else if seqb (ev_type ev) EventError then Err (ListError (ev_message ev))
      else Err (ListUnexpected (ev_type ev))
  end.

(** * Listing *)
Definition ellipsis : gostring := map ascii_of_nat [226; 128; 166].    (* U+2026 *)
Definition task_usage (t : task_info) : gostring :=
  if seqb (ti_kind t) $"prefix" then ti_name t ++ $" [args" ++ ellipsis ++ $"]"
  else if seqb (ti_kind t) $"raw" then ti_name t ++ $" <subcommand> [args" ++ ellipsis ++ $"]"
  else ti_name t.
Definition nl : gostring := ["010"%char].
(** [%-*s] pads to a number of runes. *)
Definition pad_runes (n : nat) (s : gostring) : gostring := s ++ replicate (n - length (runes s)) " "%char.
Definition max_len (l : list gostring) : nat := fold_left (fun m s => Nat.max m (length s)) l 0.
Definition format_row (max_usage max_kind : nat) (t : task_info) : gostring :=
  let usage := task_usage t in
  let tag := $"[" ++ ti_kind t ++ $"]" in
  let first :=
    if negb (is_empty (ti_description t))
    then $"  " ++ pad_runes max_usage usage ++ $"  " ++ pad_runes max_kind tag ++ $"  " ++ ti_description t ++ nl
    else $"  " ++ pad_runes max_usage usage ++ $"  " ++ tag ++ nl in
  if seqb (ti_kind t) $"raw" then
    let opts := map (fun o => o ++ $" <val>") (ti_opts_with_value t) ++ ti_flags t in
    first
    ++ (if (0 <? length (ti_subcommands t))%nat
        then $"    subcommands: " ++ join $", " (ti_subcommands t) ++ nl else [])
    ++ (if (0 <? length opts)%nat
        then $"    options:     " ++ join $", " opts
             ++ (if ti_allow_opt_value_form t then $" (--opt=val allowed)" else []) ++ nl else [])
    ++ (if (0 <? length (ti_forbidden t))%nat
        then $"    forbidden:   " ++ join $", " (ti_forbidden t) ++ nl else [])
  else first.
Definition format_task_list (tasks : list task_info) : gostring :=
  if (length tasks =? 0)%nat then $"No delegated tasks configured." ++ nl
  else
    let max_usage := max_len (map task_usage tasks) in
    let max_kind := max_len (map (fun t => $"[" ++ ti_kind t ++ $"]") tasks) in
    $"Allowed delegated tasks (run via 'keg delegate <task> [args...]' or 'just delegate <task> [args...]'):"
    ++ nl ++ nl ++ concat (map (format_row max_usage max_kind) tasks).

(** * Lemmas *)
(** The component list of a place below [root]. *)
Definition below (root p : gostring) : Prop :=
  exists cs, comps p = comps root ++ cs /\ Forall plain cs.
Lemma decode_encode_strings l : decode_strings (encode_strings l) = l.
Proof.
  unfold decode_strings, encode_strings. rewrite map_map. rewrite <- (map_id l) at 2. apply map_ext.
  intros s. by rewrite b64_roundtrip.
Qed.
Lemma plain_free cs : Forall plain cs -> Forall (fun c => slash ∉ c) cs.
Proof. intros H. eapply Forall_impl; [exact H|]. by intros ? (_ & _ & _ & ?). Qed.
(** A joined list of names starts with "../" only if its first name is "..". *)
Lemma join_dotdot_prefix c cs :
  Forall (fun c => slash ∉ c) (c :: cs) -> has_prefix (join $"/" (c :: cs)) $"../" = true -> c = dotdot.
Proof.
  intros Hf Hp. apply has_prefix_true in Hp as [t Ht].
  pose proof (join_slash_free_split (c :: cs) ltac:(done) Hf) as Hs. rewrite Ht in Hs.
  change ($"../" ++ t) with (dotdot ++ slash :: t) in Hs. rewrite split_app in Hs.
  - by injection Hs.
  - apply contains_byte_false. reflexivity.
Qed.
Lemma join_dotdots b t : b <> [] -> 
  let rel := join $"/" (map (fun _ : gostring => dotdot) b ++ t) in
  seqb rel $".." || has_prefix rel $"../" = true.
Proof.
  destruct b as [|x b]; [done|]. intros _. cbn [map app].
  destruct (map _ b ++ t) as [|y ys]; [reflexivity|]. cbn [join].
  apply orb_true_iff. right. apply has_prefix_true. by eexists.
Qed.
Lemma path_rel_join root p :
  is_abs root = true -> is_abs p = true -> clean p = p ->
  exists rel, path_rel root p = Some rel /\
    (seqb rel $".." || has_prefix rel $"../" = false <-> below root p).
Proof.
  intros Hr Hp Hc. unfold path_rel, below. rewrite Hc.
  pose proof (comps_abs_plain root Hr) as Pr. pose proof (comps_abs_plain p Hp) as Pp.
  destruct (seqb_spec p (clean root)) as [He|Hne].
  { exists $".". split; [done|]. split; [intros _ | done]. exists []. rewrite app_nil_r. split; [|done].
    rewrite He, clean_abs by done. by apply comps_render. }
  rewrite Hr, Hp. cbn [Bool.eqb negb].
  destruct (strip_common (comps root) (comps p)) as [b t] eqn:Hs.
  pose proof (strip_common_spec _ _ _ _ Hs) as (k & Hk1 & Hk2 & _).
  destruct b as [|x b].
  - exists (join $"/" t). split; [done|]. rewrite app_nil_r in Hk1. subst k.
    assert (Ht : Forall plain t) by (rewrite Hk2 in Pp; by apply Forall_app in Pp as [_ ?]).
    split; [intros _; exists t; done|]. intros _. destruct t as [|c t].
    + exfalso. apply Hne. rewrite app_nil_r in Hk2. rewrite <- Hc at 1. rewrite !clean_abs by done. by rewrite Hk2.
    + apply orb_false_iff. pose proof (plain_free _ Ht) as Hf. apply Forall_cons in Ht as [(_ & _ & Hd & Hsl) Ht].
      split.
      * apply seqb_neq. intros He. pose proof (join_slash_free_split (c :: t) ltac:(done) Hf) as Hsp.
        rewrite He in Hsp. by injection Hsp as <- _.
      * destruct (has_prefix _ _) eqn:Hpre; [|done]. by apply join_dotdot_prefix in Hpre.
  - assert (Hx : x <> dotdot).
    { rewrite Hk1 in Pr. apply Forall_app in Pr as [_ Pr]. by apply Forall_cons in Pr as [(_ & _ & ? & _) _]. }
    destruct (seqb_spec x dotdot); [done|]. eexists. split; [done|].
    pose proof (join_dotdots (x :: b) t ltac:(done)) as Hj. cbv zeta in Hj. rewrite Hj.
    split; [done|]. intros (cs & Hcs & _). exfalso.
    rewrite Hcs, strip_common_prefix in Hs. discriminate.
Qed.
Lemma jail_dir_cases h root sub :
  is_abs root = true ->
  let abs := path_join root (clean sub) in
  match jail_dir h root sub with
  | Ok d => d = abs /\ is_abs sub = false /\ below root abs /\ is_dir h abs = true
  | Err DirNotRelative => is_abs sub = true
  | Err DirEscapes => is_abs sub = false /\ ~ below root abs
  | Err DirMissing => is_abs sub = false /\ below root abs /\ is_dir h abs = false
  end.
Proof.
  intros Hr abs. unfold jail_dir. destruct (is_abs sub) eqn:Hs; [done|]. cbv zeta. fold abs.
  destruct (path_join_abs root (clean sub) Hr) as [Ha Hrender]. fold abs in Ha, Hrender.
  destruct (path_rel_join root abs Hr Ha) as (rel & -> & Hrel); [by rewrite clean_abs, <- Hrender|].
  destruct (seqb rel $".." || has_prefix rel $"../").
  - split; [done|]. intros Hb. by apply Hrel in Hb.
  - assert (Hb : below root abs) by by apply Hrel.
    destruct (is_dir h abs) eqn:Hd; cbn [negb]; by split_and!.
Qed.

(** The command an allowed job runs. *)
Definition runs_as (h : host) (cfg : server_config) (k : kind) (argv : list gostring) (cmd : command) : Prop :=
  match k with
  | KindJust => c_path cmd = or_else (sc_just_bin cfg) $"just" /\ c_args cmd = argv
  | KindRaw => look_path h (first_of argv) = Some (c_path cmd) /\
      c_args cmd = (if seqb (path_base (c_path cmd)) $"git" && negb (is_empty (sc_hooks_dir cfg))
                    then [$"-c"; $"core.hooksPath=" ++ sc_hooks_dir cfg] else []) ++ drop 1 argv
  end.
Lemma build_command_ok h k argv dir cfg cmd :
  build_command h k argv dir cfg = Ok cmd -> runs_as h cfg k argv cmd /\ c_dir cmd = dir.
Proof.
  unfold build_command, runs_as. destruct k; [by intros [= <-]|].
  destruct (look_path h _) as [exe|]; [|done]. intros [= <-]. cbn. by destruct (_ && _).
Qed.

(** What a started job went through. *)
Lemma started_job `{Regexp} (decode_request : gostring -> option job_request) (h : host)
    (cfg : server_config) (payload : option gostring) (cmd : command) (log : list audit_record)
    (Hroot : is_abs (sc_repo_root cfg) = true)
    (Hrun : handle_stream decode_request h cfg payload = (Started cmd, log)) :
  exists p req e k,
    payload = Some p /\ decode_request p = Some req /\ sc_engine cfg = Some e /\
    jr_list req = false /\ argv_b64 req <> [] /\
    let argv := decode_strings (argv_b64 req) in
    engine_match e argv = Allowed k /\ runs_as h cfg k argv cmd /\
    sc_validate_trust cfg <> Some false /\
    (c_dir cmd = sc_repo_root cfg \/ (jr_dir req <> [] /\ below (sc_repo_root cfg) (c_dir cmd))) /\
    log = (if sc_audit cfg then [AuditRecord true (join $" " argv) NoMessage] else []).
Proof.
  unfold handle_stream in Hrun. destruct payload as [p|]; [|done].
  destruct (decode_request p) as [req|] eqn:Hreq; [|done].
  destruct (jr_list req) eqn:Hl; [done|]. destruct (length (argv_b64 req) =? 0) eqn:Hn; [done|].
  destruct (sc_engine cfg) as [e|] eqn:He; [|done].
  unfold handle_job in Hrun. cbv zeta in Hrun. set (argv := decode_strings (argv_b64 req)) in *.
  destruct (engine_match e argv) as [k|] eqn:Hm; [|done].
  exists p, req, e, k. apply nil_length in Hn. split_and!; try done. cbv zeta. fold argv.
  assert (Htrust : sc_validate_trust cfg <> Some false) by (intros Ht; by rewrite Ht in Hrun).
  assert (Hrun' : (exists dir, (dir = sc_repo_root cfg \/ (jr_dir req <> [] /\ below (sc_repo_root cfg) dir)) /\
      match build_command h k argv dir cfg with
      | Err m => (Replied (error_event m), if sc_audit cfg then [AuditRecord true (join $" " argv) NoMessage] else [])
      | Ok cmd => (Started cmd, if sc_audit cfg then [AuditRecord true (join $" " argv) NoMessage] else [])
      end = (Started cmd, log))).
  { assert (Hgo : (if is_empty (jr_dir req) then
        match build_command h k argv (sc_repo_root cfg) cfg with
        | Err m => (Replied (error_event m), if sc_audit cfg then [AuditRecord true (join $" " argv) NoMessage] else [])
        | Ok cmd => (Started cmd, if sc_audit cfg then [AuditRecord true (join $" " argv) NoMessage] else [])
        end
      else match jail_dir h (sc_repo_root cfg) (jr_dir req) with
      | Err x => (Replied (error_event (BadDir x)), if sc_audit cfg then [AuditRecord true (join $" " argv) NoMessage] else [])
      | Ok d => match build_command h k argv d cfg with
        | Err m => (Replied (error_event m), if sc_audit cfg then [AuditRecord true (join $" " argv) NoMessage] else [])
        | Ok cmd => (Started cmd, if sc_audit cfg then [AuditRecord true (join $" " argv) NoMessage] else [])
        end end) = (Started cmd, log)).
    { by destruct (sc_validate_trust cfg) as [[]|]. }
    destruct (is_empty (jr_dir req)) eqn:Hd; [exists (sc_repo_root cfg); split; [by left | done]|].
    pose proof (jail_dir_cases h (sc_repo_root cfg) (jr_dir req) Hroot) as Hj. cbv zeta in Hj.
    destruct (jail_dir h (sc_repo_root cfg) (jr_dir req)) as [d|]; [|done].
    destruct Hj as (-> & _ & Hb & _). breflect. eexists. split; [right; split; [done | exact Hb] | exact Hgo]. }
  destruct Hrun' as (dir & Hdir & Hb). destruct (build_command h k argv dir cfg) as [cmd'|] eqn:Hbc; [|done].
  injection Hb as -> <-. apply build_command_ok in Hbc as [Hrs <-]. by split_and!.
Qed.

(** * Properties *)

(** the path jail.  A job directory is accepted exactly when it is
    relative, its cleaned join with the (absolute) repository root stays
    lexically below that root, and it is a directory; each refusal has its
    own error. *)
Theorem jail_dir_spec (h : host) (root sub : gostring) (Hroot : is_abs root = true) :
  let abs := path_join root (clean sub) in
  match jail_dir h root sub with
  | Ok d => d = abs /\ is_abs sub = false /\ below root abs /\ is_dir h abs = true
  | Err DirNotRelative => is_abs sub = true
  | Err DirEscapes => is_abs sub = false /\ ~ below root abs
  | Err DirMissing => is_abs sub = false /\ below root abs /\ is_dir h abs = false
  end.
Proof. by apply jail_dir_cases. Qed.
Lemma jail_dir_spec_witness :
  let h := Host (fun _ => None) (fun _ => true) in
  jail_dir h $"/home/u/repo" $"a/../b" = Ok $"/home/u/repo/b" /\
  jail_dir h $"/home/u/repo" $"a/../../other" = Err DirEscapes /\
  below $"/home/u/repo" $"/home/u/repo/b".
Proof.
  intros h. split; [reflexivity|]. split; [reflexivity|].
  exact (proj1 (proj2 (proj2 (jail_dir_spec h $"/home/u/repo" $"a/../b" eq_refl)))).
Defined.

(** the daemon starts a process only for a request the whitelist allows,
    with the trust anchors verified, in the repository root or a directory
    below it, and the process is the task's own: just with the requested
    arguments, or the resolved binary with the requested arguments (git with
    the hook directory pinned in front).  The decision is audited as
    allowed. *)
Theorem started_jobs_are_allowed `{Regexp} (decode_request : gostring -> option job_request) (h : host)
    (cfg : server_config) (payload : option gostring) (cmd : command) (log : list audit_record)
    (Hroot : is_abs (sc_repo_root cfg) = true)
    (Hrun : handle_stream decode_request h cfg payload = (Started cmd, log)) :
  exists p req e k,
    payload = Some p /\ decode_request p = Some req /\ sc_engine cfg = Some e /\
    jr_list req = false /\ argv_b64 req <> [] /\
    let argv := decode_strings (argv_b64 req) in
    engine_match e argv = Allowed k /\ runs_as h cfg k argv cmd /\
    sc_validate_trust cfg <> Some false /\
    (c_dir cmd = sc_repo_root cfg \/ (jr_dir req <> [] /\ below (sc_repo_root cfg) (c_dir cmd))) /\
    log = (if sc_audit cfg then [AuditRecord true (join $" " argv) NoMessage] else []).
Proof. by apply started_job. Qed.
Lemma started_jobs_are_allowed_witness :
  let RE := {| regexp_ok := fun _ => true; regexp_match := fun re a => contains a re |} in
  let e := Engine {[$"build" := true]} [$"build"] ∅ [] ∅ [] in
  let cfg := ServerConfig (Some e) [] $"/repo" [] (Some true) true in
  let h := Host (fun _ => None) (fun _ => true) in
  let decode := fun p : gostring => Some (JobRequest [b64_encode p] $"sub/dir" false) in
  exists cmd log,
    @handle_stream RE decode h cfg (Some $"build") = (Started cmd, log) /\
    c_args cmd = [$"build"] /\
    exists k, @engine_match RE e [$"build"] = Allowed k.
Proof.
  intros RE e cfg h decode.
  assert (H : @handle_stream RE decode h cfg (Some $"build")
    = (Started (Command $"just" [$"build"] $"/repo/sub/dir"), [AuditRecord true $"build" NoMessage]))
    by (vm_compute; reflexivity).
  exists (Command $"just" [$"build"] $"/repo/sub/dir"), [AuditRecord true $"build" NoMessage].
  split; [exact H|]. split; [reflexivity|].
  destruct (@started_jobs_are_allowed RE decode h cfg (Some $"build") _ _ eq_refl H)
    as (p & req & e' & k & Hp & Hreq & He & _ & _ & Hm & _).
  injection Hp as <-. injection Hreq as <-. injection He as <-.
  exists k. exact Hm.
Defined.

(** Output chunks of a job, [true] for stdout. *)
Definition chunk_frame (c : bool * gostring) : option event :=
  Some (chunk_event (if fst c then EventStdout else EventStderr) (snd c)).
Definition output_of (cs : list (bool * gostring)) : gostring :=
  concat (map snd (filter (fun c => fst c = true) cs)).
Definition errors_of (cs : list (bool * gostring)) : list err_item :=
  map (fun c => JobOutput (snd c)) (filter (fun c => fst c = false) cs).
Definition write_all (n : nat) (fd : bool) (p : gostring) : gostring * bool := (p, true).
Lemma exec_loop_chunks n cs rest out err :
  exec_loop write_all n (map chunk_frame cs ++ rest) out err
  = exec_loop write_all (n + length cs) rest (out ++ output_of cs) (err ++ errors_of cs).
Proof.
  revert n out err; induction cs as [|[b p] cs IH]; intros n out err; cbn [map app].
  - by rewrite !app_nil_r, Nat.add_0_r.
  - unfold output_of, errors_of in *. cbn [length]. rewrite !filter_cons, Nat.add_succ_r, <- Nat.add_succ_l.
    destruct b; cbn [exec_loop chunk_frame fst snd chunk_event ev_type ev_data]; rewrite b64_roundtrip;
      cbn; rewrite IH; by rewrite <- app_assoc.
Qed.

(** Exit codes and output end to end.  For the frames the daemon sends,
    the client writes the job's stdout and stderr bytes unchanged, each in
    order, and exits with the job's own code, 128 plus the signal number of a
    killed job, 125 for an error or a shutdown, 126 for a denial, and 125
    when the stream ends without a final event; a refusal, an error and a
    broken stream add one diagnostic to stderr, never to stdout. *)
Theorem exec_reports_outcome (chunks : list (bool * gostring)) (cancelled : bool) (r : run_result)
    (m : message) (rest : list (option event)) :
  let run final := exec write_all true (map chunk_frame chunks ++ final) in
  let ends code diags := ExecResult code (output_of chunks) (errors_of chunks ++ map Diagnostic diags) in
  run (Some (run_job_event cancelled r) :: rest)
  = (match r with
     | RunOk => ends 0 []
     | _ => if cancelled then ends 125 [JobError SandboxShutDown]
            else match r with
                 | RunExit c => ends c []
                 | RunSignaled n => ends (128 + n) []
                 | RunUnknown => ends 128 []
                 | _ => ends 125 [JobError RunError]
                 end
     end)%Z /\
  run (Some (denied_event m) :: rest) = ends 126%Z [Declined m] /\
  run (Some (error_event m) :: rest) = ends 125%Z [JobError m] /\
  run [] = ends 125%Z [ReadFailed].
Proof.
  cbv beta zeta. unfold exec. rewrite !exec_loop_chunks.
  split_and!; try done. destruct r, cancelled; cbn; by rewrite ?app_nil_r.
Qed.

(** arguments cross the wire unchanged: decoding the encoded argument
    vector gives it back, whatever bytes it holds; an element that is not
    base64 becomes the empty string and its neighbours keep their places. *)
Theorem argv_roundtrip (argv : list gostring) (wire : list gostring) (i : nat) :
  decode_strings (encode_strings argv) = argv /\
  length (decode_strings wire) = length wire /\
  decode_strings wire !! i = (fun s => match b64_decode s with Some b => b | None => [] end) <$> wire !! i.
Proof.
  split; [apply decode_encode_strings|]. unfold decode_strings. rewrite length_map. split; [done|].
  rewrite list_lookup_fmap. by destruct (wire !! i).
Qed.
