(* ===== verification/Job.v ===== *)
(** The life of a delegated job: [runJob] of [internal/runner/server.go] with
    the [os/exec] machinery it configures ([Cmd.Run] with [Cancel] and
    [WaitDelay], the two copying goroutines, the goroutine that watches the
    context) and the processes of the job.

    [job_step] is one atomic piece of any of them, so a run is any
    interleaving.  The 3 seconds of [WaitDelay] are a step that may happen
    whenever the timer runs.  Frames are written whole ([Frame]); a write
    fails once the connection is down. *)
From S2P Require Import GoStrings GoBase64 Whitelist RunnerServer.
Local Open Scope go_scope.

(** * The session *)
(** [ServeSessionCtx]: every accepted stream is handled by a goroutine of its
    own, [None] is a failure to accept; nothing is returned while the loop still
    waits. *)
Inductive serve_end := ContextEnded | AcceptFailed.
Fixpoint serve_session_ctx `{Regexp} (decode_request : gostring -> option job_request) (h : host) (cfg : server_config)
    (cancelled : bool) (accepts : list (option (option gostring))) : list (outcome * list audit_record) * option serve_end :=
  match accepts with
  | [] => ([], None)
  | None :: _ => ([], Some (if cancelled then ContextEnded else AcceptFailed))
  | Some payload :: accepts =>
      let '(handled, e) := serve_session_ctx decode_request h cfg cancelled accepts in
      (handle_stream decode_request h cfg payload :: handled, e)
  end.
(** [ServeSession]: with the background context, which is never cancelled. *)
Definition serve_session `{Regexp} (decode_request : gostring -> option job_request) (h : host) (cfg : server_config)
    (accepts : list (option (option gostring))) : list (outcome * list audit_record) * option serve_end :=
  serve_session_ctx decode_request h cfg false accepts.

(** * State *)
(** A living process of the job: whether it is in the process group of the
    leader, and which of the two pipes it holds. *)
Record proc := Proc { p_group : bool; p_out : bool; p_err : bool }.
Definition holds (k : bool) (p : proc) : bool := if k then p_out p else p_err p.
(** A copying goroutine: copying, or ended with or without an error; its end of
    the pipe is closed then. *)
Inductive copier := Copying | Ended (ok : bool).
(** A pipe: everything that was written to it, what the goroutine has not read
    yet, and what it has sent. *)
Record pipe := Pipe { s_written : gostring; s_unread : gostring; s_copied : gostring; s_copier : copier }.
(** How a process ended, and the outcome that [os/exec] makes of it. *)
Inductive status := Code (c : Z) | Signal (n : Z).
Definition status_result (st : status) : run_result :=
  match st with Code 0 => RunOk | Code c => RunExit c | Signal n => RunSignaled n end.
(** The error of [Cmd.Wait]. *)
Inductive wait_err := NoErr | ExitErr (r : run_result) | CtxErr | OtherErr.
(** The goroutine of [watchCtx]: it watches, it has called [Cancel] and runs the
    timer, or the timer has expired. *)
Inductive watcher := Watching | Interrupted | Expired.
(** [Cmd.Wait]: it waits for the process, the process has been reaped, it waits
    for the copying goroutines, or [runJob] has reported. *)
Inductive phase := Waiting | Reaped | Draining (e : wait_err) | Reported (r : run_result).
Record job := Job {
  j_procs : gmap nat proc;              (* 0 is the leader *)
  j_leader : option status;             (* how the leader ended *)
  j_out : pipe; j_err : pipe;
  j_wire : list event;
  j_up : bool;                          (* the connection of the guest *)
  j_ctx : bool;                         (* the context is cancelled *)
  j_watch : watcher;
  j_phase : phase }.

Definition pipe_of (j : job) (k : bool) : pipe := if k then j_out j else j_err j.
Definition set_pipe (k : bool) (s : pipe) (j : job) : job :=
  if k then Job (j_procs j) (j_leader j) s (j_err j) (j_wire j) (j_up j) (j_ctx j) (j_watch j) (j_phase j)
  else Job (j_procs j) (j_leader j) (j_out j) s (j_wire j) (j_up j) (j_ctx j) (j_watch j) (j_phase j).
Definition set_procs (ps : gmap nat proc) (l : option status) (j : job) : job :=
  Job ps l (j_out j) (j_err j) (j_wire j) (j_up j) (j_ctx j) (j_watch j) (j_phase j).
Definition set_wire (w : list event) (j : job) : job :=
  Job (j_procs j) (j_leader j) (j_out j) (j_err j) w (j_up j) (j_ctx j) (j_watch j) (j_phase j).
Definition set_conn (up ctx : bool) (j : job) : job :=
  Job (j_procs j) (j_leader j) (j_out j) (j_err j) (j_wire j) up ctx (j_watch j) (j_phase j).
Definition set_wait (w : watcher) (ph : phase) (j : job) : job :=
  Job (j_procs j) (j_leader j) (j_out j) (j_err j) (j_wire j) (j_up j) (j_ctx j) w ph.

(** * Operations *)
Definition typ_of (k : bool) : gostring := if k then EventStdout else EventStderr.
(** The buffer of [io.Copy]. *)
Definition copy_buffer : nat := Z.to_nat 32768.
Definition held (k : bool) (ps : gmap nat proc) : bool := existsb (fun kv => holds k (snd kv)) (map_to_list ps).
(** [closeDescriptors] on the reading ends: a goroutine that still copies ends
    with an error, and what it has not read is lost. *)
Definition close_pipe (s : pipe) : pipe :=
  match s_copier s with Copying => Pipe (s_written s) [] (s_copied s) (Ended false) | Ended _ => s end.
Definition close_pipes (j : job) : job := set_pipe true (close_pipe (j_out j)) (set_pipe false (close_pipe (j_err j)) j).
(** [syscall.Kill(-pid, SIGKILL)]: the process group, the leader among it if it
    is still in it. *)
Definition kill_group (j : job) : job :=
  let leader := match j_procs j !! 0 with Some p => if p_group p then Some (Signal 9) else j_leader j | None => j_leader j end in
  set_procs (filter (fun kv => p_group (snd kv) = false) (j_procs j)) leader j.
(** [Process.Kill]: the leader alone. *)
Definition kill_leader (j : job) : job :=
  match j_procs j !! 0 with
  | Some _ => set_procs (delete 0 (j_procs j)) (Some (Signal 9)) j
  | None => j
  end.
Definition status_err (l : option status) : wait_err :=
  match l with
  | Some st => match status_result st with RunOk => NoErr | r => ExitErr r end
  | None => NoErr
  end.
(** [if err == nil { err = e }]. *)
Definition or_err (a b : wait_err) : wait_err := match a with NoErr => b | _ => a end.
Definition result_of (e : wait_err) : run_result :=
  match e with NoErr => RunOk | ExitErr r => r | CtxErr | OtherErr => RunFailed end.
(** The end of [runJob]: the event for the outcome of [cmd.Run]. *)
Definition report (e : wait_err) (j : job) : job :=
  let r := result_of e in
  set_wait (j_watch j) (Reported r)
    (if j_up j then set_wire (j_wire j ++ [run_job_event (j_ctx j) r]) j else j).
(** What the copying goroutines returned, once both have. *)
Definition copy_err (j : job) : option wait_err :=
  match s_copier (j_out j), s_copier (j_err j) with
  | Ended a, Ended b => Some (if a && b then NoErr else OtherErr)
  | _, _ => None
  end.
(** [Cmd.Start]: a cancelled context or a failure to start is an error of
    [cmd.Run]; otherwise the leader is alive, in a group of its own, with both
    pipes. *)
Definition new_pipe (c : copier) : pipe := Pipe [] [] [] c.
Definition start_job (started ctx : bool) : job :=
  let new ps c := Job ps None (new_pipe c) (new_pipe c) [] true ctx Watching Waiting in
  if ctx then report CtxErr (new ∅ (Ended true))
  else if started then new {[0 := Proc true true true]} Copying else report OtherErr (new ∅ (Ended true)).

(** * Steps *)
Inductive action :=
  (* the processes of the job *)
  | Writes (p : nat) (k : bool) (data : gostring)
  | Forks (p c : nat)
  | Leaves (p : nat)
  | Closes (p : nat) (k : bool)
  | Exits (p : nat) (st : status)
  (* the sandbox *)
  | Cancelled
  | HangsUp
  (* the copying goroutines *)
  | Copies (k : bool) (n : nat)
  | CopyEnds (k : bool)
  (* the watching goroutine *)
  | Interrupts
  | WatchExpires
  (* [Cmd.Wait] *)
  | Reaps
  | Collects
  | Drains
  | DrainExpires.
Definition is_reported (ph : phase) : bool := match ph with Reported _ => true | _ => false end.
Definition update_proc (p : nat) (f : proc -> proc) (j : job) : option job :=
  match j_procs j !! p with
  | Some x => Some (set_procs (<[p := f x]> (j_procs j)) (j_leader j) j)
  | None => None
  end.
Definition job_step (a : action) (j : job) : option job :=
  match a with
  | Writes p k data =>
      let s := pipe_of j k in
      match j_procs j !! p, s_copier s with
      | Some x, Copying =>
          if holds k x then Some (set_pipe k (Pipe (s_written s ++ data) (s_unread s ++ data) (s_copied s) Copying) j) else None
      | _, _ => None                                          (* EPIPE *)
      end
  | Forks p c =>
      match j_procs j !! p, j_procs j !! c, c with
      | Some x, None, S _ => Some (set_procs (<[c := x]> (j_procs j)) (j_leader j) j)
      | _, _, _ => None
      end
  | Leaves p => update_proc p (fun x => Proc false (p_out x) (p_err x)) j
  | Closes p k => update_proc p (fun x => if k then Proc (p_group x) false (p_err x) else Proc (p_group x) (p_out x) false) j
  | Exits p st =>
      match j_procs j !! p with
      | Some _ => Some (set_procs (delete p (j_procs j)) (match p with 0 => Some st | S _ => j_leader j end) j)
      | None => None
      end
  | Cancelled => Some (set_conn (j_up j) true j)
  | HangsUp => Some (set_conn false (j_ctx j) j)
  | Copies k n =>
      let s := pipe_of j k in
      match s_copier s with
      | Copying =>
          if (0 <? n) && (n <=? copy_buffer) && (n <=? length (s_unread s)) then
            let data := take n (s_unread s) in
            Some (if j_up j
                  then set_wire (j_wire j ++ [chunk_event (typ_of k) data])
                         (set_pipe k (Pipe (s_written s) (drop n (s_unread s)) (s_copied s ++ data) Copying) j)
                  else set_pipe k (close_pipe s) j)
          else None
      | Ended _ => None
      end
  | CopyEnds k =>
      let s := pipe_of j k in
      match s_copier s with
      | Copying => if is_empty (s_unread s) && negb (held k (j_procs j))
                   then Some (set_pipe k (Pipe (s_written s) [] (s_copied s) (Ended true)) j) else None
      | Ended _ => None
      end
  | Interrupts =>
      match j_watch j, j_phase j with
      | Watching, (Waiting | Reaped) => if j_ctx j then Some (set_wait Interrupted (j_phase j) (kill_group j)) else None
      | _, _ => None
      end
  | WatchExpires =>
      match j_watch j, j_phase j with
      | Interrupted, (Waiting | Reaped) => Some (set_wait Expired (j_phase j) (close_pipes (kill_leader j)))
      | _, _ => None
      end
  | Reaps =>
      match j_phase j, j_leader j with
      | Waiting, Some _ => Some (set_wait (j_watch j) Reaped j)
      | _, _ => None
      end
  | Collects =>
      match j_phase j with
      | Reaped =>
          let e := status_err (j_leader j) in
          match j_watch j with
          | Watching => Some (set_wait Watching (Draining e) j)
          | Interrupted => Some (set_wait Interrupted (Draining (or_err e CtxErr)) j)
          | Expired => Some (report (or_err e CtxErr) j)
          end
      | _ => None
      end
  | Drains =>
      match j_phase j, copy_err j with
      | Draining e, Some c => Some (report (or_err e c) j)
      | _, _ => None
      end
  | DrainExpires =>
      match j_phase j with
      | Draining e => Some (report (or_err e OtherErr) (close_pipes j))
      | _ => None
      end
  end.
(** The actions of the daemon. *)
Definition daemon_action (a : action) : bool :=
  match a with
  | Copies _ _ | CopyEnds _ | Interrupts | WatchExpires | Reaps | Collects | Drains | DrainExpires => true
  | _ => false
  end.
Fixpoint run_job (l : list action) (j : job) : option job :=
  match l with
  | [] => Some j
  | a :: l => match job_step a j with Some j1 => run_job l j1 | None => None end
  end.
Definition reachable (j : job) : Prop := exists started ctx l, run_job l (start_job started ctx) = Some j.

(** * Invariants *)
(** Sent is a prefix of what was written; all of it when the goroutine ended at
    the end of the pipe. *)
Definition pipe_ok (s : pipe) : Prop :=
  match s_copier s with
  | Copying => s_written s = s_copied s ++ s_unread s
  | Ended true => s_written s = s_copied s
  | Ended false => exists rest, s_written s = s_copied s ++ rest
  end.
Definition chunk_of (c : bool * gostring) : event := chunk_event (typ_of (fst c)) (snd c).
Definition chunks_to (k : bool) (cs : list (bool * gostring)) : gostring :=
  concat (map snd (filter (fun c => fst c = k) cs)).
(** What has been sent: the chunks, and the final event once the job has been
    reported to a guest that was still there. *)
Definition wire_ok (j : job) : Prop :=
  exists cs final, j_wire j = map chunk_of cs ++ final /\
    chunks_to true cs = s_copied (j_out j) /\ chunks_to false cs = s_copied (j_err j) /\
    match j_phase j with
    | Reported r => (exists c, final = [run_job_event c r]) \/ (final = [] /\ j_up j = false)
    | _ => final = []
    end.
(** What [Cmd.Wait] will return. *)
Definition wait_ok (j : job) : Prop :=
  match j_phase j with
  | Waiting => True
  | Reaped => j_leader j <> None
  | Draining e =>
      j_leader j <> None /\ j_watch j <> Expired /\
      e = (match j_watch j with Watching => status_err (j_leader j) | _ => or_err (status_err (j_leader j)) CtxErr end)
  | Reported r =>
      (r = RunFailed /\ (j_leader j = None \/ j_leader j = Some (Code 0)) \/ exists st, j_leader j = Some st /\ r = status_result st) /\
      (r = RunOk -> j_watch j = Watching /\ s_copier (j_out j) = Ended true /\ s_copier (j_err j) = Ended true)
  end.
(** The leader is alive or its end is known, and nobody in the group is alive
    once [Cancel] has been called. *)
Definition procs_ok (j : job) : Prop :=
  (j_procs j !! 0 = None \/ j_leader j = None) /\
  (j_watch j <> Watching -> map_Forall (fun _ x => p_group x = false) (j_procs j)) /\
  (j_watch j = Expired -> j_procs j !! 0 = None) /\
  (j_procs j !! 0 = None -> j_leader j = None -> is_reported (j_phase j) = true) /\
  (is_reported (j_phase j) = true -> j_procs j !! 0 = None).
(** Nothing is copied any more once the job has been reported or the timer of
    the watching goroutine has expired. *)
Definition closed_ok (j : job) : Prop :=
  is_reported (j_phase j) = true \/ j_watch j = Expired -> forall k, s_copier (pipe_of j k) <> Copying.
Definition pipes_ok (j : job) : Prop := forall k, pipe_ok (pipe_of j k).
Definition inv (j : job) : Prop := pipes_ok j /\ closed_ok j /\ wire_ok j /\ wait_ok j /\ procs_ok j.

Lemma close_pipe_ok s : pipe_ok s -> pipe_ok (close_pipe s) /\ s_copied (close_pipe s) = s_copied s /\ s_written (close_pipe s) = s_written s.
Proof.
  unfold pipe_ok, close_pipe. destruct (s_copier s) eqn:Hc; [|by rewrite Hc]. intros Hw. split_and!; try done. cbn. by eexists.
Qed.
Lemma close_pipe_closed s : s_copier (close_pipe s) <> Copying.
Proof. unfold close_pipe. destruct (s_copier s) eqn:Hc; [done|]. by rewrite Hc. Qed.
Lemma failed_start_inv e ctx :
  result_of e = RunFailed -> inv (report e (Job ∅ None (new_pipe (Ended true)) (new_pipe (Ended true)) [] true ctx Watching Waiting)).
Proof.
  intros He. unfold report. rewrite He. cbn [j_up]. split; [by intros []|]. split; [by intros _ []|]. split.
  - eexists [], [_]. split; [reflexivity|]. split; [done|]. split; [done|]. left. by eexists.
  - split; [split; [by left; auto | done]|]. split; [by left|]. done.
Qed.
Lemma start_inv started ctx : inv (start_job started ctx).
Proof.
  unfold start_job. destruct ctx; [by apply failed_start_inv|]. destruct started; [|by apply failed_start_inv].
  split; [by intros []|]. split; [by intros [?|?]|]. split; [by exists [], []|]. split; [done|].
  split; [by right|]. done.
Qed.

(** ** What each step keeps *)
(** Cases of a step, with its guards. *)
Ltac step_cases H :=
  unfold job_step, update_proc in H; cbv zeta in H;
  repeat match type of H with
    | None = Some _ => discriminate H
    | Some _ = Some _ => apply (inj Some) in H; subst
    | context [match ?x with _ => _ end] => let E := fresh "E" in destruct x eqn:E
    end.
Lemma pipe_of_set k k' s j : pipe_of (set_pipe k s j) k' = if Bool.eqb k k' then s else pipe_of j k'.
Proof. by destruct k, k'. Qed.
Lemma pipe_of_set_wire w j k : pipe_of (set_wire w j) k = pipe_of j k.
Proof. done. Qed.
Lemma pipe_of_set_wait w ph j k : pipe_of (set_wait w ph j) k = pipe_of j k.
Proof. done. Qed.
Lemma pipe_of_report e j k : pipe_of (report e j) k = pipe_of j k.
Proof. unfold report. by destruct (j_up j). Qed.
Lemma pipe_of_close j k : pipe_of (close_pipes j) k = close_pipe (pipe_of j k).
Proof. by destruct k. Qed.
Lemma pipe_of_kill_group j k : pipe_of (kill_group j) k = pipe_of j k.
Proof. done. Qed.
Lemma pipe_of_kill_leader j k : pipe_of (kill_leader j) k = pipe_of j k.
Proof. unfold kill_leader. by destruct (j_procs j !! 0). Qed.
Lemma step_pipes a j j' : job_step a j = Some j' -> pipes_ok j -> pipes_ok j'.
Proof.
  intros Hs Hp k. specialize (Hp k) as Hk. destruct a as [p k' data|p c|p|p k'|p st| | |k' n|k'| | | | | |]; step_cases Hs; try exact Hk.
  - rewrite pipe_of_set. destruct (Bool.eqb_spec k' k) as [->|]; [|exact Hk]. unfold pipe_ok in *. rewrite E0 in Hk. cbn.
    by rewrite Hk, app_assoc.
  - destruct (j_up j); rewrite ?pipe_of_set_wire, pipe_of_set; (destruct (Bool.eqb_spec k' k) as [->|]; [|exact Hk]);
      [|by apply close_pipe_ok].
    unfold pipe_ok in *. rewrite E in Hk. cbn. by rewrite Hk, <- app_assoc, take_drop.
  - rewrite pipe_of_set. destruct (Bool.eqb_spec k' k) as [->|]; [|exact Hk]. unfold pipe_ok in *. rewrite E in Hk. cbn.
    apply andb_true_iff in E0 as [E0 _]. apply is_empty_true in E0. by rewrite Hk, E0, app_nil_r.
  - rewrite pipe_of_set_wait, pipe_of_close, pipe_of_kill_leader. by apply close_pipe_ok.
  - rewrite pipe_of_set_wait, pipe_of_close, pipe_of_kill_leader. by apply close_pipe_ok.
  - by rewrite pipe_of_report.
  - by rewrite pipe_of_report.
  - rewrite pipe_of_report, pipe_of_close. by apply close_pipe_ok.
Qed.

Lemma copy_err_some j c : copy_err j = Some c -> forall k, s_copier (pipe_of j k) <> Copying.
Proof. unfold copy_err. intros Hc []; cbn; destruct (s_copier (j_out j)), (s_copier (j_err j)); done. Qed.
Lemma job_step_closed a j j' : job_step a j = Some j' -> closed_ok j -> closed_ok j'.
Proof.
  intros Hs Hp Hx k. destruct a as [p k' data|p c|p|p k'|p st| | |k' n|k'| | | | | |]; step_cases Hs; try (by apply Hp).
  all: try (rewrite pipe_of_set in *; destruct (Bool.eqb_spec k' k) as [->|]; [|apply Hp; by destruct k']).
  - by destruct (Hp ltac:(by destruct k) k).
  - destruct (Hp ltac:(by destruct (j_up j), k') k' E).
  - done.
  - by destruct Hx.
  - by destruct Hx.
  - rewrite pipe_of_set_wait, pipe_of_close. apply close_pipe_closed.
  - rewrite pipe_of_set_wait, pipe_of_close. apply close_pipe_closed.
  - apply Hp. by destruct Hx as [?|?]; [|right].
  - by destruct Hx.
  - by destruct Hx.
  - rewrite pipe_of_report. apply Hp. by right.
  - rewrite pipe_of_report. by apply (copy_err_some _ _ E0).
  - rewrite pipe_of_report, pipe_of_close. apply close_pipe_closed.
Qed.

(** ** The wire *)
Lemma chunks_to_app k cs cs' : chunks_to k (cs ++ cs') = chunks_to k cs ++ chunks_to k cs'.
Proof. unfold chunks_to. by rewrite filter_app, map_app, concat_app. Qed.
Lemma chunks_to_snoc k k' cs data : chunks_to k (cs ++ [(k', data)]) = if Bool.eqb k k' then chunks_to k cs ++ data else chunks_to k cs.
Proof.
  rewrite chunks_to_app. unfold chunks_to at 2. rewrite filter_cons, filter_nil.
  destruct k, k'; cbn; case_decide; try done; cbn; by rewrite ?app_nil_r.
Qed.
Lemma wire_ok_iff j : wire_ok j <->
  exists cs final, j_wire j = map chunk_of cs ++ final /\ (forall k, chunks_to k cs = s_copied (pipe_of j k)) /\
    match j_phase j with
    | Reported r => (exists c, final = [run_job_event c r]) \/ (final = [] /\ j_up j = false)
    | _ => final = []
    end.
Proof.
  unfold wire_ok. split; intros (cs & final & Hw & Hc); exists cs, final; (split; [done|]).
  - destruct Hc as (Ho & He & Hf). split; [by intros []|done].
  - destruct Hc as (Hc & Hf). split; [apply (Hc true)|]. split; [apply (Hc false)|done].
Qed.
(** A step that touches neither what was sent nor the phase. *)
Lemma wire_same j j' :
  j_wire j' = j_wire j -> (forall k, s_copied (pipe_of j' k) = s_copied (pipe_of j k)) ->
  (j_phase j' = j_phase j \/ is_reported (j_phase j) = false /\ is_reported (j_phase j') = false) ->
  (j_up j' = true -> j_up j = true) -> wire_ok j -> wire_ok j'.
Proof.
  rewrite !wire_ok_iff. intros Hw Hc Hp Hu (cs & final & H1 & H2 & H3). exists cs, final. rewrite Hw. split; [done|].
  split; [intros k; by rewrite H2, Hc|]. destruct Hp as [->|[Ha Hb]].
  - destruct (j_phase j); try done. destruct H3 as [?|[-> Hf]]; [by left|]. right. split; [done|].
    destruct (j_up j'); [|done]. by rewrite Hu in Hf.
  - destruct (j_phase j); try done; by destruct (j_phase j').
Qed.
Lemma wire_report e j : is_reported (j_phase j) = false -> wire_ok j -> wire_ok (report e j).
Proof.
  rewrite !wire_ok_iff. intros Hp (cs & final & H1 & H2 & H3). unfold report.
  assert (final = []) as -> by (by destruct (j_phase j)). rewrite app_nil_r in H1.
  destruct (j_up j) eqn:Hu.
  - exists cs, [run_job_event (j_ctx j) (result_of e)]. cbn [set_wait set_wire j_wire j_phase]. rewrite H1.
    split; [done|]. split; [done|]. left. by eexists.
  - exists cs, []. cbn [set_wait j_wire j_phase]. rewrite H1, app_nil_r. split; [done|]. split; [done|]. by right.
Qed.
Lemma wire_set_pipe k s j : s_copied s = s_copied (pipe_of j k) -> wire_ok j -> wire_ok (set_pipe k s j).
Proof.
  intros Hc. apply wire_same; [by destruct k | | left; by destruct k | by destruct k].
  intros k'. rewrite pipe_of_set. destruct (Bool.eqb_spec k k') as [->|]; done.
Qed.
Lemma close_pipe_copied s : s_copied (close_pipe s) = s_copied s.
Proof. unfold close_pipe. by destruct (s_copier s). Qed.
Lemma wire_close j : wire_ok j -> wire_ok (close_pipes j).
Proof. intros Hw. apply wire_set_pipe; [apply close_pipe_copied|]. apply wire_set_pipe; [apply close_pipe_copied | done]. Qed.
Lemma close_pipes_phase j : j_phase (close_pipes j) = j_phase j.
Proof. done. Qed.
Lemma wire_wait w ph j : is_reported (j_phase j) = false -> is_reported ph = false -> wire_ok j -> wire_ok (set_wait w ph j).
Proof. intros Ha Hb. by apply wire_same; [| | right |]. Qed.
Lemma wire_procs ps l j : wire_ok j -> wire_ok (set_procs ps l j).
Proof. by apply wire_same; [| | left |]. Qed.
Lemma wire_kill_leader j : wire_ok j -> wire_ok (kill_leader j).
Proof. unfold kill_leader. destruct (j_procs j !! 0); [apply wire_procs | done]. Qed.
Lemma wire_chunk k s data j :
  is_reported (j_phase j) = false -> s_copied s = s_copied (pipe_of j k) ++ data -> wire_ok j ->
  wire_ok (set_wire (j_wire j ++ [chunk_event (typ_of k) data]) (set_pipe k s j)).
Proof.
  rewrite !wire_ok_iff. intros Hp Hs (cs & final & H1 & H2 & H3).
  assert (final = []) as -> by (by destruct (j_phase j)). rewrite app_nil_r in H1.
  exists (cs ++ [(k, data)]), []. split_and!.
  - cbn [set_wire j_wire]. by rewrite H1, map_app, app_nil_r.
  - intros k'. rewrite chunks_to_snoc, pipe_of_set_wire, pipe_of_set, H2. destruct k, k'; cbn [Bool.eqb]; by rewrite ?Hs.
  - cbn [set_wire j_phase]. replace (j_phase (set_pipe k s j)) with (j_phase j) by (by destruct k). by destruct (j_phase j).
Qed.
Lemma step_wire a j j' : job_step a j = Some j' -> closed_ok j -> wire_ok j -> wire_ok j'.
Proof.
  intros Hs Hp Hw. destruct a as [p k' data|p c|p|p k'|p st| | |k' n|k'| | | | | |]; step_cases Hs; try exact Hw.
  - by apply wire_set_pipe.
  - revert Hw. by apply wire_same; [| | left |].
  - destruct (j_up j).
    + apply wire_chunk; [|done|done]. destruct (is_reported (j_phase j)) eqn:Hr; [|done]. by destruct (Hp (or_introl Hr) k' E).
    + apply wire_set_pipe; [apply close_pipe_copied | done].
  - by apply wire_set_pipe.
  - apply wire_wait; [cbn; by rewrite E0|done|]. by apply wire_procs.
  - apply wire_wait; [cbn; by rewrite E0|done|]. by apply wire_procs.
  - apply wire_wait; [|done|by apply wire_close, wire_kill_leader]. unfold kill_leader. destruct (j_procs j !! 0); cbn; by rewrite E0.
  - apply wire_wait; [|done|by apply wire_close, wire_kill_leader]. unfold kill_leader. destruct (j_procs j !! 0); cbn; by rewrite E0.
  - apply wire_wait; [by rewrite E | done | done].
  - apply wire_wait; [by rewrite E | done | done].
  - apply wire_wait; [by rewrite E | done | done].
  - apply wire_report; [by rewrite E | done].
  - apply wire_report; [by rewrite E | done].
  - apply wire_report; [by rewrite close_pipes_phase, E | by apply wire_close].
Qed.

(** ** The processes *)
(** A process that is new or changed is in the group only if one was. *)
Lemma procs_put q x p y j :
  j_procs j !! p = Some y -> (p_group x = true -> p_group y = true) -> q <> 0 \/ q = p ->
  procs_ok j -> procs_ok (set_procs (<[q := x]> (j_procs j)) (j_leader j) j).
Proof.
  intros Hp Hg Hq (H1 & H2 & H3 & H4 & H5).
  assert (H0 : <[q := x]> (j_procs j) !! 0 = None <-> j_procs j !! 0 = None).
  { destruct (decide (q = 0)) as [->|Hne]; [|by rewrite lookup_insert_ne]. rewrite lookup_insert_eq.
    destruct Hq as [?|<-]; [done|]. by rewrite Hp. }
  split_and!; cbn [set_procs j_procs j_leader j_watch j_phase].
  - destruct H1 as [H1|H1]; [left; by apply H0 | by right].
  - intros Hw. apply map_Forall_insert_2; [|by apply H2]. specialize (H2 Hw p y Hp). cbn in H2.
    destruct (p_group x); [|done]. by rewrite Hg in H2.
  - intros Hw. by apply H0, H3.
  - intros Hn. apply H4. by apply H0.
  - intros Hr. by apply H0, H5.
Qed.
Lemma procs_report e j : procs_ok j -> j_leader j <> None -> procs_ok (report e j).
Proof. intros (H1 & H2 & H3 & _) Hl. assert (j_procs j !! 0 = None) by (by destruct H1). unfold report. by destruct (j_up j). Qed.
Lemma procs_del p l j :
  (p = 0 -> l <> None) -> (p <> 0 -> l = j_leader j) -> procs_ok j -> procs_ok (set_procs (delete p (j_procs j)) l j).
Proof.
  intros Hl Hn (H1 & H2 & H3 & H4 & H5). split_and!; cbn [set_procs j_procs j_leader j_watch j_phase].
  - destruct (decide (p = 0)) as [->|Hne]; [left; apply lookup_delete_eq|].
    rewrite lookup_delete_ne by done. by rewrite Hn.
  - intros Hw. by apply map_Forall_delete, H2.
  - intros Hw. apply lookup_delete_None. right. by apply H3.
  - destruct (decide (p = 0)) as [->|Hne]; [by intros _ ?%Hl|]. rewrite lookup_delete_ne, Hn by done. done.
  - intros Hr. apply lookup_delete_None. right. by apply H5.
Qed.
Lemma procs_kill_group ph j :
  is_reported (j_phase j) = false -> is_reported ph = false -> procs_ok j -> procs_ok (set_wait Interrupted ph (kill_group j)).
Proof.
  intros Hp Hph (H1 & H2 & H3 & H4 & H5). unfold kill_group. split_and!; cbn [set_wait set_procs j_procs j_leader j_watch j_phase].
  - destruct (j_procs j !! 0) as [x|] eqn:H0; [|left; apply map_lookup_filter_None; by left].
    destruct (p_group x) eqn:Hg.
    + left. apply map_lookup_filter_None. right. intros y Hy. rewrite H0 in Hy. injection Hy as <-. cbn. by rewrite Hg.
    + right. by destruct H1.
  - intros _ k x. rewrite map_lookup_filter_Some. by intros [_ ?].
  - done.
  - rewrite Hph. destruct (j_procs j !! 0) as [x|] eqn:H0; [|intros _ Hl; by rewrite H4 in Hp].
    destruct (p_group x) eqn:Hg; [done|]. intros Hn. apply map_lookup_filter_None in Hn as [Hn|Hn]; [by rewrite H0 in Hn|].
    by destruct (Hn x H0).
  - by rewrite Hph.
Qed.
Lemma procs_expire ph j :
  is_reported (j_phase j) = false -> j_watch j = Interrupted -> procs_ok j -> procs_ok (set_wait Expired ph (close_pipes (kill_leader j))).
Proof.
  intros Hp Hw Hok. pose proof Hok as (H1 & H2 & H3 & H4 & H5). unfold kill_leader. destruct (j_procs j !! 0) as [x|] eqn:H0.
  - pose proof (procs_del 0 (Some (Signal 9)) j ltac:(done) ltac:(done) Hok) as (G1 & G2 & G3 & G4 & G5).
    split_and!; [done | | | |].
    + intros _. apply G2. cbn. by rewrite Hw.
    + intros _. apply lookup_delete_eq.
    + done.
    + intros _. apply lookup_delete_eq.
  - split_and!; [by left | intros _; apply H2; by rewrite Hw | done | | done]. intros _ Hl. by rewrite H4 in Hp.
Qed.
Lemma procs_wait w ph j :
  j_watch j = w -> is_reported (j_phase j) = false -> is_reported ph = false -> procs_ok j -> procs_ok (set_wait w ph j).
Proof. intros <- Hp Hph (H1 & H2 & H3 & H4 & H5). split_and!; try done; [intros Hn Hl; by rewrite H4 in Hp | cbn; by rewrite Hph]. Qed.
Lemma step_procs a j j' : job_step a j = Some j' -> wait_ok j -> procs_ok j -> procs_ok j'.
Proof.
  intros Hs Hw Hok. destruct a as [p k' data|p c|p|p k'|p st| | |k' n|k'| | | | | |]; step_cases Hs; try exact Hok.
  - by destruct k'.
  - by apply (procs_put _ _ p p0); [| |left|].
  - by apply (procs_put _ _ p p0); [| |right|].
  - by apply (procs_put _ _ p p0); [|destruct k'|right|].
  - by apply procs_del; destruct p.
  - by destruct (j_up j), k'.
  - by destruct k'.
  - apply procs_kill_group; [by rewrite E0|done|done].
  - apply procs_kill_group; [by rewrite E0|done|done].
  - apply procs_expire; [by rewrite E0|done|done].
  - apply procs_expire; [by rewrite E0|done|done].
  - apply procs_wait; [done | by rewrite E | done | done].
  - apply procs_wait; [done | by rewrite E | done | done].
  - apply procs_wait; [done | by rewrite E | done | done].
  - apply procs_report; [done|]. unfold wait_ok in Hw. by rewrite E in Hw.
  - apply procs_report; [done|]. unfold wait_ok in Hw. rewrite E in Hw. by destruct Hw.
  - apply procs_report; [done|]. unfold wait_ok in Hw. rewrite E in Hw. by destruct Hw.
Qed.

(** ** The outcome *)
(** A step that keeps the phase, the watcher, the leader's end and the ends of
    the copying goroutines. *)
Lemma wait_same j j' :
  j_phase j' = j_phase j -> j_watch j' = j_watch j ->
  (j_phase j <> Waiting -> j_leader j <> None -> j_leader j' = j_leader j) ->
  (forall k ok, s_copier (pipe_of j k) = Ended ok -> s_copier (pipe_of j' k) = Ended ok) ->
  (is_reported (j_phase j) = true -> j_leader j' = j_leader j) ->
  wait_ok j -> wait_ok j'.
Proof.
  unfold wait_ok. intros -> Hw Hl Hc Hr. rewrite Hw. destruct (j_phase j) as [| |e|r]; [done| | |].
  - intros Hn. by rewrite Hl.
  - intros (Hn & Hx & He). by rewrite !Hl.
  - intros (H1 & H2). rewrite Hr by done. split; [done|]. intros Hok. destruct (H2 Hok) as (Ha & Hb & Hd).
    split_and!; [done | apply (Hc true) | apply (Hc false)]; done.
Qed.
Lemma status_ok st : status_result st = RunOk -> st = Code 0.
Proof. by destruct st as [[]|]. Qed.
Lemma status_not_failed st : status_result st <> RunFailed.
Proof. destruct st as [[]|]; done. Qed.
Lemma result_status st : result_of (status_err (Some st)) = status_result st.
Proof. unfold status_err. by destruct (status_result st). Qed.
Lemma result_or st w : w <> NoErr -> result_of w = RunFailed ->
  result_of (or_err (status_err (Some st)) w) = RunFailed /\ st = Code 0 \/
  result_of (or_err (status_err (Some st)) w) = status_result st /\ status_result st <> RunOk.
Proof.
  intros Hn Hw. unfold status_err. destruct (status_result st) eqn:Hs; cbn [or_err result_of]; try (by right). left. by apply status_ok in Hs.
Qed.
(** What is reported: the end of the leader, or a failure. *)
Lemma report_ok w j :
  j_leader j <> None ->
  (w = NoErr /\ j_watch j = Watching /\ s_copier (j_out j) = Ended true /\ s_copier (j_err j) = Ended true) \/
  (w <> NoErr /\ result_of w = RunFailed) ->
  wait_ok (report (or_err (status_err (j_leader j)) w) j).
Proof.
  intros Hl Hw. destruct (j_leader j) as [st|] eqn:Hst; [|done]. unfold wait_ok.
  replace (j_phase (report _ j)) with (Reported (result_of (or_err (status_err (Some st)) w)))
    by (unfold report; by destruct (j_up j)).
  replace (j_leader (report _ j)) with (Some st) by (unfold report; by destruct (j_up j)).
  replace (j_watch (report _ j)) with (j_watch j) by (unfold report; by destruct (j_up j)).
  replace (j_out (report _ j)) with (j_out j) by (unfold report; by destruct (j_up j)).
  replace (j_err (report _ j)) with (j_err j) by (unfold report; by destruct (j_up j)).
  destruct Hw as [(-> & Hw & Ho & He)|[Hn Hf]].
  - replace (or_err (status_err (Some st)) NoErr) with (status_err (Some st)) by (by destruct (status_err (Some st))).
    rewrite result_status. split; [right; by exists st | done].
  - destruct (result_or st w Hn Hf) as [[-> ->]|[-> Hok]]; (split; [|done]); [left; auto | right; by exists st].
Qed.
Lemma wait_set_pipe k s j : s_copier (pipe_of j k) = Copying -> wait_ok j -> wait_ok (set_pipe k s j).
Proof.
  intros Hc. apply wait_same; [by destruct k.. | | by destruct k]. intros k' ok. rewrite pipe_of_set.
  destruct (Bool.eqb_spec k k') as [<-|]; [by rewrite Hc | done].
Qed.
Lemma or_err_assoc a b c : or_err (or_err a b) c = or_err a (or_err b c).
Proof. by destruct a. Qed.
Lemma copy_err_ends j w :
  copy_err j = Some w -> (w = NoErr /\ s_copier (j_out j) = Ended true /\ s_copier (j_err j) = Ended true) \/ w = OtherErr.
Proof.
  unfold copy_err. destruct (s_copier (j_out j)) as [|[]], (s_copier (j_err j)) as [|[]]; try done; intros [= <-]; [by left | by right..].
Qed.
Lemma wait_drains e w j :
  wait_ok j -> j_phase j = Draining e ->
  (w = NoErr /\ s_copier (j_out j) = Ended true /\ s_copier (j_err j) = Ended true) \/ w = OtherErr ->
  wait_ok (report (or_err e w) j).
Proof.
  unfold wait_ok at 1. intros Hok Hp Hw. rewrite Hp in Hok. destruct Hok as (Hl & Hx & ->).
  destruct (j_watch j) eqn:Hwatch; [| |done].
  - apply report_ok; [done|]. destruct Hw as [(-> & Ho & He)| ->]; [by left | by right].
  - rewrite or_err_assoc. apply report_ok; [done|]. by right.
Qed.
Lemma step_wait a j j' : job_step a j = Some j' -> procs_ok j -> wait_ok j -> wait_ok j'.
Proof.
  intros Hs Hp Hw. destruct a as [p k' data|p c|p|p k'|p st| | |k' n|k'| | | | | |]; step_cases Hs; try exact Hw.
  - by apply wait_set_pipe.
  - revert Hw. apply wait_same; [done..| | done |]; destruct Hp as (H1 & H2 & H3 & H4 & H5); destruct p; try done; cbn.
    + intros _ Hl. destruct H1 as [H1|H1]; [by rewrite H1 in E | done].
    + intros Hr. by rewrite H5 in E.
  - destruct (j_up j); [|by apply wait_set_pipe].
    change (wait_ok (set_pipe k' (Pipe (s_written (pipe_of j k')) (drop n (s_unread (pipe_of j k')))
      (s_copied (pipe_of j k') ++ take n (s_unread (pipe_of j k'))) Copying) j)). by apply wait_set_pipe.
  - by apply wait_set_pipe.
  - done.
  - unfold wait_ok in *. rewrite E0 in Hw. cbn [set_wait j_phase kill_group set_procs j_leader]. by destruct (j_procs j !! 0) as [[[]]|].
  - done.
  - unfold wait_ok in *. rewrite E0 in Hw. cbn [set_wait j_phase]. unfold kill_leader. by destruct (j_procs j !! 0).
  - unfold wait_ok. cbn. by rewrite E0.
  - unfold wait_ok in *. rewrite E in Hw. done.
  - unfold wait_ok in *. rewrite E in Hw. done.
  - apply report_ok; [unfold wait_ok in Hw; by rewrite E in Hw | by right].
  - apply (wait_drains _ _ _ Hw E). by apply copy_err_ends.
  - assert (Hc : wait_ok (close_pipes j)) by (unfold wait_ok in *; rewrite close_pipes_phase; by rewrite E in *).
    apply (wait_drains _ _ _ Hc E). by right.
Qed.

Lemma job_step_inv a j j' : job_step a j = Some j' -> inv j -> inv j'.
Proof.
  intros Hs (H1 & H2 & H3 & H4 & H5). split; [by eapply step_pipes|]. split; [by eapply job_step_closed|].
  split; [by eapply step_wire|]. split; [by eapply step_wait | by eapply step_procs].
Qed.
Lemma run_job_inv l j j' : run_job l j = Some j' -> inv j -> inv j'.
Proof.
  revert j; induction l as [|a l IH]; intros j; cbn [run_job]; [by intros [= <-]|].
  destruct (job_step a j) as [j1|] eqn:Hs; [|done]. intros Hr Hi. eapply IH; [exact Hr|]. by eapply job_step_inv.
Qed.
Lemma reachable_inv j : reachable j -> inv j.
Proof. intros (started & ctx & l & Hr). eapply run_job_inv; [exact Hr | apply start_inv]. Qed.

(** ** The end of a job *)
Definition pipe_work (s : pipe) : nat := length (s_unread s) + match s_copier s with Copying => 1 | Ended _ => 0 end.
(** What the daemon still has to do. *)
Definition job_work (j : job) : nat :=
  match j_phase j with Waiting => 3 | Reaped => 2 | Draining _ => 1 | Reported _ => 0 end
  + match j_watch j with Watching => 2 | Interrupted => 1 | Expired => 0 end
  + pipe_work (j_out j) + pipe_work (j_err j).
Lemma close_pipe_work s : pipe_work (close_pipe s) <= pipe_work s.
Proof. unfold close_pipe, pipe_work. destruct (s_copier s) eqn:Hc; [cbn; lia | by rewrite Hc]. Qed.
Lemma report_work e j : is_reported (j_phase j) = false -> job_work (report e j) < job_work j.
Proof. intros Hp. unfold report, job_work. destruct (j_up j); cbn; destruct (j_phase j); try done; cbn; lia. Qed.
Lemma close_work j : job_work (close_pipes j) <= job_work j.
Proof.
  unfold job_work. cbn. pose proof (close_pipe_work (j_out j)). pose proof (close_pipe_work (j_err j)). lia.
Qed.
Lemma kill_leader_work j : job_work (kill_leader j) = job_work j.
Proof. unfold kill_leader. by destruct (j_procs j !! 0). Qed.
Lemma set_pipe_work k s j : pipe_work s < pipe_work (pipe_of j k) -> job_work (set_pipe k s j) < job_work j.
Proof. destruct k; unfold job_work; cbn; lia. Qed.
Lemma expire_work ph j :
  j_watch j = Interrupted -> j_phase j = ph -> job_work (set_wait Expired ph (close_pipes (kill_leader j))) < job_work j.
Proof.
  intros Hw <-. pose proof (close_work (kill_leader j)) as Hc. rewrite kill_leader_work in Hc.
  assert (Hk : j_phase (kill_leader j) = j_phase j /\ j_watch (kill_leader j) = j_watch j) by (unfold kill_leader; by destruct (j_procs j !! 0)).
  destruct Hk as [Hk1 Hk2]. unfold job_work in *. cbn in *. rewrite Hk1, Hk2, Hw in Hc. rewrite Hw. lia.
Qed.
Lemma daemon_works a j j' : daemon_action a = true -> job_step a j = Some j' -> job_work j' < job_work j.
Proof.
  intros Ha Hs. destruct a as [p k' data|p c|p|p k'|p st| | |k' n|k'| | | | | |]; try discriminate Ha; step_cases Hs.
  - apply andb_true_iff in E0 as [[E0 E1]%andb_true_iff E2]. apply Nat.ltb_lt in E0. apply Nat.leb_le in E2.
    destruct (j_up j).
    + change (job_work (set_pipe k' (Pipe (s_written (pipe_of j k')) (drop n (s_unread (pipe_of j k')))
        (s_copied (pipe_of j k') ++ take n (s_unread (pipe_of j k'))) Copying) j) < job_work j).
      apply set_pipe_work. unfold pipe_work. cbn. rewrite E, length_drop. lia.
    + apply set_pipe_work. unfold pipe_work, close_pipe. rewrite E. cbn. lia.
  - apply set_pipe_work. unfold pipe_work. rewrite E. cbn. lia.
  - unfold job_work. cbn. rewrite E, E0. lia.
  - unfold job_work. cbn. rewrite E, E0. lia.
  - by apply expire_work.
  - by apply expire_work.
  - unfold job_work. cbn. rewrite E. lia.
  - unfold job_work. cbn. rewrite E, E0. lia.
  - unfold job_work. cbn. rewrite E, E0. lia.
  - apply report_work. by rewrite E.
  - apply report_work. by rewrite E.
  - eapply Nat.lt_le_trans; [apply report_work; by rewrite close_pipes_phase, E | apply close_work].
Qed.
(** The leader has ended or the context is cancelled. *)
Definition must_end (j : job) : Prop := j_leader j <> None \/ j_ctx j = true.
Lemma daemon_keeps_end a j j' : daemon_action a = true -> job_step a j = Some j' -> must_end j -> must_end j'.
Proof.
  intros Ha Hs Hm. destruct a as [p k' data|p c|p|p k'|p st| | |k' n|k'| | | | | |]; try discriminate Ha; step_cases Hs; try exact Hm.
  - by destruct (j_up j), k'.
  - by destruct k'.
  - by right.
  - by right.
  - unfold kill_leader. destruct (j_procs j !! 0); [by left | exact Hm].
  - unfold kill_leader. destruct (j_procs j !! 0); [by left | exact Hm].
  - unfold report. by destruct (j_up j).
  - unfold report. by destruct (j_up j).
  - unfold report. by destruct (j_up (close_pipes j)).
Qed.
Lemma daemon_can_step j : inv j -> must_end j -> is_reported (j_phase j) = false ->
  exists a j', daemon_action a = true /\ job_step a j = Some j'.
Proof.
  intros (_ & _ & _ & Hw & (H1 & H2 & H3 & H4 & H5)) Hm Hp. destruct (j_phase j) as [| |e|r] eqn:Hph; [| | |done].
  - destruct (j_leader j) as [st|] eqn:Hl.
    { exists Reaps. eexists. split; [done|]. unfold job_step. by rewrite Hph, Hl. }
    destruct Hm as [Hm|Hctx]; [done|]. destruct (j_watch j) eqn:Hwatch.
    + exists Interrupts. eexists. split; [done|]. unfold job_step. by rewrite Hwatch, Hph, Hctx.
    + exists WatchExpires. eexists. split; [done|]. unfold job_step. by rewrite Hwatch, Hph.
    + by rewrite H4 in Hp by auto.
  - exists Collects. unfold job_step. rewrite Hph. destruct (j_watch j); eexists; done.
  - exists DrainExpires. eexists. split; [done|]. unfold job_step. by rewrite Hph.
Qed.
(** What the daemon does on its own brings the job to its end. *)
Lemma daemon_finishes j : inv j -> must_end j ->
  exists l j', run_job l j = Some j' /\ Forall (fun a => daemon_action a = true) l /\
    is_reported (j_phase j') = true /\ length l <= job_work j.
Proof.
  remember (job_work j) as n eqn:Hn. revert j Hn. induction n as [n IH] using lt_wf_ind. intros j -> Hi Hm.
  destruct (is_reported (j_phase j)) eqn:Hp; [exists [], j; cbn; split_and!; [done..|lia]|].
  destruct (daemon_can_step j Hi Hm Hp) as (a & j1 & Ha & Hs). pose proof (daemon_works _ _ _ Ha Hs) as Hlt.
  destruct (IH _ Hlt j1 eq_refl) as (l & j' & Hr & Hl & Hrep & Hlen); [by eapply job_step_inv | by eapply daemon_keeps_end|].
  exists (a :: l), j'. cbn [run_job length]. rewrite Hs. split_and!; [done | by constructor | done | lia].
Qed.

(** ** The report *)
(** A process that has been started has an end once it is gone. *)
Definition leader_known (j : job) : Prop := j_leader j = None -> is_Some (j_procs j !! 0).
Lemma leader_known_same j j' : j_procs j' = j_procs j -> j_leader j' = j_leader j -> leader_known j -> leader_known j'.
Proof. unfold leader_known. by intros -> ->. Qed.
Lemma leader_known_put p x j : leader_known j -> leader_known (set_procs (<[p := x]> (j_procs j)) (j_leader j) j).
Proof. intros Hi Hl. cbn. apply lookup_insert_is_Some'. right. by apply Hi. Qed.
Lemma leader_known_kill_group ph j : leader_known j -> leader_known (set_wait Interrupted ph (kill_group j)).
Proof.
  unfold leader_known. cbn. intros Hi. destruct (j_procs j !! 0) as [x|] eqn:Hx; [|by intros [? ?]%Hi].
  destruct (p_group x) eqn:Hg; [done|]. intros _. exists x. by apply map_lookup_filter_Some.
Qed.
Lemma leader_known_kill_leader ph j : leader_known j -> leader_known (set_wait Expired ph (close_pipes (kill_leader j))).
Proof.
  intros Hi. apply leader_known_same with (kill_leader j); [done..|]. unfold kill_leader.
  by destruct (j_procs j !! 0) eqn:Hx.
Qed.
Lemma leader_known_step a j j' : job_step a j = Some j' -> leader_known j -> leader_known j'.
Proof.
  intros Hs Hi. destruct a as [p k' data|p c|p|p k'|p st| | |k' n|k'| | | | | |]; step_cases Hs; try exact Hi;
    try (by apply leader_known_put); try (by apply leader_known_kill_group); try (by apply leader_known_kill_leader);
    try (revert Hi; apply leader_known_same; unfold report; first [by destruct (j_up j), k' | by destruct k' | by destruct (j_up j) | by destruct (j_up (close_pipes j))]).
  intros Hl. destruct p; [done|]. cbn. rewrite lookup_delete_ne by done. by apply Hi.
Qed.
Lemma leader_known_run l j : run_job l (start_job true false) = Some j -> leader_known j.
Proof.
  assert (Hs : leader_known (start_job true false)) by (intros _; by eexists). revert Hs. generalize (start_job true false).
  induction l as [|a l IH]; intros j0 H0; cbn [run_job]; [by intros [= <-]|].
  destruct (job_step a j0) as [j1|] eqn:Ha; [|done]. apply IH. by eapply leader_known_step.
Qed.
(** The step that reports the job tells the guest, if it is still there, how it
    ended: that the sandbox went away if the context is cancelled then. *)
Lemma report_wire e j r : j_phase (report e j) = Reported r -> j_up (report e j) = true ->
  exists w, j_wire (report e j) = w ++ [run_job_event (j_ctx (report e j)) r].
Proof.
  unfold report. intros [= <-] Hu. destruct (j_up j) eqn:Hj; [by exists (j_wire j)|]. cbn in Hu. congruence.
Qed.
(** The steps of [Cmd.Wait] that report. *)
Definition may_report (a : action) : bool := match a with Collects | Drains | DrainExpires => true | _ => false end.
Lemma others_keep_phase a j j' : job_step a j = Some j' -> may_report a = false -> is_reported (j_phase j') = is_reported (j_phase j).
Proof.
  intros Hs Ha. destruct a as [p k' data|p c|p|p k'|p st| | |k' n|k'| | | | | |]; try discriminate Ha; step_cases Hs; try done;
    first [by destruct (j_up j), k' | by destruct k' | by cbn; rewrite E0 | by cbn; rewrite E].
Qed.
Lemma step_reports a j j' r : job_step a j = Some j' -> is_reported (j_phase j) = false -> j_phase j' = Reported r ->
  j_up j' = true -> exists w, j_wire j' = w ++ [run_job_event (j_ctx j') r].
Proof.
  intros Hs Hn Hp Hu.
  destruct (may_report a) eqn:Ha; [|by rewrite <- (others_keep_phase _ _ _ Hs Ha), Hp in Hn].
  destruct a; try discriminate Ha; step_cases Hs; try discriminate Hp; by apply report_wire.
Qed.
Lemma start_reports started ctx r : j_phase (start_job started ctx) = Reported r ->
  exists w, j_wire (start_job started ctx) = w ++ [run_job_event (j_ctx (start_job started ctx)) r].
Proof. destruct started, ctx; try done; intros Hp; by apply report_wire. Qed.
(** After the report nothing is said, copied or decided any more. *)
Lemma reported_step a j j' r : job_step a j = Some j' -> inv j -> j_phase j = Reported r ->
  j_wire j' = j_wire j /\ j_phase j' = Reported r.
Proof.
  intros Hs (_ & Hc & _) Hp. assert (Hn : forall k, s_copier (pipe_of j k) <> Copying) by (by apply Hc; rewrite Hp; left).
  destruct a as [p k' data|p c|p|p k'|p st| | |k' n|k'| | | | | |]; step_cases Hs; try done; by destruct (Hn k').
Qed.
Lemma reported_run l j j' r : run_job l j = Some j' -> inv j -> j_phase j = Reported r ->
  j_wire j' = j_wire j /\ j_phase j' = Reported r.
Proof.
  revert j. induction l as [|a l IH]; intros j; cbn [run_job]; [by intros [= <-]|].
  destruct (job_step a j) as [j1|] eqn:Ha; [|done]. intros Hr Hi Hp. destruct (reported_step _ _ _ _ Ha Hi Hp) as [<- Hp1].
  apply IH; [done | by eapply job_step_inv | done].
Qed.
Lemma run_job_snoc l a j : run_job (l ++ [a]) j = match run_job l j with Some j1 => job_step a j1 | None => None end.
Proof. revert j. induction l as [|b l IH]; intros j; cbn; [by destruct (job_step a j)|]. by destruct (job_step b j). Qed.
(** The run up to the report. *)
Definition unreported (l : list action) (j : job) : Prop :=
  forall l0 l1 j0, l = l0 ++ l1 -> l1 <> [] -> run_job l0 j = Some j0 -> is_reported (j_phase j0) = false.
Lemma run_reports l started ctx j r :
  run_job l (start_job started ctx) = Some j -> unreported l (start_job started ctx) -> j_phase j = Reported r -> j_up j = true ->
  exists w, j_wire j = w ++ [run_job_event (j_ctx j) r].
Proof.
  intros Hr Hn Hp Hu. destruct l as [|a l _] using rev_ind; [injection Hr as <-; by apply start_reports|].
  rewrite run_job_snoc in Hr. destruct (run_job l _) as [j0|] eqn:H0; [|done].
  eapply step_reports; [exact Hr | by apply (Hn l [a]) | done | done].
Qed.
(** What makes [Cmd.Run] fail although the leader exited with 0. *)
Definition failure (l : list action) (j : job) : Prop :=
  j_watch j <> Watching \/ last l = Some DrainExpires \/ exists k, s_copier (pipe_of j k) = Ended false.
Lemma report_same e j : j_leader (report e j) = j_leader j /\ j_watch (report e j) = j_watch j /\ j_phase (report e j) = Reported (result_of e).
Proof. unfold report. by destruct (j_up j). Qed.
Lemma copy_failed j w : copy_err j = Some w -> result_of w = RunFailed -> exists k, s_copier (pipe_of j k) = Ended false.
Proof.
  unfold copy_err. destruct (s_copier (j_out j)) as [|[]] eqn:Ho, (s_copier (j_err j)) as [|[]] eqn:He; try done; intros [= <-]; try done;
    first [by exists true | by exists false].
Qed.
Lemma step_fails l a j j' : job_step a j = Some j' -> wait_ok j -> is_reported (j_phase j) = false ->
  j_phase j' = Reported RunFailed -> j_leader j' = Some (Code 0) -> failure (l ++ [a]) j'.
Proof.
  intros Hs Hw Hn Hp Hl. unfold failure. rewrite last_snoc.
  destruct (may_report a) eqn:Ha; [|by rewrite <- (others_keep_phase _ _ _ Hs Ha), Hp in Hn].
  destruct a; try discriminate Ha; step_cases Hs; try discriminate Hp; [left | | by right; left].
  - destruct (report_same (or_err (status_err (j_leader j)) CtxErr) j) as (_ & -> & _). by rewrite E0.
  - destruct (report_same (or_err e w) j) as (Hl1 & Hw1 & Hp1). rewrite Hl1 in Hl. rewrite Hp1 in Hp. rewrite Hw1.
    unfold wait_ok in Hw. rewrite E, Hl in Hw. destruct Hw as (_ & _ & ->). destruct (j_watch j) eqn:Hwatch; [|by left..].
    right; right. injection Hp as Hp. destruct (copy_failed _ _ E0 Hp) as [k Hk]. exists k. by rewrite pipe_of_report.
Qed.
Lemma run_fails l started ctx j :
  run_job l (start_job started ctx) = Some j -> unreported l (start_job started ctx) -> j_phase j = Reported RunFailed ->
  j_leader j = Some (Code 0) -> failure l j.
Proof.
  intros Hr Hn Hp Hl. destruct l as [|a l _] using rev_ind; [injection Hr as <-; by destruct started, ctx|].
  rewrite run_job_snoc in Hr. destruct (run_job l _) as [j0|] eqn:H0; [|done].
  assert (Hi : inv j0) by (apply reachable_inv; by exists started, ctx, l). destruct Hi as (_ & _ & _ & Hw & _).
  eapply step_fails; [exact Hr | done | by apply (Hn l [a]) | done | done].
Qed.
Lemma wire_of_report j r : wire_ok j -> j_phase j = Reported r -> (exists w, j_wire j = w ++ [run_job_event (j_ctx j) r]) ->
  exists cs, j_wire j = map chunk_of cs ++ [run_job_event (j_ctx j) r] /\
    chunks_to true cs = s_copied (j_out j) /\ chunks_to false cs = s_copied (j_err j).
Proof.
  intros (cs & final & Hw & Ho & He & Hf) Hp (w & Hw'). rewrite Hp in Hf. exists cs. rewrite Hw in Hw' |- *.
  destruct Hf as [[c ->]|[-> _]].
  - apply app_inj_tail in Hw' as [_ ->]. by split_and!.
  - exfalso. rewrite app_nil_r in Hw'. assert (Hin : run_job_event (j_ctx j) r ∈ map chunk_of cs) by (rewrite Hw'; set_solver).
    apply list_elem_of_fmap in Hin as ([[] data] & Hd & _); destruct r, (j_ctx j); discriminate Hd.
Qed.
Lemma pipe_prefix j k : pipes_ok j -> exists lost, s_written (pipe_of j k) = s_copied (pipe_of j k) ++ lost.
Proof.
  intros Hp. specialize (Hp k). unfold pipe_ok in Hp. destruct (s_copier (pipe_of j k)) as [|[]]; [by eexists | | done].
  exists []. by rewrite app_nil_r.
Qed.
Lemma pipe_whole j k : pipes_ok j -> s_copier (pipe_of j k) = Ended true -> s_written (pipe_of j k) = s_copied (pipe_of j k).
Proof. intros Hp Hc. specialize (Hp k). unfold pipe_ok in Hp. by rewrite Hc in Hp. Qed.

(** ** Without a cancelled context *)
(** [StartRunner] serves the session with [ServeSession], whose context is the
    background context and is never cancelled: there is no [Cancelled] in the
    runs of a sandbox's daemon, whatever becomes of the sandbox. *)
Definition background (l : list action) : Prop := Cancelled ∉ l.
Definition leader_runs (j : job) : Prop :=
  is_Some (j_procs j !! 0) /\ j_leader j = None /\ j_watch j = Watching /\ j_phase j = Waiting /\ j_ctx j = false.
Lemma leader_runs_step a j j' :
  job_step a j = Some j' -> a <> Cancelled -> (forall st, a <> Exits 0 st) -> leader_runs j -> leader_runs j'.
Proof.
  intros Hs Hc He (H1 & H2 & H3 & H4 & H5). unfold leader_runs.
  destruct a as [p k' data|p c|p|p k'|p st| | |k' n|k'| | | | | |]; step_cases Hs; try done; try congruence.
  - by destruct k'.
  - split_and!; try done. cbn. by rewrite lookup_insert_ne.
  - split_and!; try done. cbn. destruct p; [by rewrite lookup_insert_eq | by rewrite lookup_insert_ne].
  - split_and!; try done. cbn. destruct p; [by rewrite lookup_insert_eq | by rewrite lookup_insert_ne].
  - destruct p; [by destruct (He st)|]. split_and!; try done. cbn. by rewrite lookup_delete_ne.
  - by destruct (j_up j), k'.
  - by destruct k'.
Qed.
(** Nothing but its own end stops a job then: its leader runs on until it
    exits, and the daemon waits for it. *)
Lemma background_job_runs_on l j :
  run_job l (start_job true false) = Some j -> background l -> (forall st, Exits 0 st ∉ l) -> leader_runs j.
Proof.
  intros Hr Hb He. assert (Hs : leader_runs (start_job true false)) by (split_and!; [by eexists | done..]).
  revert Hr Hb He Hs. generalize (start_job true false). unfold background.
  induction l as [|a l IH]; intros j0; cbn [run_job]; [by intros [= <-]|].
  destruct (job_step a j0) as [j1|] eqn:Ha; [|done]. intros Hr Hb He Hs. apply not_elem_of_cons in Hb as [Hb Hb'].
  apply (IH j1 Hr Hb'); [intros st Hin; apply (He st); by right|].
  eapply leader_runs_step; [exact Ha | congruence | | exact Hs]. intros st ->. apply (He st). left.
Qed.

(** * Properties *)
(** The bytes of the job among what the client wrote to its standard error. *)
Definition job_bytes (items : list err_item) : gostring :=
  concat (map (fun x => match x with JobOutput data => data | Diagnostic _ => [] end) items).
Definition exit_code (cancelled : bool) (r : run_result) : Z :=
  match r with
  | RunOk => 0
  | _ => if cancelled then CodeProtocolError
         else match r with RunExit c => c | RunSignaled n => 128 + n | RunUnknown => 128 | _ => CodeProtocolError end
  end.
Lemma job_bytes_chunks cs diags : job_bytes (errors_of cs ++ map Diagnostic diags) = chunks_to false cs.
Proof.
  unfold job_bytes, errors_of, chunks_to. rewrite map_app, concat_app, !map_map. cbn.
  replace (concat (map (fun _ : diagnostic => []) diags)) with (@nil ascii); [by rewrite app_nil_r|].
  induction diags as [|d diags IH]; [done|]. cbn. exact IH.
Qed.
(** The client on what the daemon sends: the chunks and the final event. *)
Lemma exec_of_wire cs c r :
  exists diags, exec write_all true (map Some (map chunk_of cs ++ [run_job_event c r])) =
    ExecResult (exit_code c r) (chunks_to true cs) (errors_of cs ++ map Diagnostic diags).
Proof.
  rewrite map_app, map_map. change (map (fun x => Some (chunk_of x)) cs) with (map chunk_frame cs).
  unfold exec. cbn [map]. rewrite exec_loop_chunks. change (output_of cs) with (chunks_to true cs).
  destruct r, c; cbn; by (exists [] + exists [JobError SandboxShutDown] + exists [JobError RunError]); rewrite ?app_nil_r.
Qed.

(** C39: what the guest sees of a job is what the job did.  Take any
    interleaving of the job's processes, the copying goroutines, the timers,
    the end of the context and the waiting [Cmd.Wait] up to the step that
    reports the job, to a guest that is still there, and any steps after it.
    The guest's client exits with 125 if the job was never started; with the
    code the leader exited with, if that is not 0, or 128 plus the signal that
    killed it, but with 125 for both when the context was cancelled at the
    report; and for a leader that exited with 0 with 0, and then not a byte of
    either stream is missing, or with 125, and then the context had been
    cancelled during the job, a stream was cut off or the pipes were not
    closed in time.  The client has written to its standard output and error
    what the copying goroutines read, in order, which is always a beginning of
    what the processes wrote. *)
Theorem job_reported started ctx l l' j j' r
    (Hrun : run_job l (start_job started ctx) = Some j) (Hfirst : unreported l (start_job started ctx))
    (Hphase : j_phase j = Reported r) (Hup : j_up j = true) (Hlater : run_job l' j = Some j') :
  exists code errs,
    exec write_all true (map Some (j_wire j')) = ExecResult code (s_copied (j_out j)) errs /\
    job_bytes errs = s_copied (j_err j) /\
    (forall k, exists lost, s_written (pipe_of j k) = s_copied (pipe_of j k) ++ lost) /\
    match j_leader j with
    | None => code = 125%Z /\ (started = false \/ ctx = true)
    | Some (Code 0) =>
        code = 0%Z /\ (forall k, s_written (pipe_of j k) = s_copied (pipe_of j k)) \/
        code = 125%Z /\ (j_watch j <> Watching \/ last l = Some DrainExpires \/ exists k, s_copier (pipe_of j k) = Ended false)
    | Some (Code c) => code = (if j_ctx j then 125 else c)%Z
    | Some (Signal n) => code = (if j_ctx j then 125 else 128 + n)%Z
    end.
Proof.
  assert (Hreach : reachable j) by (by exists started, ctx, l). pose proof (reachable_inv j Hreach) as Hinv.
  destruct (reported_run _ _ _ _ Hlater Hinv Hphase) as [-> _]. destruct Hinv as (Hpipes & _ & Hwire & Hwait & _ & _ & _ & _ & Hgone).
  destruct (wire_of_report _ _ Hwire Hphase (run_reports _ _ _ _ _ Hrun Hfirst Hphase Hup)) as (cs & Hw & Ho & He).
  unfold wait_ok in Hwait. rewrite Hphase in Hwait. destruct Hwait as [Hr Hok].
  destruct (exec_of_wire cs (j_ctx j) r) as [diags Hexec]. rewrite Hw, Hexec, Ho. do 2 eexists.
  split; [reflexivity|]. split; [by rewrite job_bytes_chunks, He|]. split; [intros k; by apply pipe_prefix|].
  destruct Hr as [[-> [Hl|Hl]]|(st & Hl & ->)]; rewrite Hl.
  - split; [by cbn; destruct (j_ctx j)|]. destruct started, ctx; auto. exfalso.
    destruct (leader_known_run _ _ Hrun Hl) as [x Hx]. rewrite Hgone in Hx by (by rewrite Hphase). discriminate Hx.
  - right. split; [by cbn; destruct (j_ctx j) | by apply (run_fails _ _ _ _ Hrun Hfirst)].
  - destruct st as [[|c|c]|n]; [left | cbn; by destruct (j_ctx j)..]. split; [done|].
    destruct (Hok eq_refl) as (_ & H1 & H2). intros k. apply pipe_whole; [done | by destruct k].
Qed.


(** * Concrete jobs *)
Definition started : job := start_job true false.
Definition shown (l : list action) : option (list event * list nat * phase) :=
  j ← run_job l started; Some (j_wire j, map fst (map_to_list (j_procs j)), j_phase j).
Definition plain_run : list action :=
  [Writes 0 true $"hello"; Copies true 3; Writes 0 false $"oops"; Exits 0 (Code 3); Copies false 4; Copies true 2; Reaps; Collects;
   CopyEnds true; CopyEnds false; Drains].
Example plain_job :
  shown plain_run =
  Some ([chunk_event EventStdout $"hel"; chunk_event EventStderr $"oops"; chunk_event EventStdout $"lo"; exit_event 3], [],
        Reported (RunExit 3)).
Proof. vm_compute. reflexivity. Qed.
(** The run up to the report, decided. *)
Fixpoint unreportedb (l : list action) (j : job) : bool :=
  match l with
  | [] => true
  | a :: l => negb (is_reported (j_phase j)) && match job_step a j with Some j1 => unreportedb l j1 | None => true end
  end.
Lemma unreported_spec l j : unreportedb l j = true -> unreported l j.
Proof.
  revert j. induction l as [|a l IH]; intros j; cbn; intros Hl l0 l1 j0 Heq Hne Hr; [by destruct l0, l1|].
  apply andb_true_iff in Hl as [Hp%negb_true_iff Hl]. destruct l0 as [|b l0]; [by injection Hr as <-|].
  injection Heq as <- ->. cbn in Hr. destruct (job_step a j) as [j1|]; [|done]. by apply (IH j1 Hl l0 l1 j0).
Qed.
(** A process that stays in the background with the pipes: the job, which
    exited with 0, is reported as failed, and the process lives on. *)
Example background_process :
  shown [Forks 0 1; Exits 0 (Code 0); Reaps; Collects; DrainExpires] =
  Some ([error_event RunError], [1], Reported RunFailed).
Proof. vm_compute. reflexivity. Qed.
(** The exit of the sandbox kills it only as long as [Cmd.Wait] has not
    collected the watching goroutine; and never one that left the group. *)
Example cancelled_jobs :
  map shown [[Forks 0 1; Cancelled; Interrupts; Reaps; Collects; CopyEnds true; CopyEnds false; Drains];
             [Forks 0 1; Exits 0 (Code 0); Reaps; Collects; Cancelled; DrainExpires];
             [Forks 0 1; Leaves 1; Cancelled; Interrupts; Reaps; Collects; DrainExpires]] =
  [Some ([error_event SandboxShutDown], [], Reported (RunSignaled 9));
   Some ([error_event SandboxShutDown], [1], Reported RunFailed);
   Some ([error_event SandboxShutDown], [1], Reported (RunSignaled 9))].
Proof. vm_compute. reflexivity. Qed.
(** A guest that hangs up, and a sandbox that exits, do not end the job. *)
Example hang_up : shown [Forks 0 1; HangsUp] = Some ([], [1; 0], Waiting).
Proof. vm_compute. reflexivity. Qed.
Lemma job_reported_witness :
  exists j, run_job plain_run started = Some j /\ exists errs,
    exec write_all true (map Some (j_wire j)) = ExecResult 3 $"hello" errs /\ job_bytes errs = $"oops".
Proof.
  destruct (run_job plain_run started) as [j|] eqn:Hr; [|vm_compute in Hr; discriminate Hr]. exists j. split; [reflexivity|].
  assert (Hfirst : unreported plain_run started) by (apply unreported_spec; vm_compute; reflexivity).
  assert (Hs : option_map (fun j => (j_phase j, j_up j, j_leader j, j_ctx j, s_copied (j_out j), s_copied (j_err j))) (Some j) =
               Some (Reported (RunExit 3), true, Some (Code 3), false, $"hello", $"oops")) by (rewrite <- Hr; vm_compute; reflexivity).
  cbn in Hs. apply (inj Some) in Hs. injection Hs as Hp Hu Hl Hc Ho He.
  pose proof (job_reported true false plain_run [] j j (RunExit 3)) as H.
  specialize (H Hr Hfirst Hp Hu eq_refl). rewrite Hl, Hc, Ho, He in H. destruct H as (code & errs & Hx & Hb & _ & ->).
  exists errs. split; [exact Hx | exact Hb].
Defined.
