(* ===== verification/TrustDiff.v ===== *)
(** The line diffs shown before approval, [internal/trust/diff.go]: the
    longest-common-subsequence table, the backward walk and the rendering. *)
From S2P Require Import GoStrings.
Local Open Scope go_scope.

(** * The table *)
Abbreviation table := (list (list nat)).
Definition cell (dp : table) (i j : nat) : nat := default 0 (row ← dp !! i; row !! j).
Definition set_cell (dp : table) (i j v : nat) : table :=
  match dp !! i with Some row => <[i := <[j := v]> row]> dp | None => dp end.
Definition line_eqb (a b : list gostring) (i j : nat) : bool :=
  match a !! i, b !! j with Some x, Some y => seqb x y | _, _ => false end.
(** The body of the double loop. *)
Definition dp_step (a b : list gostring) (dp : table) (i j : nat) : table :=
  set_cell dp (i + 1) (j + 1)
    (if line_eqb a b i j then cell dp i j + 1
     else if cell dp i (j + 1) <=? cell dp (i + 1) j then cell dp (i + 1) j
     else cell dp i (j + 1)).
Definition dp_row (a b : list gostring) (dp : table) (i : nat) : table :=
  fold_left (fun dp j => dp_step a b dp i j) (seq 0 (length b)) dp.
Definition dp_table (a b : list gostring) : table :=
  fold_left (dp_row a b) (seq 0 (length a)) (replicate (length a + 1) (replicate (length b + 1) 0)).

(** * The walk *)
Inductive op := Keep (line : gostring) | Add (line : gostring) | Remove (line : gostring).
(** The loop of [computeLCSDiff]; [None] when it does not end within the
    fuel or indexes out of range.  The result is in the order of appending. *)
Fixpoint walk (fuel : nat) (a b : list gostring) (dp : table) (i j : nat) : option (list op) :=
  if (i =? 0) && (j =? 0) then Some []
  else match fuel with
  | O => None
  | S f =>
      if (0 <? i) && (0 <? j) && line_eqb a b (i - 1) (j - 1) then
        x ← a !! (i - 1); rest ← walk f a b dp (i - 1) (j - 1); Some (Keep x :: rest)
      else if (0 <? j) && ((i =? 0) || (cell dp (i - 1) j <=? cell dp i (j - 1))) then
        y ← b !! (j - 1); rest ← walk f a b dp i (j - 1); Some (Add y :: rest)
      else if (0 <? i) && ((j =? 0) || (cell dp i (j - 1) <? cell dp (i - 1) j)) then
        x ← a !! (i - 1); rest ← walk f a b dp (i - 1) j; Some (Remove x :: rest)
      else walk f a b dp i j
  end.
Definition render_op (o : op) : gostring :=
  match o with Keep l => $"  " ++ l | Add l => $"+ " ++ l | Remove l => $"- " ++ l end.
Definition lcs_ops (a b : list gostring) : option (list op) :=
  ops ← walk (length a + length b) a b (dp_table a b) (length a) (length b);
  Some (reverse ops).
Definition compute_lcs_diff (a b : list gostring) : list gostring :=
  map render_op (default [] (lcs_ops a b)).

(** * Rendering *)
Definition newline : gostring := ["010"%char].
Definition diff_lines (content : gostring) : list gostring :=
  if is_empty (trim_space content) then [] else split "010" (trim_right_bytes newline content).
Definition added_lines (content : gostring) : gostring :=
  concat (map (fun l => $"+ " ++ l ++ newline) (diff_lines content)).
Definition changed_lines (old new : gostring) : gostring :=
  $"--- approved" ++ newline ++ $"+++ current" ++ newline
  ++ concat (map (fun l => l ++ newline) (compute_lcs_diff (diff_lines old) (diff_lines new))).
Definition format_diff (old new : gostring) (is_new : bool) : gostring :=
  if is_new then $"=== New repository configuration ===" ++ newline ++ added_lines new
  else changed_lines old new.
Definition format_anchor_diff (rel_path old new : gostring) (is_new : bool) : gostring :=
  if is_new then $"=== New trust anchor: " ++ rel_path ++ $" ===" ++ newline ++ added_lines new
  else $"=== Trust anchor: " ++ rel_path ++ $" ===" ++ newline ++ changed_lines old new.

(** * Specification *)
(** The old and the new text a diff stands for. *)
Definition old_of (ops : list op) : list gostring :=
  omap (fun o => match o with Keep l | Remove l => Some l | Add _ => None end) ops.
Definition new_of (ops : list op) : list gostring :=
  omap (fun o => match o with Keep l | Add l => Some l | Remove _ => None end) ops.
Definition kept (ops : list op) : nat :=
  length (omap (fun o => match o with Keep l => Some l | _ => None end) ops).
(** The reference: the length of a longest common subsequence of the first
    [i] and the first [j] lines, by the textbook recursion. *)
Fixpoint lcs_rev (a b : list gostring) : nat :=
  match a with
  | [] => 0
  | x :: a' =>
      (fix inner (b : list gostring) : nat :=
         match b with
         | [] => 0
         | y :: b' => if seqb x y then S (lcs_rev a' b') else Nat.max (inner b') (lcs_rev a' b)
         end) b
  end.
Definition lcs (a b : list gostring) (i j : nat) : nat := lcs_rev (reverse (take i a)) (reverse (take j b)).

(** * Lemmas: the reference *)
Lemma lcs_rev_nil_r a : lcs_rev a [] = 0.
Proof. by destruct a. Qed.
Lemma lcs_rev_cons x a y b :
  lcs_rev (x :: a) (y :: b)
  = if seqb x y then S (lcs_rev a b) else Nat.max (lcs_rev (x :: a) b) (lcs_rev a (y :: b)).
Proof. reflexivity. Qed.
Lemma sublist_tail (z x : gostring) c l : z :: c `sublist_of` x :: l -> c `sublist_of` l.
Proof.
  intros H. apply sublist_cons_r in H as [H|(c' & [= -> <-] & H)]; [|done].
  by apply sublist_cons_l in H as (k1 & k2 & -> & H); apply sublist_inserts_l, sublist_skip || (etrans; [exact H|]; apply sublist_inserts_l, sublist_cons).
Qed.
(** No common subsequence is longer. *)
Lemma lcs_rev_bound a b c :
  c `sublist_of` a -> c `sublist_of` b -> length c <= lcs_rev a b.
Proof.
  revert b c; induction a as [|x a IHa]; intros b c Ha Hb.
  { apply sublist_nil_r in Ha as ->. cbn. lia. }
  revert c Ha Hb; induction b as [|y b IHb]; intros c Ha Hb.
  { apply sublist_nil_r in Hb as ->. cbn. lia. }
  rewrite lcs_rev_cons. destruct c as [|z c]; [cbn; lia|].
  destruct (seqb_spec x y) as [->|Hxy].
  - cbn [length]. apply le_n_S, IHa; by eapply sublist_tail.
  - apply sublist_cons_r in Ha as [Ha|(c' & [= -> ->] & Ha)].
    + specialize (IHa (y :: b) (z :: c) Ha Hb). lia.
    + apply sublist_cons_r in Hb as [Hb|(c'' & [= <- _] & _)]; [|done].
      assert (Hxc : x :: c' `sublist_of` x :: a) by by apply sublist_skip.
      specialize (IHb (x :: c') Hxc Hb). lia.
Qed.
Lemma take_S_reverse (l : list gostring) i x :
  l !! i = Some x -> reverse (take (i + 1) l) = x :: reverse (take i l).
Proof. intros H. rewrite Nat.add_1_r, (take_S_r _ _ x) by done. by rewrite reverse_app. Qed.
Lemma lcs_step a b i j x y : a !! i = Some x -> b !! j = Some y ->
  lcs a b (i + 1) (j + 1)
  = if seqb x y then lcs a b i j + 1 else Nat.max (lcs a b (i + 1) j) (lcs a b i (j + 1)).
Proof.
  intros Hx Hy. unfold lcs. rewrite (take_S_reverse a i x), (take_S_reverse b j y) by done.
  rewrite lcs_rev_cons. by rewrite Nat.add_1_r.
Qed.
Lemma lcs_0_l a b j : lcs a b 0 j = 0.
Proof. unfold lcs. by rewrite take_0. Qed.
Lemma lcs_0_r a b i : lcs a b i 0 = 0.
Proof. unfold lcs. rewrite take_0. apply lcs_rev_nil_r. Qed.

(** * Lemmas: the table *)
Definition shaped (m n : nat) (dp : table) : Prop :=
  length dp = m + 1 /\ Forall (fun row => length row = n + 1) dp.
Lemma cell_set m n dp i j v i' j' :
  shaped m n dp -> i <= m -> j <= n ->
  shaped m n (set_cell dp i j v) /\
  cell (set_cell dp i j v) i' j' = if (i =? i') && (j =? j') then v else cell dp i' j'.
Proof.
  intros [Hl Hr] Hi Hj. unfold set_cell.
  destruct (lookup_lt_is_Some_2 dp i) as [row Hrow]; [lia|]. rewrite Hrow.
  assert (Hlen : length row = n + 1) by (rewrite Forall_forall in Hr; apply Hr; by eapply list_elem_of_lookup_2).
  split.
  - split; [by rewrite length_insert|]. apply Forall_insert; [done|]. by rewrite length_insert.
  - unfold cell. destruct (Nat.eqb_spec i i') as [<-|Hne]; cbn [andb].
    + rewrite list_lookup_insert_eq by (apply lookup_lt_Some in Hrow; lia). rewrite Hrow. cbn [mbind option_bind].
      destruct (Nat.eqb_spec j j') as [<-|Hne]; [by rewrite list_lookup_insert_eq by lia | by rewrite list_lookup_insert_ne].
    + by rewrite list_lookup_insert_ne.
Qed.
Section table.
Context (a b : list gostring).
Let m := length a.
Let n := length b.
(** The rows up to [i], and row [i + 1] up to column [j], are right. *)
Definition table_inv (i j : nat) (dp : table) : Prop :=
  shaped m n dp /\ (forall i', cell dp i' 0 = 0) /\
  forall i' j', i' <= i \/ (i' = i + 1 /\ j' <= j) -> i' <= m -> j' <= n -> cell dp i' j' = lcs a b i' j'.
Lemma dp_step_inv i j dp :
  i < m -> j < n -> table_inv i j dp -> table_inv i (j + 1) (dp_step a b dp i j).
Proof.
  intros Hi Hj (Hs & H0 & Hc). unfold dp_step.
  destruct (lookup_lt_is_Some_2 a i Hi) as [x Hx], (lookup_lt_is_Some_2 b j Hj) as [y Hy].
  set (v := if line_eqb a b i j then _ else _).
  assert (Hv : v = lcs a b (i + 1) (j + 1)).
  { unfold v, line_eqb. rewrite Hx, Hy, (lcs_step a b i j x y) by done.
    rewrite (Hc i j), (Hc i (j + 1)), (Hc (i + 1) j) by lia.
    destruct (seqb x y); [done|]. destruct (Nat.leb_spec (lcs a b i (j + 1)) (lcs a b (i + 1) j)); lia. }
  split_and!.
  - by eapply (cell_set m n dp (i + 1) (j + 1) v 0 0); [| lia | lia].
  - intros i'. destruct (cell_set m n dp (i + 1) (j + 1) v i' 0) as [_ ->]; [done | lia | lia |].
    replace (j + 1 =? 0) with false by (symmetry; apply Nat.eqb_neq; lia). by rewrite andb_false_r.
  - intros i' j' Hreg Hi' Hj'.
    destruct (cell_set m n dp (i + 1) (j + 1) v i' j') as [_ ->]; [done | lia | lia |].
    destruct ((i + 1 =? i') && (j + 1 =? j')) eqn:E.
    + apply andb_true_iff in E as [<-%Nat.eqb_eq <-%Nat.eqb_eq]. done.
    + apply Hc; [|done|done]. apply andb_false_iff in E. rewrite !Nat.eqb_neq in E. lia.
Qed.
Lemma dp_row_inv i dp : i < m -> table_inv i 0 dp -> table_inv (i + 1) 0 (dp_row a b dp i).
Proof.
  intros Hi H. unfold dp_row.
  assert (Hgo : forall k, k <= n -> table_inv i k (fold_left (fun dp j => dp_step a b dp i j) (seq 0 k) dp)).
  { induction k as [|k IH]; intros Hk; [done|]. rewrite seq_S, fold_left_app. cbn [fold_left Nat.add].
    rewrite <- Nat.add_1_r. apply dp_step_inv; [done | lia | apply IH; lia]. }
  destruct (Hgo n ltac:(lia)) as (Hs & H0 & Hc). split_and!; [done..|]. intros i' j' Hreg Hi' Hj'.
  destruct (decide (j' = 0)) as [->|]; [by rewrite H0, lcs_0_r|]. apply Hc; lia.
Qed.
Lemma dp_table_correct i j : i <= m -> j <= n -> cell (dp_table a b) i j = lcs a b i j.
Proof.
  assert (Hzero : forall i j, cell (replicate (m + 1) (replicate (n + 1) 0)) i j = 0).
  { intros i' j'. unfold cell. destruct (replicate (m + 1) _ !! i') as [row|] eqn:Hr; [|done].
    apply lookup_replicate in Hr as [-> _]. cbn [mbind option_bind].
    destruct (replicate (n + 1) 0 !! j') as [v|] eqn:Hv; [|done]. by apply lookup_replicate in Hv as [-> _]. }
  assert (Hgo : forall k, k <= m ->
    table_inv k 0 (fold_left (dp_row a b) (seq 0 k) (replicate (m + 1) (replicate (n + 1) 0)))).
  { induction k as [|k IH]; intros Hk.
    - cbn [seq fold_left]. split_and!; [| intros; apply Hzero |].
      + split; [by rewrite length_replicate|]. apply Forall_replicate. by rewrite length_replicate.
      + intros i' j' Hreg _ _. rewrite Hzero.
        destruct (decide (i' = 0)) as [->|]; [by rewrite lcs_0_l|].
        replace j' with 0 by lia. by rewrite lcs_0_r.
    - rewrite seq_S, fold_left_app. cbn [fold_left Nat.add]. rewrite <- Nat.add_1_r.
      apply dp_row_inv; [lia | apply IH; lia]. }
  intros Hi Hj. destruct (Hgo m ltac:(lia)) as (_ & _ & Hc). apply Hc; [by left | done | done].
Qed.

(** * Lemmas: the walk *)
Lemma old_of_snoc ops o : old_of (ops ++ [o]) = old_of ops ++ match o with Keep l | Remove l => [l] | Add _ => [] end.
Proof. unfold old_of. rewrite omap_app. by destruct o. Qed.
Lemma new_of_snoc ops o : new_of (ops ++ [o]) = new_of ops ++ match o with Keep l | Add l => [l] | Remove _ => [] end.
Proof. unfold new_of. rewrite omap_app. by destruct o. Qed.
Lemma kept_snoc ops o : kept (ops ++ [o]) = kept ops + match o with Keep _ => 1 | _ => 0 end.
Proof. unfold kept. rewrite omap_app, length_app. by destruct o. Qed.
Lemma take_last (l : list gostring) k x : 0 < k -> l !! (k - 1) = Some x -> take (k - 1) l ++ [x] = take k l.
Proof. intros Hk Hl. rewrite <- (take_S_r _ _ _ Hl). f_equal. lia. Qed.
(** The recursion of the reference at the last lines of two prefixes. *)
Lemma lcs_last i j : 0 < i -> i <= m -> 0 < j -> j <= n ->
  lcs a b i j = if line_eqb a b (i - 1) (j - 1) then lcs a b (i - 1) (j - 1) + 1
                else Nat.max (lcs a b i (j - 1)) (lcs a b (i - 1) j).
Proof.
  intros Hi Him Hj Hjn.
  destruct (lookup_lt_is_Some_2 a (i - 1)) as [x Hx]; [fold m; lia|].
  destruct (lookup_lt_is_Some_2 b (j - 1)) as [y Hy]; [fold n; lia|].
  pose proof (lcs_step a b (i - 1) (j - 1) x y Hx Hy) as Hl. unfold line_eqb. rewrite Hx, Hy.
  replace (i - 1 + 1) with i in Hl by lia. by replace (j - 1 + 1) with j in Hl by lia.
Qed.
(** What the walk from [(i, j)] returns. *)
Definition walked (i j : nat) (ops : list op) : Prop :=
  old_of (reverse ops) = take i a /\ new_of (reverse ops) = take j b /\ kept (reverse ops) = lcs a b i j.
Lemma walked_keep i j x ops : 0 < i -> i <= m -> 0 < j -> j <= n -> a !! (i - 1) = Some x ->
  line_eqb a b (i - 1) (j - 1) = true -> walked (i - 1) (j - 1) ops -> walked i j (Keep x :: ops).
Proof.
  intros Hi Him Hj Hjn Hx Heq (Ho & Hn & Hk). pose proof (lcs_last i j Hi Him Hj Hjn) as Hl.
  rewrite Heq in Hl. unfold line_eqb in Heq. rewrite Hx in Heq. destruct (b !! (j - 1)) as [y|] eqn:Hy; [|done].
  apply seqb_eq in Heq as <-. unfold walked.
  rewrite reverse_cons, old_of_snoc, new_of_snoc, kept_snoc, Ho, Hn, Hk, Hl.
  split_and!; [by apply take_last | by apply take_last | lia].
Qed.
Lemma walked_add i j y ops : 0 < j -> b !! (j - 1) = Some y -> lcs a b i j = lcs a b i (j - 1) ->
  walked i (j - 1) ops -> walked i j (Add y :: ops).
Proof.
  intros Hj Hy Hl (Ho & Hn & Hk). unfold walked.
  rewrite reverse_cons, old_of_snoc, new_of_snoc, kept_snoc, Ho, Hn, Hk, app_nil_r, Hl.
  split_and!; [done | by apply take_last | lia].
Qed.
Lemma walked_remove i j x ops : 0 < i -> a !! (i - 1) = Some x -> lcs a b i j = lcs a b (i - 1) j ->
  walked (i - 1) j ops -> walked i j (Remove x :: ops).
Proof.
  intros Hi Hx Hl (Ho & Hn & Hk). unfold walked.
  rewrite reverse_cons, old_of_snoc, new_of_snoc, kept_snoc, Ho, Hn, Hk, app_nil_r, Hl.
  split_and!; [by apply take_last | done | lia].
Qed.
Lemma walk_spec fuel i j :
  i <= m -> j <= n -> i + j <= fuel ->
  exists ops, walk fuel a b (dp_table a b) i j = Some ops /\ walked i j ops.
Proof.
  assert (H00 : walked 0 0 []) by (split_and!; by rewrite ?lcs_0_l).
  revert i j; induction fuel as [|f IH]; intros i j Hi Hj Hf.
  { replace i with 0 by lia. replace j with 0 by lia. by exists []. }
  cbn [walk]. rewrite !dp_table_correct by (fold m n; lia).
  assert (Hx : 0 < i -> exists x, a !! (i - 1) = Some x) by (intros; apply lookup_lt_is_Some_2; fold m; lia).
  assert (Hy : 0 < j -> exists y, b !! (j - 1) = Some y) by (intros; apply lookup_lt_is_Some_2; fold n; lia).
  pose proof (lcs_last i j) as Hlast.
  destruct ((i =? 0) && (j =? 0)) eqn:Hz.
  { breflect. subst. by exists []. }
  apply andb_false_iff in Hz. rewrite !Nat.eqb_neq in Hz.
  destruct ((0 <? i) && (0 <? j) && line_eqb a b (i - 1) (j - 1)) eqn:Hkeep.
  { breflect. destruct Hx as [x Hx]; [lia|]. destruct (IH (i - 1) (j - 1)) as (ops & Hw & Hops); [lia..|].
    rewrite Hx, Hw. exists (Keep x :: ops). split; [done|]. apply walked_keep; done || lia. }
  assert (Hmax : 0 < i -> 0 < j -> lcs a b i j = Nat.max (lcs a b i (j - 1)) (lcs a b (i - 1) j)).
  { intros Hi0 Hj0. rewrite Hlast by done. apply Nat.ltb_lt in Hi0 as Hi', Hj0 as Hj'.
    rewrite Hi', Hj' in Hkeep. cbn [andb] in Hkeep. by rewrite Hkeep. }
  pose proof (lcs_0_l a b) as H0l. pose proof (lcs_0_r a b i) as H0r.
  destruct ((0 <? j) && ((i =? 0) || (lcs a b (i - 1) j <=? lcs a b i (j - 1)))) eqn:Hadd.
  - breflect. destruct Hy as [y Hy]; [lia|]. apply orb_true_iff in H0. rewrite Nat.eqb_eq, Nat.leb_le in H0.
    destruct (IH i (j - 1)) as (ops & Hw & Hops); [lia..|].
    rewrite Hy, Hw. exists (Add y :: ops). split; [done|]. apply walked_add; try done || lia.
    destruct (decide (i = 0)) as [->|]; [by rewrite !H0l | lia].
  - apply andb_false_iff in Hadd. rewrite Nat.ltb_ge, orb_false_iff, Nat.eqb_neq, Nat.leb_gt in Hadd.
    destruct Hx as [x Hx]; [lia|]. destruct (IH (i - 1) j) as (ops & Hw & Hops); [lia..|].
    replace (_ && _) with true.
    2:{ symmetry. rewrite andb_true_iff, orb_true_iff, Nat.eqb_eq, !Nat.ltb_lt. lia. }
    rewrite Hx, Hw. exists (Remove x :: ops). split; [done|]. apply walked_remove; try done || lia.
    destruct (decide (j = 0)) as [->|]; [by rewrite !lcs_0_r | lia].
Qed.
End table.

Lemma reverse_sublist (c l : list gostring) : c `sublist_of` l -> reverse c `sublist_of` reverse l.
Proof.
  induction 1 as [|x c l H IH|x c l H IH]; [done| |]; rewrite ?reverse_cons.
  - by apply sublist_app.
  - by apply sublist_inserts_r.
Qed.

(** * Properties *)

(** the diff shown before approval is faithful and minimal.  The walk
    ends in range; the kept and removed lines are the approved text, the kept
    and added lines are the current text, and no sequence of lines common to
    both is longer than what the diff keeps: nothing is shown as changed that
    could be shown as kept. *)
Theorem lcs_diff_faithful_minimal (a b : list gostring) :
  exists ops, lcs_ops a b = Some ops /\ compute_lcs_diff a b = map render_op ops /\
    old_of ops = a /\ new_of ops = b /\
    forall c, c `sublist_of` a -> c `sublist_of` b -> length c <= kept ops.
Proof.
  destruct (walk_spec a b (length a + length b) (length a) (length b)) as (ops & Hw & Ho & Hn & Hk); [lia..|].
  exists (reverse ops).
  assert (Hops : lcs_ops a b = Some (reverse ops)) by (unfold lcs_ops; by rewrite Hw).
  rewrite take_ge in Ho, Hn by lia.
  split_and!; [done | unfold compute_lcs_diff; by rewrite Hops | done | done |].
  intros c Ha Hb. rewrite Hk. unfold lcs. rewrite !take_ge by lia.
  rewrite <- (length_reverse c). apply lcs_rev_bound; by apply reverse_sublist.
Qed.
Example lcs_diff_ex :
  compute_lcs_diff [$"a"; $"b"; $"c"] [$"a"; $"x"; $"c"] = [$"  a"; $"- b"; $"+ x"; $"  c"].
Proof. vm_compute. reflexivity. Qed.
