(* ===== verification/Trust.v ===== *)
(** Repository trust: the approval store of [internal/trust/trust.go] and the
    gate of [gate.go] that every launch and every delegated job passes.

    SHA-256 is the class [Digest], the YAML codec of the store and of the
    repository file are parameters, the clock is an argument; files are those
    of the model of [Justfile]. *)
From S2P Require Import GoStrings GoPath ConfigTypes Justfile TrustDiff.
Local Open Scope go_scope.

(** Hexadecimal SHA-256. *)
Class Digest := sha_hex : gostring -> gostring.
(** A digest is 64 characters long, so never empty. *)
Class DigestLaws `{Digest} : Prop := sha_hex_nonempty (s : gostring) : sha_hex s <> [].

(** * The store *)
Record anchor_entry := AnchorEntry { ae_current : gostring; ae_approved : gostring; ae_content : gostring }.
Record entry := Entry {
  en_current : gostring; en_approved : gostring; en_content : gostring;
  en_anchors : gmap gostring anchor_entry; en_updated : Z }.
(** [Store.Repos]; a nil map reads as the empty one. *)
Abbreviation store := (gmap gostring entry).
Definition empty_entry : entry := Entry [] [] [] ∅ 0.
Definition empty_anchor : anchor_entry := AnchorEntry [] [] [].

Inductive trust_err :=
  | EmptyData
  | HashAnchor (rel : gostring)
  | ReadConfig
  | ReadAnchor (path : gostring)
  | Untrusted (cfg_path : gostring)
  | ReadConfirmation
  | NotApproved (repo : gostring)
  | UntrustedOrModified (repo : gostring)
  | LoadStore
  | SaveStore
  | NoteState (e : trust_err)
  | ApproveConfig (e : trust_err)
  | JoinedErr (a b : trust_err).

Section trust.
Context `{Digest, MapRange gostring}.
(** [filepath.EvalSymlinks] and [filepath.Abs], [None] on error. *)
Context (eval_symlinks abs_path : gostring -> option gostring).

Definition default_trust_path (env : gostring -> gostring) (home : gostring) : gostring :=
  if negb (is_empty (env $"XDG_CONFIG_HOME"))
  then path_join (path_join (env $"XDG_CONFIG_HOME") $"keg") $"trust.yaml"
  else path_join (path_join (path_join home $".config") $"keg") $"trust.yaml".
Definition trust_path (env : gostring -> gostring) (home override : gostring) : gostring :=
  or_else override (default_trust_path env home).
Definition clean_repo_key (repo_path : gostring) : gostring :=
  let cleaned := default repo_path (eval_symlinks repo_path) in
  clean (default cleaned (abs_path cleaned)).
Definition sha256 (data : gostring) : result trust_err gostring :=
  if is_empty data then Err EmptyData else Ok (sha_hex data).

(** [IsTrusted]. *)
Definition anchor_trusted (e : entry) (kv : gostring * gostring) : bool :=
  let '(rel, sha) := kv in
  match en_anchors e !! rel with
  | None => false
  | Some a => negb (is_empty (ae_approved a)) && seqb (ae_approved a) sha
  end.
Definition is_trusted (e : entry) (current_sha : gostring) (anchor_shas : strmap) : bool :=
  if is_empty (en_approved e) || is_empty current_sha || negb (seqb (en_approved e) current_sha) then false
  else forallb (anchor_trusted e) (map_range anchor_shas).

(** The loop over the anchor contents: the entries and whether one changed. *)
Definition note_anchor (existing : entry) (st : gmap gostring anchor_entry * bool) (kv : gostring * gostring)
  : result trust_err (gmap gostring anchor_entry * bool) :=
  let '(anchors, changed) := st in
  let '(rel, bytes) := kv in
  match sha256 bytes with
  | Err _ => Err (HashAnchor rel)
  | Ok a_sha =>
      let old := default empty_anchor (en_anchors existing !! rel) in
      let has := match en_anchors existing !! rel with Some _ => true | None => false end in
      Ok (<[rel := AnchorEntry a_sha (ae_approved old) (ae_content old)]> anchors,
          if negb has || negb (seqb (ae_current old) a_sha) then true else changed)
  end.
Definition note_current (now : Z) (st : store) (repo_path content : gostring) (contents : strmap)
  : result trust_err (store * bool) :=
  sha ← sha256 content;
  let key := clean_repo_key repo_path in
  let exists_ := match st !! key with Some _ => true | None => false end in
  let existing := default empty_entry (st !! key) in
  let changed := negb exists_ || negb (seqb (en_current existing) sha) in
  '(anchors, changed) ← foldM_result (note_anchor existing) (en_anchors existing, changed) (map_range contents);
  Ok (<[key := Entry sha (en_approved existing) (en_content existing) anchors now]> st, changed).

Definition approve_anchor (anchors : gmap gostring anchor_entry) (kv : gostring * gostring)
  : result trust_err (gmap gostring anchor_entry) :=
  let '(rel, bytes) := kv in
  match sha256 bytes with
  | Err _ => Err (HashAnchor rel)
  | Ok a_sha => Ok (<[rel := AnchorEntry a_sha a_sha bytes]> anchors)
  end.
Definition approve (now : Z) (st : store) (repo_path content : gostring) (contents : strmap)
  : result trust_err (store * gostring) :=
  sha ← sha256 content;
  let key := clean_repo_key repo_path in
  let existing := default empty_entry (st !! key) in
  anchors ← foldM_result approve_anchor (en_anchors existing) (map_range contents);
  Ok (<[key := Entry sha sha content anchors now]> st, sha).
Definition revoke (now : Z) (st : store) (repo_path : gostring) : store :=
  let key := clean_repo_key repo_path in
  match st !! key with
  | None => st
  | Some e =>
      <[key := Entry (en_current e) [] []
                 ((fun a => AnchorEntry (ae_current a) [] []) <$> en_anchors e) now]> st
  end.

(** * The gate *)
(** [os.ReadFile]: the data, [None] when the file does not exist, or an
    error. *)
Definition read_path (fs : filesystem) (p : gostring) : result unit (option gostring) :=
  match fs !! p with
  | None => Ok None
  | Some (FSFile (Some data)) => Ok (Some data)
  | Some _ => Err tt
  end.
Context (parse_repo : gostring -> option repo).

Definition anchors_of (fs : filesystem) (data repo_path : gostring) : list gostring :=
  match parse_repo data with
  | None => []
  | Some r => default [] (effective_trust_anchors fs r repo_path)
  end.
(** The loop that reads the anchors: missing and empty files are left out. *)
Definition read_anchor (fs : filesystem) (repo_path : gostring) (contents : strmap) (rel : gostring)
  : result trust_err strmap :=
  let p := path_join repo_path rel in
  match read_path fs p with
  | Err _ => Err (ReadAnchor p)
  | Ok None => Ok contents
  | Ok (Some bytes) => if is_empty bytes then Ok contents else Ok (<[rel := bytes]> contents)
  end.
Definition read_anchors (fs : filesystem) (repo_path : gostring) (anchors : list gostring)
  : result trust_err strmap :=
  foldM_result (read_anchor fs repo_path) ∅ anchors.
Definition shas_of (contents : strmap) : strmap := sha_hex <$> contents.

(** What is printed before the question. *)
Definition line (s : gostring) : gostring := s ++ newline.
Definition prompt_text (exists_ : bool) (e : entry) (sha data : gostring) (anchors : list gostring)
    (contents : strmap) : gostring :=
  (if negb exists_ || is_empty (en_approved e) || negb (seqb (en_approved e) sha)
   then line (format_diff (en_content e) data (negb exists_ || is_empty (en_approved e))) else [])
  ++ concat (map (fun rel =>
       match contents !! rel with
       | None => []
       | Some bytes =>
           let a := default empty_anchor (en_anchors e !! rel) in
           if negb (seqb (ae_approved a) (sha_hex bytes))
           then line (format_anchor_diff rel (ae_content a) bytes (is_empty (ae_approved a))) else []
       end) anchors)
  ++ line ($"Checksum (.keg.yaml): " ++ sha)
  ++ concat (map (fun rel =>
       match shas_of contents !! rel with
       | None => []
       | Some a_sha => line ($"Checksum (" ++ rel ++ $"): " ++ a_sha)
       end) anchors)
  ++ $"Trust this configuration and trust anchors? (yes/no): ".

Definition affirmative `{UnicodeCase} (answer : gostring) : bool :=
  smem (trim_space (to_lower answer)) [$"ja"; $"j"; $"yes"; $"y"].

(** [EnsureTrust]: the result ([Ok] is approved), the store afterwards and
    what was printed.  [answer] is the line read, [None] on a read error. *)
Definition ensure_trust `{UnicodeCase} (now : Z) (fs : filesystem) (st : store)
    (repo_path cfg_path : gostring) (is_term : bool) (answer : option gostring)
  : result trust_err unit * store * gostring :=
  match read_path fs cfg_path with
  | Err _ => (Err ReadConfig, st, [])
  | Ok None => (Ok tt, st, [])
  | Ok (Some data) =>
      if is_empty data then (Ok tt, st, [])
      else
        let sha := sha_hex data in
        let anchors := anchors_of fs data repo_path in
        match read_anchors fs repo_path anchors with
        | Err e => (Err e, st, [])
        | Ok contents =>
            let key := clean_repo_key repo_path in
            let exists_ := match st !! key with Some _ => true | None => false end in
            let e := default empty_entry (st !! key) in
            if exists_ && is_trusted e sha (shas_of contents) then (Ok tt, st, [])
            else
              match note_current now st repo_path data contents with
              | Err x => (Err (NoteState x), st, [])
              | Ok (st1, _) =>
                  if negb is_term then (Err (Untrusted cfg_path), st1, [])
                  else
                    let text := prompt_text exists_ e sha data anchors contents in
                    match answer with
                    | None => (Err ReadConfirmation, st1, text)
                    | Some ans =>
                        if affirmative ans then
                          match approve now st1 repo_path data contents with
                          | Err x => (Err (ApproveConfig x), st1, text)
                          | Ok (st2, _) => (Ok tt, st2, text)
                          end
                        else (Err (NotApproved repo_path), st1, text)
                    end
              end
        end
  end.

(** [VerifyApproved] with the store it loads. *)
Definition verify_approved (fs : filesystem) (load : result trust_err store)
    (repo_path cfg_path : gostring) : result trust_err unit :=
  match read_path fs cfg_path with
  | Err _ => Err ReadConfig
  | Ok None => Ok tt
  | Ok (Some data) =>
      if is_empty data then Ok tt
      else
        contents ← read_anchors fs repo_path (anchors_of fs data repo_path);
        st ← load;
        match st !! clean_repo_key repo_path with
        | Some e => if is_trusted e (sha_hex data) (shas_of contents) then Ok tt
                    else Err (UntrustedOrModified repo_path)
        | None => Err (UntrustedOrModified repo_path)
        end
  end.
(** [EnsureTrustFile]: loads, decides and always saves; with the store that is
    handed to [SaveFile]. *)
Definition ensure_trust_file `{UnicodeCase} (load : result trust_err store) (save_ok : store -> bool)
    (now : Z) (fs : filesystem) (repo_path cfg_path : gostring) (is_term : bool) (answer : option gostring)
  : result trust_err unit * option store :=
  match load with
  | Err e => (Err e, None)
  | Ok st =>
      let '(res, st', _) := ensure_trust now fs st repo_path cfg_path is_term answer in
      if save_ok st' then (res, Some st')
      else match res with
           | Err e => (Err (JoinedErr e SaveStore), Some st')
           | Ok _ => (Err SaveStore, Some st')
           end
  end.
End trust.

(** * Lemmas *)
Section lemmas.
Context `{DigestLaws, MapRangeLaws gostring}.
Context (eval_symlinks abs_path : gostring -> option gostring).
Abbreviation clean_repo_key := (clean_repo_key eval_symlinks abs_path).
Abbreviation note_current := (note_current eval_symlinks abs_path).
Abbreviation approve := (approve eval_symlinks abs_path).
Abbreviation revoke := (revoke eval_symlinks abs_path).

(** The configuration and the anchors are the approved ones. *)
Definition matches_approval (e : entry) (sha : gostring) (shas : strmap) : Prop :=
  sha <> [] /\ en_approved e = sha /\
  forall rel s, shas !! rel = Some s ->
    exists a, en_anchors e !! rel = Some a /\ ae_approved a = s /\ s <> [].
Lemma is_trusted_iff e sha shas : is_trusted e sha shas = true <-> matches_approval e sha shas.
Proof.
  unfold is_trusted, matches_approval.
  assert (Hall : forallb (anchor_trusted e) (map_range shas) = true <->
    forall rel s, shas !! rel = Some s -> exists a, en_anchors e !! rel = Some a /\ ae_approved a = s /\ s <> []).
  { rewrite forallb_forall. setoid_rewrite <- list_elem_of_In. split.
    - intros Hf rel s Hs. specialize (Hf (rel, s) (proj2 (map_range_elem _ _ _) Hs)). cbn in Hf.
      destruct (en_anchors e !! rel) as [a|]; [|done]. breflect. subst. eauto.
    - intros Hf [rel s] Hin. apply map_range_elem in Hin. destruct (Hf _ _ Hin) as (a & Ha & <- & Hne).
      cbn. rewrite Ha. apply is_empty_false in Hne. by rewrite Hne, seqb_refl. }
  destruct (is_empty sha) eqn:He; breflect.
  { rewrite orb_true_r. cbn [orb]. subst. split; [done | by intros (? & _)]. }
  destruct (seqb_spec (en_approved e) sha) as [<-|Hne].
  - apply is_empty_false in He as He'. rewrite He'. cbn [orb negb]. rewrite Hall. naive_solver.
  - cbn [negb]. rewrite orb_true_r. split; [done|]. naive_solver.
Qed.
Definition trusted (st : store) (key sha : gostring) (shas : strmap) : bool :=
  match st !! key with Some e => is_trusted e sha shas | None => false end.

Lemma sha256_ok s r : sha256 s = Ok r -> s <> [] /\ r = sha_hex s.
Proof. unfold sha256. destruct (is_empty s) eqn:He; [done|]. breflect. by intros [= <-]. Qed.
Lemma sha256_nonempty s : s <> [] -> sha256 s = Ok (sha_hex s).
Proof. intros Hs. unfold sha256. apply is_empty_false in Hs. by rewrite Hs. Qed.

(** Looking up after the anchor loop of [Approve]. *)
Lemma approve_fold contents m0 m :
  foldM_result approve_anchor m0 (map_range contents) = Ok m ->
  forall rel, m !! rel = match contents !! rel with
                         | Some b => Some (AnchorEntry (sha_hex b) (sha_hex b) b)
                         | None => m0 !! rel
                         end.
Proof.
  intros Hf rel.
  assert (Hgo : forall l m, (forall k v, (k, v) ∈ l -> contents !! k = Some v) ->
    foldM_result approve_anchor m0 l = Ok m ->
    m !! rel = match contents !! rel with
               | Some b => if decide (rel ∈ map fst l) then Some (AnchorEntry (sha_hex b) (sha_hex b) b) else m0 !! rel
               | None => m0 !! rel end).
  { clear Hf m. induction l as [|[k v] l IH] using rev_ind; intros m Hl Hm.
    - cbn in Hm. injection Hm as <-. by destruct (contents !! rel).
    - rewrite foldM_result_app in Hm. destruct (foldM_result _ m0 l) as [m1|] eqn:Hm1; [|done].
      cbn [foldM_result approve_anchor] in Hm. destruct (sha256 v) as [sv|] eqn:Hv; [|done].
      injection Hm as <-. apply sha256_ok in Hv as [_ ->].
      specialize (IH m1 (fun k v Hin => Hl k v (proj2 (elem_of_app _ _ _) (or_introl Hin))) eq_refl).
      assert (Hkv : contents !! k = Some v) by (apply Hl, elem_of_app; right; left).
      rewrite map_app. destruct (decide (rel = k)) as [->|Hne].
      + rewrite lookup_insert_eq, Hkv. rewrite decide_True; [done|]. apply elem_of_app. right. left.
      + rewrite lookup_insert_ne by done. rewrite IH. destruct (contents !! rel) as [b|]; [|done].
        destruct (decide (rel ∈ map fst l)) as [Hin|Hn].
        * rewrite decide_True; [done|]. apply elem_of_app. by left.
        * rewrite decide_False; [done|]. cbn. rewrite elem_of_app, list_elem_of_singleton. naive_solver. }
  rewrite (Hgo (map_range contents) m) by (done || intros k v; apply map_range_elem).
  destruct (contents !! rel) as [b|] eqn:Hb; [|done]. rewrite decide_True; [done|].
  apply list_elem_of_fmap. exists (rel, b). split; [done | by apply map_range_elem].
Qed.
(** The anchor loop of [NoteCurrent] keeps every approval. *)
Lemma note_fold existing contents c0 m c :
  foldM_result (note_anchor existing) (en_anchors existing, c0) (map_range contents) = Ok (m, c) ->
  forall rel, (ae_approved <$> m !! rel = ae_approved <$> en_anchors existing !! rel \/
               (en_anchors existing !! rel = None /\ exists a, m !! rel = Some a /\ ae_approved a = [])).
Proof.
  intros Hf rel. apply (foldM_result_inv _ (fun st : gmap gostring anchor_entry * bool =>
    ae_approved <$> st.1 !! rel = ae_approved <$> en_anchors existing !! rel \/
    (en_anchors existing !! rel = None /\ exists a, st.1 !! rel = Some a /\ ae_approved a = []))) in Hf;
    [done | | by left].
  intros [m1 c1] [k v] [m2 c2] _ Hi Hs. cbn [note_anchor] in Hs. destruct (sha256 v); [|done].
  injection Hs as <- _. cbn [fst] in *. destruct (decide (rel = k)) as [->|Hne];
    [|by rewrite lookup_insert_ne].
  rewrite lookup_insert_eq. destruct (en_anchors existing !! k) as [a0|]; cbn; [by left|].
  right. split; [done|]. eexists. split; [reflexivity | done].
Qed.
Lemma note_current_keeps_trust now st repo content contents st' ch key sha shas :
  note_current now st repo content contents = Ok (st', ch) ->
  trusted st' key sha shas = trusted st key sha shas.
Proof.
  unfold note_current. intros (s & Hs & Hn)%bind_ok_inv. apply bind_ok_inv in Hn as ([m c] & Hf & [= <- <-]).
  unfold trusted. destruct (decide (key = clean_repo_key repo)) as [->|Hne]; [|by rewrite lookup_insert_ne].
  rewrite lookup_insert_eq. pose proof (note_fold _ _ _ _ _ Hf) as Ha.
  set (existing := default empty_entry (st !! clean_repo_key repo)) in *.
  assert (Hsame : is_trusted (Entry s (en_approved existing) (en_content existing) m now) sha shas
                  = is_trusted existing sha shas).
  { apply eq_true_iff_eq. rewrite !is_trusted_iff. unfold matches_approval. cbn [en_approved en_anchors].
    split; intros (H1' & H2' & H3'); split_and!; try done; intros rel v Hv;
      destruct (H3' rel v Hv) as (a & Hla & Hap & Hne); destruct (Ha rel) as [Heq|(Hnone & a' & Ha' & Hemp)].
    - rewrite Hla in Heq. destruct (en_anchors existing !! rel) as [a2|]; [|done]. cbn in Heq.
      injection Heq as Heq. exists a2. split_and!; congruence.
    - congruence.
    - rewrite Hla in Heq. destruct (m !! rel) as [a2|]; [|done]. cbn in Heq.
      injection Heq as Heq. exists a2. split_and!; congruence.
    - congruence. }
  rewrite Hsame. unfold existing. destruct (st !! clean_repo_key repo) as [e|]; [done|]. cbn.
  by destruct (is_empty sha), sha.
Qed.
(** What an approval makes of the entry. *)
Lemma approve_iff now st repo content contents st' sha :
  approve now st repo content contents = Ok (st', sha) ->
  sha = sha_hex content /\
  (forall key, key <> clean_repo_key repo -> st' !! key = st !! key) /\
  forall sha' shas, trusted st' (clean_repo_key repo) sha' shas = true <->
    sha' = sha_hex content /\
    forall rel s, shas !! rel = Some s ->
      match contents !! rel with
      | Some b => s = sha_hex b
      | None => s <> [] /\ exists e a, st !! clean_repo_key repo = Some e /\ en_anchors e !! rel = Some a /\ ae_approved a = s
      end.
Proof.
  unfold approve. intros (s & Hs & Hn)%bind_ok_inv. apply bind_ok_inv in Hn as (m & Hf & [= <- <-]).
  apply sha256_ok in Hs as [Hne ->]. split; [done|]. split; [intros; by rewrite lookup_insert_ne|].
  intros sha' shas. unfold trusted. rewrite lookup_insert_eq, is_trusted_iff. unfold matches_approval.
  cbn [en_approved en_anchors].
  assert (Hrel : forall rel s, (exists a, m !! rel = Some a /\ ae_approved a = s /\ s <> []) <->
    match contents !! rel with
    | Some b => s = sha_hex b
    | None => s <> [] /\ exists e a, st !! clean_repo_key repo = Some e /\ en_anchors e !! rel = Some a /\ ae_approved a = s
    end).
  { intros rel s. rewrite (approve_fold _ _ _ Hf). destruct (contents !! rel) as [b|].
    - split; [intros (a & [= <-] & <- & _); done|]. intros ->. eexists. split_and!; [done..|apply sha_hex_nonempty].
    - destruct (st !! clean_repo_key repo) as [e|]; cbn; [naive_solver|].
      split; [by intros (? & ? & _) | by intros (_ & ? & ? & ? & _)]. }
  setoid_rewrite Hrel. split; [intros (_ & <- & ?); done|]. intros [-> ?].
  split_and!; [apply sha_hex_nonempty | done | done].
Qed.
Lemma approve_trusts now st repo content contents st' sha :
  approve now st repo content contents = Ok (st', sha) ->
  trusted st' (clean_repo_key repo) sha (shas_of contents) = true.
Proof.
  intros Ha. apply approve_iff in Ha as (-> & _ & Ht). apply Ht. split; [done|].
  intros rel s. unfold shas_of. rewrite lookup_fmap. destruct (contents !! rel); [|done]. by intros [= <-].
Qed.
(** Approving fails only on empty data. *)
Lemma approve_total now st repo content contents :
  content <> [] -> (forall rel b, contents !! rel = Some b -> b <> []) ->
  exists st', approve now st repo content contents = Ok (st', sha_hex content).
Proof.
  intros Hc Hall. unfold approve. rewrite sha256_nonempty by done. cbn [mbind result_bind].
  destruct (foldM_result_total approve_anchor (en_anchors (default empty_entry (st !! clean_repo_key repo))) (map_range contents))
    as [m Hm]; [|rewrite Hm; by eexists].
  intros m [k v] Hi%map_range_elem. cbn [approve_anchor]. rewrite sha256_nonempty by eauto. by eexists.
Qed.
(** Nor does recording the current state. *)
Lemma note_current_total now st repo content contents :
  content <> [] -> (forall rel b, contents !! rel = Some b -> b <> []) ->
  exists st' ch, note_current now st repo content contents = Ok (st', ch).
Proof.
  intros Hc Hall. unfold note_current. rewrite sha256_nonempty by done. cbn [mbind result_bind]. cbv zeta.
  match goal with |- context [foldM_result ?f ?s ?l] => destruct (foldM_result_total f s l) as [[m c] Hm] end;
    [|rewrite Hm; by do 2 eexists].
  intros [m c] [k v] Hi%map_range_elem. cbn [note_anchor]. rewrite sha256_nonempty by eauto. by eexists.
Qed.
Lemma revoke_distrusts now st repo sha shas : trusted (revoke now st repo) (clean_repo_key repo) sha shas = false.
Proof.
  unfold trusted, revoke. destruct (st !! clean_repo_key repo) as [e|] eqn:He; [|by rewrite He].
  rewrite lookup_insert_eq. unfold is_trusted. cbn [en_approved is_empty orb]. done.
Qed.
Lemma revoke_others now st repo key : key <> clean_repo_key repo -> revoke now st repo !! key = st !! key.
Proof. intros Hk. unfold revoke. destruct (st !! _); [by rewrite lookup_insert_ne | done]. Qed.
(** What is read as an anchor is not empty. *)
Lemma read_anchors_nonempty fs repo l contents :
  read_anchors fs repo l = Ok contents -> forall rel b, contents !! rel = Some b -> b <> [].
Proof.
  unfold read_anchors.
  apply (foldM_result_inv _ (fun c : strmap => forall rel b, c !! rel = Some b -> b <> []));
    [| intros rel b; by rewrite lookup_empty].
  intros c rel c' _ Hi. unfold read_anchor. destruct (read_path fs _) as [[bytes|]|]; [| by intros [= <-] | done].
  destruct (is_empty bytes) eqn:He; [by intros [= <-]|]. intros [= <-] r b.
  destruct (decide (r = rel)) as [->|Hne]; [rewrite lookup_insert_eq; intros [= <-]; by breflect|].
  rewrite lookup_insert_ne by done. apply Hi.
Qed.
Context (parse_repo : gostring -> option repo) `{UnicodeCase}.
(** What the gate reads of a repository: its configuration and its anchors. *)
Definition repo_state (fs : filesystem) (repo_path cfg_path : gostring) : option (gostring * strmap) :=
  match read_path fs cfg_path with
  | Ok (Some data) =>
      if is_empty data then None
      else match read_anchors fs repo_path (anchors_of parse_repo fs data repo_path) with
           | Ok contents => Some (data, contents)
           | Err _ => None
           end
  | _ => None
  end.
(** No configuration: nothing to approve. *)
Definition no_config (fs : filesystem) (cfg_path : gostring) : Prop :=
  read_path fs cfg_path = Ok None \/ read_path fs cfg_path = Ok (Some []).

(** only [Approve] grants trust, and it grants it for exactly the content
    it was given: it succeeds whenever nothing it hashes is empty, and after
    it the repository is trusted with a configuration hash and anchor hashes
    if and only if they are the hashes of that content (or an anchor that was
    not part of it and was approved before).  Recording the current state
    never changes what is trusted, for any repository; after [Revoke] nothing
    is trusted for the repository; and neither touches another repository's
    trust. *)
Theorem store_operations_trust (now : Z) (st : store) (repo_path content : gostring) (contents : strmap) :
  (content <> [] -> (forall rel b, contents !! rel = Some b -> b <> []) ->
   exists st', approve now st repo_path content contents = Ok (st', sha_hex content)) /\
  (forall st' sha, approve now st repo_path content contents = Ok (st', sha) ->
     trusted st' (clean_repo_key repo_path) sha (shas_of contents) = true /\
     (forall sha' shas, trusted st' (clean_repo_key repo_path) sha' shas = true <->
        sha' = sha_hex content /\
        forall rel s, shas !! rel = Some s ->
          match contents !! rel with
          | Some b => s = sha_hex b
          | None => s <> [] /\ exists e a, st !! clean_repo_key repo_path = Some e /\
                                         en_anchors e !! rel = Some a /\ ae_approved a = s
          end) /\
     (forall key, key <> clean_repo_key repo_path -> st' !! key = st !! key)) /\
  (forall st' ch, note_current now st repo_path content contents = Ok (st', ch) ->
     forall key sha shas, trusted st' key sha shas = trusted st key sha shas) /\
  (forall sha shas, trusted (revoke now st repo_path) (clean_repo_key repo_path) sha shas = false) /\
  (forall key, key <> clean_repo_key repo_path -> revoke now st repo_path !! key = st !! key).
Proof.
  split_and!.
  - apply approve_total.
  - intros st' sha Ha. pose proof (approve_trusts _ _ _ _ _ _ _ Ha) as Ht.
    apply approve_iff in Ha as (_ & Ho & Hiff). by split_and!.
  - intros st' ch Hn key sha shas. by eapply note_current_keeps_trust.
  - intros sha shas. apply revoke_distrusts.
  - intros key. apply revoke_others.
Qed.

(** The state an approving gate leaves. *)
Definition gate_approved (fs : filesystem) (st : store) (repo_path cfg_path : gostring)
    (is_term : bool) (answer : option gostring) (st' : store) (text : gostring) : Prop :=
  no_config fs cfg_path /\ st' = st \/
  exists data contents, repo_state fs repo_path cfg_path = Some (data, contents) /\
    trusted st' (clean_repo_key repo_path) (sha_hex data) (shas_of contents) = true /\
    (st' = st /\ text = [] \/
     is_term = true /\ exists ans, answer = Some ans /\ affirmative ans = true).
Lemma ensure_cases now fs st repo_path cfg_path is_term answer res st' text :
  ensure_trust eval_symlinks abs_path parse_repo now fs st repo_path cfg_path is_term answer = (res, st', text) ->
  match res with
  | Ok _ => gate_approved fs st repo_path cfg_path is_term answer st' text
  | Err _ => forall key sha shas, trusted st' key sha shas = trusted st key sha shas
  end /\ (is_term = false -> text = []).
Proof.
  unfold ensure_trust, gate_approved, repo_state, no_config.
  destruct (read_path fs cfg_path) as [[data|]|]; [| intros [= <- <- <-]; tauto | intros [= <- <- <-]; tauto].
  destruct (is_empty data) eqn:Hd; [breflect; intros [= <- <- <-]; subst; tauto|].
  destruct (read_anchors fs repo_path _) as [contents|] eqn:Hr; [|intros [= <- <- <-]; tauto].
  destruct (_ && is_trusted _ _ _) eqn:Ht.
  { intros [= <- <- <-]. split; [|done]. right. exists data, contents. split_and!; [done | | by left].
    unfold trusted. destruct (st !! _) as [e|]; cbn in Ht; done. }
  clear Ht. destruct (note_current _ _ _ _ _) as [[st1 ch]|] eqn:Hn; [|intros [= <- <- <-]; tauto].
  assert (Hk : forall key sha shas, trusted st1 key sha shas = trusted st key sha shas)
    by (intros; by eapply note_current_keeps_trust).
  destruct is_term; cbn [negb]; [|intros [= <- <- <-]; tauto].
  destruct answer as [ans|]; [|by intros [= <- <- _]].
  destruct (affirmative ans) eqn:Hans; [|by intros [= <- <- _]].
  destruct (approve _ _ _ _ _) as [[st2 sha]|] eqn:Ha; [|by intros [= <- <- _]].
  intros [= <- <- _]. split; [|done]. right. exists data, contents. split_and!; [done | | by eauto].
  pose proof (approve_trusts _ _ _ _ _ _ _ Ha) as Ht. by apply approve_iff in Ha as (-> & _).
Qed.

(** C8: the gate is sound.  When [EnsureTrust] approves, either there is no
    configuration, or the configuration and the anchors as they are on disk
    are trusted by the store it leaves: they were before, with no question
    asked and nothing changed, or the terminal's answer was affirmative.
    When it refuses, no repository's trust has changed, and without a
    terminal nothing is ever printed. *)
Theorem ensure_trust_sound (now : Z) (fs : filesystem) (st : store) (repo_path cfg_path : gostring)
    (is_term : bool) (answer : option gostring) res st' text
    (Hrun : ensure_trust eval_symlinks abs_path parse_repo now fs st repo_path cfg_path is_term answer = (res, st', text)) :
  match res with
  | Ok _ =>
      no_config fs cfg_path /\ st' = st \/
      exists data contents, repo_state fs repo_path cfg_path = Some (data, contents) /\
        trusted st' (clean_repo_key repo_path) (sha_hex data) (shas_of contents) = true /\
        (st' = st /\ text = [] \/
         is_term = true /\ exists ans, answer = Some ans /\ affirmative ans = true)
  | Err _ => forall key sha shas, trusted st' key sha shas = trusted st key sha shas
  end /\ (is_term = false -> text = []).
Proof. exact (ensure_cases _ _ _ _ _ _ _ _ _ _ Hrun). Qed.

(** What is verified before a delegated job is what was approved.
    [VerifyApproved] accepts, with the store it loads, exactly when there is
    no configuration or the configuration and the anchors on disk are trusted;
    so it accepts right after [EnsureTrust] did, as long as the files are the
    same; and after an approval of some content it accepts a later state of
    the files only if that has the hash of the approved configuration and,
    for each approved anchor still there, the hash of its approved content. *)
Theorem verify_approved_tamper (now : Z) (fs : filesystem) (st : store) (repo_path cfg_path : gostring) :
  let verify fs st := verify_approved eval_symlinks abs_path parse_repo fs (Ok st) repo_path cfg_path in
  (verify fs st = Ok tt <->
     no_config fs cfg_path \/
     exists data contents, repo_state fs repo_path cfg_path = Some (data, contents) /\
       trusted st (clean_repo_key repo_path) (sha_hex data) (shas_of contents) = true) /\
  (forall is_term answer st' text,
     ensure_trust eval_symlinks abs_path parse_repo now fs st repo_path cfg_path is_term answer = (Ok tt, st', text) ->
     verify fs st' = Ok tt) /\
  (forall content contents st' sha data' contents',
     approve now st repo_path content contents = Ok (st', sha) ->
     verify fs st' = Ok tt -> repo_state fs repo_path cfg_path = Some (data', contents') ->
     sha_hex data' = sha_hex content /\
     forall rel b b', contents !! rel = Some b -> contents' !! rel = Some b' -> sha_hex b' = sha_hex b).
Proof.
  intros verify.
  assert (Hiff : forall st, verify fs st = Ok tt <->
     no_config fs cfg_path \/
     exists data contents, repo_state fs repo_path cfg_path = Some (data, contents) /\
       trusted st (clean_repo_key repo_path) (sha_hex data) (shas_of contents) = true).
  { intros st0. unfold verify, verify_approved, repo_state, no_config, trusted.
    destruct (read_path fs cfg_path) as [[data|]|]; [| tauto | naive_solver].
    destruct (is_empty data) eqn:Hd; [breflect; subst; tauto|]. breflect.
    destruct (read_anchors fs repo_path _) as [contents|]; cbn [mbind result_bind]; [|naive_solver].
    destruct (st0 !! _) as [e|]; [destruct (is_trusted _ _ _) eqn:Ht|]; naive_solver congruence. }
  split_and!; [apply Hiff | |].
  - intros is_term answer st' text He. apply Hiff.
    destruct (ensure_cases _ _ _ _ _ _ _ _ _ _ He) as [[[Hno _]|(d & c & ? & ? & _)] _]; [by left|].
    right. by exists d, c.
  - intros content contents st' sha data' contents' Ha Hv Hs. apply Hiff in Hv as [Hv|(d & c & Hs' & Ht)].
    + unfold repo_state, no_config in *. destruct Hv as [Hv|Hv]; rewrite Hv in Hs; done.
    + rewrite Hs in Hs'. injection Hs' as <- <-. apply approve_iff in Ha as (_ & _ & Hiff').
      apply Hiff' in Ht as [-> Hrel]. split; [done|]. intros rel b b' Hb Hb'.
      specialize (Hrel rel (sha_hex b')). rewrite Hb in Hrel. apply Hrel.
      unfold shas_of. by rewrite lookup_fmap, Hb'.
Qed.
End lemmas.

(** * A concrete repository *)
Module Example_.
#[local] Instance digest : Digest := fun s => "#"%char :: s.
Lemma digest_laws : @DigestLaws digest.
Proof. intros s. discriminate. Qed.
#[local] Instance lower : UnicodeCase := fun s => s.
#[local] Instance ranges : MapRange gostring := map_range_default.
Definition repo0 : repo :=
  Repo $"1" ∅ [] (RepoPaths [] [] []) empty_env [] [] [] [] [] empty_network
    (DelegatedTasks [] [] [] ∅) [$"Makefile"].
Definition fs0 (make : gostring) : filesystem :=
  <[$"/r/.keg.yaml" := FSFile (Some $"v: 1")]> {[$"/r/Makefile" := FSFile (Some make)]}.
Definition parse0 (_ : gostring) : option repo := Some repo0.
Definition same (p : gostring) : option gostring := Some p.
(** Asking on a terminal, with the answer YES. *)
Definition asked (st : store) : result trust_err unit * store * gostring :=
  ensure_trust same same parse0 5 (fs0 $"all:") st $"/r" $"/r/.keg.yaml" true (Some $" YES ").
Definition st0 : store := snd (fst (asked ∅)).
Lemma asked_ok : fst (fst (asked ∅)) = Ok tt.
Proof. vm_compute. reflexivity. Qed.
(** The same files verify, and changed anchors do not. *)
Example verify_ex :
  verify_approved same same parse0 (fs0 $"all:") (Ok st0) $"/r" $"/r/.keg.yaml" = Ok tt /\
  verify_approved same same parse0 (fs0 $"bad:") (Ok st0) $"/r" $"/r/.keg.yaml" = Err (UntrustedOrModified $"/r").
Proof. vm_compute. by split. Qed.

Lemma store_operations_trust_witness :
  trusted (revoke same same 7 st0 $"/r") $"/r" (sha_hex $"v: 1") ∅ = false /\
  trusted st0 $"/r" (sha_hex $"v: 1") ∅ = true.
Proof.
  destruct (@store_operations_trust digest digest_laws ranges map_range_default_laws same same 7 st0
              $"/r" $"v: 1" ∅) as (_ & _ & _ & Hr & _).
  split; [exact (Hr (sha_hex $"v: 1") ∅) | vm_compute; reflexivity].
Defined.
Lemma ensure_trust_sound_witness :
  fst (fst (asked ∅)) = Ok tt /\ trusted st0 $"/r" (sha_hex $"v: 1") {[$"Makefile" := sha_hex $"all:"]} = true.
Proof.
  split; [vm_compute; reflexivity|].
  assert (Hrun : ensure_trust same same parse0 5 (fs0 $"all:") ∅ $"/r" $"/r/.keg.yaml" true (Some $" YES ")
                 = (Ok tt, st0, snd (asked ∅))) by (vm_compute; reflexivity).
  destruct (@ensure_trust_sound digest digest_laws ranges map_range_default_laws same same parse0 lower
              5 (fs0 $"all:") ∅ $"/r" $"/r/.keg.yaml" true (Some $" YES ") (Ok tt) st0 (snd (asked ∅)) Hrun)
    as [[[[H|H] _]|(data & contents & Hs & Ht & _)] _]; [vm_compute in H; discriminate H.. |].
  assert (Hst : repo_state parse0 (fs0 $"all:") $"/r" $"/r/.keg.yaml" = Some ($"v: 1", {[$"Makefile" := $"all:"]}))
    by (vm_compute; reflexivity).
  rewrite Hst in Hs. injection Hs as <- <-. exact Ht.
Defined.
Lemma verify_approved_tamper_witness :
  verify_approved same same parse0 (fs0 $"all:") (Ok st0) $"/r" $"/r/.keg.yaml" = Ok tt.
Proof.
  destruct (@verify_approved_tamper digest digest_laws ranges map_range_default_laws same same parse0 lower
              5 (fs0 $"all:") ∅ $"/r" $"/r/.keg.yaml") as (_ & He & _).
  apply (He true (Some $" YES ") st0 (snd (asked ∅))). vm_compute. reflexivity.
Defined.
End Example_.
