(* ===== verification/Dns.v ===== *)
(** Egress channel B: the whitelist resolver of
    [internal/egress/dns/resolver.go].

    Messages, records and the upstream exchange belong to the miekg/dns
    library and are the class [DnsLib], of which the theorems assume nothing.
    A query is answered with bytes ([None] is the run-time panic of the
    last fallback), and leaves behind what was audited, which names were
    correlated with addresses, and which messages were sent upstream. *)
From S2P Require Import GoStrings GoNet Matcher ConfigTypes.
Local Open Scope go_scope.
Local Open Scope Z_scope.

Class DnsLib := {
  msg : Type;
  rr : Type;
  unpack : gostring -> option msg;
  pack : msg -> option gostring;
  question_names : msg -> list gostring;
  answer : msg -> list rr;
  set_answer : msg -> list rr -> msg;
  as_a : rr -> option ip;                     (* the address of an A record *)
  new_msg : msg;
  set_reply : msg -> msg;                     (* new(Msg).SetReply(q) *)
  set_rcode : msg -> Z -> msg;                (* new(Msg).SetRcode(q, rcode) *)
  with_id : Z -> msg -> msg;
  with_rcode : Z -> msg -> msg;
  with_response : msg -> msg;
  with_authoritative : msg -> msg;
  with_recursion_available : msg -> msg;
  new_a : gostring -> gostring -> option rr;  (* NewRR(Fqdn(name) + " 5 IN A " + text) *)
  exchange : gostring -> msg -> option msg }.
Definition RcodeFormatError : Z := 1.
Definition RcodeServerFailure : Z := 2.
Definition RcodeNameError : Z := 3.

Record resolver := Resolver {
  hosts : strmap; whitelist : list gostring; network_pol : option network_policy; upstream : gostring }.
Record handled {M : Type} := Handled {
  response : option gostring;
  audited : list (bool * gostring);
  correlated : list (gostring * list ip);
  forwarded : list (gostring * M) }.
Arguments handled : clear implicits.

(** * Static hosts *)
Definition parse_host_ip (s : gostring) : option ip :=
  a ← parse_ip s; Some (default a (to4 a)).
(** The loop over the wildcard patterns; [best] starts at -1. *)
Definition hosts_step (name : gostring) (st : Z * ip) (kv : gostring * gostring) : Z * ip :=
  let '(best, best_ip) := st in
  match wildcard_suffix kv.1 with
  | None => st
  | Some suffix =>
      if Z.of_nat (length suffix) <=? best then st
      else if matches_single_level name suffix then
        match parse_host_ip kv.2 with
        | None => st
        | Some a => (Z.of_nat (length suffix), a)
        end
      else st
  end.
Definition lookup_hosts `{MapRange gostring} (hosts : strmap) (name : gostring) : option ip :=
  match hosts !! name with
  | Some s => parse_host_ip s
  | None =>
      let '(best, best_ip) := fold_left (hosts_step name) (map_range hosts) (-1, []) in
      if 0 <=? best then Some best_ip else None
  end.

(** * Zones *)
Fixpoint match_zone `{UnicodeCase} (name : gostring) (patterns : list gostring) : bool :=
  match patterns with
  | [] => false
  | p :: rest =>
      let p := to_lower p in
      if is_empty p then match_zone name rest
      else if seqb p $"*" then true
      else if has_prefix p $"*." then
        let suffix := trim_prefix p $"*." in
        if seqb name suffix || has_suffix name ($"." ++ suffix) then true else match_zone name rest
      else if seqb name p || has_suffix name ($"." ++ p) then true else match_zone name rest
  end.

(** * Replies *)
Section resolve.
Context `{DnsLib, MapRange gostring, UnicodeCase}.
Definition id_of (wire : gostring) : option Z :=
  match wire with hi :: lo :: _ => Some (be16 hi lo) | _ => None end.
Definition must_pack (m : msg) (query : gostring) : option gostring :=
  match pack m with
  | Some wire => Some wire
  | None =>
      let fallback := with_rcode RcodeServerFailure (with_response new_msg) in
      let fallback := match id_of query with Some id => with_id id fallback | None => fallback end in
      match pack fallback with
      | Some wire => Some wire
      | None => match query with
                | q0 :: q1 :: _ => Some [q0; q1; Zbyte 130; Zbyte 3]
                | _ => None
                end
      end
  end.
Definition base_reply (query : gostring) (q : msg) : option msg :=
  id ← id_of query; Some (with_recursion_available (with_id id (set_rcode q RcodeNameError))).
Definition nxdomain (q : msg) (query : gostring) : option gostring :=
  m ← base_reply query q; must_pack m query.
Definition servfail (q : msg) (query : gostring) : option gostring :=
  m ← base_reply query q; must_pack (with_rcode RcodeServerFailure m) query.
Definition formerr (query : gostring) : option gostring :=
  let m := match id_of query with Some id => with_id id new_msg | None => new_msg end in
  must_pack (with_response (with_rcode RcodeFormatError m)) query.

(** [forward]: the address used and the packed answer. *)
Definition upstream_addr (r : resolver) : gostring :=
  match split_host_port (upstream r) with
  | Some _ => upstream r
  | None => join_host_port (upstream r) $"53"
  end.
Definition forward (r : resolver) (q : msg) : option gostring :=
  if is_empty (upstream r) then None
  else m ← exchange (upstream_addr r) q; pack m.

(** The loop over the upstream's answers: what stays, and the addresses. *)
Definition policy_ok (r : resolver) (a : ip) : bool :=
  match network_pol r with None => true | Some p => evaluate (Some p) (Some a) end.
Definition filter_answer (r : resolver) (st : list rr * list ip) (x : rr) : list rr * list ip :=
  let '(kept, ips) := st in
  match as_a x with
  | Some a => if policy_ok r a then (kept ++ [x], ips ++ [a]) else st
  | None => (kept ++ [x], ips)
  end.
Definition filter_answers (r : resolver) (l : list rr) : list rr * list ip :=
  fold_left (filter_answer r) l ([], []).

(** [HandleQuery]. *)
Definition query_name (q : gostring) : gostring := trim_suffix (to_lower q) $".".
Definition handle_query (r : resolver) (query : gostring) : handled msg :=
  match unpack query with
  | None => Handled msg (formerr query) [] [] []
  | Some q =>
      match question_names q with
      | [] => Handled msg (formerr query) [] [] []
      | first :: _ =>
          let name := query_name first in
          match lookup_hosts (hosts r) name with
          | Some a =>
              if negb (policy_ok r a) then Handled msg (nxdomain q query) [(false, name)] [] []
              else
                let m := with_authoritative (set_reply q) in
                let m := match new_a name (ip_string a) with
                         | Some x => set_answer m (answer m ++ [x])
                         | None => m
                         end in
                Handled msg (must_pack m query) [(true, name)] [] []
          | None =>
              if negb (match_zone name (whitelist r)) then Handled msg (nxdomain q query) [(false, name)] [] []
              else
                let sent := if is_empty (upstream r) then [] else [(upstream_addr r, q)] in
                match forward r q with
                | None => Handled msg (servfail q query) [(true, name)] [] sent
                | Some resp =>
                    match unpack resp with
                    | None => Handled msg (Some resp) [(true, name)] [] sent
                    | Some parsed =>
                        let '(kept, ips) := filter_answers r (answer parsed) in
                        if (0 <? length (answer parsed))%nat && (length kept =? 0)%nat
                        then Handled msg (nxdomain q query) [(true, name)] [] sent
                        else Handled msg (must_pack (set_answer parsed kept) query) [(true, name)]
                               (if (0 <? length ips)%nat then [(name, ips)] else []) sent
                    end
                end
          end
      end
  end.
End resolve.

(** * Lemmas *)
(** [name] is the zone [z] or below it. *)
Definition in_zone (name z : gostring) : Prop := name = z \/ exists l, name = l ++ $"." ++ z.
Lemma in_zone_spec name z : seqb name z || has_suffix name ($"." ++ z) = true <-> in_zone name z.
Proof.
  unfold in_zone. rewrite orb_true_iff, seqb_eq. split; intros [Hz|Hz]; auto; right.
  - apply has_suffix_true in Hz as [l ->]. by exists l.
  - destruct Hz as [l ->]. by rewrite has_suffix_app.
Qed.
(** What one whitelist entry accepts. *)
Definition zone_accepts (name p : gostring) : bool :=
  negb (is_empty p) && (seqb p $"*" || seqb name (trim_prefix p $"*.") || has_suffix name ($"." ++ trim_prefix p $"*.")).
Lemma match_zone_existsb `{UnicodeCase} name ps :
  match_zone name ps = existsb (fun p => zone_accepts name (to_lower p)) ps.
Proof.
  induction ps as [|p ps IH]; [done|]. cbn [match_zone existsb]. rewrite IH. unfold zone_accepts.
  destruct (is_empty (to_lower p)); [done|]. cbn [negb andb].
  destruct (seqb (to_lower p) $"*"); [done|]. cbn [orb].
  destruct (has_prefix (to_lower p) $"*.") eqn:Hp.
  - by destruct (seqb name _), (has_suffix name _).
  - unfold trim_prefix. rewrite Hp. by destruct (seqb name _), (has_suffix name _).
Qed.

(** The best wildcard entry: a candidate maps one label plus its suffix to an
    address. *)
Definition candidate (hosts : strmap) (name suffix : gostring) (a : ip) : Prop :=
  exists s, hosts !! ($"*." ++ suffix) = Some s /\ "*"%char ∉ suffix /\
    matches_single_level name suffix = true /\ parse_host_ip s = Some a.
Definition best_of (hosts : strmap) (name : gostring) (keys : list gostring) (st : Z * ip) : Prop :=
  (st.1 = -1 /\ forall suffix a, ($"*." ++ suffix) ∈ keys -> ~ candidate hosts name suffix a) \/
  (exists suffix, st.1 = Z.of_nat (length suffix) /\ candidate hosts name suffix st.2 /\
     forall suffix' a, ($"*." ++ suffix') ∈ keys -> candidate hosts name suffix' a ->
       (length suffix' <= length suffix)%nat).
Lemma hosts_step_best hosts name keys st k v :
  hosts !! k = Some v -> best_of hosts name keys st -> best_of hosts name (keys ++ [k]) (hosts_step name st (k, v)).
Proof.
  intros Hk Hb. destruct st as [best a0]. unfold hosts_step. cbn [fst snd].
  assert (Hskip : (forall suffix a, k = $"*." ++ suffix -> candidate hosts name suffix a -> Z.of_nat (length suffix) <= best) ->
                  best_of hosts name (keys ++ [k]) (best, a0)).
  { intros Hno. destruct Hb as [[Hm Hn]|(suffix & Hm & Hc & Hmax)]; cbn [fst snd] in *.
    - left. split; [done|]. intros suffix a [Hin|Hin%list_elem_of_singleton]%elem_of_app Hcand; [by eapply Hn|].
      specialize (Hno suffix a (eq_sym Hin) Hcand). lia.
    - right. exists suffix. split_and!; [done..|]. intros suffix' a [Hin|Hin%list_elem_of_singleton]%elem_of_app Hcand.
      + by eapply Hmax.
      + specialize (Hno suffix' a (eq_sym Hin) Hcand). lia. }
  destruct (wildcard_suffix k) as [suffix|] eqn:Hw.
  2:{ apply Hskip. intros suffix a -> (s & _ & Hs & _).
      by rewrite (proj2 (wildcard_suffix_some _ suffix)) in Hw. }
  apply wildcard_suffix_some in Hw as [-> Hstar].
  destruct (Z.leb_spec (Z.of_nat (length suffix)) best) as [Hle|Hgt].
  { apply Hskip. intros suffix' a Heq _. apply app_inv_head in Heq as <-. done. }
  destruct (matches_single_level name suffix) eqn:Hms.
  2:{ apply Hskip. intros suffix' a Heq (s & _ & _ & Hm & _). apply app_inv_head in Heq as <-. congruence. }
  destruct (parse_host_ip v) as [a|] eqn:Hp.
  2:{ apply Hskip. intros suffix' a Heq (s & Hs & _ & _ & Ha). apply app_inv_head in Heq as <-. congruence. }
  right. exists suffix. cbn [fst snd]. split_and!; [done | by exists v|].
  intros suffix' a' [Hin|Hin%list_elem_of_singleton]%elem_of_app Hcand.
  - destruct Hb as [[Hm Hn]|(sx & Hm & _ & Hmax)]; cbn [fst snd] in *; [by destruct (Hn suffix' a' Hin)|].
    specialize (Hmax suffix' a' Hin Hcand). lia.
  - apply app_inv_head in Hin as <-. lia.
Qed.
Lemma hosts_loop_best `{MapRangeLaws gostring} hosts name :
  best_of hosts name (map fst (map_range hosts)) (fold_left (hosts_step name) (map_range hosts) (-1, [])).
Proof.
  assert (Hl : forall k v, (k, v) ∈ map_range hosts -> hosts !! k = Some v) by (intros k v; apply map_range_elem).
  revert Hl. induction (map_range hosts) as [|[k v] l IH] using rev_ind; intros Hl.
  { left. split; [done|]. intros suffix a Hin. by apply not_elem_of_nil in Hin. }
  rewrite fold_left_app, map_app. cbn [fold_left map fst]. apply hosts_step_best.
  - apply Hl, elem_of_app. right. left.
  - apply IH. intros k' v' Hin. apply Hl, elem_of_app. by left.
Qed.

(** The answers that pass. *)
Section replies.
Context `{DnsLib, MapRange gostring, UnicodeCase}.
Definition passes (r : resolver) (x : rr) : bool :=
  match as_a x with Some a => policy_ok r a | None => true end.
Lemma filter_answers_spec r l :
  filter_answers r l = (List.filter (passes r) l, omap as_a (List.filter (passes r) l)).
Proof.
  unfold filter_answers. induction l as [|x l IH] using rev_ind; [done|].
  rewrite fold_left_app, IH, List.filter_app. cbn [fold_left filter_answer List.filter].
  assert (Hp : passes r x = match as_a x with Some a => policy_ok r a | None => true end) by done. rewrite Hp.
  destruct (as_a x) as [a|] eqn:Ha; [destruct (policy_ok r a)|].
  - rewrite omap_app. cbn [omap list_omap]. by rewrite Ha.
  - by rewrite app_nil_r.
  - rewrite omap_app. cbn [omap list_omap]. by rewrite Ha, app_nil_r.
Qed.
(** A reply to a query of at least two bytes is always made. *)
Lemma must_pack_some m query : (2 <= length query)%nat -> exists w, must_pack m query = Some w.
Proof.
  intros Hq. unfold must_pack. destruct (pack m); [by eexists|]. destruct (pack _); [by eexists|].
  destruct query as [|? [|? ?]]; cbn in Hq; [lia.. | by eexists].
Qed.
Lemma base_reply_some query q : (2 <= length query)%nat -> exists m, base_reply query q = Some m.
Proof. intros Hq. destruct query as [|? [|? ?]]; cbn in Hq; [lia.. | by eexists]. Qed.
Lemma nxdomain_some q query : (2 <= length query)%nat -> exists w, nxdomain q query = Some w.
Proof. intros Hq. unfold nxdomain. destruct (base_reply_some query q Hq) as [m ->]. by apply must_pack_some. Qed.
Lemma servfail_some q query : (2 <= length query)%nat -> exists w, servfail q query = Some w.
Proof. intros Hq. unfold servfail. destruct (base_reply_some query q Hq) as [m ->]. by apply must_pack_some. Qed.
Lemma handle_query_replies r query :
  (2 <= length query)%nat -> exists wire, response (handle_query r query) = Some wire.
Proof.
  intros Hq. unfold handle_query. repeat case_match; cbn [response];
    first [by apply must_pack_some | by apply nxdomain_some | by apply servfail_some | by eexists].
Qed.
Lemma forwarded_whitelisted r query addr q :
  (addr, q) ∈ forwarded (handle_query r query) ->
  unpack query = Some q /\ addr = upstream_addr r /\ upstream r <> [] /\
  exists first rest, question_names q = first :: rest /\ lookup_hosts (hosts r) (query_name first) = None /\
    match_zone (query_name first) (whitelist r) = true /\
    audited (handle_query r query) = [(true, query_name first)].
Proof.
  assert (Hsent : forall q0, (addr, q) ∈ (if is_empty (upstream r) then [] else [(upstream_addr r, q0)]) ->
            upstream r <> [] /\ addr = upstream_addr r /\ q0 = q).
  { intros q0. destruct (is_empty (upstream r)) eqn:He; intros Hin; [by apply not_elem_of_nil in Hin|].
    apply list_elem_of_singleton in Hin. injection Hin as -> ->. breflect. done. }
  unfold handle_query. destruct (unpack query) as [q0|]; [|intros Hin; by apply not_elem_of_nil in Hin].
  destruct (question_names q0) as [|first rest] eqn:Hn; [intros Hin; by apply not_elem_of_nil in Hin|]. cbv zeta.
  destruct (lookup_hosts (hosts r) (query_name first)) as [a|] eqn:Hh.
  { destruct (negb _); intros Hin; by apply not_elem_of_nil in Hin. }
  destruct (match_zone (query_name first) (whitelist r)) eqn:Hz; cbn [negb];
    [|intros Hin; by apply not_elem_of_nil in Hin].
  specialize (Hsent q0). set (sent := if is_empty _ then _ else _) in *. clearbody sent.
  repeat case_match; cbn [forwarded audited]; intros (He & -> & ->)%Hsent; split_and!; try done; by exists first, rest.
Qed.
Lemma correlated_permitted r query name ips a :
  (name, ips) ∈ correlated (handle_query r query) -> a ∈ ips -> policy_ok r a = true.
Proof.
  assert (Hkept : forall l kept ips', filter_answers r l = (kept, ips') -> a ∈ ips' -> policy_ok r a = true).
  { intros l kept ips'. rewrite filter_answers_spec. intros [= <- <-] (x & Hx & Hxa)%list_elem_of_omap.
    apply list_elem_of_In, filter_In in Hx as [_ Hp]. unfold passes in Hp. by rewrite Hxa in Hp. }
  unfold handle_query. repeat case_match; cbn [correlated]; intros Hin Ha;
    try (by apply not_elem_of_nil in Hin);
    apply list_elem_of_singleton in Hin; injection Hin as -> ->; by eapply Hkept.
Qed.
End replies.

(** * Properties *)
(** the DNS whitelist.  A name passes exactly when some lower-cased entry
    is "*", or names a zone (after a leading "*." if it has one) that the name
    equals or lies below, on a label boundary. *)
Theorem match_zone_iff `{UnicodeCase} (name : gostring) (patterns : list gostring) :
  match_zone name patterns = true <->
  exists p, p ∈ patterns /\ to_lower p <> [] /\
    (to_lower p = $"*" \/ in_zone name (trim_prefix (to_lower p) $"*.")).
Proof.
  rewrite match_zone_existsb, existsb_exists. setoid_rewrite <- list_elem_of_In.
  setoid_rewrite andb_true_iff. setoid_rewrite negb_true_iff. setoid_rewrite is_empty_false.
  setoid_rewrite <- orb_assoc. setoid_rewrite orb_true_iff at 1. setoid_rewrite seqb_eq at 1.
  setoid_rewrite in_zone_spec. done.
Qed.

(** static host mappings, whatever order the map is visited in.  An exact
    entry decides alone; otherwise the address is that of the wildcard entry
    with the longest suffix among those that have one label in front and a
    valid address, and there is none only when no such entry exists. *)
Theorem lookup_hosts_spec `{MapRangeLaws gostring} (hosts : strmap) (name : gostring) :
  match hosts !! name with
  | Some s => lookup_hosts hosts name = parse_host_ip s
  | None =>
      match lookup_hosts hosts name with
      | Some a => exists suffix, candidate hosts name suffix a /\
          forall suffix' a', candidate hosts name suffix' a' ->
            suffix' = suffix /\ a' = a \/ (length suffix' < length suffix)%nat
      | None => forall suffix a, ~ candidate hosts name suffix a
      end
  end.
Proof.
  unfold lookup_hosts. destruct (hosts !! name) as [s|]; [done|].
  pose proof (hosts_loop_best hosts name) as Hb. destruct (fold_left _ _ _) as [best a].
  assert (Hkey : forall suffix a, candidate hosts name suffix a -> ($"*." ++ suffix) ∈ map fst (map_range hosts)).
  { intros suffix a' (s & Hs & _). apply list_elem_of_fmap. exists ($"*." ++ suffix, s). split; [done|].
    by apply map_range_elem. }
  destruct Hb as [[Hm Hn]|(suffix & Hm & Hc & Hmax)]; cbn [fst snd] in *; subst best; cbn [Z.leb Z.compare].
  - intros suffix a' Hcand. by apply (Hn suffix a'); [eapply Hkey|].
  - rewrite (proj2 (Z.leb_le 0 _)) by lia. exists suffix. split; [done|]. intros suffix' a' Hcand.
    pose proof (Hmax suffix' a' (Hkey _ _ Hcand) Hcand) as Hle.
    destruct (decide (length suffix' = length suffix)) as [Heq|]; [|right; lia]. left.
    destruct Hc as (s & Hs & _ & Hms & Hp), Hcand as (s' & Hs' & _ & Hms' & Hp').
    apply matches_single_level_spec in Hms as (l & Hl & _), Hms' as (l' & Hl' & _).
    assert (suffix' = suffix) as ->; [|split; congruence]. rewrite Hl in Hl'.
    apply (f_equal (@rev _)) in Hl'. rewrite !rev_app_distr in Hl'. cbn [rev] in Hl'. rewrite <- !app_assoc in Hl'.
    apply app_inj_1 in Hl' as [Hrev _]; [|by rewrite !length_rev].
    apply (f_equal (@rev _)) in Hrev. by rewrite !rev_involutive in Hrev.
Qed.

(** C25: the resolver denies by default.  Nothing is sent upstream unless the
    first question's name has no static mapping and is whitelisted, and then
    it is the query itself, to the configured upstream.  A mapped name is never
    sent upstream: if the network policy permits the mapped address, the reply
    is the query's, authoritative, with the one A record of that address, and
    otherwise the name does not exist.  The answers that reach the guest are
    the upstream's, in order, without the A records the policy refuses, and if
    none is left the name does not exist; only permitted addresses are
    correlated with a name.  Every well-formed query is audited once, under
    the name decided on and with the decision, and every query of two bytes or
    more gets a reply. *)
Theorem resolver_denies_by_default `{DnsLib, MapRange gostring, UnicodeCase} (r : resolver) (query : gostring) :
  let out := handle_query r query in
  let permitted a := match network_pol r with None => true | Some p => evaluate (Some p) (Some a) end in
  (forall addr q, (addr, q) ∈ forwarded out ->
     unpack query = Some q /\ addr = upstream_addr r /\ upstream r <> [] /\
     exists first rest, question_names q = first :: rest /\ lookup_hosts (hosts r) (query_name first) = None /\
       match_zone (query_name first) (whitelist r) = true /\ audited out = [(true, query_name first)]) /\
  (forall name ips a, (name, ips) ∈ correlated out -> a ∈ ips -> permitted a = true) /\
  (forall q first rest, unpack query = Some q -> question_names q = first :: rest ->
     let name := query_name first in
     match lookup_hosts (hosts r) name with
     | Some a =>
         forwarded out = [] /\ correlated out = [] /\ audited out = [(permitted a, name)] /\
         response out =
           if permitted a then
             let m := with_authoritative (set_reply q) in
             must_pack (match new_a name (ip_string a) with Some x => set_answer m (answer m ++ [x]) | None => m end) query
           else nxdomain q query
     | None =>
         audited out = [(match_zone name (whitelist r), name)] /\
         (match_zone name (whitelist r) = false -> response out = nxdomain q query /\ forwarded out = []) /\
         (match_zone name (whitelist r) = true -> forward r q = None -> response out = servfail q query) /\
         forall resp parsed, match_zone name (whitelist r) = true -> forward r q = Some resp -> unpack resp = Some parsed ->
           let kept := List.filter (fun x => match as_a x with Some a => permitted a | None => true end) (answer parsed) in
           response out = if (0 <? length (answer parsed))%nat && (length kept =? 0)%nat then nxdomain q query
                          else must_pack (set_answer parsed kept) query
     end) /\
  ((2 <= length query)%nat -> exists wire, response out = Some wire).
Proof.
  cbv zeta. split_and!.
  - apply forwarded_whitelisted.
  - apply correlated_permitted.
  - intros q first rest Hq Hn. unfold handle_query. rewrite Hq, Hn. cbv zeta.
    destruct (lookup_hosts (hosts r) (query_name first)) as [a|] eqn:Hh.
    { fold (policy_ok r a). by destruct (policy_ok r a). }
    destruct (match_zone (query_name first) (whitelist r)) eqn:Hz; cbn [negb]; [|by split_and!].
    split_and!; [repeat case_match; done | done | by intros _ -> |].
    intros resp parsed _ -> ->. rewrite filter_answers_spec. fold (passes r). by destruct (_ && _).
  - apply handle_query_replies.
Qed.

(** * A concrete library *)
Module Example_.
(** A message is its question names and its records, [Some] being an A
    record; a reply with one A record is written with its address. *)
Definition wire_msg : Type := list gostring * list (option ip).
#[local] Instance lib : DnsLib := {|
  msg := wire_msg; rr := option ip;
  unpack w := if seqb w $"q1" then Some ([$"ok.org."; $"evil.net."], []) else
              if seqb w $"q2" then Some ([$"db.b.org."], []) else
              if seqb w $"r1" then Some ([$"ok.org."], [None; Some [10; 0; 0; 1]]) else None;
  pack m := Some (match m.2 with [] => $"xx" | [Some a] => $"A " ++ ip_string a | _ => $"r1" end);
  question_names m := m.1; answer m := m.2; set_answer m l := (m.1, l); as_a x := x;
  new_msg := ([], []); set_reply m := (m.1, []); set_rcode m _ := (m.1, []); with_id _ m := m;
  with_rcode _ m := m; with_response m := m; with_authoritative m := m; with_recursion_available m := m;
  new_a _ text := option_map Some (parse_host_ip text); exchange _ _ := Some ([], [None; Some [10; 0; 0; 1]]) |}.
#[local] Instance lower : UnicodeCase := fun s => s.
#[local] Instance ranges : MapRange gostring := map_range_default.
Definition r0 : resolver :=
  Resolver ∅ [$"ok.org"] (Some (NetworkPolicy [CIDRRule (IPNet [10; 0; 0; 0] 8 4) ActionBlock 8] false false))
    $"192.0.2.1".
(** A query with a second, not whitelisted question is sent upstream whole;
    only A records are held against the network policy. *)
Example second_question_forwarded :
  forwarded (handle_query r0 $"q1") = [($"192.0.2.1:53", ([$"ok.org."; $"evil.net."], []))] /\
  filter_answers r0 [None; Some [10; 0; 0; 1]] = ([None], []).
Proof. vm_compute. by split. Qed.
(** A mapped name: answered with the mapped address without a policy, and not
    at all under one that blocks it. *)
Definition mapped (pol : option network_policy) : resolver :=
  Resolver {[$"*.b.org" := $"10.0.0.1"]} [] pol $"192.0.2.1".
Lemma resolver_denies_by_default_witness :
  response (handle_query (mapped None) $"q2") = Some ($"A 10.0.0.1") /\
  audited (handle_query (mapped (network_pol r0)) $"q2") = [(false, $"db.b.org")].
Proof.
  pose proof (resolver_denies_by_default (mapped None) $"q2") as H1.
  pose proof (resolver_denies_by_default (mapped (network_pol r0)) $"q2") as H2.
  destruct H1 as (_ & _ & H1 & _), H2 as (_ & _ & H2 & _).
  specialize (H1 ([$"db.b.org."], []) ($"db.b.org.") [] eq_refl eq_refl).
  specialize (H2 ([$"db.b.org."], []) ($"db.b.org.") [] eq_refl eq_refl). cbv zeta in H1, H2.
  assert (Hl : forall pol, lookup_hosts (hosts (mapped pol)) (query_name $"db.b.org.") = Some [10; 0; 0; 1]) by (intros pol; vm_compute; reflexivity).
  rewrite Hl in H1, H2. destruct H1 as (_ & _ & _ & H1), H2 as (_ & _ & H2 & _). split.
  - etransitivity; [exact H1 | vm_compute; reflexivity].
  - etransitivity; [exact H2 | vm_compute; reflexivity].
Defined.
End Example_.
Definition sample_hosts : strmap :=
  <[$"*.b.org" := $"10.0.0.1"]> (<[$"*.org" := $"10.0.0.2"]> {[$"*.x.b.org" := $"not an address"]}).
Lemma lookup_hosts_spec_witness :
  @lookup_hosts map_range_default sample_hosts $"a.b.org" = Some [10; 0; 0; 1] /\
  exists suffix, candidate sample_hosts $"a.b.org" suffix [10; 0; 0; 1].
Proof.
  assert (Hl : @lookup_hosts map_range_default sample_hosts $"a.b.org" = Some [10; 0; 0; 1]) by (vm_compute; reflexivity).
  split; [exact Hl|].
  pose proof (@lookup_hosts_spec map_range_default map_range_default_laws sample_hosts $"a.b.org") as Hs.
  assert (Hn : sample_hosts !! $"a.b.org" = None) by (vm_compute; reflexivity).
  rewrite Hn, Hl in Hs. destruct Hs as (suffix & Hc & _). exists suffix. exact Hc.
Defined.
