(* ===== verification/DnsBridge.v ===== *)
(** Egress channel B between the guest and the resolver:
    [internal/egress/dns/bridge.go].

    [exchange_stream] is one exchange over a stream of the channel, bytes and
    frames included; the transport may end either direction anywhere.  [step]
    is the bridge: its two loops, the goroutine of each datagram and of each
    connection, its clients, and [Close].  A step is an operation that blocks
    until it is possible; [Close] is cut where it waits.  The multiplexed
    session belongs to the muxado library and is the fate of a stream. *)
From S2P Require Import GoStrings ConfigTypes Frame Matcher Dns.
Local Open Scope go_scope.

(** A loop: blocked in its read, or back from it with something whose
    goroutine is not counted yet, or over, with or without an error. *)
Inductive loop (A : Type) := Blocked | Took (x : A) | Over (failed : bool).
Arguments Blocked {A}. Arguments Took {A} x. Arguments Over {A} failed.

Section bridge.
Context `{DnsLib, MapRange gostring, UnicodeCase} (r : resolver).

(** * One exchange *)
(** A stream: whether it opens, whether the query is written without an
    error, and how many bytes of each direction arrive. *)
Record fate := Fate { ft_open : bool; ft_written : bool; ft_up : nat; ft_down : nat }.
(** The goroutine of [Serve] for a stream that delivers [input]: what it
    writes.  (The resolver has a reply for every query that it can unpack.) *)
Definition serve_stream (input : gostring) : gostring :=
  match @read_frame Empty_set input with
  | Err _ => []
  | Ok (query, _) =>
      match response (handle_query r query) with
      | None => []
      | Some resp => match write_frame append_write [] resp with Ok bytes => bytes | Err _ => [] end
      end
  end.
(** [exchange], [None] for nil. *)
Definition exchange_stream (o : fate) (query : gostring) : option gostring :=
  if negb (ft_open o) then None
  else match write_frame append_write [] query with
       | Err _ => None
       | Ok sent =>
           if negb (ft_written o) then None
           else match @read_frame Empty_set (take (ft_down o) (serve_stream (take (ft_up o) sent))) with
                | Ok (resp, _) => Some resp
                | Err _ => None
                end
       end.

(** * The bridge *)
(** A connection: what the client sent and the goroutine has not read, with
    what it read before; whether the client is done; what was written to it. *)
Inductive phase := Reading | Exchanging (query : gostring) | Finished.
Record conn := Conn {
  cn_queries : list gostring; cn_unread : gostring; cn_eof : bool; cn_phase : phase; cn_out : gostring }.
Inductive closing := Open | Waiting | Returned.
(** [br_waiting] and [br_serving] are the goroutines that the wait group
    counts, by datagram and by connection. *)
Record bridge := Bridge {
  br_stopped : bool; br_udp_open : bool; br_tcp_open : bool;
  br_udp_loop : loop (gostring * gostring); br_tcp_loop : loop nat;
  br_datagrams : list (gostring * gostring); br_waiting : gset nat; br_replies : list (nat * gostring);
  br_conns : list conn; br_serving : gset nat; br_close : closing }.
Definition new_bridge : bridge := Bridge false true true Blocked Blocked [] ∅ [] [] ∅ Open.
Inductive bridge_event :=
  | Datagram (from query : gostring) | CountDatagram | UdpReadFails | UdpExchanged (i : nat) (o : fate) (sent : bool)
  | Accepted | CountConn | AcceptFails
  | ClientSends (i : nat) (bytes : gostring) | ClientCloses (i : nat)
  | ReadsQuery (i : nat) | ReadFails (i : nat) | TcpExchanged (i : nat) (o : fate) (failed : option nat)
  | CloseCalled | CloseReturns.

Definition with_udp (l : loop (gostring * gostring)) (b : bridge) : bridge :=
  Bridge (br_stopped b) (br_udp_open b) (br_tcp_open b) l (br_tcp_loop b) (br_datagrams b) (br_waiting b) (br_replies b)
    (br_conns b) (br_serving b) (br_close b).
Definition with_datagrams (ds : list (gostring * gostring)) (w : gset nat) (rs : list (nat * gostring)) (b : bridge) : bridge :=
  Bridge (br_stopped b) (br_udp_open b) (br_tcp_open b) (br_udp_loop b) (br_tcp_loop b) ds w rs
    (br_conns b) (br_serving b) (br_close b).
Definition with_tcp (l : loop nat) (cs : list conn) (s : gset nat) (b : bridge) : bridge :=
  Bridge (br_stopped b) (br_udp_open b) (br_tcp_open b) (br_udp_loop b) l (br_datagrams b) (br_waiting b) (br_replies b)
    cs s (br_close b).
Definition with_conn (i : nat) (c : conn) (b : bridge) : bridge :=
  with_tcp (br_tcp_loop b) (<[i := c]> (br_conns b)) (br_serving b) b.
(** The goroutine of the connection returns: the connection is closed. *)
Definition finish_conn (i : nat) (c : conn) (out : gostring) (b : bridge) : bridge :=
  with_tcp (br_tcp_loop b) (<[i := Conn (cn_queries c) (cn_unread c) (cn_eof c) Finished out]> (br_conns b)) (br_serving b ∖ {[i]}) b.
Definition close_bridge (stopped udp tcp : bool) (c : closing) (b : bridge) : bridge :=
  Bridge stopped udp tcp (br_udp_loop b) (br_tcp_loop b) (br_datagrams b) (br_waiting b) (br_replies b)
    (br_conns b) (br_serving b) c.

(** The loop of [serveUDP] and the goroutine of a datagram; a reply is only
    sent while the socket is open. *)
Definition step_udp (e : bridge_event) (b : bridge) : option bridge :=
  match e with
  | Datagram from query =>
      match br_udp_loop b with
      | Blocked => if br_udp_open b && (Z.of_nat (length query) <=? max_size)%Z then Some (with_udp (Took (from, query)) b) else None
      | _ => None
      end
  | CountDatagram =>
      match br_udp_loop b with
      | Took d => Some (with_udp Blocked (with_datagrams (br_datagrams b ++ [d]) ({[length (br_datagrams b)]} ∪ br_waiting b) (br_replies b) b))
      | _ => None
      end
  | UdpReadFails =>
      match br_udp_loop b with Blocked => Some (with_udp (Over (br_udp_open b && negb (br_stopped b))) b) | _ => None end
  | UdpExchanged i o sent =>
      d ← br_datagrams b !! i;
      if decide (i ∈ br_waiting b) then
        let replies := match exchange_stream o (snd d) with
                       | Some resp => if br_udp_open b && sent then br_replies b ++ [(i, resp)] else br_replies b
                       | None => br_replies b
                       end in
        Some (with_datagrams (br_datagrams b) (br_waiting b ∖ {[i]}) replies b)
      else None
  | _ => None
  end.
(** The loop of [serveTCP], its clients and the goroutine of a connection. *)
Definition serving (i : nat) (b : bridge) : option conn :=
  if decide (i ∈ br_serving b) then br_conns b !! i else None.
Definition step_tcp (e : bridge_event) (b : bridge) : option bridge :=
  match e with
  | Accepted =>
      match br_tcp_loop b with
      | Blocked =>
          if br_tcp_open b
          then Some (with_tcp (Took (length (br_conns b))) (br_conns b ++ [Conn [] [] false Reading []]) (br_serving b) b)
          else None
      | _ => None
      end
  | CountConn =>
      match br_tcp_loop b with Took i => Some (with_tcp Blocked (br_conns b) ({[i]} ∪ br_serving b) b) | _ => None end
  | AcceptFails =>
      match br_tcp_loop b with
      | Blocked => Some (with_tcp (Over (br_tcp_open b && negb (br_stopped b))) (br_conns b) (br_serving b) b)
      | _ => None
      end
  | ClientSends i bytes =>
      c ← br_conns b !! i;
      if cn_eof c then None
      else Some (with_conn i (Conn (cn_queries c) (cn_unread c ++ bytes) (cn_eof c) (cn_phase c) (cn_out c)) b)
  | ClientCloses i =>
      c ← br_conns b !! i; Some (with_conn i (Conn (cn_queries c) (cn_unread c) true (cn_phase c) (cn_out c)) b)
  | ReadsQuery i =>
      c ← serving i b;
      match cn_phase c, @read_frame Empty_set (cn_unread c) with
      | Reading, Ok (query, rest) =>
          Some (with_conn i (Conn (cn_queries c ++ [query]) rest (cn_eof c) (Exchanging query) (cn_out c)) b)
      | _, _ => None
      end
  | ReadFails i =>
      c ← serving i b;
      match cn_phase c, @read_frame Empty_set (cn_unread c) with
      | Reading, Err _ => if cn_eof c then Some (finish_conn i c (cn_out c) b) else None
      | _, _ => None
      end
  | TcpExchanged i o failed =>
      c ← serving i b;
      match cn_phase c with
      | Exchanging query =>
          match exchange_stream o query with
          | None => Some (finish_conn i c (cn_out c) b)
          | Some resp =>
              match failed with
              | Some k => Some (finish_conn i c (cn_out c ++ take k (frame_bytes resp)) b)
              | None => Some (with_conn i (Conn (cn_queries c) (cn_unread c) (cn_eof c) Reading (cn_out c ++ frame_bytes resp)) b)
              end
          end
      | _ => None
      end
  | _ => None
  end.
(** [Close] closes the channel and the two sockets, and returns when the wait
    group is empty. *)
Definition step_close (e : bridge_event) (b : bridge) : option bridge :=
  match e, br_close b with
  | CloseCalled, Open => Some (close_bridge true false false Waiting b)
  | CloseReturns, Waiting =>
      if decide (br_waiting b = ∅ /\ br_serving b = ∅) then Some (close_bridge (br_stopped b) false false Returned b) else None
  | _, _ => None
  end.
Definition step (e : bridge_event) (b : bridge) : option bridge :=
  match e with
  | Datagram _ _ | CountDatagram | UdpReadFails | UdpExchanged _ _ _ => step_udp e b
  | CloseCalled | CloseReturns => step_close e b
  | _ => step_tcp e b
  end.
Fixpoint run_bridge (b : bridge) (es : list bridge_event) : option bridge :=
  match es with [] => Some b | e :: es => b' ← step e b; run_bridge b' es end.
(** What [Bridge.Serve] returns once both loops are over: whether an error. *)
Definition serve_result (b : bridge) : option bool :=
  match br_udp_loop b, br_tcp_loop b with Over x, Over y => Some (x || y) | _, _ => None end.
End bridge.

(** * Lemmas: frames *)
Lemma put_be16_be16 h l : put_be16 (be16 h l) = [h; l].
Proof.
  unfold put_be16, be16. pose proof (byteZ_bound h). pose proof (byteZ_bound l).
  rewrite Z.div_add_l, (Z.div_small (byteZ l)), Z.add_0_r by lia.
  f_equal; [apply Zbyte_byteZ|]. f_equal. apply byteZ_inj.
  rewrite byteZ_Zbyte, Z.add_comm, Z.mod_add, Z.mod_small by lia. done.
Qed.
Lemma read_full_ok n s a b : read_full n s = Ok (a, b) -> s = a ++ b /\ length a = n.
Proof.
  unfold read_full. destruct (Nat.leb_spec n (length s)) as [Hn|]; [|done]. intros [= <- <-].
  split; [by rewrite take_drop | rewrite length_take; lia].
Qed.
(** What is read as a frame was a frame. *)
Lemma read_frame_ok {E} s query rest :
  @read_frame E s = Ok (query, rest) -> s = frame_bytes query ++ rest /\ (Z.of_nat (length query) <= max_size)%Z.
Proof.
  unfold read_frame. destruct (read_full 2 s) as [[head r1]|] eqn:Hh; [|done]. apply read_full_ok in Hh as [-> Hl].
  destruct head as [|h [|l [|]]]; try done. pose proof (be16_bound h l) as Hb.
  destruct (read_full _ r1) as [[payload r2]|] eqn:Hp; [|done]. apply read_full_ok in Hp as [-> Hn]. intros [= <- <-].
  assert (Hlen : Z.of_nat (length payload) = be16 h l) by lia. unfold frame_bytes. rewrite Hlen, put_be16_be16. split; [done|].
  unfold max_size. lia.
Qed.
Lemma write_frame_append w b :
  write_frame append_write w b = if (max_size <? Z.of_nat (length b))%Z then Err (TooLarge (Z.of_nat (length b))) else Ok (w ++ frame_bytes b).
Proof. unfold write_frame, append_write. by destruct (_ <? _)%Z. Qed.
(** A frame that is cut is not another frame. *)
Lemma read_frame_prefix {E} n b query rest :
  (Z.of_nat (length b) <= max_size)%Z -> @read_frame E (take n (frame_bytes b)) = Ok (query, rest) -> query = b.
Proof.
  intros Hb [Ht Hq]%read_frame_ok. assert (Hf : frame_bytes b = frame_bytes query ++ rest ++ drop n (frame_bytes b))
    by (rewrite app_assoc, <- Ht; by rewrite take_drop).
  revert Hf. generalize (rest ++ drop n (frame_bytes b)). intros tail Hf.
  pose proof (read_frame_app (E := E) b [] Hb) as Hr. rewrite app_nil_r, Hf, read_frame_app in Hr by done. by injection Hr as <- _.
Qed.
Lemma read_frame_all {E} n b :
  (Z.of_nat (length b) <= max_size)%Z -> length (frame_bytes b) <= n -> @read_frame E (take n (frame_bytes b)) = Ok (b, []).
Proof.
  intros Hb Hn. rewrite take_ge by done. rewrite <- (app_nil_r (frame_bytes b)). by apply read_frame_app.
Qed.

Section bridge_lemmas.
Context `{DnsLib, MapRange gostring, UnicodeCase} (r : resolver).
(** What the resolver answers to a query. *)
Definition answers (query resp : gostring) : Prop := response (handle_query r query) = Some resp.
Lemma serve_stream_take n query :
  (Z.of_nat (length query) <= max_size)%Z ->
  serve_stream r (take n (frame_bytes query)) = [] \/
  exists resp, answers query resp /\ (Z.of_nat (length resp) <= max_size)%Z /\ serve_stream r (take n (frame_bytes query)) = frame_bytes resp.
Proof.
  intros Hq. unfold serve_stream. destruct (read_frame _) as [[q rest]|] eqn:Hr; [|by left].
  apply read_frame_prefix in Hr as ->; [|done]. destruct (response _) as [resp|] eqn:Ha; [|by left].
  rewrite write_frame_append. destruct (Z.ltb_spec max_size (Z.of_nat (length resp))); [by left|]. right. by exists resp.
Qed.
(** Whatever the transport does, an exchange has the resolver's answer to this
    very query, or none. *)
Lemma exchange_sound o query resp : exchange_stream r o query = Some resp -> answers query resp.
Proof.
  unfold exchange_stream. destruct (ft_open o); [|done]. cbn [negb]. rewrite write_frame_append.
  destruct (Z.ltb_spec max_size (Z.of_nat (length query))); [done|]. destruct (ft_written o); [|done]. cbn [negb app].
  destruct (serve_stream_take (ft_up o) query) as [->|(a & Ha & Hl & ->)]; [done | by rewrite take_nil |].
  destruct (read_frame _) as [[x rest]|] eqn:Hr; [|done]. intros [= <-]. by apply read_frame_prefix in Hr as ->.
Qed.
Lemma exchange_complete o query resp :
  ft_open o = true -> ft_written o = true -> answers query resp ->
  (Z.of_nat (length query) <= max_size)%Z -> (Z.of_nat (length resp) <= max_size)%Z ->
  length (frame_bytes query) <= ft_up o -> length (frame_bytes resp) <= ft_down o ->
  exchange_stream r o query = Some resp.
Proof.
  intros Ho Hw Ha Hq Hr Hu Hd. unfold exchange_stream. rewrite Ho, Hw, write_frame_append. cbn [negb].
  destruct (Z.ltb_spec max_size (Z.of_nat (length query))); [lia|]. cbn [app]. unfold serve_stream.
  rewrite read_frame_all by done. unfold answers in Ha. rewrite Ha, write_frame_append.
  destruct (Z.ltb_spec max_size (Z.of_nat (length resp))); [lia|]. cbn [app]. by rewrite read_frame_all.
Qed.
End bridge_lemmas.

(** * Lemmas: the bridge *)
Definition datagrams_of (es : list bridge_event) : list (gostring * gostring) :=
  omap (fun e => match e with Datagram from query => Some (from, query) | _ => None end) es.
(** What the client of a connection has sent. *)
Definition client_bytes (i : nat) (es : list bridge_event) : gostring :=
  concat (map (fun e => match e with ClientSends j bytes => if i =? j then bytes else [] | _ => [] end) es).
Definition frames (l : list gostring) : gostring := concat (map frame_bytes l).
Arguments frames : simpl never.
Arguments client_bytes : simpl never.
(** What is left to do once nothing comes in any more. *)
Definition own (e : bridge_event) : bool :=
  match e with Datagram _ _ | Accepted | ClientSends _ _ | ClientCloses _ | CloseCalled => false | _ => true end.
Definition conn_weight (c : conn) : nat :=
  match cn_phase c with
  | Finished => 0 | Reading => 2 * length (cn_unread c) + 1 | Exchanging _ => 2 * length (cn_unread c) + 2
  end.
Section invariant.
Context `{DnsLib, MapRange gostring, UnicodeCase} (r : resolver).
Definition conn_ok (sent : gostring) (c : conn) : Prop :=
  sent = frames (cn_queries c) ++ cn_unread c /\
  exists qs tail resps, cn_queries c = qs ++ tail /\ Forall2 (answers r) qs resps /\
    match cn_phase c with
    | Reading => tail = [] /\ cn_out c = frames resps
    | Exchanging query => tail = [query] /\ cn_out c = frames resps
    | Finished => cn_out c `prefix_of` frames resps
    end.
Definition replies_ok (b : bridge) : Prop :=
  NoDup (map fst (br_replies b)) /\
  forall i resp, (i, resp) ∈ br_replies b -> i ∉ br_waiting b /\
    exists from query, br_datagrams b !! i = Some (from, query) /\ answers r query resp.
Record bridge_inv (es : list bridge_event) (b : bridge) : Prop := BridgeInv {
  bi_datagrams : datagrams_of es = br_datagrams b ++ match br_udp_loop b with Took d => [d] | _ => [] end;
  bi_waiting : forall i, i ∈ br_waiting b -> i < length (br_datagrams b);
  bi_replies : replies_ok b;
  bi_conns : forall i c, br_conns b !! i = Some c -> conn_ok (client_bytes i es) c;
  bi_silent : forall i, length (br_conns b) <= i -> client_bytes i es = [];
  bi_serving : forall i, i ∈ br_serving b -> exists c, br_conns b !! i = Some c /\ cn_phase c <> Finished;
  bi_took : forall i, br_tcp_loop b = Took i -> i ∉ br_serving b /\ exists c, br_conns b !! i = Some c /\ cn_phase c <> Finished }.

Lemma datagrams_snoc es e : datagrams_of (es ++ [e]) = datagrams_of es ++ datagrams_of [e].
Proof. apply omap_app. Qed.
Lemma client_bytes_snoc i es e : client_bytes i (es ++ [e]) = client_bytes i es ++ client_bytes i [e].
Proof. unfold client_bytes. by rewrite map_app, concat_app. Qed.
Lemma frames_snoc l x : frames (l ++ [x]) = frames l ++ frame_bytes x.
Proof. unfold frames. rewrite map_app, concat_app. cbn. by rewrite app_nil_r. Qed.
Lemma new_bridge_inv : bridge_inv [] new_bridge.
Proof. split; cbn; try done; try set_solver. split; [constructor | set_solver]. Qed.

(** The steps of the datagram side keep the connections, and the other way
    round. *)
(** What a step of the datagram side does. *)
Lemma step_udp_cases e b b' :
  step_udp r e b = Some b' ->
  (exists from query, e = Datagram from query /\ br_udp_loop b = Blocked /\ br_udp_open b = true /\
     b' = with_udp (Took (from, query)) b) \/
  (exists d, e = CountDatagram /\ br_udp_loop b = Took d /\
     b' = with_udp Blocked (with_datagrams (br_datagrams b ++ [d]) ({[length (br_datagrams b)]} ∪ br_waiting b) (br_replies b) b)) \/
  (exists failed, e = UdpReadFails /\ br_udp_loop b = Blocked /\ b' = with_udp (Over failed) b) \/
  (exists i o sent d replies, e = UdpExchanged i o sent /\ br_datagrams b !! i = Some d /\ i ∈ br_waiting b /\
     b' = with_datagrams (br_datagrams b) (br_waiting b ∖ {[i]}) replies b /\
     (replies = br_replies b \/
      exists resp, answers r d.2 resp /\ br_udp_open b = true /\ replies = br_replies b ++ [(i, resp)])).
Proof.
  unfold step_udp. destruct e as [from query| | |i o sent| | | | | | | | | |]; try done.
  - destruct (br_udp_loop b); try done. destruct (br_udp_open b); [|done]. destruct (_ && _); [|done]. intros [= <-]. left. by exists from, query.
  - destruct (br_udp_loop b) as [|d|]; try done. intros [= <-]. right. left. eauto.
  - destruct (br_udp_loop b); try done. intros [= <-]. do 2 right. left. eauto.
  - intros (d & Hd & Hs)%bind_Some. destruct (decide _) as [Hi|]; [|done]. injection Hs as <-. do 3 right.
    eexists i, o, sent, d, _. split_and!; try done. destruct (exchange_stream r o d.2) as [resp|] eqn:Hx; [|by left].
    destruct (br_udp_open b) eqn:Ho, sent; try (by left). right. exists resp. split_and!; try done. by eapply exchange_sound.
Qed.
Lemma step_udp_rest e b b' :
  step_udp r e b = Some b' ->
  br_conns b' = br_conns b /\ br_serving b' = br_serving b /\ br_tcp_loop b' = br_tcp_loop b /\
  br_close b' = br_close b /\ br_udp_open b' = br_udp_open b /\ br_tcp_open b' = br_tcp_open b /\ br_stopped b' = br_stopped b.
Proof.
  intros [(? & ? & -> & _ & _ & ->)|[(? & -> & _ & ->)|[(? & -> & _ & ->)|(? & ? & ? & ? & ? & -> & _ & _ & -> & _)]]]%step_udp_cases;
    by split_and!.
Qed.
Lemma client_bytes_udp i e b b' : step_udp r e b = Some b' -> client_bytes i [e] = [].
Proof. by destruct e. Qed.
Lemma step_udp_inv es e b b' : step_udp r e b = Some b' -> bridge_inv es b -> bridge_inv (es ++ [e]) b'.
Proof.
  intros Hs [Hd Hw [Hnd Hr] Hcs Hsi Hse Hto].
  assert (Hcb : forall i, client_bytes i (es ++ [e]) = client_bytes i es)
    by (intros i; by rewrite client_bytes_snoc, (client_bytes_udp i _ _ _ Hs), app_nil_r).
  destruct (step_udp_rest _ _ _ Hs) as (Hb1 & Hb2 & Hb3 & _).
  split; rewrite ?Hb1, ?Hb2, ?Hb3; try setoid_rewrite Hcb; try done; clear Hcs Hsi Hse Hto Hb1 Hb2 Hb3 Hcb.
  - rewrite datagrams_snoc, Hd. apply step_udp_cases in Hs
      as [(? & ? & -> & Hl & _ & ->)|[(? & -> & Hl & ->)|[(? & -> & Hl & ->)|(? & ? & ? & ? & ? & -> & _ & _ & -> & _)]]];
      rewrite ?Hl; cbn; by rewrite ?app_nil_r.
  - apply step_udp_cases in Hs
      as [(? & ? & -> & Hl & _ & ->)|[(? & -> & Hl & ->)|[(? & -> & Hl & ->)|(? & ? & ? & ? & ? & -> & _ & _ & -> & _)]]]; cbn; try done.
    + intros i [->%elem_of_singleton|Hi%Hw]%elem_of_union; rewrite length_app; cbn; lia.
    + intros i [Hi%Hw _]%elem_of_difference. done.
  - apply step_udp_cases in Hs
      as [(? & ? & -> & Hl & _ & ->)|[(d & -> & Hl & ->)|[(? & -> & Hl & ->)|(i & o & sent & d & rs & -> & Hi & Hiw & -> & Hrs)]]];
      split; cbn; try done.
    + intros j resp (Hj & from & query & Hjd & Ha)%Hr. pose proof (lookup_lt_Some _ _ _ Hjd) as Hlt. split.
      * intros [->%elem_of_singleton|?]%elem_of_union; [lia | done].
      * exists from, query. by rewrite lookup_app_l.
    + destruct Hrs as [->|(resp & _ & _ & ->)]; [done|]. rewrite map_app, NoDup_app. cbn [map fst]. split_and!; [done| |apply NoDup_singleton].
      intros x Hx ->%list_elem_of_singleton. apply list_elem_of_fmap in Hx as ([y z] & -> & Hy). apply Hr in Hy as [Hy _]. by destruct Hy.
    + intros j resp Hj.
      assert (Hold : (j, resp) ∈ br_replies b -> j ∉ br_waiting b ∖ {[i]} /\
        exists from query, br_datagrams b !! j = Some (from, query) /\ answers r query resp)
        by (intros (Hn & Hx)%Hr; split; [set_solver | done]).
      destruct Hrs as [->|(x & Hx & _ & ->)]; [by apply Hold|]. apply elem_of_app in Hj as [Hj|Hj]; [by apply Hold|].
      apply list_elem_of_singleton in Hj. injection Hj as -> ->. split; [set_solver|]. destruct d as [from query]. by exists from, query.
Qed.

(** What a step of the connection side does: to the loop, or to one
    connection. *)
Definition conn_step (e : bridge_event) (b b' : bridge) : Prop :=
  exists i c c' s', br_conns b !! i = Some c /\ b' = with_tcp (br_tcp_loop b) (<[i := c']> (br_conns b)) s' b /\
    (forall j, j <> i -> client_bytes j [e] = []) /\
    (forall sent, conn_ok sent c -> conn_ok (sent ++ client_bytes i [e]) c') /\
    (s' = br_serving b /\ (cn_phase c' = Finished <-> cn_phase c = Finished) \/
     i ∈ br_serving b /\ s' = br_serving b ∖ {[i]} /\ cn_phase c' = Finished) /\
    (own e = true -> conn_weight c' < conn_weight c /\ cn_eof c' = cn_eof c).
Definition loop_step (e : bridge_event) (b b' : bridge) : Prop :=
  (forall i, client_bytes i [e] = []) /\
  (e = Accepted /\ br_tcp_loop b = Blocked /\ br_tcp_open b = true /\
     b' = with_tcp (Took (length (br_conns b))) (br_conns b ++ [Conn [] [] false Reading []]) (br_serving b) b \/
   (exists i, e = CountConn /\ br_tcp_loop b = Took i /\ b' = with_tcp Blocked (br_conns b) ({[i]} ∪ br_serving b) b) \/
   exists failed, e = AcceptFails /\ br_tcp_loop b = Blocked /\ b' = with_tcp (Over failed) (br_conns b) (br_serving b) b).
Lemma serving_some i b c : serving i b = Some c -> i ∈ br_serving b /\ br_conns b !! i = Some c.
Proof. unfold serving. by destruct (decide _). Qed.
Lemma client_bytes_own i bytes : client_bytes i [ClientSends i bytes] = bytes.
Proof. unfold client_bytes. cbn. by rewrite Nat.eqb_refl, app_nil_r. Qed.
Lemma client_bytes_other i j bytes : j <> i -> client_bytes j [ClientSends i bytes] = [].
Proof. intros Hn. unfold client_bytes. cbn. by destruct (Nat.eqb_spec j i). Qed.
Lemma conn_ok_reads sent c query rest :
  cn_phase c = Reading -> @read_frame Empty_set (cn_unread c) = Ok (query, rest) -> conn_ok sent c ->
  conn_ok sent (Conn (cn_queries c ++ [query]) rest (cn_eof c) (Exchanging query) (cn_out c)).
Proof.
  intros Hp [Hu _]%read_frame_ok [-> (qs & tail & resps & Hq & Ha & Hm)]. rewrite Hp in Hm. destruct Hm as [-> Ho].
  rewrite app_nil_r in Hq. subst qs. split; cbn; [by rewrite frames_snoc, Hu, app_assoc|].
  by exists (cn_queries c), [query], resps.
Qed.
Lemma conn_ok_replied sent c query resp :
  cn_phase c = Exchanging query -> answers r query resp -> conn_ok sent c ->
  conn_ok sent (Conn (cn_queries c) (cn_unread c) (cn_eof c) Reading (cn_out c ++ frame_bytes resp)).
Proof.
  intros Hp Hx [-> (qs & tail & resps & Hq & Ha & Hm)]. rewrite Hp in Hm. destruct Hm as [-> Ho].
  split; [done|]. exists (cn_queries c), [], (resps ++ [resp]). cbn. rewrite app_nil_r, frames_snoc, Ho. split_and!; try done.
  rewrite Hq. apply Forall2_app; [done | by constructor].
Qed.
Lemma conn_ok_finished sent c query out :
  cn_phase c = Reading /\ out = cn_out c \/
  cn_phase c = Exchanging query /\ (out = cn_out c \/ exists resp k, answers r query resp /\ out = cn_out c ++ take k (frame_bytes resp)) ->
  conn_ok sent c -> conn_ok sent (Conn (cn_queries c) (cn_unread c) (cn_eof c) Finished out).
Proof.
  intros Hp [-> (qs & tail & resps & Hq & Ha & Hm)]. split; [done|]. cbn.
  destruct Hp as [[Hp ->]|[Hp Hout]]; rewrite Hp in Hm; destruct Hm as [-> Ho]; [exists qs, [], resps; split_and!; by rewrite ?Ho|].
  destruct Hout as [->|(resp & k & Hx & ->)]; [exists qs, [query], resps; split_and!; by rewrite ?Ho|].
  exists (qs ++ [query]), [], (resps ++ [resp]). rewrite app_nil_r. split_and!; [done | by apply Forall2_app; [|constructor] |].
  rewrite frames_snoc, Ho. apply prefix_app, prefix_take.
Qed.
Lemma step_tcp_cases e b b' : step_tcp r e b = Some b' -> loop_step e b b' \/ conn_step e b b'.
Proof.
  unfold step_tcp, conn_step, loop_step.
  destruct e as [| | | | | | |i bytes|i|i|i|i o failed| |]; try done.
  - destruct (br_tcp_loop b); try done. destruct (br_tcp_open b); [|done]. intros [= <-]. left. split; [done|]. by left.
  - destruct (br_tcp_loop b) as [|i|]; try done. intros [= <-]. left. split; [done|]. right. left. by exists i.
  - destruct (br_tcp_loop b); try done. intros [= <-]. left. split; [done|]. do 2 right. by eexists.
  - intros (c & Hc & Hs)%bind_Some. destruct (cn_eof c); [done|]. injection Hs as <-. right. eexists i, c, _, _.
    split_and!; [done | reflexivity | intros j; apply client_bytes_other | | by left | done]. rewrite client_bytes_own.
    intros sent [-> Hrest]. split; [cbn; by rewrite <- app_assoc | exact Hrest].
  - intros (c & Hc & Hs)%bind_Some. injection Hs as <-. right. eexists i, c, _, _.
    split_and!; [done | reflexivity | done | | by left | done]. intros sent. by rewrite app_nil_r.
  - intros (c & [Hi Hc]%serving_some & Hs)%bind_Some. destruct (cn_phase c) eqn:Hp; try done.
    destruct (read_frame _) as [[query rest]|] eqn:Hr; [|done]. injection Hs as <-. right. eexists i, c, _, _.
    split_and!; [done | reflexivity | done | intros sent; rewrite app_nil_r; by apply conn_ok_reads | left; cbn; by rewrite Hp |].
    intros _. split; [|done]. unfold conn_weight. rewrite Hp. cbn. apply read_frame_ok in Hr as [-> _].
    rewrite length_app, frame_bytes_length. lia.
  - intros (c & [Hi Hc]%serving_some & Hs)%bind_Some. destruct (cn_phase c) eqn:Hp; try done.
    destruct (read_frame _) as [[query rest]|] eqn:Hr; [done|]. destruct (cn_eof c); [|done]. injection Hs as <-. right. eexists i, c, _, _.
    split_and!; [done | reflexivity | done | | by right |].
    + intros sent. rewrite app_nil_r. apply (conn_ok_finished _ _ []). by left.
    + intros _. split; [|done]. unfold conn_weight. rewrite Hp. cbn. lia.
  - intros (c & [Hi Hc]%serving_some & Hs)%bind_Some. destruct (cn_phase c) as [|query|] eqn:Hp; try done.
    destruct (exchange_stream r o query) as [resp|] eqn:Hx; [apply exchange_sound in Hx; destruct failed as [k|]|];
      injection Hs as <-; right; eexists i, c, _, _;
      (split_and!; [done | reflexivity | done | intros sent; rewrite app_nil_r
                   | first [by right | left; cbn; by rewrite Hp]
                   | intros _; split; [unfold conn_weight; rewrite Hp; cbn; lia | done]]).
    + apply (conn_ok_finished _ _ query). right. split; [done|]. right. by exists resp, k.
    + by apply (conn_ok_replied _ _ query).
    + apply (conn_ok_finished _ _ query). right. split; [done|]. by left.
Qed.
Lemma step_tcp_rest e b b' :
  step_tcp r e b = Some b' ->
  br_udp_loop b' = br_udp_loop b /\ br_datagrams b' = br_datagrams b /\ br_waiting b' = br_waiting b /\ br_replies b' = br_replies b /\
  br_close b' = br_close b /\ br_udp_open b' = br_udp_open b /\ br_tcp_open b' = br_tcp_open b /\ br_stopped b' = br_stopped b.
Proof.
  intros [[_ [(_ & _ & _ & ->)|[(? & _ & _ & ->)|(? & _ & _ & ->)]]]|(? & ? & ? & ? & _ & -> & _)]%step_tcp_cases; by split_and!.
Qed.
Lemma step_tcp_inv es e b b' : step_tcp r e b = Some b' -> bridge_inv es b -> bridge_inv (es ++ [e]) b'.
Proof.
  intros Hs [Hd Hw Hr Hcs Hsi Hse Hto]. destruct (step_tcp_rest _ _ _ Hs) as (H1' & H2' & H3' & H4' & _).
  assert (Hdg : datagrams_of (es ++ [e]) = datagrams_of es).
  { rewrite datagrams_snoc. destruct e; try done; cbn; by rewrite app_nil_r. }
  assert (Hro : replies_ok b') by (unfold replies_ok; by rewrite H2', H3', H4').
  apply step_tcp_cases in Hs as [[Hnone Hl]|(i & c & c' & s' & Hc & -> & Hother & Hok & Hph & _)].
  - assert (Hcb : forall i, client_bytes i (es ++ [e]) = client_bytes i es)
      by (intros i; by rewrite client_bytes_snoc, Hnone, app_nil_r).
    split; rewrite ?Hdg, ?H1', ?H2', ?H3'; try setoid_rewrite Hcb; try done; clear Hdg Hro Hd Hw H1' H2' H3' H4' Hnone;
      destruct Hl as [(-> & Hl & _ & ->)|[(i & -> & Hl & ->)|(? & -> & Hl & ->)]]; cbn; try done.
    + intros i c [Hc|[Hi Hc]]%lookup_app_Some; [by apply Hcs|]. apply list_lookup_singleton_Some in Hc as [_ <-].
      rewrite Hsi by done. split; [done|]. by exists [], [], [].
    + intros i Hi. apply Hsi. rewrite length_app in Hi. cbn in Hi. lia.
    + intros i (c & Hc & Hp)%Hse. exists c. split; [by apply lookup_app_l_Some | done].
    + intros j [->%elem_of_singleton|Hj]%elem_of_union; [by apply Hto | by apply Hse].
    + intros i [= <-]. split; [intros (c & Hc%lookup_lt_Some & _)%Hse; lia|]. eexists. split; [by apply list_lookup_middle | done].
  - split; rewrite ?Hdg, ?H1', ?H2', ?H3'; try done; cbn; rewrite ?length_insert; clear Hdg Hro Hd Hw H1' H2' H3' H4'.
    + intros j x Hx. rewrite client_bytes_snoc. destruct (decide (j = i)) as [->|Hj].
      * rewrite list_lookup_insert_eq in Hx by (by eapply lookup_lt_Some). injection Hx as <-. by apply Hok, Hcs.
      * rewrite list_lookup_insert_ne in Hx by done. rewrite Hother, app_nil_r by done. by apply Hcs.
    + intros j Hj. rewrite client_bytes_snoc, Hsi by done. apply lookup_lt_Some in Hc. apply Hother. lia.
    + intros j Hj. assert (Hj' : j ∈ br_serving b) by (destruct Hph as [[-> _]|(_ & -> & _)]; set_solver).
      destruct (Hse j Hj') as (x & Hx & Hp). destruct (decide (j = i)) as [->|Hn].
      * rewrite list_lookup_insert_eq by (by eapply lookup_lt_Some). exists c'. split; [done|]. rewrite Hc in Hx. injection Hx as <-.
        destruct Hph as [[_ Hph]|(_ & -> & _)]; [by rewrite Hph | set_solver].
      * rewrite list_lookup_insert_ne by done. by exists x.
    + intros j Hj. destruct (Hto j Hj) as (Hn & x & Hx & Hp). split; [destruct Hph as [[-> _]|(_ & -> & _)]; set_solver|].
      destruct (decide (j = i)) as [->|Hne].
      * rewrite list_lookup_insert_eq by (by eapply lookup_lt_Some). exists c'. split; [done|]. rewrite Hc in Hx. injection Hx as <-.
        destruct Hph as [[_ Hph]|(Hi & _)]; [by rewrite Hph | done].
      * rewrite list_lookup_insert_ne by done. by exists x.
Qed.
Lemma step_close_cases e b b' :
  step_close e b = Some b' ->
  e = CloseCalled /\ br_close b = Open /\ b' = close_bridge true false false Waiting b \/
  e = CloseReturns /\ br_close b = Waiting /\ br_waiting b = ∅ /\ br_serving b = ∅ /\
    b' = close_bridge (br_stopped b) false false Returned b.
Proof.
  unfold step_close. destruct e; try done; destruct (br_close b) eqn:Hc; try done; [intros [= <-]; by left|].
  destruct (decide _) as [[? ?]|]; [|done]. intros [= <-]. right. by split_and!.
Qed.
Lemma step_inv es e b b' : step r e b = Some b' -> bridge_inv es b -> bridge_inv (es ++ [e]) b'.
Proof.
  intros Hs Hi. assert (Hcb : (forall i, client_bytes i [e] = []) -> forall i, client_bytes i (es ++ [e]) = client_bytes i es)
    by (intros Hn i; by rewrite client_bytes_snoc, Hn, app_nil_r).
  destruct e; cbn [step] in Hs; try (by apply (step_udp_inv _ _ _ _ Hs)); try (by apply (step_tcp_inv _ _ _ _ Hs));
    apply step_close_cases in Hs as [(? & _ & ->)|(? & _ & _ & _ & ->)]; try done; destruct Hi as [Hd Hw Hr Hcs Hsi Hse Hto];
    (split; rewrite ?datagrams_snoc; try setoid_rewrite (Hcb (fun _ => eq_refl)); cbn; rewrite ?app_nil_r; done).
Qed.
Lemma run_bridge_snoc b es e : run_bridge r b (es ++ [e]) = b' ← run_bridge r b es; step r e b'.
Proof.
  revert b. induction es as [|x es IH]; intros b; cbn; [by destruct (step r e b)|]. destruct (step r x b); [apply IH | done].
Qed.
Lemma run_inv es b : run_bridge r new_bridge es = Some b -> bridge_inv es b.
Proof.
  revert b. induction es as [|e es IH] using rev_ind; intros b; [intros [= <-]; apply new_bridge_inv|].
  rewrite run_bridge_snoc. intros (b0 & Hb & Hs)%bind_Some. by apply (step_inv _ _ _ _ Hs), IH.
Qed.

(** ** Close *)
Definition measure (b : bridge) : nat :=
  sum_list (map conn_weight (br_conns b)) + size (br_waiting b) +
  match br_udp_loop b with Blocked => 1 | Took _ => 3 | Over _ => 0 end +
  match br_tcp_loop b with Blocked => 1 | Took _ => 2 | Over _ => 0 end +
  match br_close b with Open => 2 | Waiting => 1 | Returned => 0 end.
Lemma weight_insert (l : list conn) i c c' :
  l !! i = Some c -> sum_list (map conn_weight (<[i := c']> l)) + conn_weight c = sum_list (map conn_weight l) + conn_weight c'.
Proof.
  revert i. induction l as [|x l IH]; intros [|i]; csimpl; try done; [intros [= ->]; lia|]. intros Hi%IH. lia.
Qed.
Lemma own_step_measure e b b' : step r e b = Some b' -> own e = true -> measure b' < measure b.
Proof.
  intros Hs Ho. unfold measure. assert (Hcase : step_udp r e b = Some b' \/ step_tcp r e b = Some b' \/ step_close e b = Some b')
    by (destruct e; cbn [step] in Hs; auto).
  destruct Hcase as [Hc|[Hc|Hc]].
  - destruct (step_udp_rest _ _ _ Hc) as (-> & _ & -> & -> & _).
    apply step_udp_cases in Hc as [(? & ? & -> & _)|[(d & -> & Hl & ->)|[(? & -> & Hl & ->)|(i & o & sent & d & rs & -> & Hi & Hiw & -> & _)]]];
      [done| | |]; cbn; rewrite ?Hl; [|lia|].
    + rewrite size_union_alt, size_singleton. assert (size (br_waiting b ∖ {[length (br_datagrams b)]}) <= size (br_waiting b))
        by (apply subseteq_size; set_solver). lia.
    + assert (size (br_waiting b ∖ {[i]}) < size (br_waiting b)) by (apply subset_size; set_solver). lia.
  - destruct (step_tcp_rest _ _ _ Hc) as (-> & _ & -> & _ & -> & _).
    apply step_tcp_cases in Hc as [[_ [(-> & _)|[(i & -> & Hl & ->)|(? & -> & Hl & ->)]]]|(i & c & c' & s' & Hi & -> & _ & _ & _ & Hw)];
      [done| | |]; cbn; rewrite ?Hl; [lia|lia|].
    destruct (Hw Ho) as [Hlt _]. pose proof (weight_insert _ _ _ c' Hi). lia.
  - apply step_close_cases in Hc as [(-> & _)|(-> & Hw & _ & _ & ->)]; [done|]. cbn. rewrite Hw. lia.
Qed.
Definition hung_up (b : bridge) : Prop := forall i c, br_conns b !! i = Some c -> cn_phase c <> Finished -> cn_eof c = true.
Lemma own_step_hung_up e b b' : step r e b = Some b' -> own e = true -> hung_up b -> hung_up b'.
Proof.
  intros Hs Ho Hh. assert (Hcase : br_conns b' = br_conns b \/ step_tcp r e b = Some b').
  { destruct e; cbn [step] in Hs; try (by right); left; try (by apply step_udp_rest in Hs as (-> & _));
      by apply step_close_cases in Hs as [(_ & _ & ->)|(_ & _ & _ & _ & ->)]. }
  destruct Hcase as [Hc|Hc]; [unfold hung_up; by rewrite Hc|].
  apply step_tcp_cases in Hc as [[_ [(-> & _)|[(i & -> & Hl & ->)|(? & -> & Hl & ->)]]]|(i & c & c' & s' & Hi & -> & _ & _ & Hph & Hw)]; try done.
  destruct (Hw Ho) as [Hlt Heof]. intros j x Hx Hp. cbn in Hx. destruct (decide (j = i)) as [->|Hn].
  - rewrite list_lookup_insert_eq in Hx by (by eapply lookup_lt_Some). injection Hx as <-. rewrite Heof. apply (Hh i); [done|].
    destruct Hph as [[_ Hph]|(_ & _ & Hf)]; [by rewrite <- Hph | done].
  - rewrite list_lookup_insert_ne in Hx by done. by apply (Hh j).
Qed.
Definition no_fate : fate := Fate false false 0 0.
Lemma closing_progress es b :
  bridge_inv es b -> br_close b = Waiting -> hung_up b -> exists e b', own e = true /\ step r e b = Some b'.
Proof.
  intros [_ Hw _ _ _ Hse _] Hc Hh. destruct (br_udp_loop b) as [|d|f] eqn:Hu.
  - eexists UdpReadFails, _. split; [done|]. cbn. by rewrite Hu.
  - eexists CountDatagram, _. split; [done|]. cbn. by rewrite Hu.
  - destruct (br_tcp_loop b) as [|i|f'] eqn:Ht.
    + eexists AcceptFails, _. split; [done|]. cbn. by rewrite Ht.
    + eexists CountConn, _. split; [done|]. cbn. by rewrite Ht.
    + destruct (decide (br_waiting b = ∅)) as [Hwe|Hwe].
      2:{ apply set_choose_L in Hwe as [i Hi]. destruct (lookup_lt_is_Some_2 _ _ (Hw i Hi)) as [d Hd].
          eexists (UdpExchanged i no_fate false), _. split; [done|]. cbn. rewrite Hd. cbn. by rewrite decide_True. }
      destruct (decide (br_serving b = ∅)) as [He|He].
      { eexists CloseReturns, _. split; [done|]. cbn. rewrite Hc. by rewrite decide_True. }
      apply set_choose_L in He as [i Hi]. destruct (Hse i Hi) as (c & Hic & Hp).
      assert (Hsv : serving i b = Some c) by (unfold serving; by rewrite decide_True).
      destruct (cn_phase c) as [|query|] eqn:Hph; [|eexists (TcpExchanged i no_fate None), _; split; [done|]; cbn; rewrite Hsv; cbn; by rewrite Hph|done].
      destruct (@read_frame Empty_set (cn_unread c)) as [[query rest]|x] eqn:Hr.
      * eexists (ReadsQuery i), _. split; [done|]. cbn. rewrite Hsv. cbn. by rewrite Hph, Hr.
      * eexists (ReadFails i), _. split; [done|]. cbn. rewrite Hsv. cbn. rewrite Hph, Hr, (Hh i c) by (done || congruence). reflexivity.
Qed.
Lemma own_run es b :
  br_close b = Waiting \/ br_close b = Returned -> hung_up b -> bridge_inv es b ->
  forall es' b', forallb own es' = true -> run_bridge r b es' = Some b' ->
    length es' + measure b' <= measure b /\ hung_up b' /\ bridge_inv (es ++ es') b' /\
    (br_close b' = Waiting \/ br_close b' = Returned).
Proof.
  intros Hc Hh Hi es'. induction es' as [|e es' IH] using rev_ind; intros b' Ho Hr.
  { injection Hr as <-. rewrite app_nil_r. by split_and!. }
  rewrite forallb_app in Ho. apply andb_true_iff in Ho as [Ho He]. cbn in He. rewrite andb_true_r in He.
  rewrite run_bridge_snoc in Hr. apply bind_Some in Hr as (b1 & Hb1 & Hs). destruct (IH b1 Ho Hb1) as (Hm & Hh1 & Hi1 & Hc1).
  pose proof (own_step_measure _ _ _ Hs He). rewrite length_app, app_assoc. cbn [length]. split_and!.
  - lia.
  - by eapply own_step_hung_up.
  - by eapply step_inv.
  - destruct e; cbn [step] in Hs; try (by apply step_udp_rest in Hs as (_ & _ & _ & -> & _));
      try (by apply step_tcp_rest in Hs as (_ & _ & _ & _ & -> & _));
      apply step_close_cases in Hs as [(? & _ & _)|(_ & _ & _ & _ & ->)]; try done; by right.
Qed.
(** Once closed, sockets stay closed: no reply and no new connection. *)
Lemma closed_run es' : forall b b', br_udp_open b = false -> br_tcp_open b = false -> br_close b <> Open ->
  run_bridge r b es' = Some b' -> br_replies b' = br_replies b /\ length (br_conns b') = length (br_conns b).
Proof.
  induction es' as [|e es' IH]; intros b b' Hu Ht Hc; cbn [run_bridge]; [by intros [= <-]|].
  intros (b1 & Hs & Hr)%bind_Some.
  assert (Hstep : br_udp_open b1 = false /\ br_tcp_open b1 = false /\ br_close b1 <> Open /\
            br_replies b1 = br_replies b /\ length (br_conns b1) = length (br_conns b)).
  { assert (Hcase : step_udp r e b = Some b1 \/ step_tcp r e b = Some b1 \/ step_close e b = Some b1)
      by (destruct e; cbn [step] in Hs; auto). destruct Hcase as [Hx|[Hx|Hx]].
    - destruct (step_udp_rest _ _ _ Hx) as (-> & _ & _ & -> & -> & -> & _). split_and!; try done.
      apply step_udp_cases in Hx as [(? & ? & _ & _ & Hx & _)|[(? & _ & _ & ->)|[(? & _ & _ & ->)|(? & ? & ? & ? & ? & _ & _ & _ & -> & Hx)]]];
        try done; [congruence|]. cbn. destruct Hx as [->|(? & _ & Hx & _)]; [done | congruence].
    - destruct (step_tcp_rest _ _ _ Hx) as (_ & _ & _ & -> & -> & -> & -> & _). split_and!; try done.
      apply step_tcp_cases in Hx as [[_ [(_ & _ & Hx & _)|[(? & _ & _ & ->)|(? & _ & _ & ->)]]]|(? & ? & ? & ? & _ & -> & _)];
        [congruence | done | done |]. cbn. by rewrite length_insert.
    - apply step_close_cases in Hx as [(_ & Hx & _)|(_ & _ & _ & _ & ->)]; [done|]. by split_and!. }
  destruct Hstep as (Hu1 & Ht1 & Hc1 & Hr1 & Hl1). destruct (IH b1 b' Hu1 Ht1 Hc1 Hr) as [-> ->]. by split.
Qed.
Lemma waiting_closed es b : run_bridge r new_bridge es = Some b -> br_close b <> Open -> br_udp_open b = false /\ br_tcp_open b = false.
Proof.
  revert b. induction es as [|e es IH] using rev_ind; intros b; [by intros [= <-]|].
  rewrite run_bridge_snoc. intros (b0 & Hb & Hs)%bind_Some Hc.
  assert (Hcase : step_udp r e b0 = Some b \/ step_tcp r e b0 = Some b \/ step_close e b0 = Some b)
    by (destruct e; cbn [step] in Hs; auto).
  destruct Hcase as [Hx|[Hx|Hx]].
  - destruct (step_udp_rest _ _ _ Hx) as (_ & _ & _ & Hy & -> & -> & _). apply IH; [done | by rewrite <- Hy].
  - destruct (step_tcp_rest _ _ _ Hx) as (_ & _ & _ & _ & Hy & -> & -> & _). apply IH; [done | by rewrite <- Hy].
  - by apply step_close_cases in Hx as [(_ & _ & ->)|(_ & _ & _ & _ & ->)].
Qed.
(** A connection whose goroutine waits for the client. *)
Definition idle (i : nat) (c : conn) (b : bridge) : Prop :=
  i ∈ br_serving b /\ br_conns b !! i = Some c /\ cn_phase c = Reading /\ cn_eof c = false /\
  is_ok (@read_frame Empty_set (cn_unread c)) = false.
Definition by_client (i : nat) (e : bridge_event) : bool :=
  match e with ClientSends j _ | ClientCloses j => i =? j | _ => false end.
Lemma idle_step i c e b b' : idle i c b -> by_client i e = false -> step r e b = Some b' -> br_close b <> Returned ->
  idle i c b' /\ br_close b' <> Returned.
Proof.
  intros (Hi & Hc & Hp & He & Hr) Hn Hs Hw.
  assert (Hcase : step_udp r e b = Some b' \/ step_tcp r e b = Some b' \/ step_close e b = Some b')
    by (destruct e; cbn [step] in Hs; auto).
  destruct Hcase as [Hx|[Hx|Hx]].
  - destruct (step_udp_rest _ _ _ Hx) as (H1' & H2' & _ & H4' & _). unfold idle. by rewrite H1', H2', H4'.
  - destruct (step_tcp_rest _ _ _ Hx) as (_ & _ & _ & _ & H5' & _). rewrite H5'. split; [|done].
    assert (Hkeep : forall j c' s' l, j <> i -> s' = br_serving b \/ s' = br_serving b ∖ {[j]} ->
      idle i c (with_tcp l (<[j := c']> (br_conns b)) s' b)).
    { intros j c' s' l Hj Hset. unfold idle. cbn. rewrite list_lookup_insert_ne by done. split_and!; try done.
      destruct Hset as [->| ->]; set_solver. }
    assert (Hsv : serving i b = Some c) by (unfold serving; by rewrite decide_True).
    unfold step_tcp in Hx. destruct e as [| | | | | | |j bytes|j|j|j|j o failed| |]; try done.
    + destruct (br_tcp_loop b); try done. destruct (br_tcp_open b); [|done]. injection Hx as <-. unfold idle. cbn.
      split_and!; try done. by apply lookup_app_l_Some.
    + destruct (br_tcp_loop b); try done. injection Hx as <-. unfold idle. cbn. split_and!; try done. set_solver.
    + destruct (br_tcp_loop b); try done. by injection Hx as <-.
    + apply bind_Some in Hx as (x & Hj & Hx). cbn in Hn. apply Nat.eqb_neq in Hn. destruct (cn_eof x); [done|]. injection Hx as <-.
      apply Hkeep; [congruence | by left].
    + apply bind_Some in Hx as (x & Hj & Hx). cbn in Hn. apply Nat.eqb_neq in Hn. injection Hx as <-. apply Hkeep; [congruence | by left].
    + apply bind_Some in Hx as (x & Hj & Hx). destruct (decide (j = i)) as [->|Hji].
      { rewrite Hsv in Hj. injection Hj as <-. rewrite Hp in Hx. revert Hr Hx; by destruct (read_frame _) as [[]|]. }
      destruct (cn_phase x); try done. destruct (read_frame (cn_unread x)) as [[]|]; [|done]. injection Hx as <-. apply Hkeep; [done | by left].
    + apply bind_Some in Hx as (x & Hj & Hx). destruct (decide (j = i)) as [->|Hji].
      { rewrite Hsv in Hj. injection Hj as <-. rewrite Hp, He in Hx. revert Hx. by destruct (read_frame _) as [[]|]. }
      destruct (cn_phase x); try done. destruct (read_frame (cn_unread x)) as [[]|]; [done|]. destruct (cn_eof x); [|done].
      injection Hx as <-. apply Hkeep; [done | by right].
    + apply bind_Some in Hx as (x & Hj & Hx). destruct (decide (j = i)) as [->|Hji].
      { rewrite Hsv in Hj. injection Hj as <-. by rewrite Hp in Hx. }
      destruct (cn_phase x); try done. destruct (exchange_stream _ _ _); [destruct failed|]; injection Hx as <-;
        (apply Hkeep; [done | first [by left | by right]]).
  - apply step_close_cases in Hx as [(_ & _ & ->)|(_ & _ & _ & Hs0 & ->)]; [by split|]. set_solver.
Qed.
End invariant.

(** * Properties *)
Section properties.
Context `{DnsLib, MapRange gostring, UnicodeCase} (r : resolver).

(** C32: the bridge gives every client the resolver's answers, and only to its
    own questions.  After any sequence of datagrams, connections, bytes,
    transport failures and closings: each datagram is answered at most once,
    with what the resolver answers to this very query; and what a connection
    was sent is, frame by frame, the answers to the queries the client framed,
    in their order (a last frame may be cut by a failure), with nothing
    skipped and nothing else read from the client. *)
Theorem bridge_answers (es : list bridge_event) (b : bridge) (Hrun : run_bridge r new_bridge es = Some b) :
  br_datagrams b `prefix_of` datagrams_of es /\
  NoDup (map fst (br_replies b)) /\
  (forall i resp, (i, resp) ∈ br_replies b ->
     exists from query, br_datagrams b !! i = Some (from, query) /\ response (handle_query r query) = Some resp) /\
  forall i c, br_conns b !! i = Some c ->
    client_bytes i es = frames (cn_queries c) ++ cn_unread c /\
    exists answered rest resps, cn_queries c = answered ++ rest /\
      Forall2 (fun query resp => response (handle_query r query) = Some resp) answered resps /\
      cn_out c `prefix_of` frames resps /\
      (cn_phase c <> Finished -> cn_out c = frames resps /\ length rest <= 1).
Proof.
  apply run_inv in Hrun as [Hd _ [Hnd Hr] Hcs _ _ _]. split_and!; [|done| |].
  - rewrite Hd. by apply prefix_app_r.
  - intros i resp (_ & from & query & ? & ?)%Hr. by exists from, query.
  - intros i c Hc. destruct (Hcs i c Hc) as (Hb & qs & tail & resps & Hq & Ha & Hm). split; [done|].
    exists qs, tail, resps. split_and!; try done.
    + destruct (cn_phase c); [destruct Hm as [_ ->] | destruct Hm as [_ ->] | done]; done.
    + intros Hp. destruct (cn_phase c); [destruct Hm as [-> ->] | destruct Hm as [-> ->] | done]; split; try done; cbn; lia.
Qed.

(** C34: closing the bridge.  From the moment [Close] is called no datagram is
    answered and no connection accepted.  Once every client with a connection
    has hung up, the goroutines and loops take boundedly many steps, and until
    [Close] returns one of them can always be taken; but as long as a single
    client stays connected without asking anything, [Close] does not return. *)
Theorem bridge_close (es : list bridge_event) (b : bridge) (Hrun : run_bridge r new_bridge es = Some b) (Hclose : br_close b = Waiting) :
  (forall es' b', run_bridge r b es' = Some b' -> br_replies b' = br_replies b /\ length (br_conns b') = length (br_conns b)) /\
  (hung_up b -> exists n, forall es' b', forallb own es' = true -> run_bridge r b es' = Some b' ->
     length es' <= n /\ (br_close b' = Returned \/ exists e b'', own e = true /\ step r e b' = Some b'')) /\
  (forall i c, idle i c b -> forall es' b', forallb (fun e => negb (by_client i e)) es' = true ->
     run_bridge r b es' = Some b' -> br_close b' <> Returned).
Proof.
  pose proof (run_inv r es b Hrun) as Hi.
  destruct (waiting_closed r es b Hrun) as [Hu Ht]; [by rewrite Hclose|]. split_and!.
  - intros es' b'. apply closed_run; [done | done | by rewrite Hclose].
  - intros Hh. exists (measure b). intros es' b' Ho Hr.
    destruct (own_run r es b (or_introl Hclose) Hh Hi es' b' Ho Hr) as (Hm & Hh' & Hi' & [Hw|Hw]); (split; [lia|]); [right | by left].
    by apply (closing_progress r (es ++ es')).
  - intros i c Hidle es'. assert (Hb : br_close b <> Returned) by (by rewrite Hclose). revert Hidle Hb.
    clear - es'. revert b. induction es' as [|e es' IH]; intros b Hidle Hb b'; cbn [forallb run_bridge]; [by intros _ [= <-]|].
    intros [Hn Ho]%andb_true_iff (b1 & Hs & Hr)%bind_Some. apply negb_true_iff in Hn.
    destruct (idle_step r i c e b b1 Hidle Hn Hs Hb) as [Hidle1 Hb1]. by apply (IH b1).
Qed.
End properties.

(** * Concrete runs *)
Module Example_.
#[local] Existing Instances Dns.Example_.lib Dns.Example_.lower Dns.Example_.ranges.
#[local] Abbreviation r0 := Dns.Example_.r0.
Definition whole : fate := Fate true true 100 100.
(** A datagram and a connection that frames two queries, the second cut. *)
Definition traffic : list bridge_event :=
  [Datagram $"10.0.0.9:4000" $"q1"; CountDatagram; Accepted; CountConn; ClientSends 0 (frame_bytes $"q1" ++ [Zbyte 0]);
   ReadsQuery 0; UdpExchanged 0 whole true; TcpExchanged 0 whole None].
Definition bridge1 : bridge := default new_bridge (run_bridge r0 new_bridge traffic).
Lemma traffic_runs : run_bridge r0 new_bridge traffic = Some bridge1.
Proof. vm_compute. reflexivity. Qed.
Example served :
  br_replies bridge1 = [(0, $"r1")] /\ map cn_out (br_conns bridge1) = [frame_bytes $"r1"] /\ map cn_unread (br_conns bridge1) = [[Zbyte 0]].
Proof. vm_compute. by repeat split. Qed.
Lemma bridge_answers_witness :
  run_bridge r0 new_bridge traffic = Some bridge1 /\ response (handle_query r0 $"q1") = Some $"r1".
Proof.
  pose proof (bridge_answers r0 traffic bridge1 traffic_runs) as (_ & _ & Hr & _). split; [exact traffic_runs|].
  destruct (Hr 0 $"r1") as (from & query & Hd & Ha); [rewrite (proj1 served); apply list_elem_of_here|].
  assert (Hq : br_datagrams bridge1 !! 0 = Some ($"10.0.0.9:4000", $"q1")) by (vm_compute; reflexivity).
  rewrite Hq in Hd. injection Hd as <- <-. exact Ha.
Defined.
(** The client of the connection has asked one and a half queries and stays. *)
Definition bridge2 : bridge := default new_bridge (run_bridge r0 new_bridge (traffic ++ [CloseCalled])).
Lemma bridge_close_witness :
  br_close bridge2 = Waiting /\
  forall es b, forallb (fun e => negb (by_client 0 e)) es = true -> run_bridge r0 bridge2 es = Some b -> br_close b <> Returned.
Proof.
  assert (Hrun : run_bridge r0 new_bridge (traffic ++ [CloseCalled]) = Some bridge2) by (vm_compute; reflexivity).
  assert (Hc : br_close bridge2 = Waiting) by (vm_compute; reflexivity). split; [exact Hc|].
  destruct (bridge_close r0 _ bridge2 Hrun Hc) as (_ & _ & Hidle).
  apply (Hidle 0 (Conn [$"q1"] [Zbyte 0] false Reading (frame_bytes $"r1"))).
  split; [|vm_compute; repeat split].
  assert (Hs : bool_decide (0 ∈ br_serving bridge2) = true) by (vm_compute; reflexivity). by apply bool_decide_eq_true_1 in Hs.
Defined.
(** A reply with no room in a frame is no reply. *)
Example cut_exchange : exchange_stream r0 (Fate true true 100 3) $"q1" = None /\ exchange_stream r0 whole $"q1" = Some $"r1".
Proof. vm_compute. by split. Qed.
End Example_.
