(* ===== verification/BwrapArgs.v ===== *)
(** The bubblewrap command line of [internal/orchestrator/orchestrator.go]:
    the gate on isolation-weakening flags and [BuildArgs].

    [encoding/json] on the environment marker is a parameter.  The
    specification side is a reader of bwrap command lines, [parse_ops],
    restricted to the options that occur here, with the documented reading of
    a list of operations: they are applied in order, so the last one about a
    variable decides its value and the last mount that covers a path is the
    one that is seen there. *)
From S2P Require Import GoStrings GoPath ConfigTypes.
Local Open Scope go_scope.

(** * The plan *)
Inductive overlay := OverlayPlain | OverlayEphemeral | OverlayDisk.
Definition overlay_string (o : overlay) : gostring :=
  match o with OverlayEphemeral => $"ephemeral" | OverlayDisk => $"disk" | OverlayPlain => $"plain" end.
Record secret_bind := SecretBind { sb_host_path : gostring; sb_guest_path : gostring }.
Record env_keep_marker := EnvKeepMarker {
  mk_core : list gostring; mk_set : strmap; mk_inherit : list gostring; mk_unset : list gostring; mk_all : bool }.
(** The fields of [Plan] that [BuildArgs] reads. *)
Record plan := Plan {
  repo_root : gostring; sandbox_home : gostring; resolv_conf : gostring; hosts_file : gostring;
  secret_dir : gostring; secret_path_binds : list secret_bind;
  mounts : list mount;
  env_unset_vars : list gostring; env_set_vars : strmap;
  env_inherit_vars : list gostring; inherit_all : bool;
  bwrap_args : list gostring; p_allow_weak : bool;
  p_overlay : overlay; disk_layer_rw : gostring; disk_layer_work : gostring;
  self_exe : gostring; enable_runner : bool;
  extra_dirs : list gostring; prepend_dirs : list gostring; append_dirs : list gostring;
  seccomp_fd : Z; p_command : list gostring }.

Definition EnvKeepMarkerName : gostring := $"KEG_ENV_KEEP".
Definition CoreEnvVars : list gostring := [$"HOME"; $"TMPDIR"; $"SHELL"; $"PATH"; $"CODE_KEG"].
Definition HostDeniedEnvVars : list gostring :=
  [$"HTTP_PROXY"; $"HTTPS_PROXY"; $"ALL_PROXY"; $"FTP_PROXY"; $"NO_PROXY";
   $"http_proxy"; $"https_proxy"; $"all_proxy"; $"ftp_proxy"; $"no_proxy";
   $"AWS_ACCESS_KEY_ID"; $"AWS_SECRET_ACCESS_KEY"; $"AWS_SESSION_TOKEN";
   $"OPENAI_API_KEY"; $"ANTHROPIC_API_KEY"].
Definition weakBwrapFlags : list gostring :=
  [$"--share-net"; $"--dev-bind"; $"--unshare-net"; $"--unshare-netns"].
Definition GuestCommandName : gostring := $"guest".

Definition has_overlay (p : plan) : bool :=
  match p_overlay p with
  | OverlayPlain => existsb (fun m => seqb (m_mode m) MountEphemeral || seqb (m_mode m) MountDisk) (mounts p)
  | _ => true
  end.

(** * The gate on raw arguments *)
Definition is_root_path (p : gostring) : bool := seqb p $"/".
(** The loop of [WeakFlags]; [rest] is what follows [a]. *)
Fixpoint weak_loop (found : list gostring) (args : list gostring) : list gostring :=
  match args with
  | [] => found
  | a :: rest =>
      if smem a weakBwrapFlags && negb (smem a found) then weak_loop (found ++ [a]) rest
      else if seqb a $"--bind" || seqb a $"--dev-bind" then
        match rest with
        | src :: _ :: _ =>
            if is_root_path src && negb (smem (a ++ $" /") found)
            then weak_loop (found ++ [a ++ $" /"]) rest
            else weak_loop found rest
        | _ => weak_loop found rest
        end
      else weak_loop found rest
  end.
Definition weak_flags (args : list gostring) : list gostring := weak_loop [] args.

(** * Arguments *)
Inductive build_err := WeakArgs (flags : list gostring) | MarshalMarker.

Definition isolation_args (p : plan) : list gostring :=
  [$"--unshare-all"; $"--share-net"; $"--unshare-user"; $"--die-with-parent"; $"--disable-userns"]
  ++ (if (0 <? seccomp_fd p)%Z then [$"--add-seccomp-fd"; itoa (seccomp_fd p)] else []).
Definition system_args : list gostring :=
  [$"--proc"; $"/proc"; $"--dev"; $"/dev"; $"--tmpfs"; $"/tmp";
   $"--ro-bind"; $"/usr"; $"/usr";
   $"--ro-bind"; $"/bin"; $"/bin";
   $"--ro-bind"; $"/lib"; $"/lib";
   $"--ro-bind-try"; $"/lib64"; $"/lib64";
   $"--ro-bind"; $"/etc/passwd"; $"/etc/passwd";
   $"--ro-bind-try"; $"/etc/alternatives"; $"/etc/alternatives";
   $"--ro-bind"; $"/etc/ssl/certs"; $"/etc/ssl/certs";
   $"--ro-bind-try"; $"/etc/pki"; $"/etc/pki";
   $"--ro-bind-try"; $"/etc/ca-certificates"; $"/etc/ca-certificates";
   $"--ro-bind-try"; $"/etc/crypto-policies"; $"/etc/crypto-policies"].
Definition overlay_args (p : plan) : list gostring :=
  match p_overlay p with
  | OverlayEphemeral => [$"--overlay-src"; repo_root p; $"--tmp-overlay"; repo_root p]
  | OverlayDisk => [$"--overlay-src"; repo_root p; $"--overlay"; disk_layer_rw p; disk_layer_work p; repo_root p]
  | OverlayPlain => [$"--bind"; repo_root p; repo_root p]
  end.
Definition home_args (p : plan) : list gostring :=
  if is_empty (sandbox_home p) then [] else [$"--tmpfs"; sandbox_home p; $"--chdir"; repo_root p].
Definition mount_args (m : mount) : list gostring :=
  if seqb (m_mode m) MountTmpfs then [$"--tmpfs"; m_dest m]
  else if seqb (m_mode m) MountRW then [$"--bind"; m_src m; m_dest m]
  else if seqb (m_mode m) MountDev then [$"--dev-bind"; m_src m; m_dest m]
  else if seqb (m_mode m) MountEphemeral then [$"--overlay-src"; m_src m; $"--tmp-overlay"; m_dest m]
  else if seqb (m_mode m) MountDisk
       then [$"--overlay-src"; m_src m; $"--overlay"; m_overlay_rw m; m_overlay_work m; m_dest m]
  else [$"--ro-bind"; m_src m; m_dest m].
(** Insertion sort is stable, like [slices.SortStableFunc]. *)
Definition sorted_mounts (l : list mount) : list mount := sort_by (fun a b => sleb (m_dest a) (m_dest b)) l.
Definition run_args (p : plan) : list gostring :=
  (if enable_runner p || negb (is_empty (secret_dir p)) || (0 <? length (secret_path_binds p))
   then [$"--tmpfs"; $"/run"] else [])
  ++ (if negb (is_empty (secret_dir p))
      then [$"--dir"; $"/run/secrets"; $"--ro-bind"; secret_dir p; $"/run/secrets"] else [])
  ++ (if (0 <? length (secret_path_binds p)) && is_empty (secret_dir p) then [$"--dir"; $"/run/secrets"] else [])
  ++ concat (map (fun b => [$"--ro-bind"; sb_host_path b; sb_guest_path b]) (secret_path_binds p)).
Definition resolver_args (p : plan) : list gostring :=
  (if negb (is_empty (resolv_conf p)) then [$"--ro-bind"; resolv_conf p; $"/etc/resolv.conf"] else [])
  ++ (if negb (is_empty (hosts_file p)) then [$"--ro-bind"; hosts_file p; $"/etc/hosts"] else []).
Definition sorted_keys {V} `{MapRange V} (m : gmap gostring V) : list gostring :=
  sort_strings (map fst (map_range m)).
Definition setenv (k v : gostring) : list gostring := [$"--setenv"; k; v].
Definition unsetenv (k : gostring) : list gostring := [$"--unsetenv"; k].
Definition env_args `{MapRange gostring} (p : plan) : list gostring :=
  concat (map unsetenv HostDeniedEnvVars) ++ concat (map unsetenv (env_unset_vars p))
  ++ concat (map (fun k => setenv k (default [] (env_set_vars p !! k))) (sorted_keys (env_set_vars p)))
  ++ setenv $"HOME" (sandbox_home p) ++ setenv $"TMPDIR" $"/tmp" ++ setenv $"SHELL" $"/bin/bash".
Definition guest_path (p : plan) : gostring :=
  let path := repo_root p ++ $"/.cache/bin:" ++ sandbox_home p ++ $"/.local/bin:/usr/local/bin:/usr/bin:/bin" in
  let path := fold_left (fun path dir => path ++ $":" ++ dir) (append_dirs p) path in
  let path := if negb (is_empty (self_exe p)) then path ++ $":/.keg" else path in
  let path := fold_left (fun path dir => dir ++ $":" ++ path) (rev (prepend_dirs p)) path in
  fold_left (fun path dir => dir ++ $":" ++ path) (rev (extra_dirs p)) path.
Definition marker_of (p : plan) : env_keep_marker :=
  EnvKeepMarker CoreEnvVars (env_set_vars p) (sort_strings (env_inherit_vars p))
    (sort_strings (env_unset_vars p)) (inherit_all p).
Definition self_args (p : plan) : list gostring :=
  if negb (is_empty (self_exe p)) then [$"--tmpfs"; $"/.keg"; $"--ro-bind"; self_exe p; $"/.keg/keg"] else [].
Definition command_args (p : plan) : list gostring :=
  (if negb (is_empty (self_exe p)) then [$"/.keg/keg"; GuestCommandName] else []) ++ p_command p.

Definition build_args `{MapRange gostring} (marshal : env_keep_marker -> option gostring) (p : plan)
  : result build_err (list gostring) :=
  let weak := weak_flags (bwrap_args p) in
  if (0 <? length weak) && negb (p_allow_weak p) then Err (WeakArgs weak)
  else
    match marshal (marker_of p) with
    | None => Err MarshalMarker
    | Some marker =>
        Ok (isolation_args p ++ system_args ++ overlay_args p ++ home_args p
            ++ concat (map mount_args (sorted_mounts (mounts p)))
            ++ run_args p ++ resolver_args p ++ env_args p
            ++ setenv $"PATH" (guest_path p) ++ setenv EnvKeepMarkerName marker
            ++ self_args p ++ bwrap_args p ++ [$"--"] ++ command_args p)
    end.

(** * Reading a bwrap command line *)
Inductive bwrap_op :=
  | Flag (name : gostring)
  | Setenv (k v : gostring)
  | Unsetenv (k : gostring)
  | Place (how : gostring) (src dest : gostring)   (* something becomes visible at [dest] *)
  | Other (name value : gostring).                 (* no mount at its value *)
Definition flag_options : list gostring :=
  [$"--unshare-all"; $"--share-net"; $"--unshare-user"; $"--die-with-parent"; $"--disable-userns"].
(** Options with one argument: those that mount something there, and the
    others. *)
Definition place1_options : list gostring := [$"--proc"; $"--dev"; $"--tmpfs"; $"--tmp-overlay"; $"--dir"].
Definition other1_options : list gostring := [$"--add-seccomp-fd"; $"--chdir"; $"--overlay-src"].
Definition place2_options : list gostring := [$"--bind"; $"--dev-bind"; $"--ro-bind"; $"--ro-bind-try"].
(** The operations up to [--], and the command after it; [None] is a usage
    error. *)
Fixpoint parse_ops (args : list gostring) : option (list bwrap_op * list gostring) :=
  match args with
  | [] => None
  | o :: rest =>
      if seqb o $"--" then Some ([], rest)
      else if smem o flag_options then r ← parse_ops rest; Some (Flag o :: r.1, r.2)
      else match rest with
      | [] => None
      | a :: rest1 =>
          if smem o place1_options then r ← parse_ops rest1; Some (Place o [] a :: r.1, r.2)
          else if smem o other1_options then r ← parse_ops rest1; Some (Other o a :: r.1, r.2)
          else if seqb o $"--unsetenv" then r ← parse_ops rest1; Some (Unsetenv a :: r.1, r.2)
          else match rest1 with
          | [] => None
          | b :: rest2 =>
              if seqb o $"--setenv" then r ← parse_ops rest2; Some (Setenv a b :: r.1, r.2)
              else if smem o place2_options then r ← parse_ops rest2; Some (Place o a b :: r.1, r.2)
              else match rest2 with
              | [] => None
              | c :: rest3 =>
                  if seqb o $"--overlay" then r ← parse_ops rest3; Some (Place o a c :: r.1, r.2) else None
              end
          end
      end
  end.
(** The environment after the operations, from the one bwrap has. *)
Definition env_op (env : gostring -> option gostring) (o : bwrap_op) : gostring -> option gostring :=
  match o with
  | Setenv k v => fun x => if seqb x k then Some v else env x
  | Unsetenv k => fun x => if seqb x k then None else env x
  | _ => env
  end.
Definition env_after (env : gostring -> option gostring) (ops : list bwrap_op) : gostring -> option gostring :=
  fold_left env_op ops env.
(** A mount at [dest] covers [dest] and everything below it. *)
Definition covers (dest path : gostring) : bool := seqb path dest || has_prefix path (dest ++ $"/").
Definition covering (path : gostring) (o : bwrap_op) : bool :=
  match o with Place _ _ dest => covers dest path | _ => false end.
(** The mount seen at [path]: the last one that covers it. *)
Definition seen_at (ops : list bwrap_op) (path : gostring) : option bwrap_op :=
  last (filter (fun o => covering path o = true) ops).

(** What each group of arguments means. *)
Definition isolation_ops (p : plan) : list bwrap_op :=
  map Flag flag_options ++ (if (0 <? seccomp_fd p)%Z then [Other $"--add-seccomp-fd" (itoa (seccomp_fd p))] else []).
Definition ro (path : gostring) : bwrap_op := Place $"--ro-bind" path path.
Definition ro_try (path : gostring) : bwrap_op := Place $"--ro-bind-try" path path.
Definition tmpfs (path : gostring) : bwrap_op := Place $"--tmpfs" [] path.
Definition system_ops : list bwrap_op :=
  [Place $"--proc" [] $"/proc"; Place $"--dev" [] $"/dev"; tmpfs $"/tmp";
   ro $"/usr"; ro $"/bin"; ro $"/lib"; ro_try $"/lib64"; ro $"/etc/passwd"; ro_try $"/etc/alternatives";
   ro $"/etc/ssl/certs"; ro_try $"/etc/pki"; ro_try $"/etc/ca-certificates"; ro_try $"/etc/crypto-policies"].
Definition overlay_ops (p : plan) : list bwrap_op :=
  match p_overlay p with
  | OverlayEphemeral => [Other $"--overlay-src" (repo_root p); Place $"--tmp-overlay" [] (repo_root p)]
  | OverlayDisk => [Other $"--overlay-src" (repo_root p); Place $"--overlay" (disk_layer_rw p) (repo_root p)]
  | OverlayPlain => [Place $"--bind" (repo_root p) (repo_root p)]
  end.
Definition home_ops (p : plan) : list bwrap_op :=
  if is_empty (sandbox_home p) then [] else [tmpfs (sandbox_home p); Other $"--chdir" (repo_root p)].
(** The last operation is the one that mounts. *)
Definition mount_place (m : mount) : bwrap_op :=
  if seqb (m_mode m) MountTmpfs then tmpfs (m_dest m)
  else if seqb (m_mode m) MountRW then Place $"--bind" (m_src m) (m_dest m)
  else if seqb (m_mode m) MountDev then Place $"--dev-bind" (m_src m) (m_dest m)
  else if seqb (m_mode m) MountEphemeral then Place $"--tmp-overlay" [] (m_dest m)
  else if seqb (m_mode m) MountDisk then Place $"--overlay" (m_overlay_rw m) (m_dest m)
  else Place $"--ro-bind" (m_src m) (m_dest m).
Definition mount_ops (m : mount) : list bwrap_op :=
  (if seqb (m_mode m) MountEphemeral || seqb (m_mode m) MountDisk then [Other $"--overlay-src" (m_src m)] else [])
  ++ [mount_place m].
Definition run_ops (p : plan) : list bwrap_op :=
  (if enable_runner p || negb (is_empty (secret_dir p)) || (0 <? length (secret_path_binds p))
   then [tmpfs $"/run"] else [])
  ++ (if negb (is_empty (secret_dir p))
      then [Place $"--dir" [] $"/run/secrets"; Place $"--ro-bind" (secret_dir p) $"/run/secrets"] else [])
  ++ (if (0 <? length (secret_path_binds p)) && is_empty (secret_dir p)
      then [Place $"--dir" [] $"/run/secrets"] else [])
  ++ map (fun b => Place $"--ro-bind" (sb_host_path b) (sb_guest_path b)) (secret_path_binds p).
Definition resolver_ops (p : plan) : list bwrap_op :=
  (if negb (is_empty (resolv_conf p)) then [Place $"--ro-bind" (resolv_conf p) $"/etc/resolv.conf"] else [])
  ++ (if negb (is_empty (hosts_file p)) then [Place $"--ro-bind" (hosts_file p) $"/etc/hosts"] else []).
Definition env_ops `{MapRange gostring} (p : plan) (marker : gostring) : list bwrap_op :=
  map Unsetenv HostDeniedEnvVars ++ map Unsetenv (env_unset_vars p)
  ++ map (fun k => Setenv k (default [] (env_set_vars p !! k))) (sorted_keys (env_set_vars p))
  ++ [Setenv $"HOME" (sandbox_home p); Setenv $"TMPDIR" $"/tmp"; Setenv $"SHELL" $"/bin/bash";
      Setenv $"PATH" (guest_path p); Setenv EnvKeepMarkerName marker].
Definition self_ops (p : plan) : list bwrap_op :=
  if negb (is_empty (self_exe p)) then [tmpfs $"/.keg"; Place $"--ro-bind" (self_exe p) $"/.keg/keg"] else [].
Definition plan_ops `{MapRange gostring} (p : plan) (marker : gostring) : list bwrap_op :=
  isolation_ops p ++ system_ops ++ overlay_ops p ++ home_ops p
  ++ concat (map mount_ops (sorted_mounts (mounts p)))
  ++ run_ops p ++ resolver_ops p ++ env_ops p marker ++ self_ops p.

(** * Lemmas *)
(** [args] read as [ops], whatever follows. *)
Definition reads (args : list gostring) (ops : list bwrap_op) : Prop :=
  forall rest, parse_ops (args ++ rest) = r ← parse_ops rest; Some (ops ++ r.1, r.2).
Lemma reads_nil : reads [] [].
Proof. intros rest. cbn [app]. by destruct (parse_ops rest) as [[??]|]. Qed.
Lemma reads_app a o a' o' : reads a o -> reads a' o' -> reads (a ++ a') (o ++ o').
Proof.
  intros H1 H2 rest. rewrite <- app_assoc, H1, H2. destruct (parse_ops rest) as [[??]|]; [|done].
  cbn. by rewrite app_assoc.
Qed.
Lemma reads_concat {A} (f : A -> list gostring) (g : A -> list bwrap_op) l :
  (forall x, reads (f x) (g x)) -> reads (concat (map f l)) (concat (map g l)).
Proof. intros H. induction l; cbn [map concat]; [apply reads_nil | by apply reads_app]. Qed.
Lemma reads_map {A} (f : A -> list gostring) (g : A -> bwrap_op) l :
  (forall x, reads (f x) [g x]) -> reads (concat (map f l)) (map g l).
Proof.
  intros H. induction l as [|x l IH]; cbn [map concat]; [apply reads_nil|].
  by apply (reads_app _ [g x]).
Qed.
(** One option with its arguments. *)
Ltac read_option := intros rest; cbn; by destruct (parse_ops rest) as [[??]|].
Lemma reads_isolation p : reads (isolation_args p) (isolation_ops p).
Proof.
  unfold isolation_args, isolation_ops. apply reads_app; [read_option|].
  destruct (_ <? _)%Z; [read_option | apply reads_nil].
Qed.
Lemma reads_system : reads system_args system_ops.
Proof. read_option. Qed.
Lemma reads_mount m : reads (mount_args m) (mount_ops m).
Proof.
  unfold mount_args, mount_ops, mount_place.
  destruct (seqb_spec (m_mode m) MountTmpfs) as [->|]; [read_option|].
  destruct (seqb_spec (m_mode m) MountRW) as [->|]; [read_option|].
  destruct (seqb_spec (m_mode m) MountDev) as [->|]; [read_option|].
  destruct (seqb_spec (m_mode m) MountEphemeral) as [->|]; [read_option|].
  destruct (seqb_spec (m_mode m) MountDisk) as [_|_]; read_option.
Qed.
Lemma reads_overlay p : reads (overlay_args p) (overlay_ops p).
Proof. unfold overlay_args, overlay_ops. destruct (p_overlay p); read_option. Qed.
Lemma reads_home p : reads (home_args p) (home_ops p).
Proof. unfold home_args, home_ops. destruct (is_empty _); read_option. Qed.
Lemma reads_run p : reads (run_args p) (run_ops p).
Proof.
  unfold run_args, run_ops. repeat apply reads_app;
    [destruct (_ || _ || _) | destruct (negb _) | destruct (_ && _) | apply reads_map; intros b]; read_option.
Qed.
Lemma reads_resolver p : reads (resolver_args p) (resolver_ops p).
Proof. unfold resolver_args, resolver_ops. apply reads_app; destruct (negb _); read_option. Qed.
Lemma reads_self p : reads (self_args p) (self_ops p).
Proof. unfold self_args, self_ops. destruct (negb _); read_option. Qed.
Lemma reads_env `{MapRange gostring} p marker :
  reads (env_args p ++ setenv $"PATH" (guest_path p) ++ setenv EnvKeepMarkerName marker) (env_ops p marker).
Proof.
  unfold env_args, env_ops. rewrite <- !app_assoc. repeat apply reads_app;
    [apply reads_map; intros x | apply reads_map; intros x | apply reads_map; intros x |]; read_option.
Qed.

(** What the gate looks for: one of the listed flags, or a bind of the host's
    root directory. *)
Definition weak_args (args : list gostring) : Prop :=
  (exists a, a ∈ args /\ a ∈ weakBwrapFlags) \/
  exists pre dest post, args = pre ++ $"--bind" :: $"/" :: dest :: post.
Lemma weak_loop_extends found args : exists t, weak_loop found args = found ++ t.
Proof.
  revert found; induction args as [|a args IH]; intros found; cbn [weak_loop]; [exists []; by rewrite app_nil_r|].
  assert (Hx : forall x, exists t, weak_loop (found ++ [x]) args = found ++ t).
  { intros x. destruct (IH (found ++ [x])) as [t ->]. exists (x :: t). by rewrite <- app_assoc. }
  repeat case_match; auto.
Qed.
Lemma weak_loop_nonempty x args : weak_loop [x] args <> [].
Proof. destruct (weak_loop_extends [x] args) as [t ->]. done. Qed.
Lemma weak_args_cons a args :
  weak_args (a :: args) <->
  a ∈ weakBwrapFlags \/ (a = $"--bind" /\ exists dest post, args = $"/" :: dest :: post) \/ weak_args args.
Proof.
  unfold weak_args. split.
  - intros [(x & [-> | Hx]%elem_of_cons & Hw)|([|y pre] & d & post & Heq)]; [by left | naive_solver | |].
    + injection Heq as -> ->. naive_solver.
    + injection Heq as -> ->. right. right. right. by exists pre, d, post.
  - intros [Hw|[(-> & d & post & ->)|[(x & Hx & Hw)|(pre & d & post & ->)]]].
    + left. exists a. split; [left | done].
    + right. by exists [], d, post.
    + left. exists x. split; [by right | done].
    + right. by exists (a :: pre), d, post.
Qed.
Lemma weak_flags_nil args : weak_flags args = [] <-> ~ weak_args args.
Proof.
  unfold weak_flags. induction args as [|a args IH]; cbn [weak_loop].
  { split; [|done]. intros _ [(x & Hx & _)|(pre & ? & ? & Heq)]; [by apply not_elem_of_nil in Hx|].
    by destruct pre. }
  rewrite weak_args_cons. cbn [smem existsb app]. fold (smem a weakBwrapFlags).
  destruct (smem_spec a weakBwrapFlags) as [Hw|Hw]; cbn [andb negb].
  { split; [intros Hx; by apply weak_loop_nonempty in Hx | tauto]. }
  assert (Hdev : a <> $"--dev-bind") by (intros ->; apply Hw; by vm_compute; repeat constructor).
  apply seqb_neq in Hdev as ->. rewrite orb_false_r.
  destruct (seqb_spec a $"--bind") as [-> | Hb]; [|rewrite IH; naive_solver].
  destruct args as [|src [|d post]]; [rewrite IH; naive_solver.. |].
  unfold is_root_path. destruct (seqb_spec src $"/") as [-> | Hr]; cbn [andb negb].
  - split; [intros Hx; by apply weak_loop_nonempty in Hx|]. intros Hn. exfalso. apply Hn. naive_solver.
  - rewrite IH. naive_solver.
Qed.
(** Everything before the raw arguments. *)
Definition derived_args `{MapRange gostring} (p : plan) (marker : gostring) : list gostring :=
  isolation_args p ++ system_args ++ overlay_args p ++ home_args p
  ++ concat (map mount_args (sorted_mounts (mounts p)))
  ++ run_args p ++ resolver_args p
  ++ (env_args p ++ setenv $"PATH" (guest_path p) ++ setenv EnvKeepMarkerName marker) ++ self_args p.
Lemma reads_derived `{MapRange gostring} p marker : reads (derived_args p marker) (plan_ops p marker).
Proof.
  refine (reads_app _ _ _ _ (reads_isolation p) _).
  refine (reads_app _ _ _ _ reads_system _).
  refine (reads_app _ _ _ _ (reads_overlay p) _).
  refine (reads_app _ _ _ _ (reads_home p) _).
  refine (reads_app _ _ _ _ (reads_concat mount_args mount_ops _ reads_mount) _).
  refine (reads_app _ _ _ _ (reads_run p) _).
  refine (reads_app _ _ _ _ (reads_resolver p) _).
  exact (reads_app _ _ _ _ (reads_env p marker) (reads_self p)).
Qed.
Lemma build_args_ok `{MapRange gostring} marshal p args :
  build_args marshal p = Ok args ->
  exists marker, marshal (marker_of p) = Some marker /\
    args = derived_args p marker ++ bwrap_args p ++ [$"--"] ++ command_args p.
Proof.
  unfold build_args. destruct (_ && _); [done|]. destruct (marshal _) as [marker|]; [|done].
  intros <-%ok_inj. exists marker. split; [done|]. unfold derived_args. by rewrite <- !app_assoc.
Qed.
Lemma build_args_parses `{MapRange gostring} marshal p args :
  build_args marshal p = Ok args -> bwrap_args p = [] ->
  exists marker, marshal (marker_of p) = Some marker /\
    parse_ops args = Some (plan_ops p marker, command_args p).
Proof.
  intros (marker & Hm & ->)%build_args_ok ->. exists marker. split; [done|].
  rewrite (reads_derived p marker). cbn. by rewrite app_nil_r.
Qed.

(** Operations that do not touch the environment. *)
Definition env_inert (o : bwrap_op) : Prop := match o with Setenv _ _ | Unsetenv _ => False | _ => True end.
Lemma env_after_inert env ops : Forall env_inert ops -> env_after env ops = env.
Proof. unfold env_after. induction 1 as [|o ops Ho _ IH] in env |- *; cbn; [done|]. destruct o; done || apply IH. Qed.
Lemma env_after_app env a b : env_after env (a ++ b) = env_after (env_after env a) b.
Proof. apply fold_left_app. Qed.
Lemma env_after_unset env l x : env_after env (map Unsetenv l) x = if smem x l then None else env x.
Proof.
  unfold env_after. revert env; induction l as [|k l IH]; intros env; [done|]. cbn [map fold_left]. rewrite IH.
  cbn [env_op smem existsb]. fold (smem x l). destruct (seqb x k), (smem x l); done.
Qed.
Lemma env_after_set env (f : gostring -> gostring) l x :
  env_after env (map (fun k => Setenv k (f k)) l) x = if smem x l then Some (f x) else env x.
Proof.
  unfold env_after. revert env; induction l as [|k l IH]; intros env; [done|]. cbn [map fold_left]. rewrite IH.
  cbn [env_op smem existsb]. fold (smem x l). destruct (smem x l); [by rewrite orb_true_r|].
  destruct (seqb_spec x k) as [-> | Hne]; done.
Qed.
Lemma smem_sorted_keys {V} `{MapRangeLaws V} (m : gmap gostring V) k :
  smem k (sorted_keys m) = match m !! k with Some _ => true | None => false end.
Proof.
  apply eq_true_iff_eq. rewrite smem_true. unfold sorted_keys. rewrite sort_strings_elem, list_elem_of_fmap. split.
  - intros ([k' v] & -> & Hin). apply map_range_elem in Hin. cbn. by rewrite Hin.
  - destruct (m !! k) as [v|] eqn:Hk; [|done]. intros _. exists (k, v). split; [done|]. by apply map_range_elem.
Qed.
Lemma plan_inert p :
  Forall env_inert (isolation_ops p ++ system_ops ++ overlay_ops p ++ home_ops p
    ++ concat (map mount_ops (sorted_mounts (mounts p))) ++ run_ops p ++ resolver_ops p).
Proof.
  assert (Hmap : forall A (f : A -> bwrap_op) l, (forall x, env_inert (f x)) -> Forall env_inert (map f l)).
  { intros A f l Hf. apply Forall_forall. intros o (x & -> & _)%list_elem_of_fmap. apply Hf. }
  assert (Hm : Forall env_inert (concat (map mount_ops (sorted_mounts (mounts p))))).
  { induction (sorted_mounts (mounts p)) as [|m l IH]; [constructor|]. cbn [map concat].
    apply Forall_app. split; [|exact IH]. unfold mount_ops, mount_place, tmpfs. repeat case_match; repeat constructor. }
  unfold isolation_ops, overlay_ops, home_ops, run_ops, resolver_ops. rewrite !Forall_app.
  split_and!; try exact Hm; try (apply Hmap; done); repeat case_match; repeat constructor.
Qed.

(** Two places that cover the same path are prefixes of each other. *)
Lemma covers_prefix d path : covers d path = true -> exists t, path = d ++ t.
Proof.
  unfold covers. intros [->%seqb_eq|Hp]%orb_true_iff; [exists []; by rewrite app_nil_r|].
  apply has_prefix_true in Hp as [t ->]. exists ($"/" ++ t). by rewrite app_assoc.
Qed.
Lemma covering_order d1 d2 path :
  covers d1 path = true -> covers d2 path = true ->
  sleb d1 d2 = (length d1 <=? length d2).
Proof.
  intros [t1 H1]%covers_prefix [t2 H2]%covers_prefix. rewrite H1 in H2. clear H1.
  destruct (Nat.leb_spec (length d1) (length d2)) as [Hle|Hlt].
  - assert (Hd : d2 = d1 ++ drop (length d1) d2).
    { rewrite <- (take_drop (length d1) d2) at 1. f_equal.
      apply (f_equal (take (length d1))) in H2. rewrite take_app_length, take_app_le in H2 by done. done. }
    rewrite Hd. apply sleb_prefix.
  - assert (Hd : d1 = d2 ++ drop (length d2) d1).
    { rewrite <- (take_drop (length d2) d1) at 1. f_equal.
      apply (f_equal (take (length d2))) in H2. rewrite take_app_length, take_app_le in H2 by lia. done. }
    rewrite Hd. destruct (drop (length d2) d1) as [|c t] eqn:Hc; [|apply sleb_longer].
    rewrite app_nil_r in Hd. subst. lia.
Qed.
Lemma seen_at_app_none ops later path :
  Forall (fun o => covering path o = false) later -> seen_at (ops ++ later) path = seen_at ops path.
Proof.
  intros Hl. unfold seen_at. rewrite filter_app.
  assert (Hn : filter (fun o => covering path o = true) later = []).
  { induction Hl as [|o later Ho _ IH]; [done|]. by rewrite filter_cons_False by congruence. }
  by rewrite Hn, app_nil_r.
Qed.
Lemma seen_at_last ops o path : covering path o = true -> seen_at (ops ++ [o]) path = Some o.
Proof. intros Ho. unfold seen_at. by rewrite filter_app, filter_cons_True, filter_nil, last_snoc. Qed.
Lemma mount_place_covering path m : covering path (mount_place m) = covers (m_dest m) path.
Proof. unfold mount_place, tmpfs. repeat case_match; done. Qed.
Lemma mount_ops_uncovered path m :
  covers (m_dest m) path = false -> Forall (fun o => covering path o = false) (mount_ops m).
Proof.
  intros Hm. unfold mount_ops. apply Forall_app. split; [case_match; repeat constructor|].
  constructor; [by rewrite mount_place_covering | constructor].
Qed.

Lemma weak_gate args : (0 <? length (weak_flags args)) = false <-> ~ weak_args args.
Proof. rewrite <- weak_flags_nil, Nat.ltb_ge. destruct (weak_flags _); cbn; split; intros; done || lia. Qed.
Lemma weak_args_refused `{MapRange gostring} (marshal : env_keep_marker -> option gostring) (p : plan) :
  weak_args (bwrap_args p) -> p_allow_weak p = false ->
  exists l, build_args marshal p = Err (WeakArgs l) /\ l <> [].
Proof.
  intros Hw Ha. exists (weak_flags (bwrap_args p)). unfold build_args.
  assert (Hg : (0 <? length (weak_flags (bwrap_args p))) = true)
    by (apply not_false_iff_true; rewrite weak_gate; tauto).
  rewrite Hg, Ha. split; [done|]. by destruct (weak_flags (bwrap_args p)).
Qed.

(** * Properties *)
(** C7: the outcome of BuildArgs.  Raw arguments of which one is spelled
    exactly like a flag of the list of weak flags, or that contain the three
    words --bind / DEST, are refused unless the user consented; no other
    spelling is, so a bind of the host root that is written differently
    (--bind-try /, --bind //) passes.
    Otherwise the arguments, read as bwrap reads them, are exactly the
    isolation flags, the system layout, the repository, the home, the custom
    mounts in order of destination, /run and the secrets, the resolver files,
    the environment and the guest binary, then the raw arguments, then the
    command: no path, name or value is ever read as an option. *)
Theorem build_args_outcome `{MapRange gostring} (marshal : env_keep_marker -> option gostring) (p : plan) :
  (weak_args (bwrap_args p) -> p_allow_weak p = false ->
     exists l, build_args marshal p = Err (WeakArgs l) /\ l <> []) /\
  (~ weak_args (bwrap_args p) \/ p_allow_weak p = true ->
     match marshal (marker_of p) with
     | None => build_args marshal p = Err MarshalMarker
     | Some marker => exists args, build_args marshal p = Ok args /\
         parse_ops args = (r ← parse_ops (bwrap_args p ++ $"--" :: command_args p);
                           Some (plan_ops p marker ++ r.1, r.2)) /\
         (bwrap_args p = [] -> parse_ops args = Some (plan_ops p marker, command_args p))
     end).
Proof.
  pose proof (weak_gate (bwrap_args p)) as Hgate.
  split; [apply weak_args_refused|].
  intros Hok. destruct (build_args marshal p) as [args|e] eqn:Hb.
  - pose proof (build_args_parses _ _ _ Hb) as Hparse. apply build_args_ok in Hb as (marker & Hm & ->).
    rewrite Hm. eexists. split; [reflexivity|]. split; [apply reads_derived|].
    intros Hr. destruct (Hparse Hr) as (marker' & Hm' & Hp). rewrite Hm in Hm'. by injection Hm' as <-.
  - revert Hb. unfold build_args.
    assert (Hf : (0 <? length (weak_flags (bwrap_args p))) && negb (p_allow_weak p) = false).
    { apply andb_false_iff. destruct Hok as [Hn| ->]; [left; by apply Hgate | by right]. }
    rewrite Hf. destruct (marshal _); [intros Hx; by inversion Hx | by intros [= <-]].
Qed.

(** The environment of the sandbox.  Applied to whatever environment
    bwrap was started with, the arguments set HOME, TMPDIR, SHELL, PATH and
    the marker to keg's values, every other variable of the plan to the
    plan's value, and leave of the rest only what is neither on the list of
    denied host variables nor unset by the configuration. *)
Theorem sandbox_environment `{MapRangeLaws gostring} (marshal : env_keep_marker -> option gostring) (p : plan)
    (args : list gostring) (ops : list bwrap_op) (cmd : list gostring)
    (host : gostring -> option gostring) (k : gostring)
    (Hraw : bwrap_args p = []) (Hbuild : build_args marshal p = Ok args)
    (Hparse : parse_ops args = Some (ops, cmd)) :
  env_after host ops k =
    if seqb k EnvKeepMarkerName then marshal (marker_of p)
    else if seqb k $"PATH" then Some (guest_path p)
    else if seqb k $"SHELL" then Some $"/bin/bash"
    else if seqb k $"TMPDIR" then Some $"/tmp"
    else if seqb k $"HOME" then Some (sandbox_home p)
    else match env_set_vars p !! k with
    | Some v => Some v
    | None => if smem k HostDeniedEnvVars || smem k (env_unset_vars p) then None else host k
    end.
Proof.
  destruct (build_args_parses _ _ _ Hbuild Hraw) as (marker & Hm & Hp). rewrite Hp in Hparse.
  injection Hparse as <- <-. unfold plan_ops.
  rewrite !app_assoc, env_after_app, <- !app_assoc.
  rewrite (env_after_inert _ (self_ops p)) by (unfold self_ops; case_match; repeat constructor).
  rewrite !app_assoc, env_after_app, <- !app_assoc, (env_after_inert _ _ (plan_inert p)).
  unfold env_ops. rewrite !env_after_app. cbn [env_after fold_left env_op]. rewrite Hm.
  repeat (case_match; [done|]).
  fold (env_after (env_after (env_after host (map Unsetenv HostDeniedEnvVars)) (map Unsetenv (env_unset_vars p)))
          (map (fun k => Setenv k (default [] (env_set_vars p !! k))) (sorted_keys (env_set_vars p))) k).
  rewrite (env_after_set _ (fun k => default [] (env_set_vars p !! k))), smem_sorted_keys.
  destruct (env_set_vars p !! k) as [v|]; [done|].
  rewrite !env_after_unset. destruct (smem k HostDeniedEnvVars), (smem k (env_unset_vars p)); done.
Qed.

(** a custom mount is visible.  At a path that keg's own later mounts
    (/run and the secrets, the resolver files, the guest binary) do not cover,
    the sandbox shows the mount whose destination is the deepest one covering
    the path, whatever the order of the entries in the configuration, and the
    later entry when two have the same destination: sorting by destination
    keeps a parent from hiding what is mounted below it. *)
Theorem custom_mount_seen `{MapRange gostring} (marshal : env_keep_marker -> option gostring) (p : plan)
    (args : list gostring) (ops : list bwrap_op) (cmd : list gostring) (path : gostring)
    (before after : list mount) (m : mount)
    (Hraw : bwrap_args p = []) (Hbuild : build_args marshal p = Ok args)
    (Hparse : parse_ops args = Some (ops, cmd))
    (Hmounts : mounts p = before ++ m :: after) (Hm : covers (m_dest m) path = true)
    (Hbefore : forall x, x ∈ before -> covers (m_dest x) path = true -> length (m_dest x) <= length (m_dest m))
    (Hafter : forall x, x ∈ after -> covers (m_dest x) path = true -> length (m_dest x) < length (m_dest m))
    (Hlate : Forall (fun o => covering path o = false) (run_ops p ++ resolver_ops p ++ self_ops p)) :
  seen_at ops path = Some (mount_place m).
Proof.
  destruct (build_args_parses _ _ _ Hbuild Hraw) as (marker & _ & Hp). rewrite Hp in Hparse.
  injection Hparse as <- _.
  destruct (sort_by_last (fun a b => sleb (m_dest a) (m_dest b)) (fun a b => sleb_total _ _)
              (fun a b c => sleb_trans _ _ _) (fun x => covers (m_dest x) path = true) before m after)
    as (s1 & s2 & Hs & Hs2).
  { intros x Hx Hc. rewrite (covering_order _ _ path) by done. apply Nat.leb_le. by apply Hbefore. }
  { intros x Hx Hc. rewrite (covering_order _ _ path) by done. apply Nat.leb_gt. by apply Hafter. }
  rewrite !Forall_app in Hlate. destruct Hlate as (Hrun & Hres & Hself).
  assert (Henv : Forall (fun o => covering path o = false) (env_ops p marker)).
  { unfold env_ops. rewrite !Forall_app. split_and!; [| | |repeat constructor];
      apply Forall_forall; intros o (x & -> & _)%list_elem_of_fmap; done. }
  unfold plan_ops. rewrite !app_assoc. rewrite !seen_at_app_none by assumption.
  unfold sorted_mounts. rewrite Hmounts, Hs, map_app, concat_app. cbn [map concat]. rewrite !app_assoc.
  rewrite seen_at_app_none.
  - unfold mount_ops. rewrite app_assoc. apply seen_at_last. by rewrite mount_place_covering.
  - clear Hs. induction s2 as [|x s2 IH]; [constructor|]. cbn [map concat]. apply Forall_app. split.
    + apply mount_ops_uncovered, not_true_is_false, Hs2. left.
    + apply IH. intros y Hy. apply Hs2. by right.
Qed.

(** * A concrete plan *)
Definition sample_plan (enable : bool) (l : list mount) : plan :=
  Plan $"/repo" $"/home/sandbox" [] [] [] [] l [$"FOO"] {[$"A" := $"1"]} [$"LANG"] false [] false
    OverlayPlain [] [] $"/usr/bin/keg" enable [] [] [] 8 [$"bash"].
Definition sample_mount (src dest mode : gostring) : mount := Mount src dest mode [] [].
Definition sample_marshal (m : env_keep_marker) : option gostring := Some (join $"," (mk_core m)).
Example weak_flags_ex :
  weak_flags [$"--bind"; $"/"; $"/host"; $"--share-net"] = [$"--bind /"; $"--share-net"].
Proof. reflexivity. Qed.
(** The gate looks for the listed spellings only: bwrap has other options that
    bind the host root, and other names for it. *)
Example weak_gate_spellings :
  weak_flags [$"--bind-try"; $"/"; $"/host"] = [] /\ weak_flags [$"--bind"; $"//"; $"/host"] = [].
Proof. by split. Qed.
(** /run is mounted after the custom mounts, so one below it is hidden as
    soon as there is a delegation channel or a secret. *)
Example run_hides_custom_mount :
  let l := [sample_mount $"/run/user/1000" $"/run/user/1000" MountRW] in
  seen_at (@plan_ops map_range_default (sample_plan false l) []) $"/run/user/1000/bus"
    = Some (Place $"--bind" $"/run/user/1000" $"/run/user/1000") /\
  seen_at (@plan_ops map_range_default (sample_plan true l) []) $"/run/user/1000/bus" = Some (tmpfs $"/run").
Proof. vm_compute. by split. Qed.

Lemma build_args_outcome_witness :
  exists args, @build_args map_range_default sample_marshal (sample_plan true []) = Ok args /\
    parse_ops args = Some (@plan_ops map_range_default (sample_plan true []) $"HOME,TMPDIR,SHELL,PATH,CODE_KEG",
                           [$"/.keg/keg"; $"guest"; $"bash"]).
Proof.
  assert (Hweak : ~ weak_args []) by (intros [(x & Hx & _)|([|? ?] & ? & ? & Hx)]; [inversion Hx | discriminate Hx..]).
  destruct (@build_args_outcome map_range_default sample_marshal (sample_plan true [])) as [_ Hok].
  destruct (Hok (or_introl Hweak)) as (args & Hargs & _ & Hp). exists args.
  split; [exact Hargs | exact (Hp eq_refl)].
Defined.
Lemma custom_mount_seen_witness :
  exists args ops cmd,
    @build_args map_range_default sample_marshal
      (sample_plan true [sample_mount $"/b" $"/data/b" MountRO; sample_mount $"/a" $"/data" MountRW]) = Ok args /\
    parse_ops args = Some (ops, cmd) /\
    seen_at ops $"/data/b/x" = Some (Place $"--ro-bind" $"/b" $"/data/b").
Proof.
  set (p := sample_plan true [sample_mount $"/b" $"/data/b" MountRO; sample_mount $"/a" $"/data" MountRW]).
  destruct (@build_args map_range_default sample_marshal p) as [args|e] eqn:Hb; [|vm_compute in Hb; discriminate Hb].
  exists args. destruct (parse_ops args) as [[ops cmd]|] eqn:Hp;
    [|apply ok_inj in Hb; subst args; vm_compute in Hp; discriminate Hp].
  exists ops, cmd. split; [reflexivity|]. split; [reflexivity|].
  apply (@custom_mount_seen map_range_default sample_marshal p args ops cmd $"/data/b/x" []
           [sample_mount $"/a" $"/data" MountRW] (sample_mount $"/b" $"/data/b" MountRO) eq_refl Hb Hp).
  - reflexivity.
  - reflexivity.
  - intros x Hx. inversion Hx.
  - intros x Hx _. apply list_elem_of_singleton in Hx. subst x. cbn. lia.
  - repeat constructor.
Defined.
