(* ===== verification/GuestEnv.v ===== *)
(** The guest side of a launch, [internal/orchestrator/guest.go]: what the
    resident process inside the sandbox makes of its arguments and of its
    environment, and the environment it gives to the workload.

    The process environment is a map; [json.Unmarshal] into the marker and
    the working directory are parameters, and the channel bridges are named,
    not run. *)
From S2P Require Import GoStrings ConfigTypes BwrapArgs.
Local Open Scope go_scope.

Definition EnvProxyBridge : gostring := $"KEG_PROXY".
Definition EnvPortsForward : gostring := $"KEG_PORTS".
Definition EnvLandlock : gostring := $"KEG_LANDLOCK".
Definition EnvLandlockWritable : gostring := $"KEG_LANDLOCK_WRITABLE".
Definition EnvForwardHosts : gostring := $"KEG_HOST_FORWARD".
Definition EnvDelegation : gostring := $"KEG_RUNNER".
Definition internalEnvMarkers : list gostring :=
  [EnvKeepMarkerName; EnvDelegation; EnvProxyBridge; EnvPortsForward; EnvLandlock; EnvLandlockWritable].
Definition InteractiveEnvVars : list gostring :=
  [$"TERM"; $"COLORTERM"; $"TERMINFO"; $"TERMINFO_DIRS"; $"NO_COLOR"; $"FORCE_COLOR"; $"CLICOLOR";
   $"CLICOLOR_FORCE"; $"LANG"; $"LC_ALL"; $"LC_CTYPE"; $"LC_MESSAGES"].

(** [os.Getenv]. *)
Definition getenv (env : strmap) (k : gostring) : gostring := default [] (env !! k).

(** * Entry *)
Definition guest_args (argv : list gostring) : option (list gostring) :=
  match argv with
  | a0 :: a1 :: rest =>
      if seqb a0 GuestCommandName then Some (a1 :: rest)
      else match rest with
           | _ :: _ => if seqb a1 GuestCommandName then Some rest else None
           | [] => None
           end
  | _ => None
  end.

Record ruleset_config := RulesetConfig {
  ll_mode : gostring; read_only_dirs : list gostring; writable_dirs : list gostring }.
Definition add_writable (writable : list gostring) (p : gostring) : list gostring :=
  let p := trim_space p in
  if negb (is_empty p) && negb (smem p writable) then writable ++ [p] else writable.
Definition build_guest_landlock_config (mode home cwd : gostring) (extra : list gostring) : ruleset_config :=
  let writable := [$"/tmp"; $"/dev"] ++ (if negb (is_empty home) then [home] else [])
                  ++ (if negb (is_empty cwd) then [cwd] else []) in
  RulesetConfig mode [$"/"] (fold_left add_writable extra writable).
(** The environment afterwards, and the rule set handed to the kernel. *)
Definition apply_landlock (env : strmap) (cwd : gostring) : strmap * option ruleset_config :=
  let mode := or_else (getenv env EnvLandlock) $"auto" in
  let env := delete EnvLandlock env in
  if seqb mode $"off" then (env, None)
  else
    let extra_str := getenv env EnvLandlockWritable in
    let env := delete EnvLandlockWritable env in
    let extra := if negb (is_empty extra_str) then split "," extra_str else [] in
    let home := or_else (getenv env $"HOME") $"/home/sandbox" in
    (env, Some (build_guest_landlock_config mode home cwd extra)).

Definition proxy_vars : list gostring := [$"HTTP_PROXY"; $"HTTPS_PROXY"; $"http_proxy"; $"https_proxy"].
Definition no_proxy_vars : list gostring := [$"NO_PROXY"; $"no_proxy"].
Definition loopback_names : gostring := $"localhost,127.0.0.1".
Definition proxy_on (addr : gostring) : bool := negb (is_empty addr || seqb addr $"0").
(** The six assignments made when the proxy marker is set. *)
Definition set_proxy (addr : gostring) (env : strmap) : strmap :=
  if proxy_on addr then
    let env := fold_left (fun env name => <[name := $"http://" ++ addr]> env) proxy_vars env in
    fold_left (fun env name => <[name := loopback_names]> env) no_proxy_vars env
  else env.
Definition apply_proxy_env (env : strmap) : strmap := set_proxy (getenv env EnvProxyBridge) env.
Definition prepare_guest_process (env : strmap) (cwd : gostring) : strmap * option ruleset_config :=
  let env := <[$"CODE_KEG" := $"1"]> env in
  let env := fold_left (fun env name => delete name env) HostDeniedEnvVars env in
  apply_landlock (apply_proxy_env env) cwd.

(** [startConfiguredBridges]: which channels are served, with the markers. *)
Inductive bridge :=
  | ProxyBridge (addr : gostring)
  | PortForwarder (marker : gostring)
  | HostForwarder (marker : gostring)
  | RunnerBridge.
Definition configured_bridges (env : strmap) : list bridge :=
  (let addr := getenv env EnvProxyBridge in if proxy_on addr then [ProxyBridge addr] else [])
  ++ (let m := getenv env EnvPortsForward in if negb (is_empty m) then [PortForwarder m] else [])
  ++ (let m := getenv env EnvForwardHosts in if negb (is_empty m) then [HostForwarder m] else [])
  ++ (if seqb (getenv env EnvDelegation) $"1" then [RunnerBridge] else []).

(** * The workload's environment *)
(** [os.Environ] entries into a map; the last of two equal names wins. *)
Definition environ_map (environ : list gostring) : strmap :=
  fold_left (fun m e => match cut "=" e with Some (k, v) => <[k := v]> m | None => m end) environ ∅.
Definition hidden (unset : list gostring) (k : gostring) : bool :=
  smem k HostDeniedEnvVars || smem k internalEnvMarkers || smem k unset.
Section keep.
Context `{MapRange gostring}.
Definition keep_all (env : strmap) (unset : list gostring) (out : strmap) : strmap :=
  fold_left (fun out kv => if hidden unset kv.1 then out else <[kv.1 := kv.2]> out) (map_range env) out.
Definition keep_named (env : strmap) (unset names : list gostring) (out : strmap) : strmap :=
  fold_left (fun out name =>
    if hidden unset name then out
    else match env !! name with Some v => <[name := v]> out | None => out end) names out.
Definition keep_interactive (env : strmap) (unset : list gostring) (out : strmap) : strmap :=
  fold_left (fun out name =>
    if smem name HostDeniedEnvVars || smem name unset then out
    else match env !! name with
         | Some v => if negb (is_empty v) then <[name := v]> out else out
         | None => out
         end) InteractiveEnvVars out.
Definition keep_core (env : strmap) (core : list gostring) (out : strmap) : strmap :=
  fold_left (fun out name => match env !! name with Some v => <[name := v]> out | None => out end) core out.
Definition set_all (set out : strmap) : strmap :=
  fold_left (fun out kv => <[kv.1 := kv.2]> out) (map_range set) out.

Definition keep_map (marker : option env_keep_marker) (env : strmap) (interactive : bool) : strmap :=
  match marker with
  | Some m =>
      let out := if mk_all m then keep_all env (mk_unset m) ∅
                 else keep_named env (mk_unset m) (mk_inherit m) ∅ in
      let out := if interactive then keep_interactive env (mk_unset m) out else out in
      let out := keep_core env (mk_core m) out in
      let out := set_proxy (getenv env EnvProxyBridge) out in
      set_all (mk_set m) out
  | None => set_proxy (getenv env EnvProxyBridge) (keep_all env [] ∅)
  end.
(** [BuildKeepEnvInteractive]; [unmarshal] is [json.Unmarshal], [None] on an
    error. *)
Definition build_keep_env (unmarshal : gostring -> option env_keep_marker) (marker_data : gostring)
    (environ : list gostring) (interactive : bool) : list gostring :=
  let marker := if is_empty marker_data then None else unmarshal marker_data in
  let out := keep_map marker (environ_map environ) interactive in
  map (fun k => k ++ $"=" ++ getenv out k) (sorted_keys out).
End keep.

(** * Lemmas *)
(** A loop that assigns, for each name, the value [f] has for it if any. *)
Definition assign (f : gostring -> option gostring) (out : strmap) (name : gostring) : strmap :=
  match f name with Some v => <[name := v]> out | None => out end.
Lemma assign_lookup f names out k :
  fold_left (assign f) names out !! k =
    if smem k names then match f k with Some v => Some v | None => out !! k end else out !! k.
Proof.
  revert out; induction names as [|n names IH]; intros out; [done|]. cbn [fold_left]. rewrite IH.
  cbn [smem existsb]. fold (smem k names). unfold assign. destruct (seqb_spec k n) as [-> | Hne]; cbn [orb].
  - destruct (f n) as [v|]; [|by destruct (smem n names)]. rewrite lookup_insert_eq. by destruct (smem n names).
  - destruct (f n) as [v|]; [by rewrite lookup_insert_ne|]. done.
Qed.
Lemma fold_left_ext_in {A B} (f g : A -> B -> A) l a :
  (forall x a, x ∈ l -> f a x = g a x) -> fold_left f l a = fold_left g l a.
Proof.
  revert a; induction l as [|x l IH]; intros a Hfg; [done|]. cbn [fold_left].
  rewrite Hfg by left. apply IH. intros y b Hy. apply Hfg. by right.
Qed.
Section keep_lemmas.
Context `{MapRangeLaws gostring}.
(** The same loop over the entries of a map. *)
Lemma assign_range_lookup (f : gostring -> option gostring) (g : strmap -> gostring * gostring -> strmap) (m out : strmap) k :
  (forall kv a, m !! kv.1 = Some kv.2 -> g a kv = assign f a kv.1) ->
  fold_left g (map_range m) out !! k =
    match m !! k with Some _ => match f k with Some v => Some v | None => out !! k end | None => out !! k end.
Proof.
  intros Hg.
  rewrite (fold_left_ext_in g (fun a kv => assign f a kv.1)).
  2:{ intros [x v] a Hin. apply map_range_elem in Hin. by apply (Hg (x, v)). }
  assert (Hm : forall l a, fold_left (fun a (kv : gostring * gostring) => assign f a kv.1) l a
                           = fold_left (assign f) (map fst l) a).
  { induction l as [|y l IH]; intros a; [done|]. apply IH. }
  rewrite Hm, assign_lookup.
  assert (Hk : smem k (map fst (map_range m)) = match m !! k with Some _ => true | None => false end).
  { rewrite <- (smem_sorted_keys m k). unfold sorted_keys. apply eq_true_iff_eq.
    by rewrite !smem_true, sort_strings_elem. }
  rewrite Hk. by destruct (m !! k).
Qed.
Lemma keep_all_lookup env unset out k :
  keep_all env unset out !! k =
    match env !! k with Some v => if hidden unset k then out !! k else Some v | None => out !! k end.
Proof.
  unfold keep_all. rewrite (assign_range_lookup (fun n => if hidden unset n then None else env !! n)).
  - destruct (env !! k) eqn:Hk; [|done]. by destruct (hidden unset k).
  - intros [n v] a Hn. cbn in Hn. unfold assign. cbn [fst snd]. rewrite Hn. by destruct (hidden unset n).
Qed.
Lemma set_all_lookup set out k :
  set_all set out !! k = match set !! k with Some v => Some v | None => out !! k end.
Proof.
  unfold set_all. rewrite (assign_range_lookup (fun n => set !! n)).
  - by destruct (set !! k).
  - intros [n v] a Hn. cbn in Hn. unfold assign. cbn [fst snd]. by rewrite Hn.
Qed.
Lemma keep_named_lookup env unset names out k :
  keep_named env unset names out !! k =
    if smem k names && negb (hidden unset k)
    then match env !! k with Some v => Some v | None => out !! k end else out !! k.
Proof.
  unfold keep_named. rewrite (fold_left_ext_in _ (assign (fun n => if hidden unset n then None else env !! n))).
  - rewrite assign_lookup. destruct (smem k names), (hidden unset k); done.
  - intros n a _. unfold assign. by destruct (hidden unset n).
Qed.
Definition interactive_value (env : strmap) (unset : list gostring) (name : gostring) : option gostring :=
  if smem name HostDeniedEnvVars || smem name unset then None
  else match env !! name with Some v => if negb (is_empty v) then Some v else None | None => None end.
Lemma keep_interactive_lookup env unset out k :
  keep_interactive env unset out !! k =
    if smem k InteractiveEnvVars
    then match interactive_value env unset k with Some v => Some v | None => out !! k end else out !! k.
Proof.
  unfold keep_interactive. rewrite (fold_left_ext_in _ (assign (interactive_value env unset))).
  - apply assign_lookup.
  - intros n a _. unfold assign, interactive_value. destruct (_ || _); [done|].
    destruct (env !! n) as [v|]; [|done]. by destruct (is_empty v).
Qed.
Lemma keep_core_lookup env core out k :
  keep_core env core out !! k =
    if smem k core then match env !! k with Some v => Some v | None => out !! k end else out !! k.
Proof. apply (assign_lookup (fun n => env !! n)). Qed.
Lemma set_proxy_lookup addr out k :
  set_proxy addr out !! k =
    if proxy_on addr && smem k no_proxy_vars then Some loopback_names
    else if proxy_on addr && smem k proxy_vars then Some ($"http://" ++ addr)
    else out !! k.
Proof.
  unfold set_proxy. destruct (proxy_on addr); [|done]. cbn [andb].
  pose proof (assign_lookup (fun _ => Some loopback_names) no_proxy_vars) as Hn.
  pose proof (assign_lookup (fun _ => Some ($"http://" ++ addr)) proxy_vars) as Hp.
  unfold assign in Hn, Hp. by rewrite Hn, Hp.
Qed.
Lemma delete_all_lookup (names : list gostring) (env : strmap) (k : gostring) :
  fold_left (fun (env : strmap) name => delete name env) names env !! k = if smem k names then None else env !! k.
Proof.
  revert env; induction names as [|n names IH]; intros env; [done|]. cbn [fold_left]. rewrite IH.
  cbn [smem existsb]. fold (smem k names). destruct (seqb_spec k n) as [-> | Hne]; cbn [orb].
  - rewrite lookup_delete_eq. by destruct (smem n names).
  - by rewrite lookup_delete_ne.
Qed.
Lemma smem_sort k l : smem k (sort_strings l) = smem k l.
Proof. apply eq_true_iff_eq. by rewrite !smem_true, sort_strings_elem. Qed.
(** The guest's own environment after its preparation; the Landlock markers
    are consumed. *)
Lemma prepare_lookup env cwd k :
  k <> EnvLandlock -> k <> EnvLandlockWritable ->
  fst (prepare_guest_process env cwd) !! k =
    let addr := getenv env EnvProxyBridge in
    if proxy_on addr && smem k no_proxy_vars then Some loopback_names
    else if proxy_on addr && smem k proxy_vars then Some ($"http://" ++ addr)
    else if smem k HostDeniedEnvVars then None
    else if seqb k $"CODE_KEG" then Some $"1" else env !! k.
Proof.
  intros Hl Hw. unfold prepare_guest_process, apply_landlock.
  set (e1 := fold_left _ HostDeniedEnvVars _).
  assert (He1 : forall x, e1 !! x = if smem x HostDeniedEnvVars then None
                                     else if seqb x $"CODE_KEG" then Some $"1" else env !! x).
  { intros x. unfold e1. rewrite delete_all_lookup. destruct (smem x _); [done|].
    destruct (seqb_spec x $"CODE_KEG") as [-> | Hne]; [by rewrite lookup_insert_eq | by rewrite lookup_insert_ne]. }
  assert (Haddr : getenv e1 EnvProxyBridge = getenv env EnvProxyBridge) by (unfold getenv; by rewrite He1).
  assert (Hend : forall b : bool, (if b then delete EnvLandlock (apply_proxy_env e1)
                          else delete EnvLandlockWritable (delete EnvLandlock (apply_proxy_env e1))) !! k
                         = apply_proxy_env e1 !! k).
  { intros []; by rewrite !lookup_delete_ne by congruence. }
  unfold apply_proxy_env in *. rewrite Haddr in *. cbv zeta. rewrite <- He1, <- set_proxy_lookup.
  rewrite <- (Hend (seqb (or_else (getenv (set_proxy (getenv env EnvProxyBridge) e1) EnvLandlock) $"auto") $"off")).
  by destruct (seqb _ $"off").
Qed.
(** The lookup of the map the workload gets. *)
Lemma keep_map_lookup m env interactive k :
  keep_map (Some m) env interactive !! k =
    match mk_set m !! k with
    | Some v => Some v
    | None =>
        let addr := getenv env EnvProxyBridge in
        if proxy_on addr && smem k no_proxy_vars then Some loopback_names
        else if proxy_on addr && smem k proxy_vars then Some ($"http://" ++ addr)
        else if smem k (mk_core m) && match env !! k with Some _ => true | None => false end then env !! k
        else if interactive && smem k InteractiveEnvVars
                && match interactive_value env (mk_unset m) k with Some _ => true | None => false end
             then env !! k
        else if (mk_all m || smem k (mk_inherit m)) && negb (hidden (mk_unset m) k) then env !! k else None
    end.
Proof.
  unfold keep_map. rewrite set_all_lookup. destruct (mk_set m !! k) as [v|]; [done|]. cbv zeta.
  rewrite set_proxy_lookup. destruct (_ && smem k no_proxy_vars); [done|].
  destruct (_ && smem k proxy_vars); [done|]. rewrite keep_core_lookup.
  set (base := if mk_all m then _ else _).
  assert (Hbase : base !! k = if (mk_all m || smem k (mk_inherit m)) && negb (hidden (mk_unset m) k)
                              then env !! k else None).
  { unfold base. destruct (mk_all m); cbn [orb andb].
    - rewrite keep_all_lookup, lookup_empty. destruct (env !! k), (hidden (mk_unset m) k); done.
    - rewrite keep_named_lookup, lookup_empty. destruct (_ && _); [by destruct (env !! k) | done]. }
  rewrite <- Hbase.
  assert (Hint : (if interactive then keep_interactive env (mk_unset m) base else base) !! k =
    if interactive && smem k InteractiveEnvVars
       && match interactive_value env (mk_unset m) k with Some _ => true | None => false end
    then env !! k else base !! k).
  { destruct interactive; [|done]. rewrite keep_interactive_lookup. cbn [andb].
    destruct (smem k InteractiveEnvVars); [|done]. unfold interactive_value. cbn [andb].
    destruct (smem k HostDeniedEnvVars || smem k (mk_unset m)); [done|]. destruct (env !! k) as [v|] eqn:Hk; [|done]. by destruct (is_empty v). }
  rewrite Hint. destruct (smem k (mk_core m)); [|done]. by destruct (env !! k).
Qed.
End keep_lemmas.

(** [buildWorkloadEnv] up to the list form of the environment. *)
Definition workload_map `{MapRange gostring} (unmarshal : gostring -> option env_keep_marker)
    (env : strmap) (interactive : bool) : strmap :=
  let data := getenv env EnvKeepMarkerName in
  keep_map (if is_empty data then None else unmarshal data) env interactive.
(** What keg sets itself. *)
Definition core_value (p : plan) (k : gostring) : gostring :=
  if seqb k $"HOME" then sandbox_home p
  else if seqb k $"TMPDIR" then $"/tmp"
  else if seqb k $"SHELL" then $"/bin/bash"
  else if seqb k $"PATH" then guest_path p else $"1".
Lemma core_cases k : smem k CoreEnvVars = true ->
  k = $"HOME" \/ k = $"TMPDIR" \/ k = $"SHELL" \/ k = $"PATH" \/ k = $"CODE_KEG".
Proof. rewrite smem_true. unfold CoreEnvVars. rewrite !elem_of_cons. intros [|[|[|[|[|Hx]]]]]; [tauto..|]. by apply not_elem_of_nil in Hx. Qed.
(** A name outside a list of names is different from each of them. *)
Lemma smem_other k l x : smem k l = false -> smem x l = true -> seqb k x = false.
Proof. rewrite smem_false, smem_true, seqb_neq. congruence. Qed.

Lemma markers_not_interactive k : smem k internalEnvMarkers = true -> smem k InteractiveEnvVars = false.
Proof.
  rewrite smem_true. unfold internalEnvMarkers. rewrite !elem_of_cons.
  intros [->|[->|[->|[->|[->|[->|Hx]]]]]]; [done..|]. by apply not_elem_of_nil in Hx.
Qed.
(** The environment bwrap gives the guest, name by name. *)
Definition boundary_value (marshal : env_keep_marker -> option gostring) (p : plan)
    (host : gostring -> option gostring) (x : gostring) : option gostring :=
  if seqb x EnvKeepMarkerName then marshal (marker_of p)
  else if smem x [$"PATH"; $"SHELL"; $"TMPDIR"; $"HOME"] then Some (core_value p x)
  else match env_set_vars p !! x with
       | Some v => Some v
       | None => if smem x HostDeniedEnvVars || smem x (env_unset_vars p) then None else host x
       end.
Lemma env_after_boundary `{MapRangeLaws gostring} marshal p args ops cmd host x :
  bwrap_args p = [] -> build_args marshal p = Ok args -> parse_ops args = Some (ops, cmd) ->
  env_after host ops x = boundary_value marshal p host x.
Proof.
  intros Hraw Hbuild Hparse. rewrite (sandbox_environment marshal p args ops cmd host x Hraw Hbuild Hparse).
  unfold boundary_value, core_value. cbn [smem existsb].
  repeat (case_match; try done; cbn [orb] in * ); breflect; subst; done.
Qed.
(** Where the proxy variables do not win, the prepared guest holds the core
    values, and the host's value of every other name it may keep. *)
Section prepared.
Context (marshal : env_keep_marker -> option gostring) (p : plan) (host : gostring -> option gostring)
  (genv : strmap) (cwd k : gostring)
  (Hgenv : forall x, genv !! x = boundary_value marshal p host x)
  (Hproxy : proxy_on (getenv genv EnvProxyBridge) && smem k (no_proxy_vars ++ proxy_vars) = false).
Lemma prepared_lookup x :
  smem x internalEnvMarkers = false \/ x = EnvKeepMarkerName \/ x = EnvProxyBridge ->
  fst (prepare_guest_process genv cwd) !! x =
    let addr := getenv genv EnvProxyBridge in
    if proxy_on addr && smem x no_proxy_vars then Some loopback_names
    else if proxy_on addr && smem x proxy_vars then Some ($"http://" ++ addr)
    else if smem x HostDeniedEnvVars then None
    else if seqb x $"CODE_KEG" then Some $"1" else genv !! x.
Proof. intros Hx. apply prepare_lookup; intros ->; destruct Hx as [Hx|[Hx|Hx]]; done. Qed.
Lemma prepared_unproxied :
  smem k internalEnvMarkers = false ->
  fst (prepare_guest_process genv cwd) !! k =
    if smem k HostDeniedEnvVars then None
    else if seqb k $"CODE_KEG" then Some $"1" else boundary_value marshal p host k.
Proof.
  intros Hk. rewrite prepared_lookup by tauto. cbv zeta. rewrite <- Hgenv. unfold smem in *.
  rewrite existsb_app in Hproxy. by destruct (proxy_on _), (existsb _ no_proxy_vars), (existsb _ proxy_vars).
Qed.
Lemma prepared_core :
  smem k CoreEnvVars = true -> fst (prepare_guest_process genv cwd) !! k = Some (core_value p k).
Proof.
  intros Hcore. apply core_cases in Hcore. rewrite prepared_unproxied;
    by destruct Hcore as [->|[->|[->|[->| ->]]]].
Qed.
Lemma prepared_host :
  smem k internalEnvMarkers = false -> smem k CoreEnvVars = false -> smem k HostDeniedEnvVars = false ->
  smem k (env_unset_vars p) = false -> env_set_vars p !! k = None ->
  fst (prepare_guest_process genv cwd) !! k = host k.
Proof.
  intros Hint Hcore Hden Hus Hset. rewrite prepared_unproxied by done. unfold boundary_value.
  rewrite Hden, Hset, Hus, (smem_other k CoreEnvVars), (smem_other k internalEnvMarkers) by done.
  cbn [smem existsb]. by rewrite !(smem_other k CoreEnvVars) by done.
Qed.
End prepared.

(** C13: the environment across the boundary, for a plan without raw bwrap
    arguments whose marker survives its encoding.  Take the environment bwrap
    makes out of the host's, let the guest prepare itself and compute what the
    workload gets.  A variable that the plan sets has the plan's value, and so
    reaches the workload even if it is one of keg's internal markers; of the
    variables the plan does not set, the proxy variables point at the bridge if
    there is one; HOME, TMPDIR, SHELL, PATH and CODE_KEG are keg's; a denied
    host variable, an unset one or an internal marker is never passed on; and
    any other has the host's value if it is inherited (by name, all, or a
    terminal variable of an interactive session) and is absent otherwise. *)
Theorem workload_environment `{MapRangeLaws gostring} (marshal : env_keep_marker -> option gostring)
    (unmarshal : gostring -> option env_keep_marker) (p : plan) (args : list gostring)
    (ops : list bwrap_op) (cmd : list gostring) (host : gostring -> option gostring)
    (genv : strmap) (cwd : gostring) (interactive : bool) (k : gostring)
    (Hraw : bwrap_args p = []) (Hbuild : build_args marshal p = Ok args)
    (Hparse : parse_ops args = Some (ops, cmd))
    (Hcodec : forall data, marshal (marker_of p) = Some data -> data <> [] /\ unmarshal data = Some (marker_of p))
    (Hgenv : forall x, genv !! x = env_after host ops x) :
  let addr := getenv genv EnvProxyBridge in
  workload_map unmarshal (fst (prepare_guest_process genv cwd)) interactive !! k =
    match env_set_vars p !! k with
    | Some v => Some v
    | None =>
        if proxy_on addr && smem k no_proxy_vars then Some loopback_names
        else if proxy_on addr && smem k proxy_vars then Some ($"http://" ++ addr)
        else if smem k CoreEnvVars then Some (core_value p k)
        else if hidden (env_unset_vars p) k then None
        else if inherit_all p || smem k (env_inherit_vars p)
                || interactive && smem k InteractiveEnvVars && negb (is_empty (default [] (host k)))
             then host k else None
    end.
Proof.
  intros addr. set (env := fst (prepare_guest_process genv cwd)).
  assert (Hg : forall x, genv !! x = boundary_value marshal p host x).
  { intros x. rewrite Hgenv. by eapply env_after_boundary. }
  destruct (build_args_ok _ _ _ Hbuild) as (data & Hdata & _). destruct (Hcodec data Hdata) as [Hne Hun].
  assert (Hmark : getenv env EnvKeepMarkerName = data).
  { unfold env, getenv. rewrite prepared_lookup by tauto. cbv zeta. rewrite Hg. unfold boundary_value.
    rewrite seqb_refl, Hdata. by destruct (proxy_on _). }
  assert (Haddr : getenv env EnvProxyBridge = addr).
  { unfold env, getenv. rewrite prepared_lookup by tauto. cbv zeta. by destruct (proxy_on _). }
  unfold workload_map. rewrite Hmark. apply is_empty_false in Hne. rewrite Hne, Hun, keep_map_lookup.
  cbn [marker_of mk_set mk_core mk_inherit mk_unset mk_all]. rewrite Haddr. cbv zeta.
  destruct (env_set_vars p !! k) as [v|] eqn:Hset; [done|].
  destruct (proxy_on addr && smem k no_proxy_vars) eqn:Hnp; [done|].
  destruct (proxy_on addr && smem k proxy_vars) eqn:Hpr; [done|].
  assert (Hproxy : proxy_on (getenv genv EnvProxyBridge) && smem k (no_proxy_vars ++ proxy_vars) = false).
  { unfold smem in *. rewrite existsb_app, andb_orb_distrib_r. fold addr. by rewrite Hnp, Hpr. }
  destruct (smem k CoreEnvVars) eqn:Hcore; cbn [andb].
  { unfold env. by rewrite (prepared_core _ _ _ _ cwd _ Hg Hproxy Hcore). }
  unfold interactive_value, hidden. rewrite !smem_sort.
  destruct (smem k HostDeniedEnvVars) eqn:Hden; cbn [orb]; [by rewrite !andb_false_r|].
  destruct (smem k internalEnvMarkers) eqn:Hin; cbn [orb negb].
  { by rewrite (markers_not_interactive k Hin), !andb_false_r. }
  destruct (smem k (env_unset_vars p)) eqn:Hus; cbn [orb negb]; [by rewrite !andb_false_r|].
  unfold env. rewrite (prepared_host _ _ _ _ cwd _ Hg Hproxy Hin Hcore Hden Hus Hset), andb_true_r.
  destruct (host k) as [v|]; cbn [from_option id].
  - destruct (is_empty v), interactive, (smem k InteractiveEnvVars), (inherit_all p), (smem k (env_inherit_vars p)); done.
  - by repeat case_match.
Qed.

(** * A concrete launch *)
Definition sample_unmarshal (p : plan) (_ : gostring) : option env_keep_marker := Some (marker_of p).
Definition sample_host (k : gostring) : option gostring :=
  if smem k [$"LANG"; $"AWS_SESSION_TOKEN"; $"EDITOR"] then Some $"x" else None.
Definition sample_genv : strmap :=
  <[$"LANG" := $"x"]> (<[$"EDITOR" := $"x"]> (<[$"A" := $"1"]>
  (<[$"HOME" := $"/home/sandbox"]> (<[$"TMPDIR" := $"/tmp"]> (<[$"SHELL" := $"/bin/bash"]>
  (<[$"PATH" := guest_path (sample_plan false [])]>
  {[EnvKeepMarkerName := $"HOME,TMPDIR,SHELL,PATH,CODE_KEG"]})))))).
(** A marker that is set for the guest is part of the plan's environment, so
    the workload sees it although markers are meant to be hidden. *)
Example marker_reaches_workload :
  let m := EnvKeepMarker CoreEnvVars {[EnvDelegation := $"1"]} [] [] false in
  @build_keep_env map_range_default (fun _ => Some m) $"{}" [$"KEG_RUNNER=1"; $"HOME=/h"] false
  = [$"HOME=/h"; $"KEG_RUNNER=1"].
Proof. vm_compute. reflexivity. Qed.
Example guest_args_ex :
  guest_args [$"/.keg/keg"; $"guest"; $"bash"; $"-c"] = Some [$"bash"; $"-c"] /\ guest_args [$"keg"; $"guest"] = None.
Proof. by split. Qed.
Lemma sample_genv_spec x :
  sample_genv !! x =
    if seqb x EnvKeepMarkerName then sample_marshal (marker_of (sample_plan false []))
    else if seqb x $"PATH" then Some (guest_path (sample_plan false []))
    else if seqb x $"SHELL" then Some $"/bin/bash"
    else if seqb x $"TMPDIR" then Some $"/tmp"
    else if seqb x $"HOME" then Some (sandbox_home (sample_plan false []))
    else match env_set_vars (sample_plan false []) !! x with
    | Some v => Some v
    | None => if smem x HostDeniedEnvVars || smem x (env_unset_vars (sample_plan false [])) then None
              else sample_host x
    end.
Proof.
  unfold sample_genv, sample_host. cbn [smem existsb env_set_vars sample_plan].
  destruct (seqb_spec x EnvKeepMarkerName) as [-> | H1]; [vm_compute; reflexivity|].
  destruct (seqb_spec x $"PATH") as [-> | H2]; [vm_compute; reflexivity|].
  destruct (seqb_spec x $"SHELL") as [-> | H3]; [vm_compute; reflexivity|].
  destruct (seqb_spec x $"TMPDIR") as [-> | H4]; [vm_compute; reflexivity|].
  destruct (seqb_spec x $"HOME") as [-> | H5]; [vm_compute; reflexivity|].
  destruct (seqb_spec x $"A") as [-> | H6]; [vm_compute; reflexivity|].
  destruct (seqb_spec x $"LANG") as [-> | H7]; [vm_compute; reflexivity|].
  destruct (seqb_spec x $"EDITOR") as [-> | H8]; [vm_compute; reflexivity|].
  rewrite !lookup_insert_ne, !lookup_singleton_ne by congruence.
  destruct (seqb_spec x $"AWS_SESSION_TOKEN") as [-> | H9]; [vm_compute; reflexivity|].
  cbn [orb]. by destruct (_ || _).
Qed.
Lemma workload_environment_witness :
  exists ops cmd args, @build_args map_range_default sample_marshal (sample_plan false []) = Ok args /\
    parse_ops args = Some (ops, cmd) /\
    let w := @workload_map map_range_default (sample_unmarshal (sample_plan false []))
               (fst (prepare_guest_process sample_genv $"/repo")) false in
    w !! $"A" = Some $"1" /\ w !! $"LANG" = Some $"x" /\ w !! $"EDITOR" = None.
Proof.
  destruct (@build_args map_range_default sample_marshal (sample_plan false [])) as [args|e] eqn:Hb;
    [|vm_compute in Hb; discriminate Hb].
  destruct (parse_ops args) as [[ops cmd]|] eqn:Hp;
    [|apply ok_inj in Hb; subst args; vm_compute in Hp; discriminate Hp].
  exists ops, cmd, args. split; [reflexivity|]. split; [exact Hp|]. cbv zeta.
  assert (Hcodec : forall data, sample_marshal (marker_of (sample_plan false [])) = Some data ->
            data <> [] /\ sample_unmarshal (sample_plan false []) data = Some (marker_of (sample_plan false []))).
  { intros data Hd. split; [intros ->; vm_compute in Hd; discriminate Hd | reflexivity]. }
  assert (Hg : forall x, sample_genv !! x = env_after sample_host ops x).
  { intros x. rewrite (@sandbox_environment map_range_default map_range_default_laws sample_marshal
      (sample_plan false []) args ops cmd sample_host x eq_refl Hb Hp).
    apply sample_genv_spec. }
  pose proof (fun k => @workload_environment map_range_default map_range_default_laws sample_marshal
    (sample_unmarshal (sample_plan false [])) (sample_plan false []) args ops cmd sample_host sample_genv
    $"/repo" false k eq_refl Hb Hp Hcodec Hg) as Hw.
  split; [rewrite Hw; vm_compute; reflexivity|]. split; rewrite Hw; vm_compute; reflexivity.
Defined.
