(* ===== verification/Ports.v ===== *)
(** Channels E and F, [internal/portsfw]: which sandbox ports a host client can
    reach ([portsfw.go], [forward.go]) and which host or network services the
    sandbox can reach ([reverse.go]).

    Listeners, streams and dialing are outside: a stream handler is a function
    from the bytes the stream delivers to the address it dials, if any; an
    allocator returns the port of the listener it bound. *)
From S2P Require Import GoStrings GoNet Frame ConfigTypes ConfigExpand.
Local Open Scope go_scope.
Local Open Scope Z_scope.

(** * Declared ports *)
Record resolved_port := ResolvedPort {
  rp_name : gostring; rp_host_ip : gostring; rp_guest : Z; rp_host_port : Z; rp_bound : bool }.
Inductive resolve_err := NoAllocator (name : gostring) | AllocFailed (name : gostring) | NotTCP (name : gostring).
(** What the allocator of dynamic ports gives: the port of a TCP listener, or
    a listener that is not TCP; every call binds a new one, so the allocator
    also gets the number of the call. *)
Inductive listener := TCPListener (port : Z) | OtherListener.
Definition loopback : gostring := $"127.0.0.1".
Definition allocator : Type := nat -> gostring -> option listener.
(** [Resolve] from the [n]-th allocation on. *)
Fixpoint resolve_from (alloc : option allocator) (n : nat) (specs : list port_spec)
  : result resolve_err (list resolved_port) :=
  match specs with
  | [] => Ok []
  | s :: rest =>
      let host_ip := or_else (ps_host_ip s) loopback in
      if negb (ps_dynamic s) then
        out ← resolve_from alloc n rest;
        Ok (ResolvedPort (ps_name s) host_ip (ps_guest s) (ps_host s) false :: out)
      else match alloc with
      | None => Err (NoAllocator (ps_name s))
      | Some alloc' =>
          match alloc' n host_ip with
          | None => Err (AllocFailed (ps_name s))
          | Some OtherListener => Err (NotTCP (ps_name s))
          | Some (TCPListener port) =>
              out ← resolve_from alloc (S n) rest;
              Ok (ResolvedPort (ps_name s) host_ip (ps_guest s) port true :: out)
          end
      end
  end.
Definition resolve (specs : list port_spec) (alloc : option allocator)
  : result resolve_err (list resolved_port) := resolve_from alloc 0 specs.

Definition sanitize_rune (r : Z) : ascii :=
  if (97 <=? r) && (r <=? 122) then Zbyte (r - 32)
  else if (65 <=? r) && (r <=? 90) || (48 <=? r) && (r <=? 57) then Zbyte r
  else "_"%char.
Definition sanitize (name : gostring) : gostring := map sanitize_rune (runes name).
Definition port_var (p : resolved_port) : gostring := $"KEG_PORT_" ++ sanitize (rp_name p).
Definition port_env_step (env : strmap) (p : resolved_port) : strmap :=
  if is_empty (rp_name p) then env else <[port_var p := itoa (rp_host_port p)]> env.
Definition port_env (ports : list resolved_port) : strmap := fold_left port_env_step ports ∅.

(** * The target header *)
Definition encode_target (port : Z) : option (list ascii) :=
  if (port <? 1) || (65535 <? port) then None
  else Some [Zbyte (Z.shiftr port 8); Zbyte (Z.land port 255)].
Inductive target_err := HeaderTruncated (e : read_err) | ZeroPort.
Definition decode_target (r : list ascii) : result target_err (Z * list ascii) :=
  match read_full 2 r with
  | Err e => Err (HeaderTruncated e)
  | Ok (buf, rest) =>
      match buf with
      | [hi; lo] =>
          let port := Z.lor (Z.shiftl (byteZ hi) 8) (byteZ lo) in
          if port =? 0 then Err ZeroPort else Ok (port, rest)
      | _ => Err ZeroPort   (* [read_full 2] returns two bytes *)
      end
  end.

(** * Allowlist markers *)
Definition format_allowed (ports : list resolved_port) : gostring := join $"," (map (fun p => itoa (rp_guest p)) ports).
Definition parse_port_part (allowed : gmap Z bool) (part : gostring) : result unit (gmap Z bool) :=
  match atoi part with
  | None => Err tt
  | Some port => if (port <? 1) || (65535 <? port) then Err tt else Ok (<[port := true]> allowed)
  end.
Definition parse_allowed (marker : gostring) : result unit (gmap Z bool) :=
  if is_empty marker then Ok ∅ else foldM_result parse_port_part ∅ (split "," marker).

Definition format_forward (s : forward_host_spec) : gostring :=
  itoa (fh_guest s) ++ $":" ++ fh_target s ++ $":" ++ itoa (fh_target_port s).
Definition format_forward_hosts (specs : list forward_host_spec) : gostring := join $"," (map format_forward specs).
Inductive forwards_err := ParseForward (entry : gostring) (e : port_err).
Definition forward_step (out : list forward_host_spec) (p : gostring)
  : result forwards_err (list forward_host_spec) :=
  let p := trim_space p in
  if is_empty p then Ok out
  else match parse_forward_host_flag p with
  | Err e => Err (ParseForward p e)
  | Ok spec => Ok (out ++ [spec])
  end.
Definition parse_forward_hosts_env (env_val : gostring) : result forwards_err (list forward_host_spec) :=
  if is_empty (trim_space env_val) then Ok [] else foldM_result forward_step [] (split "," env_val).

(** * Stream handlers *)
(** The address dialed for a stream, [None] when it is closed at once. *)
Definition handle_guest_stream (allowed : gmap Z bool) (stream : list ascii) : option gostring :=
  match decode_target stream with
  | Err _ => None
  | Ok (target, _) => if default false (allowed !! target) then Some (join_host_port loopback (itoa target)) else None
  end.
Definition target_map (allowed : list forward_host_spec) : gmap Z forward_host_spec :=
  fold_left (fun m s => <[fh_guest s := s]> m) allowed ∅.
Definition handle_host_stream (targets : gmap Z forward_host_spec) (stream : list ascii) : option gostring :=
  match decode_target stream with
  | Err _ => None
  | Ok (target, _) =>
      match targets !! target with
      | None => None
      | Some spec => Some (join_host_port (fh_target spec) (itoa (fh_target_port spec)))
      end
  end.

(** * Lemmas *)
Lemma port_env_names ports k v : port_env ports !! k = Some v -> has_prefix k $"KEG_PORT_" = true.
Proof.
  unfold port_env. assert (Hgen : forall env : strmap, fold_left port_env_step ports env !! k = Some v -> env !! k = Some v \/ has_prefix k $"KEG_PORT_" = true).
  { induction ports as [|p ports IH]; intros env; cbn [fold_left]; [by left|]. intros [H|H]%IH; [|by right].
    unfold port_env_step in H. destruct (is_empty (rp_name p)); [by left|].
    destruct (decide (k = port_var p)) as [->|Hne]; [right; apply has_prefix_app|]. rewrite lookup_insert_ne in H by done. by left. }
  intros [H|H]%Hgen; [by rewrite lookup_empty in H | done].
Qed.
Definition valid_port (n : Z) : Prop := 1 <= n <= 65535.
Lemma encode_decode n hdr rest : encode_target n = Some hdr -> decode_target (hdr ++ rest) = Ok (n, rest).
Proof.
  unfold encode_target. destruct (_ || _) eqn:Hn; [done|]. breflect. intros [= <-].
  unfold decode_target, read_full. cbn [app length Nat.leb take drop].
  assert (Hhi : byteZ (Zbyte (Z.shiftr n 8)) = n / 256).
  { rewrite Z.shiftr_div_pow2 by lia. change (2 ^ 8) with 256.
    rewrite byteZ_Zbyte, Z.mod_small; [done|]. split; [apply Z.div_pos; lia | apply Z.div_lt_upper_bound; lia]. }
  assert (Hlo : byteZ (Zbyte (Z.land n 255)) = n mod 256).
  { change 255 with (Z.ones 8). rewrite Z.land_ones by lia. change (2 ^ 8) with 256.
    by rewrite byteZ_Zbyte, Z.mod_mod by lia. }
  rewrite Hhi, Hlo.
  assert (Hor : Z.lor (Z.shiftl (n / 256) 8) (n mod 256) = n).
  { assert (Hand : Z.land (Z.shiftl (n / 256) 8) (n mod 256) = 0).
    { apply Z.bits_inj'. intros i Hi. rewrite Z.bits_0, Z.land_spec, Z.shiftl_spec by lia.
      destruct (Z.ltb_spec i 8); [by rewrite Z.testbit_neg_r by lia|].
      change 256 with (2 ^ 8). rewrite Z.mod_pow2_bits_high by lia. apply andb_false_r. }
    pose proof (Z.add_lor_land (Z.shiftl (n / 256) 8) (n mod 256)) as Hsum.
    rewrite Hand, Z.shiftl_mul_pow2 in Hsum by lia. rewrite Z.shiftl_mul_pow2 by lia.
    change (2 ^ 8) with 256 in *. pose proof (Z.div_mod n 256). lia. }
  rewrite Hor. destruct (Z.eqb_spec n 0); [lia | done].
Qed.
Lemma encode_target_some n : valid_port n -> exists hdr, encode_target n = Some hdr.
Proof.
  unfold valid_port, encode_target. intros Hn. rewrite (proj2 (Z.ltb_ge _ _)), (proj2 (Z.ltb_ge _ _)) by lia. by eexists.
Qed.
Definition is_allowed (m : gmap Z bool) (k : Z) : Prop := default false (m !! k) = true.
(** The marker read back: exactly the ports listed, all or nothing. *)
Lemma parse_parts_ok parts m0 m :
  foldM_result parse_port_part m0 parts = Ok m ->
  (forall w, w ∈ parts -> exists n, atoi w = Some n /\ valid_port n) /\
  forall k, is_allowed m k <-> (exists w, w ∈ parts /\ atoi w = Some k) \/ is_allowed m0 k.
Proof.
  revert m0; induction parts as [|w parts IH]; intros m0 Hf; cbn [foldM_result] in Hf.
  { injection Hf as <-. split; [intros w Hw; by apply not_elem_of_nil in Hw|]. intros k.
    split; [by right|]. intros [(w & Hw & _)|Hk]; [by apply not_elem_of_nil in Hw | done]. }
  unfold parse_port_part at 1 in Hf. destruct (atoi w) as [n|] eqn:Hn; [|done].
  destruct (_ || _) eqn:Hr; [done|]. breflect. destruct (IH _ Hf) as [Hall Hiff]. split.
  - intros x [-> | Hx]%elem_of_cons; [exists n; unfold valid_port; split; [done | lia] | by apply Hall].
  - intros k. rewrite Hiff. setoid_rewrite elem_of_cons. unfold is_allowed.
    destruct (decide (k = n)) as [-> | Hne].
    + rewrite lookup_insert_eq. cbn. naive_solver.
    + rewrite lookup_insert_ne by done. naive_solver.
Qed.
Lemma parse_parts_total parts m0 :
  (forall w, w ∈ parts -> exists n, atoi w = Some n /\ valid_port n) ->
  exists m, foldM_result parse_port_part m0 parts = Ok m.
Proof.
  revert m0; induction parts as [|w parts IH]; intros m0 Hall; cbn [foldM_result]; [by eexists|].
  destruct (Hall w ltac:(left)) as (n & Hn & Hv). unfold parse_port_part at 1. rewrite Hn.
  unfold valid_port in Hv. rewrite (proj2 (Z.ltb_ge _ _)), (proj2 (Z.ltb_ge _ _)) by lia. cbn [orb].
  apply IH. intros x Hx. apply Hall. by right.
Qed.
Lemma valid_port_itoa n : valid_port n -> atoi (itoa n) = Some n /\ "," %char ∉ itoa n /\ itoa n <> [].
Proof.
  unfold valid_port. intros Hn. split_and!; [apply atoi_itoa; unfold max_int64; lia | |].
  - apply itoa_free; [lia | done].
  - apply itoa_nonempty. lia.
Qed.
Lemma join_nonempty sep w l : w <> [] -> join sep (w :: l) <> [].
Proof. intros Hw. destruct l as [|x l]; [done|]. cbn [join]. destruct w; done. Qed.
(** Parsing the marker of a list of ports. *)
Lemma parse_format_allowed ports :
  Forall (fun p => valid_port (rp_guest p)) ports ->
  exists m, parse_allowed (format_allowed ports) = Ok m /\
    forall k, is_allowed m k <-> exists p, p ∈ ports /\ rp_guest p = k.
Proof.
  intros Hv. destruct ports as [|p0 ports0].
  { exists ∅. split; [done|]. intros k. unfold is_allowed. rewrite lookup_empty. cbn.
    split; [done|]. intros (p & Hp & _). by apply not_elem_of_nil in Hp. }
  set (ports := p0 :: ports0) in *. rewrite Forall_forall in Hv.
  unfold parse_allowed, format_allowed.
  assert (Hne : join $"," (map (fun p => itoa (rp_guest p)) ports) <> []).
  { apply join_nonempty. apply valid_port_itoa, Hv. left. }
  assert (Hl : map (fun p => itoa (rp_guest p)) ports <> []) by done. clearbody ports.
  apply is_empty_false in Hne. rewrite Hne. change $"," with [","%char]. rewrite split_join; [| exact Hl |].
  2:{ apply Forall_forall. intros w (p & -> & Hp)%list_elem_of_fmap. by apply valid_port_itoa, Hv. }
  destruct (parse_parts_total (map (fun p => itoa (rp_guest p)) ports) ∅) as [m Hm].
  { intros w (p & -> & Hp)%list_elem_of_fmap. exists (rp_guest p). split; [by apply valid_port_itoa, Hv | by apply Hv]. }
  exists m. split; [exact Hm|]. intros k. destruct (parse_parts_ok _ _ _ Hm) as [_ Hiff]. rewrite Hiff.
  unfold is_allowed at 1. rewrite lookup_empty. cbn. split.
  - intros [(w & (p & -> & Hp)%list_elem_of_fmap & Hw)|?]; [|done]. exists p. split; [done|].
    destruct (valid_port_itoa (rp_guest p)) as [Ha _]; [by apply Hv|]. congruence.
  - intros (p & Hp & <-). left. exists (itoa (rp_guest p)). split; [apply list_elem_of_fmap; by exists p|].
    by apply valid_port_itoa, Hv.
Qed.

(** A forward entry whose text is unambiguous: the host is a name or an IPv4
    address. *)
Record forward_wf (s : forward_host_spec) : Prop := {
  fwd_guest : valid_port (fh_guest s);
  fwd_port : valid_port (fh_target_port s);
  fwd_host : fh_target s <> [];
  fwd_free : Forall (fun c => c ∉ fh_target s) [":"%char; ","%char; "["%char; "]"%char] }.
Lemma digits_free c n : valid_port n -> is_digit c = false -> c ∉ itoa n.
Proof. unfold valid_port. intros Hn. apply itoa_free. lia. Qed.
Lemma format_forward_free c s :
  forward_wf s -> c = ","%char \/ c = "["%char \/ c = "]"%char -> c ∉ format_forward s.
Proof.
  intros [Hg Hp Hh Hf] Hc. rewrite !Forall_cons in Hf. destruct Hf as (H1 & H2 & H3 & H4 & _).
  unfold format_forward. change $":" with [":"%char]. rewrite !elem_of_app, !list_elem_of_singleton.
  assert (Hd : is_digit c = false) by (destruct Hc as [->|[->| ->]]; done).
  pose proof (digits_free c _ Hg Hd). pose proof (digits_free c _ Hp Hd).
  destruct Hc as [->|[->| ->]]; naive_solver.
Qed.
(** Text that starts and ends with a digit. *)
Definition digit_ends (x : gostring) : Prop :=
  exists c s t d, x = c :: s /\ x = t ++ [d] /\ is_digit c = true /\ is_digit d = true.
Lemma digit_ends_trim x : digit_ends x -> trim_space x = x /\ x <> [].
Proof. intros (c & s & t & d & -> & Ht & Hc & Hd). split; [by apply (trim_space_digits c s d t) | done]. Qed.
Lemma digit_ends_app a m b : digit_ends a -> digit_ends b -> digit_ends (a ++ m ++ b).
Proof.
  intros (c & s & t & d & -> & _ & Hc & _) (c' & s' & t' & d' & _ & -> & _ & Hd).
  exists c, (s ++ m ++ t' ++ [d']), (c :: s ++ m ++ t'), d'. cbn [app]. rewrite <- !app_assoc. by split_and!.
Qed.
Lemma digit_ends_itoa n : valid_port n -> digit_ends (itoa n).
Proof.
  unfold valid_port. intros Hn. pose proof (itoa_digits n ltac:(lia)) as Hd.
  destruct (exists_last (itoa_nonempty n ltac:(lia))) as (u & d & Hu).
  destruct (itoa n) as [|c t] eqn:Hc; [by destruct u|]. exists c, t, u, d. split_and!; [done | done | |].
  - by apply Forall_cons in Hd as [? _].
  - rewrite Hu in Hd. apply Forall_app in Hd as [_ Hd]. by apply Forall_cons in Hd as [? _].
Qed.
Lemma format_forward_ends s : forward_wf s -> digit_ends (format_forward s).
Proof.
  intros [Hg Hp _ _]. unfold format_forward.
  replace ($":" ++ fh_target s ++ $":" ++ itoa (fh_target_port s))
    with (($":" ++ fh_target s ++ $":") ++ itoa (fh_target_port s)) by by rewrite <- !app_assoc.
  by apply digit_ends_app; apply digit_ends_itoa.
Qed.
Lemma join_forward_ends s specs :
  Forall forward_wf (s :: specs) -> digit_ends (format_forward_hosts (s :: specs)).
Proof.
  unfold format_forward_hosts. revert s; induction specs as [|s' specs IH]; intros s Hwf;
    apply Forall_cons in Hwf as [Hs Hwf]; [by apply format_forward_ends|].
  cbn [map join]. apply digit_ends_app; [by apply format_forward_ends | by apply IH].
Qed.
Lemma forward_step_format out s :
  forward_wf s -> forward_step out (format_forward s) = Ok (out ++ [s]).
Proof.
  intros Hwf. unfold forward_step.
  rewrite (proj1 (digit_ends_trim _ (format_forward_ends s Hwf))).
  assert (Hne : is_empty (format_forward s) = false).
  { apply is_empty_false. unfold format_forward. destruct (itoa _); done. }
  assert (Hb1 : index_byte "[" (format_forward s) = None)
    by (apply index_byte_none, format_forward_free; auto).
  rewrite Hne. unfold parse_forward_host_flag. rewrite Hne, Hb1.
  destruct Hwf as [Hg Hp Hh Hf]. rewrite !Forall_cons in Hf. destruct Hf as (Hcolon & _).
  change (format_forward s)
    with (itoa (fh_guest s) ++ ":"%char :: fh_target s ++ ":"%char :: itoa (fh_target_port s)).
  rewrite split_app by by apply digits_free.
  rewrite split_app by done. rewrite split_none by by apply digits_free.
  rewrite parse_port_num_itoa by done. cbn [mbind result_bind]. apply is_empty_false in Hh. rewrite Hh.
  rewrite parse_port_num_itoa by done. cbn [mbind result_bind]. by destruct s.
Qed.
Lemma forward_loop specs out :
  Forall forward_wf specs -> foldM_result forward_step out (map format_forward specs) = Ok (out ++ specs).
Proof.
  intros Hwf. revert out. induction Hwf as [|s specs Hs _ IH]; intros out; cbn [map foldM_result].
  { by rewrite app_nil_r. }
  rewrite forward_step_format by done. rewrite IH. by rewrite <- app_assoc.
Qed.

(** The last entry of a port is the one looked up. *)
Lemma target_map_snoc specs s : target_map (specs ++ [s]) = <[fh_guest s := s]> (target_map specs).
Proof. unfold target_map. by rewrite fold_left_app. Qed.
Lemma target_map_elem specs t s : target_map specs !! t = Some s -> fh_guest s = t /\ s ∈ specs.
Proof.
  induction specs as [|x specs IH] using rev_ind; [done|]. rewrite target_map_snoc, elem_of_app.
  destruct (decide (t = fh_guest x)) as [-> | Hne].
  - rewrite lookup_insert_eq. intros [= ->]. split; [done|]. right. left.
  - rewrite lookup_insert_ne by done. intros Ht. destruct (IH Ht). by split; [|left].
Qed.
Lemma target_map_last before s after :
  (forall x, x ∈ after -> fh_guest x <> fh_guest s) -> target_map (before ++ s :: after) !! fh_guest s = Some s.
Proof.
  intros Hafter. induction after as [|x after IH] using rev_ind.
  - by rewrite target_map_snoc, lookup_insert_eq.
  - rewrite app_comm_cons, app_assoc, target_map_snoc, lookup_insert_ne.
    + apply IH. intros y Hy. apply Hafter, elem_of_app. by left.
    + apply Hafter, elem_of_app. right. left.
Qed.

(** A stream reaches exactly the ports that the allowlist holds. *)
Lemma guest_stream_reaches m ports :
  Forall (fun p => valid_port (rp_guest p)) ports -> (forall k, is_allowed m k <-> exists p, p ∈ ports /\ rp_guest p = k) ->
  (forall p, p ∈ ports -> exists hdr, encode_target (rp_guest p) = Some hdr /\
     forall rest, handle_guest_stream m (hdr ++ rest) = Some (join_host_port loopback (itoa (rp_guest p)))) /\
  (forall stream addr, handle_guest_stream m stream = Some addr ->
     exists p, p ∈ ports /\ addr = join_host_port loopback (itoa (rp_guest p))).
Proof.
  intros Hports Hiff. rewrite Forall_forall in Hports. split.
  - intros p Hin. destruct (encode_target_some (rp_guest p) (Hports p Hin)) as [hdr Hh]. exists hdr. split; [done|].
    intros rest. unfold handle_guest_stream. rewrite (encode_decode _ _ rest Hh).
    assert (Ha : default false (m !! rp_guest p) = true) by (apply Hiff; by exists p). by rewrite Ha.
  - intros stream addr. unfold handle_guest_stream. destruct (decode_target stream) as [[t rest]|]; [|done].
    destruct (default false (m !! t)) eqn:Ha; [|done]. intros [= <-].
    apply Hiff in Ha as (p & Hin & <-). by exists p.
Qed.

(** * Properties *)
(** the port back-channel reaches exactly the declared ports.  The
    allowlist marker of the declared ports is read back in the guest; a
    stream opened for a declared port dials that port on the sandbox
    loopback, whatever follows the header; and no stream, whatever bytes it
    carries, makes the guest dial anything but a declared port there. *)
Theorem back_channel_reaches_declared (ports : list resolved_port)
    (Hports : Forall (fun p => valid_port (rp_guest p)) ports) :
  exists allowed, parse_allowed (format_allowed ports) = Ok allowed /\
    (forall p, p ∈ ports -> exists hdr, encode_target (rp_guest p) = Some hdr /\
       forall rest, handle_guest_stream allowed (hdr ++ rest) = Some (join_host_port loopback (itoa (rp_guest p)))) /\
    (forall stream addr, handle_guest_stream allowed stream = Some addr ->
       exists p, p ∈ ports /\ addr = join_host_port loopback (itoa (rp_guest p))).
Proof.
  destruct (parse_format_allowed ports Hports) as (allowed & Hp & Hiff). exists allowed. split; [done|].
  by apply guest_stream_reaches.
Qed.
Lemma back_channel_reaches_declared_witness :
  exists allowed,
    parse_allowed (format_allowed [ResolvedPort $"web" loopback 3000 8080 false; ResolvedPort [] loopback 5432 0 true]) = Ok allowed
    /\ handle_guest_stream allowed [ "011"%char; "184"%char; "x"%char ] = Some $"127.0.0.1:3000".
Proof.
  destruct (back_channel_reaches_declared
              [ResolvedPort $"web" loopback 3000 8080 false; ResolvedPort [] loopback 5432 0 true]) as (allowed & Ha & Hd & _).
  { constructor; [cbn; unfold valid_port; lia|]. constructor; [cbn; unfold valid_port; lia | constructor]. }
  exists allowed. split; [exact Ha|].
  destruct (Hd (ResolvedPort $"web" loopback 3000 8080 false) ltac:(left)) as (hdr & Hh & Hs).
  assert (Heq : hdr = ["011"%char; "184"%char]) by (vm_compute in Hh; injection Hh as <-; reflexivity).
  specialize (Hs ["x"%char]). rewrite Heq in Hs. exact Hs.
Defined.

(** host forwards cross the environment unchanged: a list of entries whose
    ports are in range and whose hosts hold no separator is read back as it
    was written; and then a stream for a declared sandbox port is connected to
    the target of the last entry with that port, and a stream for any other
    port to nothing. *)
Theorem forward_hosts_roundtrip (specs : list forward_host_spec) (Hwf : Forall forward_wf specs) :
  parse_forward_hosts_env (format_forward_hosts specs) = Ok specs /\
  (forall stream addr, handle_host_stream (target_map specs) stream = Some addr ->
     exists s, s ∈ specs /\ addr = join_host_port (fh_target s) (itoa (fh_target_port s))) /\
  (forall before s after rest, specs = before ++ s :: after -> (forall x, x ∈ after -> fh_guest x <> fh_guest s) ->
     exists hdr, encode_target (fh_guest s) = Some hdr /\
       handle_host_stream (target_map specs) (hdr ++ rest)
       = Some (join_host_port (fh_target s) (itoa (fh_target_port s)))).
Proof.
  split_and!.
  - unfold parse_forward_hosts_env, format_forward_hosts.
    destruct specs as [|s specs]; [done|]. pose proof Hwf as Hwf'. apply Forall_cons in Hwf' as [Hs _].
    destruct (digit_ends_trim _ (join_forward_ends s specs Hwf)) as [Htrim Hne].
    apply is_empty_false in Hne. unfold format_forward_hosts in Htrim, Hne. rewrite Htrim, Hne.
    change $"," with [","%char]. rewrite split_join; [by rewrite forward_loop | done |].
    apply Forall_forall. intros w (x & -> & Hx)%list_elem_of_fmap. rewrite Forall_forall in Hwf.
    apply format_forward_free; auto.
  - intros stream addr. unfold handle_host_stream. destruct (decode_target stream) as [[t rest]|]; [|done].
    destruct (target_map specs !! t) as [s|] eqn:Ht; [|done]. intros [= <-]. exists s. split; [|done].
    by apply target_map_elem in Ht as [_ Ht].
  - intros before s after rest -> Hafter. rewrite Forall_forall in Hwf.
    destruct (Hwf s) as [Hg _ _ _]; [apply elem_of_app; right; left|].
    destruct (encode_target_some _ Hg) as [hdr Hh]. exists hdr. split; [done|].
    unfold handle_host_stream. rewrite (encode_decode _ _ rest Hh), target_map_last by done. done.
Qed.
Lemma forward_hosts_roundtrip_witness :
  parse_forward_hosts_env (format_forward_hosts [ForwardHostSpec 5432 $"db.lan" 5432; ForwardHostSpec 80 $"10.0.0.1" 8080])
  = Ok [ForwardHostSpec 5432 $"db.lan" 5432; ForwardHostSpec 80 $"10.0.0.1" 8080].
Proof.
  apply (forward_hosts_roundtrip [ForwardHostSpec 5432 $"db.lan" 5432; ForwardHostSpec 80 $"10.0.0.1" 8080]).
  constructor; [|constructor; [|constructor]]; (split; [cbn; unfold valid_port; lia.. | discriminate |]);
    repeat (constructor; [apply contains_byte_false; reflexivity|]); constructor.
Defined.
(** An IPv6 target is accepted by the configuration, but written without
    brackets; the guest then refuses the whole list. *)
Example ipv6_forward_lost :
  parse_forward_host_flag $"8080:[::1]:80" = Ok (ForwardHostSpec 8080 $"::1" 80) /\
  parse_forward_hosts_env (format_forward_hosts [ForwardHostSpec 8080 $"::1" 80])
  = Err (ParseForward $"8080:::1:80" WantForwardSpec).
Proof. vm_compute. by split. Qed.
Example port_env_ex :
  map_to_list (port_env [ResolvedPort $"web-ui" loopback 3000 8080 false]) = [($"KEG_PORT_WEB_UI", $"8080")].
Proof. vm_compute. reflexivity. Qed.
