(* ===== verification/Tunnel.v ===== *)
(** Two connections joined byte for byte: [tunnel] of
    [internal/egress/proxy/server.go] and of [internal/portsfw/forward.go],
    [pump] of [internal/runner/bridge.go], and the accept loops that feed them.

    The state is the two connections and the two goroutines that copy, one
    per direction; a step is one read, one write or one event of a peer.
    How many bytes a read returns is not known. *)
From S2P Require Import GoStrings GoNet Frame Ports.
Local Open Scope go_scope.

(** * Connections *)
(** What has arrived and was not read; what was written; whether the peer has
    finished sending, whether it is gone (reads and writes fail), and whether
    this side has closed.  [ed_sent] is all the peer has sent. *)
Record endpoint := Endpoint {
  ed_sent : gostring; ed_unread : gostring; ed_written : gostring; ed_eof : bool; ed_gone : bool; ed_closed : bool }.
Definition fresh : endpoint := Endpoint [] [] [] false false false.
Definition with_read (unread : gostring) (e : endpoint) : endpoint :=
  Endpoint (ed_sent e) unread (ed_written e) (ed_eof e) (ed_gone e) (ed_closed e).
Definition with_written (w : gostring) (e : endpoint) : endpoint :=
  Endpoint (ed_sent e) (ed_unread e) w (ed_eof e) (ed_gone e) (ed_closed e).
Definition close_end (e : endpoint) : endpoint :=
  Endpoint (ed_sent e) (ed_unread e) (ed_written e) (ed_eof e) (ed_gone e) true.
(** The peer sends more, finishes sending, is gone. *)
Definition more (bytes : gostring) (p : endpoint) : endpoint :=
  Endpoint (ed_sent p ++ bytes) (ed_unread p ++ bytes) (ed_written p) false false (ed_closed p).
Definition ended (p : endpoint) : endpoint := Endpoint (ed_sent p) (ed_unread p) (ed_written p) true (ed_gone p) (ed_closed p).
Definition vanished (p : endpoint) : endpoint := Endpoint (ed_sent p) (ed_unread p) (ed_written p) (ed_eof p) true (ed_closed p).
(** [io.Copy] between two operations. *)
Inductive copying := Copying | Holding (chunk : gostring) | Done.
Inductive side := A | B.
(** [tu_from_a] copies what [A] sends to [B]. *)
Record tunnel := Tunnel { tu_a : endpoint; tu_b : endpoint; tu_from_a : copying; tu_from_b : copying }.
Definition end_of (s : side) (t : tunnel) : endpoint := match s with A => tu_a t | B => tu_b t end.
Definition from (s : side) (t : tunnel) : copying := match s with A => tu_from_a t | B => tu_from_b t end.
Definition other (s : side) : side := match s with A => B | B => A end.
Definition set_end (s : side) (e : endpoint) (t : tunnel) : tunnel :=
  match s with
  | A => Tunnel e (tu_b t) (tu_from_a t) (tu_from_b t)
  | B => Tunnel (tu_a t) e (tu_from_a t) (tu_from_b t)
  end.
Definition set_from (s : side) (c : copying) (t : tunnel) : tunnel :=
  match s with
  | A => Tunnel (tu_a t) (tu_b t) c (tu_from_b t)
  | B => Tunnel (tu_a t) (tu_b t) (tu_from_a t) c
  end.
(** [closeBoth]; closing a second time does nothing. *)
Definition close_both (t : tunnel) : tunnel :=
  Tunnel (close_end (tu_a t)) (close_end (tu_b t)) (tu_from_a t) (tu_from_b t).
Definition new_tunnel (a b : endpoint) : tunnel := Tunnel a b Copying Copying.

(** * Steps *)
Inductive tunnel_event :=
  | PeerSends (s : side) (bytes : gostring)
  | PeerEnds (s : side)
  | PeerGone (s : side)
  | Reads (s : side) (n : nat)
  | ReadEnds (s : side)
  | Writes (s : side)
  | WriteFails (s : side) (n : nat).
(** Reading [s] ends: the end of the stream, an error, or the connection was
    closed by this process, whatever is left to read. *)
Definition read_over (e : endpoint) : bool :=
  ed_closed e || ed_gone e || (ed_eof e && is_empty (ed_unread e)).
(** One direction is over: both connections are closed. *)
Definition finish (s : side) (t : tunnel) : tunnel := close_both (set_from s Done t).
Definition tunnel_step (e : tunnel_event) (t : tunnel) : option tunnel :=
  match e with
  | PeerSends s bytes =>
      let p := end_of s t in
      if ed_eof p || ed_gone p then None
      else Some (set_end s (more bytes p) t)
  | PeerEnds s => Some (set_end s (ended (end_of s t)) t)
  | PeerGone s => Some (set_end s (vanished (end_of s t)) t)
  | Reads s n =>
      let p := end_of s t in
      match from s t with
      | Copying =>
          if negb (ed_closed p) && negb (ed_gone p) && (0 <? n)%nat && (n <=? length (ed_unread p))%nat
          then Some (set_from s (Holding (take n (ed_unread p))) (set_end s (with_read (drop n (ed_unread p)) p) t))
          else None
      | _ => None
      end
  | ReadEnds s =>
      match from s t with
      | Copying => if read_over (end_of s t) then Some (finish s t) else None
      | _ => None
      end
  | Writes s =>
      let q := end_of (other s) t in
      match from s t with
      | Holding chunk =>
          if negb (ed_closed q) && negb (ed_gone q)
          then Some (set_from s Copying (set_end (other s) (with_written (ed_written q ++ chunk) q) t)) else None
      | _ => None
      end
  | WriteFails s n =>
      let q := end_of (other s) t in
      match from s t with
      | Holding chunk =>
          if ed_closed q || ed_gone q
          then Some (finish s (set_end (other s) (with_written (ed_written q ++ take n chunk) q) t)) else None
      | _ => None
      end
  end.
Fixpoint run_tunnel (t : tunnel) (es : list tunnel_event) : option tunnel :=
  match es with [] => Some t | e :: es => t' ← tunnel_step e t; run_tunnel t' es end.
(** [wg.Wait] has returned; [pump] returns with the first direction, and the
    other one ends by itself. *)
Definition returned (t : tunnel) : bool := match tu_from_a t, tu_from_b t with Done, Done => true | _, _ => false end.

(** * Accept loops *)
(** What one turn of a loop meets: a failed accept, or a connection with the
    outcome of opening its stream and of writing the header to it. *)
Inductive accepted := AcceptFailed | Connected (opened header_written : bool).
Inductive conn_fate := Dropped | Tunnelled (header : gostring).
Inductive loop_end := AcceptErr | OpenErr.
(** [Forward] and [ForwardGuest]: what becomes of each connection, and how the
    loop ends, [None] while it waits. *)
Fixpoint forward_loop (guest_port : Z) (l : list accepted) : list conn_fate * option loop_end :=
  match l with
  | [] => ([], None)
  | AcceptFailed :: _ => ([], Some AcceptErr)
  | Connected opened header_written :: l =>
      if negb opened then ([Dropped], Some OpenErr)
      else
        let '(fates, e) := forward_loop guest_port l in
        match encode_target guest_port with
        | None => (Dropped :: fates, e)
        | Some header => ((if header_written then Tunnelled header else Dropped) :: fates, e)
        end
  end.
(** [Bridge] of the runner: no header. *)
Fixpoint runner_bridge_loop (l : list accepted) : list conn_fate * option loop_end :=
  match l with
  | [] => ([], None)
  | AcceptFailed :: _ => ([], Some AcceptErr)
  | Connected false _ :: _ => ([Dropped], Some OpenErr)
  | Connected true _ :: l => let '(fates, e) := runner_bridge_loop l in (Tunnelled [] :: fates, e)
  end.
(** [Bridge.Serve] of the proxy: the stream is opened by the goroutine of the
    connection. *)
Fixpoint proxy_bridge_loop (l : list accepted) : list conn_fate * option loop_end :=
  match l with
  | [] => ([], None)
  | AcceptFailed :: _ => ([], Some AcceptErr)
  | Connected opened _ :: l =>
      let '(fates, e) := proxy_bridge_loop l in ((if opened then Tunnelled [] else Dropped) :: fates, e)
  end.
(** [ServeGuestForwarders]: the ports listened on in the end; all or none.
    Whether a port can be bound depends on those that are. *)
Fixpoint guest_listeners (bind : list Z -> Z -> bool) (open : list Z) (specs : list Z) : result Z (list Z) :=
  match specs with
  | [] => Ok open
  | p :: specs => if bind open p then guest_listeners bind (open ++ [p]) specs else Err p
  end.

(** * Lemmas *)
Definition sent_by (s : side) (es : list tunnel_event) : gostring :=
  concat (map (fun e => match e, s with PeerSends A bytes, A | PeerSends B bytes, B => bytes | _, _ => [] end) es).
Definition stopped (e : endpoint) : bool := ed_eof e || ed_gone e.
(** One direction: what it has copied from [p], whose peer has sent [sent], to
    [q]; [c] is its goroutine and [c'] the other one. *)
Definition delivered_all (p q : endpoint) : Prop := ed_eof p = true /\ ed_written q = ed_sent p.
Definition someone_gone (p q : endpoint) : Prop := ed_gone p = true \/ ed_gone q = true.
Record direction (sent : gostring) (c c' : copying) (p q : endpoint) : Prop := Direction {
  di_sent : ed_sent p = sent;
  di_bytes : match c with
             | Copying => ed_sent p = ed_written q ++ ed_unread p
             | Holding chunk => ed_sent p = ed_written q ++ chunk ++ ed_unread p
             | Done => ed_written q `prefix_of` ed_sent p
             end;
  di_closed : ed_closed p = true <-> c = Done \/ c' = Done;
  di_first : c = Done -> c' <> Done -> someone_gone p q \/ delivered_all p q;
  di_done : c = Done -> someone_gone p q \/ ed_eof q = true \/ delivered_all p q }.
Definition tunnel_inv (es : list tunnel_event) (t : tunnel) : Prop :=
  forall s, direction (sent_by s es) (from s t) (from (other s) t) (end_of s t) (end_of (other s) t).

Lemma sent_by_snoc s es e : sent_by s (es ++ [e]) = sent_by s es ++ sent_by s [e].
Proof. unfold sent_by. by rewrite map_app, concat_app. Qed.
Section directions.
Context (sent : gostring) (c c' : copying) (p q : endpoint).
Lemma direction_sends bytes :
  ed_eof p = false -> ed_gone p = false -> direction sent c c' p q -> direction (sent ++ bytes) c c' (more bytes p) q.
Proof.
  intros He Hg [Hs Hb Hc Hf Hd]. split; cbn.
  - by rewrite Hs.
  - destruct c; [by rewrite Hb, <- app_assoc | by rewrite Hb, <- !app_assoc | by apply prefix_app_r].
  - done.
  - intros H1 H2. unfold someone_gone, delivered_all in *. destruct (Hf H1 H2) as [[?|?]|[? _]]; [congruence | by left; right | congruence].
  - intros H1. unfold someone_gone, delivered_all in *.
    destruct (Hd H1) as [[?|?]|[?|[? _]]]; [congruence | by left; right | by right; left | congruence].
Qed.
(** What the other side's peer does, and what is written to [p], leaves the
    direction as it is. *)
Lemma direction_other q' :
  ed_written q' = ed_written q -> (ed_eof q = true -> ed_eof q' = true) -> (ed_gone q = true -> ed_gone q' = true) ->
  direction sent c c' p q -> direction sent c c' p q'.
Proof.
  intros Hw He Hg [Hs Hb Hc Hf Hd]. split; rewrite ?Hw; try done.
  - intros H1 H2. unfold someone_gone, delivered_all in *. rewrite Hw. destruct (Hf H1 H2) as [[?|?]|?]; auto.
  - intros H1. unfold someone_gone, delivered_all in *. rewrite Hw. destruct (Hd H1) as [[?|?]|[?|?]]; auto.
Qed.
Lemma direction_own p' :
  ed_sent p' = ed_sent p -> ed_unread p' = ed_unread p -> ed_closed p' = ed_closed p ->
  (ed_eof p = true -> ed_eof p' = true) -> (ed_gone p = true -> ed_gone p' = true) ->
  direction sent c c' p q -> direction sent c c' p' q.
Proof.
  intros H1 H2 H3 He Hg [Hs Hb Hc Hf Hd]. split; rewrite ?H1, ?H2, ?H3; try done.
  - intros Hx Hy. unfold someone_gone, delivered_all in *. rewrite H1. destruct (Hf Hx Hy) as [[?|?]|[? ?]]; auto.
  - intros Hx. unfold someone_gone, delivered_all in *. rewrite H1. destruct (Hd Hx) as [[?|?]|[?|[? ?]]]; auto.
Qed.
Lemma direction_reads n : c = Copying -> direction sent c c' p q ->
  direction sent (Holding (take n (ed_unread p))) c' (with_read (drop n (ed_unread p)) p) q.
Proof.
  intros -> [Hs Hb Hc Hf Hd]. split; cbn; try done; [by rewrite take_drop|].
  rewrite Hc. split; intros [|]; try done; by right.
Qed.
Lemma direction_writes chunk : c = Holding chunk -> direction sent c c' p q ->
  direction sent Copying c' p (with_written (ed_written q ++ chunk) q).
Proof.
  intros -> [Hs Hb Hc Hf Hd]. split; cbn; try done; [by rewrite <- app_assoc|].
  rewrite Hc. split; intros [|]; try done; by right.
Qed.
(** The other goroutine goes on. *)
Lemma direction_turns c1 : c' <> Done -> c1 <> Done -> direction sent c c' p q -> direction sent c c1 p q.
Proof.
  intros H1 H2 [Hs Hb Hc Hf Hd]. split; try done; [|by intros Hx _; apply Hf].
  rewrite Hc. split; intros [|]; try done; by left.
Qed.
(** This direction ends, and so closes both connections: reading is over, or
    the last write failed. *)
Lemma direction_ends sent' k q0 chunk :
  direction sent c c' p q ->
  (c = Copying /\ read_over p = true /\ q0 = q \/
   c = Holding chunk /\ (ed_closed q = true \/ ed_gone q = true) /\ q0 = with_written (ed_written q ++ take k chunk) q) ->
  direction sent' c' c q p ->
  direction sent Done c' (close_end p) (close_end q0).
Proof.
  intros [Hs Hb Hc Hf Hd] Hend [_ _ Hcq Hfq _].
  assert (Hq0 : ed_gone q0 = ed_gone q /\ ed_eof q0 = ed_eof q) by (destruct Hend as [(_ & _ & ->)|(_ & _ & ->)]; by split).
  destruct Hq0 as [Hq1 Hq2].
  assert (Hpre : ed_written q0 `prefix_of` ed_sent p).
  { destruct Hend as [(-> & _ & ->)|(-> & _ & ->)]; rewrite Hb; cbn; [by apply prefix_app_r|].
    rewrite app_assoc. apply prefix_app_r. apply prefix_app, prefix_take. }
  (* what ended it *)
  assert (Hwhy : c' = Done \/ someone_gone p q0 \/ delivered_all p q0).
  { unfold someone_gone, delivered_all. rewrite Hq1. destruct Hend as [(-> & Ho & ->)|(-> & Ho & _)].
    - destruct (ed_closed p) eqn:Hcl in Ho; [left; by destruct (proj1 Hc Hcl)|].
      unfold read_over in Ho. rewrite Hcl in Ho. cbn in Ho.
      destruct (ed_gone p) eqn:Hg; [by right; left; left|]. cbn in Ho. apply andb_true_iff in Ho as [He Hu].
      apply is_empty_true in Hu. rewrite Hu, app_nil_r in Hb. right. right. by split.
    - destruct Ho as [Ho|Ho]; [|by right; left; right]. apply Hcq in Ho as [Ho|Ho]; [by left | done]. }
  split; cbn; try done.
  - split; [by left | done].
  - intros _ Hn. destruct Hwhy as [?|[?|?]]; [done | by left | by right].
  - intros _. destruct Hwhy as [Hx|[?|?]]; [|by left | by right; right].
    assert (Hcn : c <> Done) by (destruct Hend as [(-> & _)|(-> & _)]; done).
    unfold someone_gone, delivered_all in *. cbn. rewrite Hq1, Hq2. destruct (Hfq Hx Hcn) as [[?|?]|[? _]]; auto.
Qed.
(** The other direction ends. *)
Lemma direction_closed p' q' :
  ed_sent p' = ed_sent p -> ed_unread p' = ed_unread p -> ed_eof p' = ed_eof p -> ed_gone p' = ed_gone p ->
  ed_written q' = ed_written q -> ed_eof q' = ed_eof q -> ed_gone q' = ed_gone q -> ed_closed p' = true ->
  direction sent c c' p q -> direction sent c Done p' q'.
Proof.
  intros H1 H2 H3 H4 H5 H6 H7 H8 [Hs Hb Hc Hf Hd]. unfold someone_gone, delivered_all in *.
  split; unfold someone_gone, delivered_all; rewrite ?H1, ?H2, ?H3, ?H4, ?H5, ?H6, ?H7, ?H8; try done. split; [by right | done].
Qed.
End directions.

Lemma other_other s : other (other s) = s.
Proof. by destruct s. Qed.
Lemma side_cases s s' : s' = s \/ s' = other s.
Proof. destruct s, s'; auto. Qed.
Lemma end_set s e t : end_of s (set_end s e t) = e.
Proof. by destruct s. Qed.
Lemma end_set_other s e t : end_of (other s) (set_end s e t) = end_of (other s) t.
Proof. by destruct s. Qed.
Lemma end_other_set s e t : end_of s (set_end (other s) e t) = end_of s t.
Proof. by destruct s. Qed.
Lemma from_set_end s s' e t : from s (set_end s' e t) = from s t.
Proof. by destruct s, s'. Qed.
Lemma end_set_from s s' c t : end_of s (set_from s' c t) = end_of s t.
Proof. by destruct s, s'. Qed.
Lemma from_set s c t : from s (set_from s c t) = c.
Proof. by destruct s. Qed.
Lemma from_set_other s c t : from (other s) (set_from s c t) = from (other s) t.
Proof. by destruct s. Qed.
Lemma end_close s t : end_of s (close_both t) = close_end (end_of s t).
Proof. by destruct s. Qed.
Lemma from_close s t : from s (close_both t) = from s t.
Proof. by destruct s. Qed.
Create Rewrite HintDb sides.
#[local] Hint Rewrite other_other end_set end_set_other end_other_set from_set_end end_set_from from_set from_set_other
  end_close from_close : sides.
#[local] Arguments end_of : simpl never.
#[local] Arguments from : simpl never.
#[local] Arguments set_end : simpl never.
#[local] Arguments set_from : simpl never.
#[local] Arguments close_both : simpl never.
Lemma sent_by_own s bytes : sent_by s [PeerSends s bytes] = bytes.
Proof. destruct s; cbn; by rewrite app_nil_r. Qed.
Lemma sent_by_other s bytes : sent_by (other s) [PeerSends s bytes] = [].
Proof. by destruct s. Qed.
(** An event that sends nothing. *)
Definition silent (e : tunnel_event) : bool := match e with PeerSends _ _ => false | _ => true end.
Lemma sent_by_silent s e : silent e = true -> sent_by s [e] = [].
Proof. by destruct e, s. Qed.
(** The two directions after a step that concerns [s]. *)
Lemma both_directions s es e t' :
  direction (sent_by s es ++ sent_by s [e]) (from s t') (from (other s) t') (end_of s t') (end_of (other s) t') ->
  direction (sent_by (other s) es ++ sent_by (other s) [e]) (from (other s) t') (from s t') (end_of (other s) t') (end_of s t') ->
  tunnel_inv (es ++ [e]) t'.
Proof. intros H1 H2 s'. rewrite sent_by_snoc. destruct (side_cases s s') as [->| ->]; [done|]. by rewrite other_other. Qed.
Lemma tunnel_step_inv es e t t' : tunnel_inv es t -> tunnel_step e t = Some t' -> tunnel_inv (es ++ [e]) t'.
Proof.
  intros Hinv Hstep.
  destruct e as [s bytes|s|s|s n|s|s|s n]; apply (both_directions s); cbn -[Nat.ltb Nat.leb] in Hstep; repeat case_match; simplify_eq;
    pose proof (Hinv s) as Hs; pose proof (Hinv (other s)) as Ho; rewrite other_other in Ho;
    rewrite ?sent_by_own, ?sent_by_other, ?(sent_by_silent _ (PeerEnds s)), ?(sent_by_silent _ (PeerGone s)),
      ?(sent_by_silent _ (Reads s n)), ?(sent_by_silent _ (ReadEnds s)), ?(sent_by_silent _ (Writes s)), 
      ?(sent_by_silent _ (WriteFails s n)), ?app_nil_r by done; unfold finish; autorewrite with sides.
  - apply direction_sends; [by apply orb_false_iff in H as [??]..|done].
  - apply orb_false_iff in H as [H1 H2]. eapply direction_other; [..|exact Ho]; cbn; congruence.
  - eapply direction_own; [..|exact Hs]; done.
  - eapply direction_other; [..|exact Ho]; done.
  - eapply direction_own; [..|exact Hs]; done.
  - eapply direction_other; [..|exact Ho]; done.
  - eapply direction_reads; [exact H|exact Hs].
  - eapply direction_turns with (c' := from s t); [by rewrite H|done|]. eapply direction_other; [..|exact Ho]; done.
  - rename H into Hc. eapply direction_ends with (q0 := end_of (other s) t) (k := 0%nat) (chunk := []); [exact Hs| |exact Ho]. by left.
  - eapply direction_closed; [..|exact Ho]; done.
  - eapply direction_writes; [exact H|exact Hs].
  - eapply direction_turns with (c' := from s t); [by rewrite H|done|]. eapply direction_own; [..|exact Ho]; done.
  - eapply direction_ends with (k := n); [exact Hs| |exact Ho]. right. split_and!; [exact H| |done].
    by apply orb_true_iff in H0.
  - eapply direction_closed; [..|exact Ho]; done.
Qed.
Lemma tunnel_run_inv es0 t0 es t : tunnel_inv es0 t0 -> run_tunnel t0 es = Some t -> tunnel_inv (es0 ++ es) t.
Proof.
  revert es0 t0. induction es as [|e es IH]; intros es0 t0 Hinv Hrun; cbn -[tunnel_step] in Hrun; [simplify_eq; by rewrite app_nil_r|].
  apply bind_Some in Hrun as (t1 & Hstep & Hrun). rewrite cons_middle, app_assoc. eapply IH; [|done]. by eapply tunnel_step_inv.
Qed.
Lemma fresh_inv : tunnel_inv [] (new_tunnel fresh fresh).
Proof. intros [|]; split; cbn; try done; (split; [done | intros [?|?]; done]). Qed.
Lemma tunnel_reachable es t : run_tunnel (new_tunnel fresh fresh) es = Some t -> tunnel_inv es t.
Proof. intros H. apply (tunnel_run_inv [] _ es t fresh_inv H). Qed.
(** The flags of a peer are what it did. *)
Lemma run_flags es t0 t s : run_tunnel t0 es = Some t ->
  (ed_eof (end_of s t) = true -> ed_eof (end_of s t0) = true \/ PeerEnds s ∈ es) /\
  (ed_gone (end_of s t) = true -> ed_gone (end_of s t0) = true \/ PeerGone s ∈ es).
Proof.
  revert t0. induction es as [|e es IH]; intros t0 Hrun; cbn -[tunnel_step] in Hrun; [simplify_eq; auto|].
  apply bind_Some in Hrun as (t1 & Hstep & Hrun). destruct (IH t1 Hrun) as [IH1 IH2].
  assert (Hone : (ed_eof (end_of s t1) = true -> ed_eof (end_of s t0) = true \/ e = PeerEnds s) /\
                 (ed_gone (end_of s t1) = true -> ed_gone (end_of s t0) = true \/ e = PeerGone s)).
  { clear IH1 IH2. destruct e as [s1 bytes|s1|s1|s1 n|s1|s1|s1 n]; cbn -[Nat.ltb Nat.leb] in Hstep; repeat case_match; simplify_eq;
      unfold finish; destruct (side_cases s1 s) as [->| ->]; autorewrite with sides; cbn;
      split; intros ?; try done; auto. }
  destruct Hone as [H1 H2]. split.
  - intros [H| ]%IH1; [|right; by right]. destruct (H1 H) as [?| ->]; [by left | right; left].
  - intros [H| ]%IH2; [|right; by right]. destruct (H2 H) as [?| ->]; [by left | right; left].
Qed.
(** * Everything ends *)
Definition own (e : tunnel_event) : bool := match e with Reads _ _ | ReadEnds _ | Writes _ | WriteFails _ _ => true | _ => false end.
Definition copy_weight (c : copying) : nat := match c with Copying => 1 | Holding _ => 2 | Done => 0 end.
(** How many operations are left once the peers are silent. *)
Definition operations_left (t : tunnel) : nat :=
  2 * length (ed_unread (tu_a t)) + copy_weight (tu_from_a t) + (2 * length (ed_unread (tu_b t)) + copy_weight (tu_from_b t)).
Lemma operations_side s t : operations_left t =
  (2 * length (ed_unread (end_of s t)) + copy_weight (from s t) + (2 * length (ed_unread (end_of (other s) t)) + copy_weight (from (other s) t)))%nat.
Proof. destruct s; unfold operations_left, end_of, from; cbn [other]; lia. Qed.
Lemma own_decreases e t t' : own e = true -> tunnel_step e t = Some t' -> (operations_left t' < operations_left t)%nat.
Proof.
  intros He Hstep. destruct e as [s bytes|s|s|s n|s|s|s n]; try done; rewrite (operations_side s t'), (operations_side s t);
    cbn -[Nat.ltb Nat.leb] in Hstep; repeat case_match; simplify_eq; unfold finish; autorewrite with sides;
    repeat match goal with Hf : from s t = _ |- _ => rewrite Hf; clear Hf end; csimpl; try lia.
  rewrite !andb_true_iff, Nat.ltb_lt, Nat.leb_le in H0. rewrite length_drop. lia.
Qed.
(** What a goroutine is doing: it has ended, can go on, or waits for its peer. *)
Lemma goroutine s t : from s t = Done \/ (exists e t', own e = true /\ tunnel_step e t = Some t') \/
  from s t = Copying /\ ed_closed (end_of s t) = false /\ stopped (end_of s t) = false.
Proof.
  destruct (from s t) as [|chunk|] eqn:Hf; [|right; left|by left].
  - destruct (read_over (end_of s t)) eqn:Ho; [right; left; exists (ReadEnds s); cbn; rewrite Hf, Ho; eauto|].
    unfold read_over in Ho. apply orb_false_iff in Ho as [[Hc Hg]%orb_false_iff He].
    destruct (ed_unread (end_of s t)) as [|x l] eqn:Hu.
    + right; right. split_and!; try done. unfold stopped. rewrite Hg, orb_false_r. by rewrite andb_true_r in He.
    + right; left. exists (Reads s 1). cbn -[Nat.ltb Nat.leb]. rewrite Hf, Hc, Hg, Hu. cbn. eauto.
  - destruct (ed_closed (end_of (other s) t) || ed_gone (end_of (other s) t)) eqn:Hq.
    + exists (WriteFails s 0). cbn. rewrite Hf, Hq. eauto.
    + exists (Writes s). cbn. rewrite Hf. apply orb_false_iff in Hq as [-> ->]. cbn. eauto.
Qed.
(** While the tunnel has not returned, one of the goroutines can go on, once a
    peer has stopped. *)
Lemma own_step_possible es t s : tunnel_inv es t -> stopped (end_of s t) = true -> returned t = false ->
  exists e t', own e = true /\ tunnel_step e t = Some t'.
Proof.
  intros Hinv Hstop Hret. pose proof (proj2 (di_closed _ _ _ _ _ (Hinv (other s)))) as Hclosed. rewrite other_other in Hclosed.
  destruct (goroutine s t) as [Hs|[?|(_ & _ & Hs)]]; [|done|congruence].
  destruct (goroutine (other s) t) as [Ho|[?|(_ & Ho & _)]]; [|done|].
  - by destruct s; unfold returned, from in *; cbn in *; rewrite Hs, Ho in Hret.
  - by rewrite Hclosed in Ho by auto.
Qed.
Lemma returned_closed es t : tunnel_inv es t -> returned t = true -> forall s, ed_closed (end_of s t) = true.
Proof.
  intros Hinv Hret s. apply (di_closed _ _ _ _ _ (Hinv s)). unfold returned in Hret.
  destruct t as [p q [| |] [| |]]; try done. destruct s; by left.
Qed.
Lemma run_app t es1 es2 : run_tunnel t (es1 ++ es2) = run_tunnel t es1 ≫= fun t' => run_tunnel t' es2.
Proof. revert t. induction es1 as [|e es1 IH]; intros t; [done|]. cbn -[tunnel_step]. destruct (tunnel_step e t); [apply IH | done]. Qed.
Lemma stopped_step s e t t' : own e = true -> tunnel_step e t = Some t' -> stopped (end_of s t') = stopped (end_of s t).
Proof.
  intros He Hstep. destruct e as [s1 bytes|s1|s1|s1 n|s1|s1|s1 n]; try done; cbn -[Nat.ltb Nat.leb] in Hstep; repeat case_match; simplify_eq;
    unfold finish; destruct (side_cases s1 s) as [->| ->]; autorewrite with sides; done.
Qed.
Lemma own_run_bounded es t t' : forallb own es = true -> run_tunnel t es = Some t' ->
  (length es + operations_left t' <= operations_left t)%nat /\ forall s, stopped (end_of s t') = stopped (end_of s t).
Proof.
  revert t. induction es as [|e es IH]; intros t Hown Hrun; cbn -[tunnel_step] in Hrun; [by simplify_eq|].
  apply bind_Some in Hrun as (t1 & Hstep & Hrun). cbn in Hown. apply andb_true_iff in Hown as [He Hown].
  destruct (IH t1 Hown Hrun) as [Hlen Hst]. pose proof (own_decreases _ _ _ He Hstep). split; [cbn [length]; lia|].
  intros s. rewrite Hst. by eapply stopped_step.
Qed.
Lemma completes n es t s : tunnel_inv es t -> stopped (end_of s t) = true -> (operations_left t <= n)%nat ->
  exists es' t', forallb own es' = true /\ run_tunnel t es' = Some t' /\ returned t' = true /\ tunnel_inv (es ++ es') t'.
Proof.
  revert es t. induction n as [n IH] using lt_wf_ind; intros es t Hinv Hstop Hn.
  destruct (returned t) eqn:Hret; [exists [], t; by rewrite app_nil_r|].
  destruct (own_step_possible _ _ _ Hinv Hstop Hret) as (e & t1 & He & Hstep).
  pose proof (own_decreases _ _ _ He Hstep). pose proof (tunnel_step_inv _ _ _ _ Hinv Hstep) as Hinv1.
  rewrite <- (stopped_step s _ _ _ He Hstep) in Hstop.
  assert (Hlt : (operations_left t1 < n)%nat) by lia.
  destruct (IH (operations_left t1) Hlt (es ++ [e]) t1 Hinv1 Hstop (le_n _)) as (es' & t' & Hown & Hrun & Hr & Hi).
  exists (e :: es'), t'. rewrite <- app_assoc in Hi. split_and!; try done; [cbn; by rewrite He | cbn -[tunnel_step]; by rewrite Hstep].
Qed.

(** * Properties *)
(** C31: For every interleaving of reads, writes, failures and events of the
    two peers, what a tunnel has written to one side is a prefix of what the
    other side's peer sent: no byte is lost in the middle, repeated or
    reordered.  Both connections are closed exactly when a direction has ended,
    and that needs a peer that stopped; and when nobody vanished and only one
    peer finished sending, everything it sent was delivered before the
    connections were closed. *)
Theorem tunnel_faithful es t :
  run_tunnel (new_tunnel fresh fresh) es = Some t ->
  forall s,
    ed_written (end_of (other s) t) `prefix_of` sent_by s es /\
    (ed_closed (end_of s t) = true <-> exists s', from s' t = Done) /\
    (ed_closed (end_of s t) = true -> exists s', PeerEnds s' ∈ es \/ PeerGone s' ∈ es) /\
    (from s t = Done -> PeerEnds (other s) ∉ es -> (forall s', PeerGone s' ∉ es) ->
     ed_written (end_of (other s) t) = sent_by s es).
Proof.
  intros Hrun s. pose proof (tunnel_reachable _ _ Hrun) as Hinv. pose proof (Hinv s) as [Hs Hb Hc Hf Hd].
  assert (Hdone : ed_closed (end_of s t) = true <-> exists s', from s' t = Done).
  { rewrite Hc. split; [intros [?|?]; eauto|]. intros [s' Hx]. destruct (side_cases s s') as [->| ->]; auto. }
  assert (Hflag : forall s', (ed_eof (end_of s' t) = true -> PeerEnds s' ∈ es) /\ (ed_gone (end_of s' t) = true -> PeerGone s' ∈ es)).
  { intros s'. destruct (run_flags _ _ _ s' Hrun) as [H1 H2]. split; intros H; [destruct (H1 H) as [|] | destruct (H2 H) as [|]]; try done;
      by destruct s'. }
  split_and!; [|done| |].
  - rewrite <- Hs. destruct (from s t); [rewrite Hb; by apply prefix_app_r| rewrite Hb; by apply prefix_app_r | done].
  - intros [s' Hx]%Hdone. pose proof (Hinv s') as [_ _ _ _ Hd'].
    unfold someone_gone, delivered_all in Hd'. destruct (Hd' Hx) as [[?|?]|[?|[? _]]];
      [exists s'; right|exists (other s'); right|exists (other s'); left|exists s'; left]; by apply Hflag.
  - intros Hx Hne Hng. destruct (Hd Hx) as [[?|?]|[?|[_ ?]]]; [..|congruence]; exfalso;
      [eapply Hng|eapply Hng|apply Hne]; by apply Hflag.
Qed.
(** The accept loop of a declared port: every connection is either closed or
    tunnelled with the header from which the other side reads that port, and
    the loop goes on until a stream cannot be opened. *)
Lemma forward_loop_fates port (l : list bool) :
  valid_port port -> exists hdr, (forall rest, decode_target (hdr ++ rest) = Ok (port, rest)) /\
    forward_loop port (map (Connected true) l) = (map (fun written : bool => if written then Tunnelled hdr else Dropped) l, None).
Proof.
  intros Hp. destruct (encode_target_some port Hp) as [hdr Hh]. exists hdr. split; [intros rest; by apply encode_decode|].
  induction l as [|w l IH]; cbn -[encode_target]; [done|]. by rewrite IH, Hh.
Qed.
(** Free ports that are pairwise different can all be bound. *)
Lemma guest_listeners_all free open specs :
  NoDup (open ++ specs) -> forallb free specs = true ->
  guest_listeners (fun open p => free p && negb (bool_decide (p ∈ open))) open specs = Ok (open ++ specs).
Proof.
  revert open. induction specs as [|p specs IH]; intros open Hn Hf; cbn; [by rewrite app_nil_r|].
  cbn in Hf. apply andb_true_iff in Hf as [-> Hf]. rewrite bool_decide_false; cbn.
  - rewrite IH, <- app_assoc; [done| |done]. by rewrite <- app_assoc.
  - intros Hin. apply NoDup_app in Hn as (_ & Hd & _). apply (Hd p Hin). by left.
Qed.
Lemma guest_listeners_sound bind open specs l : guest_listeners bind open specs = Ok l -> l = open ++ specs.
Proof.
  revert open. induction specs as [|p specs IH]; intros open; cbn; [intros [= <-]; by rewrite app_nil_r|].
  destruct (bind open p); [|done]. intros ->%IH. by rewrite <- app_assoc.
Qed.

(** * Witnesses *)
Module Example_.
(** A request, its answer, and the client going away. *)
Definition session : list tunnel_event :=
  [PeerSends A ($"ping"); Reads A 4; Writes A; PeerSends B ($"pong"); Reads B 2; Writes B; Reads B 2; Writes B; PeerEnds A; ReadEnds A].
Definition after_session : tunnel := default (new_tunnel fresh fresh) (run_tunnel (new_tunnel fresh fresh) session).
Lemma session_runs : run_tunnel (new_tunnel fresh fresh) session = Some after_session.
Proof. vm_compute. reflexivity. Defined.
(** The peer that half-closes loses the answer: its data was delivered, but the
    connections are closed before the answer is copied. *)
Example half_close_loses :
  let t := run_tunnel (new_tunnel fresh fresh)
     [PeerSends A ($"ping"); PeerEnds A; Reads A 4; Writes A; ReadEnds A; PeerSends B ($"pong"); ReadEnds B] in
  option_map (fun t => (ed_written (tu_b t), ed_written (tu_a t), returned t)) t = Some ($"ping", [], true).
Proof. vm_compute. reflexivity. Qed.
Example forward_loop_ends :
  forward_loop 8080 [Connected true true; Connected true false; Connected false true; Connected true true]
  = ([Tunnelled [Zbyte 31; Zbyte 144]; Dropped; Dropped], Some OpenErr).
Proof. vm_compute. reflexivity. Qed.
Example bridges_differ :
  runner_bridge_loop [Connected false true; Connected true true] = ([Dropped], Some OpenErr) /\
  proxy_bridge_loop [Connected false true; Connected true true; AcceptFailed] = ([Dropped; Tunnelled []], Some AcceptErr).
Proof. vm_compute. done. Qed.
Lemma tunnel_faithful_witness : ed_written (tu_b after_session) = $"ping" /\ ed_written (tu_b after_session) `prefix_of` sent_by A session.
Proof.
  split; [vm_compute; reflexivity|]. pose proof (tunnel_faithful session after_session) as H. specialize (H session_runs A). apply H.
Defined.
End Example_.
