(* ===== verification/RawEndpoints.v ===== *)
(** Raw TCP endpoints: [internal/orchestrator/rawendpoints.go], the table that
    correlates addresses the resolver handed out with the declared
    [tcp_endpoints], and the hook of [egress.go] that fills it.

    The clock is an argument of every operation; the mutex makes each
    operation one step, so a run is a sequence of timed steps.  Times and
    durations are in nanoseconds. *)
From S2P Require Import GoStrings GoNet ConfigTypes Dns.
Local Open Scope go_scope.
Local Open Scope Z_scope.

Definition DefaultRawCorrelationTTL : Z := 30 * 10 ^ 9.
Record raw_entry := RawEntry { re_host : gostring; re_ports : list Z; expires_at : Z }.
Abbreviation table := (gmap gostring raw_entry).

Definition allow `{UnicodeCase} (now : Z) (st : table) (host : gostring) (ips : list ip) (ports : list Z) (ttl : Z)
  : table :=
  if ttl <=? 0 then st
  else
    let h := to_lower (trim_suffix host $".") in
    fold_left (fun st a => <[ip_string a := RawEntry h ports (now + ttl)]> st) ips st.
Definition check (now : Z) (st : table) (ip_port : gostring) : bool * table :=
  match split_host_port ip_port with
  | None => (false, st)
  | Some (a, port) =>
      match st !! a with
      | None => (false, st)
      | Some e =>
          if negb (now <? expires_at e) then (false, delete a st)
          else (existsb (fun p => seqb (itoa p) port) (re_ports e), st)
      end
  end.
Definition resolve_host (now : Z) (st : table) (a : gostring) : gostring * table :=
  match st !! a with
  | None => ([], st)
  | Some e => if negb (now <? expires_at e) then ([], delete a st) else (re_host e, st)
  end.

(** The [OnA] hook of [StartEgressDNS]. *)
Definition endpoint_matches `{UnicodeCase} (name : gostring) (ep : tcp_endpoint) : bool :=
  seqb name (to_lower (te_host ep)) || has_suffix name ($"." ++ to_lower (te_host ep)).
Definition on_a `{UnicodeCase} (endpoints : list tcp_endpoint) (now : Z) (st : table) (name : gostring) (ips : list ip)
  : table :=
  fold_left (fun st ep => if endpoint_matches name ep
                          then allow now st (te_host ep) ips (te_ports ep) DefaultRawCorrelationTTL else st)
    endpoints st.

(** * Runs *)
(** The steps of a run: an answer of the resolver, a check by the proxy, a
    reverse lookup by the proxy. *)
Inductive event :=
  | Answered (name : gostring) (ips : list ip)
  | Checked (ip_port : gostring)
  | Resolved (a : gostring).
Section runs.
Context `{UnicodeCase} (endpoints : list tcp_endpoint).
Definition step (st : table) (ev : Z * event) : table :=
  match ev with
  | (now, Answered name ips) => on_a endpoints now st name ips
  | (now, Checked ip_port) => snd (check now st ip_port)
  | (now, Resolved a) => snd (resolve_host now st a)
  end.
Definition run (evs : list (Z * event)) : table := fold_left step evs ∅.

(** * Specification *)
(** What one answer says about an address: the last matching endpoint. *)
Definition says (now : Z) (name : gostring) (ips : list ip) (a : gostring) : option raw_entry :=
  if existsb (fun x => seqb (ip_string x) a) ips then
    fold_left (fun acc ep => if endpoint_matches name ep
                             then Some (RawEntry (to_lower (trim_suffix (te_host ep) $".")) (te_ports ep)
                                          (now + DefaultRawCorrelationTTL)) else acc) endpoints None
  else None.
(** The last answer about an address decides. *)
Definition latest_step (a : gostring) (acc : option raw_entry) (ev : Z * event) : option raw_entry :=
  match ev with
  | (now, Answered name ips) => match says now name ips a with Some e => Some e | None => acc end
  | _ => acc
  end.
Definition latest (evs : list (Z * event)) (a : gostring) : option raw_entry :=
  fold_left (latest_step a) evs None.
Definition live (now : Z) (o : option raw_entry) : option raw_entry :=
  match o with Some e => if now <? expires_at e then Some e else None | None => None end.
(** The clock does not run backwards. *)
Definition ordered (evs : list (Z * event)) (now : Z) : Prop :=
  StronglySorted (fun x y => x.1 <= y.1) evs /\ Forall (fun x => x.1 <= now) evs.

(** * Lemmas *)
Lemma allow_lookup now st host ips ports ttl a :
  0 < ttl -> allow now st host ips ports ttl !! a =
    if existsb (fun x => seqb (ip_string x) a) ips
    then Some (RawEntry (to_lower (trim_suffix host $".")) ports (now + ttl)) else st !! a.
Proof.
  intros Ht. unfold allow. rewrite (proj2 (Z.leb_gt _ _)) by lia.
  revert st. induction ips as [|x ips IH]; intros st; [done|]. cbn [fold_left existsb]. rewrite IH.
  destruct (seqb_spec (ip_string x) a) as [<-|Hne]; cbn [orb].
  - rewrite lookup_insert_eq. by destruct (existsb _ ips).
  - by rewrite lookup_insert_ne.
Qed.
Lemma on_a_lookup now st name ips a :
  on_a endpoints now st name ips !! a = match says now name ips a with Some e => Some e | None => st !! a end.
Proof.
  unfold on_a, says. induction endpoints as [|ep eps IH] using rev_ind; [by destruct (existsb _ ips)|].
  rewrite !fold_left_app. cbn [fold_left]. destruct (endpoint_matches name ep); [|exact IH].
  rewrite allow_lookup by done. destruct (existsb _ ips); [done | exact IH].
Qed.
(** The table holds the latest entry, unless it was found expired. *)
Definition agrees (st : table) (evs : list (Z * event)) (now : Z) : Prop :=
  forall a, st !! a = latest evs a \/
    (st !! a = None /\ exists e, latest evs a = Some e /\ expires_at e <= now).
Lemma evict_agrees st evs now a e now' :
  agrees st evs now -> now <= now' -> st !! a = Some e -> (now' <? expires_at e) = false ->
  agrees (delete a st) evs now'.
Proof.
  intros Ha Hle He Hx b. breflect. destruct (decide (b = a)) as [-> | Hne].
  - right. rewrite lookup_delete_eq. split; [done|].
    destruct (Ha a) as [Heq|(Hn & _)]; [|congruence]. exists e. split; [congruence | lia].
  - rewrite lookup_delete_ne by done. destruct (Ha b) as [Heq|(Hn & e' & He' & Hle')]; [by left|].
    right. split; [done|]. exists e'. split; [done | lia].
Qed.
Lemma agrees_later st evs now now' : agrees st evs now -> now <= now' -> agrees st evs now'.
Proof.
  intros Ha Hle a. destruct (Ha a) as [Heq|(Hn & e & He & Hle')]; [by left|].
  right. split; [done|]. exists e. split; [done | lia].
Qed.
Lemma step_agrees st evs now now' ev :
  agrees st evs now -> now <= now' -> agrees (step st (now', ev)) (evs ++ [(now', ev)]) now'.
Proof.
  intros Ha Hle.
  assert (Hl : forall a, latest (evs ++ [(now', ev)]) a = latest_step a (latest evs a) (now', ev))
    by (intros a; unfold latest; by rewrite fold_left_app).
  assert (Hsame : forall st', (forall a, latest_step a (latest evs a) (now', ev) = latest evs a) ->
            agrees st' evs now' -> agrees st' (evs ++ [(now', ev)]) now')
    by (intros st' Hs Hst a; rewrite Hl, Hs; apply Hst).
  destruct ev as [name ips|ip_port|a]; cbn [step].
  - intros a. rewrite Hl, on_a_lookup. cbn [latest_step]. destruct (says now' name ips a); [by left|].
    by apply (agrees_later _ _ _ _ Ha Hle).
  - apply Hsame; [done|]. unfold check. destruct (split_host_port ip_port) as [[a port]|]; [|by eapply agrees_later].
    destruct (st !! a) as [e|] eqn:He; [|by eapply agrees_later].
    destruct (now' <? expires_at e) eqn:Hx; cbn [negb snd]; [by eapply agrees_later | by eapply evict_agrees].
  - apply Hsame; [done|]. unfold resolve_host. destruct (st !! a) as [e|] eqn:He; [|by eapply agrees_later].
    destruct (now' <? expires_at e) eqn:Hx; cbn [negb snd]; [by eapply agrees_later | by eapply evict_agrees].
Qed.
Lemma run_agrees evs now : ordered evs now -> agrees (run evs) evs now.
Proof.
  revert now. induction evs as [|[t ev] evs IH] using rev_ind; intros now [Hs Hf]; [by left|].
  unfold run. rewrite fold_left_app. cbn [fold_left]. apply Forall_app in Hf as [Hf Ht].
  apply Forall_cons in Ht as [Ht _]. apply (agrees_later _ _ t); [|exact Ht].
  apply (step_agrees _ _ t); [|lia]. apply IH. split.
  - by apply StronglySorted_app_1_l in Hs.
  - apply Forall_forall. intros x Hx. apply (StronglySorted_app_1_elem_of _ _ _ x (t, ev) Hs); [done | left].
Qed.
Lemma live_agrees st evs now a : agrees st evs now -> live now (st !! a) = live now (latest evs a).
Proof.
  intros Ha. destruct (Ha a) as [->|(-> & e & -> & Hle)]; [done|]. cbn [live].
  by rewrite (proj2 (Z.ltb_ge _ _)) by lia.
Qed.

(** Where an entry comes from. *)
Lemma says_some now name ips a e :
  says now name ips a = Some e ->
  (exists x, x ∈ ips /\ ip_string x = a) /\ expires_at e = now + DefaultRawCorrelationTTL /\
  exists ep, ep ∈ endpoints /\ endpoint_matches name ep = true /\ re_ports e = te_ports ep.
Proof.
  unfold says. destruct (existsb _ ips) eqn:Hex; [|done]. apply existsb_exists in Hex as (x & Hx & Hxa).
  apply list_elem_of_In in Hx. apply seqb_eq in Hxa. intros Hf. split; [by exists x|].
  revert Hf. induction endpoints as [|ep eps IH] using rev_ind; [done|]. rewrite fold_left_app. cbn [fold_left].
  destruct (endpoint_matches name ep) eqn:Hm.
  - intros [= <-]. split; [done|]. exists ep. split_and!; [apply elem_of_app; right; left | done..].
  - intros Hf. destruct (IH Hf) as (He & ep' & Hin & ? & ?). split; [done|]. exists ep'.
    split_and!; [apply elem_of_app; by left | done..].
Qed.
Lemma latest_some evs a e :
  latest evs a = Some e -> exists t name ips, (t, Answered name ips) ∈ evs /\ says t name ips a = Some e.
Proof.
  unfold latest. induction evs as [|[t ev] evs IH] using rev_ind; [done|]. rewrite fold_left_app. cbn [fold_left].
  assert (Hold : fold_left (latest_step a) evs None = Some e ->
                 exists t' name ips, (t', Answered name ips) ∈ evs ++ [(t, ev)] /\ says t' name ips a = Some e).
  { intros Hl. destruct (IH Hl) as (t' & name & ips & Hin & Hs). exists t', name, ips.
    split; [apply elem_of_app; by left | done]. }
  destruct ev as [name ips| |]; cbn [latest_step]; [|exact Hold..].
  destruct (says t name ips a) as [e'|] eqn:Hs; [|exact Hold]. intros [= ->].
  exists t, name, ips. split; [apply elem_of_app; right; left | done].
Qed.

(** The table after a run, by its history. *)
Lemma check_after_run (evs : list (Z * event)) (now : Z) (ip_port a port : gostring)
    (Hord : ordered evs now) (Hsplit : split_host_port ip_port = Some (a, port)) :
  fst (check now (run evs) ip_port) =
    match live now (latest evs a) with
    | Some e => existsb (fun p => seqb (itoa p) port) (re_ports e)
    | None => false
    end /\
  fst (resolve_host now (run evs) a) = match live now (latest evs a) with Some e => re_host e | None => [] end /\
  (fst (check now (run evs) ip_port) = true ->
   exists t name ips x ep p, (t, Answered name ips) ∈ evs /\ now < t + DefaultRawCorrelationTTL /\
     x ∈ ips /\ ip_string x = a /\ ep ∈ endpoints /\ endpoint_matches name ep = true /\
     p ∈ te_ports ep /\ itoa p = port).
Proof.
  pose proof (live_agrees _ _ _ a (run_agrees evs now Hord)) as Hlive.
  assert (Hcheck : fst (check now (run evs) ip_port) =
    match live now (latest evs a) with
    | Some e => existsb (fun p => seqb (itoa p) port) (re_ports e)
    | None => false
    end).
  { unfold check. rewrite Hsplit, <- Hlive. destruct (run evs !! a) as [e|]; [|done]. cbn [live].
    by destruct (now <? expires_at e). }
  split_and!; [exact Hcheck | |].
  - unfold resolve_host. rewrite <- Hlive. destruct (run evs !! a) as [e|]; [|done]. cbn [live].
    by destruct (now <? expires_at e).
  - rewrite Hcheck. destruct (latest evs a) as [e|] eqn:Hl; [|done]. cbn [live].
    destruct (Z.ltb_spec now (expires_at e)) as [Hlt|]; [|done].
    intros (p & Hp & Heq)%existsb_exists. apply list_elem_of_In in Hp. apply seqb_eq in Heq.
    destruct (latest_some evs a e Hl) as (t & name & ips & Hin & Hs).
    destruct (says_some t name ips a e Hs) as ((x & Hx & Hxa) & He & ep & Hep & Hm & Hports).
    exists t, name, ips, x, ep, p. rewrite He in Hlt. rewrite Hports in Hp. by split_and!.
Qed.
(** C38: raw TCP access is tied to a recent answer.  After any run whose clock
    does not go backwards, the table decides like the history: a check at a
    later time accepts "address:port" exactly when the last answer that
    mentioned the address for a declared endpoint is less than 30 seconds old
    and that endpoint has the port, and a reverse lookup gives that endpoint's
    host; so nothing is accepted that the resolver did not answer for a
    declared endpoint within the last 30 seconds. *)
Theorem raw_access_needs_recent_answer (evs : list (Z * event)) (now : Z) (ip_port a port : gostring)
    (Hord : ordered evs now) (Hsplit : split_host_port ip_port = Some (a, port)) :
  fst (check now (run evs) ip_port) =
    match live now (latest evs a) with
    | Some e => existsb (fun p => seqb (itoa p) port) (re_ports e)
    | None => false
    end /\
  fst (resolve_host now (run evs) a) = match live now (latest evs a) with Some e => re_host e | None => [] end /\
  (fst (check now (run evs) ip_port) = true ->
   exists t name ips x ep p, (t, Answered name ips) ∈ evs /\ now < t + DefaultRawCorrelationTTL /\
     x ∈ ips /\ ip_string x = a /\ ep ∈ endpoints /\ endpoint_matches name ep = true /\
     p ∈ te_ports ep /\ itoa p = port).
Proof. by apply check_after_run. Qed.
End runs.

(** * A concrete run *)
Module Example_.
#[local] Instance lower : UnicodeCase := fun s => s.
Definition eps : list tcp_endpoint := [TCPEndpoint $"db.lan" [5432; 5433]; TCPEndpoint $"db.lan" [6379]].
Definition evs : list (Z * event) := [(0, Answered $"db.lan" [[10; 0; 0; 7]]); (5, Checked $"10.0.0.7:5432")].
(** Two entries for one host: only the ports of the last are kept. *)
Example second_entry_replaces_first :
  fst (check 10 (run eps evs) $"10.0.0.7:5432") = false /\ fst (check 10 (run eps evs) $"10.0.0.7:6379") = true /\
  fst (check (30 * 10 ^ 9) (run eps evs) $"10.0.0.7:6379") = false.
Proof. vm_compute. by split_and!. Qed.
Lemma raw_access_needs_recent_answer_witness :
  fst (check 10 (run eps evs) $"10.0.0.7:6379") = true /\ latest eps evs $"10.0.0.7" <> None.
Proof.
  assert (Hord : ordered evs 10).
  { split; [|constructor; [cbn; lia | constructor; [cbn; lia | constructor]]].
    constructor; [constructor; [constructor | constructor] | constructor; [cbn; lia | constructor]]. }
  assert (Hsplit : split_host_port $"10.0.0.7:6379" = Some ($"10.0.0.7", $"6379")) by (vm_compute; reflexivity).
  destruct (raw_access_needs_recent_answer eps evs 10 $"10.0.0.7:6379" $"10.0.0.7" $"6379" Hord Hsplit) as (Hc & _ & _).
  split; [rewrite Hc; vm_compute; reflexivity | vm_compute; discriminate].
Defined.
End Example_.
