(* ===== verification/Templates.v ===== *)
(** The restricted template language of [internal/template/template.go] and
    the built-in language templates of [internal/config/templates.go].

    Parsing and executing a template are [text/template]'s: the parse tree is
    data here, with the node kinds the validation tells apart, and the parser
    and the executor are arguments. *)
From S2P Require Import GoStrings GoPath ConfigTypes.
Local Open Scope go_scope.

(** * Parse trees *)
(** An argument of a command.  Dots, variables, constants and nil are
    [OtherArg]; a pipeline in parentheses is its commands, each with its
    position. *)
#[warnings="-register-all"]
Inductive arg_node :=
  | FieldNode (ident : list gostring) (pos : nat)
  | ChainNode (node : arg_node)
  | PipeNode (cmds : list (nat * list arg_node))
  | IdentifierNode (name : gostring)
  | OtherArg.
Abbreviation pipe := (list (nat * list arg_node)).
Inductive branch_kind := IfNode | RangeNode | WithNode.
(** [OtherNode] is everything the walk passes over without looking: comments,
    break and continue, and invocations of named templates. *)
#[warnings="-register-all"]
Inductive node :=
  | ActionNode (p : pipe)
  | BranchNode (kind : branch_kind) (p : pipe) (body : list node) (else_ : option (list node))
  | TextNode
  | OtherNode.

(** * Validation *)
Inductive template_err :=
  | EnvNotAvailable
  | ParseError
  | VarNotDefined (line : nat) (key : gostring)
  | FunctionNotAvailable (line : nat) (name : gostring)
  | NoCommandName                (* a command without arguments: the parser makes none *)
  | ExecuteError.
Record context := Ctx { tc_vars : strmap; tc_env : option strmap }.

Definition line_of (text : gostring) (pos : nat) : nat := 1 + count_byte "010" (take pos text).

Section walk.
Context (text : gostring) (vars : strmap).
(** The closure of [validateRequiredVars]. *)
Definition visit (ident : list gostring) (pos : nat) (guarded : bool) : result template_err unit :=
  match ident with
  | v :: key :: _ =>
      if negb (seqb v $"Vars") || guarded then Ok tt
      else match vars !! key with
           | Some _ => Ok tt
           | None => Err (VarNotDefined (line_of text pos) key)
           end
  | _ => Ok tt
  end.
(** [walkPipe] at one argument: [guarded] is its [guardedChild]. *)
Fixpoint walk_arg (guarded : bool) (a : arg_node) : result template_err unit :=
  match a with
  | FieldNode ident pos => visit ident pos guarded
  | ChainNode (FieldNode ident pos) => visit ident pos guarded
  | PipeNode cmds =>
      iterM (fun _ (cmd : nat * list arg_node) =>
        let '(pos, args) := cmd in
        match args with
        | [] => Err NoCommandName
        | IdentifierNode name :: _ =>
            if negb (seqb name $"default") then Err (FunctionNotAvailable (line_of text pos) name)
            else iterM (fun i arg => walk_arg (guarded || (i =? 2)) arg) args
        | _ => iterM (fun _ arg => walk_arg guarded arg) args
        end) cmds
  | _ => Ok tt
  end.
Definition walk_pipe (guarded : bool) (p : pipe) : result template_err unit := walk_arg guarded (PipeNode p).
(** [walkList] and [walkBranch] at one node; branches start unguarded, and
    [validateRequiredVars] starts unguarded too. *)
Fixpoint walk_node (n : node) : result template_err unit :=
  match n with
  | ActionNode p => walk_pipe false p
  | BranchNode _ p body else_ =>
      _ ← walk_pipe false p;
      _ ← iterM (fun _ n => walk_node n) body;
      match else_ with
      | Some l => iterM (fun _ n => walk_node n) l
      | None => Ok tt
      end
  | TextNode | OtherNode => Ok tt
  end.
Definition validate_required_vars (root : list node) : result template_err unit :=
  iterM (fun _ n => walk_node n) root.
End walk.

Definition default_fn (fallback value : gostring) : gostring := if is_empty value then fallback else value.

(** A template library: the root of the parsed template, and the output of
    executing it. *)
Class TemplateLib := {
  template_parse : gostring -> option (list node);
  template_execute : gostring -> context -> option gostring }.
Definition apply `{TemplateLib} (text : gostring) (ctx : context) : result template_err gostring :=
  if negb (contains text $"{{") then Ok text
  else if (match tc_env ctx with None => true | Some _ => false end) && contains text $".Env"
  then Err EnvNotAvailable
  else match template_parse text with
  | None => Err ParseError
  | Some root =>
      _ ← validate_required_vars text (tc_vars ctx) root;
      match template_execute text ctx with
      | Some out => Ok out
      | None => Err ExecuteError
      end
  end.

(** * Built-in language templates *)
Record toolchain_paths := Toolchain { go_mod_cache : gostring; go_build_cache : gostring; go_root : gostring }.
Definition plain_mount (src dest mode : gostring) : mount := Mount src dest mode [] [].
(** One turn of the loop of [ExpandTemplates]; an error names the template. *)
Definition expand_template (home : gostring) (tc : toolchain_paths) (st : list mount * strmap) (name : gostring)
  : result gostring (list mount * strmap) :=
  let '(mounts, env) := st in
  if seqb name $"go" || seqb name $"golang" then
    let mod_ := home ++ $"/.cache/go/mod" in
    let build := home ++ $"/.cache/go/build" in
    let env := <[$"GOCACHE" := build]> (<[$"GOMODCACHE" := mod_]> (<[$"GOTOOLCHAIN" := $"local"]> env)) in
    let mounts := if negb (is_empty (go_mod_cache tc))
                  then mounts ++ [plain_mount (go_mod_cache tc) mod_ MountRW] else mounts in
    let mounts := if negb (is_empty (go_build_cache tc))
                  then mounts ++ [plain_mount (go_build_cache tc) build MountRW] else mounts in
    Ok (mounts, env)
  else if seqb name $"java" then
    Ok (mounts ++ [plain_mount $"~/.m2" (home ++ $"/.m2") MountRW],
        <[$"MAVEN_OPTS" := $"-Dmaven.repo.local=" ++ home ++ $"/.m2/repository"]>
          (<[$"MAVEN_ARGS" := $"-s " ++ home ++ $"/.m2/settings.xml"]> env))
  else if seqb name $"node" then
    Ok (mounts ++ [plain_mount $"~/.npm" (home ++ $"/.npm") MountRW],
        <[$"npm_config_cache" := home ++ $"/.npm"]> env)
  else if seqb name $"python" then
    Ok (mounts ++ [plain_mount $"~/.cache/pip" (home ++ $"/.cache/pip") MountRW],
        <[$"PIP_CACHE_DIR" := home ++ $"/.cache/pip"]> env)
  else Err name.
Definition expand_templates (names : list gostring) (home : gostring) (tc : toolchain_paths)
  : result gostring (list mount * strmap) :=
  foldM_result (expand_template home tc) ([], ∅) names.

(** [None] is an error of the seam. *)
Definition probe (go_env : gostring -> option gostring) (key : gostring) : gostring :=
  match go_env key with Some v => trim_space v | None => [] end.
Definition detect_toolchain_paths (look_path go_env : gostring -> option gostring) : toolchain_paths :=
  match look_path $"go" with
  | None => Toolchain [] [] []
  | Some bin =>
      if is_empty bin then Toolchain [] [] []
      else Toolchain (probe go_env $"GOMODCACHE") (probe go_env $"GOCACHE") (probe go_env $"GOROOT")
  end.
Definition go_root_needs_bind (tc : toolchain_paths) : bool :=
  if is_empty (go_root tc) then false
  else let c := clean (go_root tc) in negb (seqb c $"/usr") && negb (has_prefix c $"/usr/").
Definition check_cgo_toolchain (look_path : gostring -> option gostring) : bool :=
  existsb (fun cc => match look_path cc with Some p => negb (is_empty p) | None => false end)
          [$"gcc"; $"clang"; $"cc"].

(** * Specification *)
(** What the walk looks at inside an argument: a reference to a field, with
    whether it sits in the value of a default, or the name of a function in
    front of a command.  A chain is looked into only if a field starts it. *)
Inductive item := Ref (ident : list gostring) (guarded : bool) | Call (name : gostring) | EmptyCommand.
Inductive arg_item : bool -> arg_node -> item -> Prop :=
  | ai_field g ident pos : arg_item g (FieldNode ident pos) (Ref ident g)
  | ai_chain g ident pos : arg_item g (ChainNode (FieldNode ident pos)) (Ref ident g)
  | ai_empty g cmds pos : (pos, []) ∈ cmds -> arg_item g (PipeNode cmds) EmptyCommand
  | ai_call g cmds pos name args :
      (pos, IdentifierNode name :: args) ∈ cmds -> arg_item g (PipeNode cmds) (Call name)
  | ai_default g cmds pos name rest args i a it :
      (pos, args) ∈ cmds -> args = IdentifierNode name :: rest -> args !! i = Some a ->
      arg_item (g || (i =? 2)) a it -> arg_item g (PipeNode cmds) it
  | ai_plain g cmds pos first rest args a it :
      (pos, args) ∈ cmds -> args = first :: rest -> (forall n, first <> IdentifierNode n) -> a ∈ args ->
      arg_item g a it -> arg_item g (PipeNode cmds) it.
Inductive node_item : node -> item -> Prop :=
  | ni_action p it : arg_item false (PipeNode p) it -> node_item (ActionNode p) it
  | ni_pipe k p body e it : arg_item false (PipeNode p) it -> node_item (BranchNode k p body e) it
  | ni_body k p body e n it : n ∈ body -> node_item n it -> node_item (BranchNode k p body e) it
  | ni_else k p body l n it : n ∈ l -> node_item n it -> node_item (BranchNode k p body (Some l)) it.
Definition item_ok (vars : strmap) (it : item) : Prop :=
  match it with
  | Ref (v :: key :: _) false => v = $"Vars" -> is_Some (vars !! key)
  | Ref _ _ => True
  | Call name => name = $"default"
  | EmptyCommand => False
  end.

(** * Lemmas *)
Lemma arg_node_nested_ind (P : arg_node -> Prop) :
  (forall ident pos, P (FieldNode ident pos)) -> (forall n, P (ChainNode n)) ->
  (forall name, P (IdentifierNode name)) -> P OtherArg ->
  (forall cmds, (forall pos args a, (pos, args) ∈ cmds -> a ∈ args -> P a) -> P (PipeNode cmds)) ->
  forall a, P a.
Proof.
  intros Hf Hc Hi Ho Hp. fix IH 1. intros [ident pos|n|cmds|name|]; [apply Hf | apply Hc | | apply Hi | apply Ho].
  assert (Hall : Forall (fun c => Forall P (snd c)) cmds).
  { induction cmds as [|[pos args] cmds IHc]; constructor; [|exact IHc]. cbn [snd].
    clear IHc. induction args as [|x args IHa]; constructor; [apply IH | exact IHa]. }
  apply Hp. intros pos args a Hin Ha. rewrite Forall_forall in Hall. specialize (Hall _ Hin).
  rewrite Forall_forall in Hall. by apply Hall.
Qed.
Lemma node_nested_ind (P : node -> Prop) :
  (forall p, P (ActionNode p)) -> P TextNode -> P OtherNode ->
  (forall k p body e, (forall n, n ∈ body -> P n) ->
     (forall l n, e = Some l -> n ∈ l -> P n) -> P (BranchNode k p body e)) ->
  forall n, P n.
Proof.
  intros Ha Ht Ho Hb. fix IH 1. intros [p|k p body e| |]; [apply Ha | | apply Ht | apply Ho].
  assert (Hbody : Forall P body).
  { induction body as [|x l IHl]; constructor; [apply IH | exact IHl]. }
  assert (Helse : match e with Some l => Forall P l | None => True end).
  { destruct e as [l|]; [|exact I]. induction l as [|x l IHl]; constructor; [apply IH | exact IHl]. }
  rewrite Forall_forall in Hbody. apply Hb; [exact Hbody|]. intros l n -> Hn.
  rewrite Forall_forall in Helse. by apply Helse.
Qed.

Section lemmas.
Context (text : gostring) (vars : strmap).
Lemma visit_ok ident pos g : visit text vars ident pos g = Ok tt <-> item_ok vars (Ref ident g).
Proof.
  unfold visit, item_ok. destruct ident as [|v [|key rest]]; [tauto..|].
  destruct g; [by rewrite orb_true_r|]. rewrite orb_false_r.
  destruct (seqb_spec v $"Vars") as [->|Hne]; cbn [negb]; [|naive_solver].
  destruct (vars !! key) eqn:Hk; split; try done. intros H. by destruct (H eq_refl).
Qed.
Lemma walk_arg_ok g a :
  walk_arg text vars g a = Ok tt <-> forall it, arg_item g a it -> item_ok vars it.
Proof.
  revert g. induction a as [ident pos|n|name| |cmds IH] using arg_node_nested_ind; intros g.
  - cbn [walk_arg]. rewrite visit_ok. split; [intros H it Hi; by inversion Hi | intros H; apply H; constructor].
  - destruct n as [ident pos| | | |]; cbn [walk_arg]; try (split; [intros _ it Hi; by inversion Hi | done]).
    rewrite visit_ok. split; [intros H it Hi; by inversion Hi | intros H; apply H; constructor].
  - split; [intros _ it Hi; by inversion Hi | done].
  - split; [intros _ it Hi; by inversion Hi | done].
  - cbn [walk_arg]. rewrite iterM_ok. split.
    + intros H it Hi. inversion Hi as [| |? ? pos Hin|? ? pos name args Hin|? ? pos name rest args i a ? Hin Hargs Ha Hit
                                      |? ? pos first rest args a ? Hin Hargs Hne Ha Hit]; subst.
      all: pose proof Hin as Hk; apply list_elem_of_lookup in Hk as [k Hk]; specialize (H k _ Hk); cbv beta iota in H.
      * done.
      * destruct (seqb_spec name $"default"); [done | discriminate].
      * destruct (seqb_spec name $"default"); [|discriminate]. cbn [negb] in H. rewrite iterM_ok in H.
        specialize (H i a Ha). by apply (proj1 (IH _ _ a Hin (list_elem_of_lookup_2 _ _ _ Ha) (g || (i =? 2))) H).
      * assert (Hw : iterM (fun _ arg => walk_arg text vars g arg) (first :: rest) = Ok tt)
          by (destruct first; [exact H.. | by destruct (Hne name) | exact H]).
        rewrite iterM_ok in Hw. pose proof Ha as Ha'. apply list_elem_of_lookup in Ha' as [i Hi'].
        specialize (Hw i a Hi'). by apply (proj1 (IH _ _ a Hin Ha g) Hw).
    + intros H k [pos args] Hk. apply list_elem_of_lookup_2 in Hk.
      destruct args as [|first rest]; [by destruct (H EmptyCommand (ai_empty _ _ _ Hk))|].
      assert (Hplain : (forall n, first <> IdentifierNode n) ->
        iterM (fun _ arg => walk_arg text vars g arg) (first :: rest) = Ok tt).
      { intros Hne. rewrite iterM_ok. intros i a Ha. apply list_elem_of_lookup_2 in Ha.
        apply (IH _ _ _ Hk Ha g). intros it Hi. apply H. by eapply ai_plain. }
      destruct first as [| | |name|]; try (by apply Hplain).
      pose proof (H (Call name) (ai_call _ _ _ _ _ Hk)) as Hname. cbn in Hname. rewrite Hname, seqb_refl. cbn [negb].
      rewrite <- Hname, iterM_ok. intros i a Ha.
      apply (IH _ _ _ Hk (list_elem_of_lookup_2 _ _ _ Ha) (g || (i =? 2))). intros it Hi. apply H. by eapply ai_default.
Qed.
Lemma walk_node_ok n : walk_node text vars n = Ok tt <-> forall it, node_item n it -> item_ok vars it.
Proof.
  induction n as [p| | |k p body e IHb IHe] using node_nested_ind; cbn [walk_node].
  - unfold walk_pipe. rewrite walk_arg_ok. split; [intros H it Hi; inversion Hi; auto | intros H it Hi; apply H; by constructor].
  - split; [intros _ it Hi; by inversion Hi | done].
  - split; [intros _ it Hi; by inversion Hi | done].
  - assert (Hl : forall l, (forall n, n ∈ l -> (walk_node text vars n = Ok tt <-> forall it, node_item n it -> item_ok vars it)) ->
      (iterM (fun _ n => walk_node text vars n) l = Ok tt <-> forall n it, n ∈ l -> node_item n it -> item_ok vars it)).
    { intros l IH. rewrite iterM_ok. split.
      - intros H n it Hn. pose proof Hn as Hn'. apply list_elem_of_lookup in Hn' as [i Hi]. revert it. apply IH; [done|]. by apply (H i).
      - intros H i n Hn. apply list_elem_of_lookup_2 in Hn. apply IH; [done|]. intros it. by apply H. }
    assert (He : match e with Some l => iterM (fun _ n => walk_node text vars n) l | None => Ok tt end = Ok tt <->
      forall l n it, e = Some l -> n ∈ l -> node_item n it -> item_ok vars it).
    { destruct e as [l|]; [|naive_solver]. rewrite (Hl l) by (intros n; by apply IHe). naive_solver. }
    pose proof (Hl body IHb) as Hb. unfold walk_pipe. pose proof (walk_arg_ok false (PipeNode p)) as Hp.
    destruct (walk_arg text vars false (PipeNode p)) as [[]|]; cbn [mbind result_bind].
    2:{ split; [done|]. intros H. destruct Hp as [_ Hp]. by rewrite Hp by (intros it Hi; apply H; by constructor). }
    destruct (iterM _ body) as [[]|]; cbn [mbind result_bind].
    2:{ split; [done|]. intros H. destruct Hb as [_ Hb]. by rewrite Hb by (intros n it Hn Hi; apply H; by econstructor). }
    rewrite He. split.
    + intros H it Hi. inversion Hi; subst; naive_solver.
    + intros H l n it -> Hn Hi. apply H. by econstructor.
Qed.
End lemmas.
Lemma validate_ok text vars root :
  validate_required_vars text vars root = Ok tt <->
  forall n it, n ∈ root -> node_item n it -> item_ok vars it.
Proof.
  unfold validate_required_vars. rewrite iterM_ok. split.
  - intros H n it Hn. pose proof Hn as Hi. apply list_elem_of_lookup in Hi as [i Hi]. revert it.
    by apply (walk_node_ok text), (H i).
  - intros H i n Hi. apply list_elem_of_lookup_2 in Hi. apply walk_node_ok. intros it. by apply H.
Qed.
(** The errors of the walk are its own. *)
Definition walk_error (e : template_err) : Prop :=
  match e with VarNotDefined _ _ | FunctionNotAvailable _ _ | NoCommandName => True | _ => False end.
Definition walk_errs (m : result template_err unit) : Prop := match m with Ok _ => True | Err e => walk_error e end.
Lemma iterM_errs {A} (f : nat -> A -> result template_err unit) l :
  (forall i x, x ∈ l -> walk_errs (f i x)) -> walk_errs (iterM f l).
Proof.
  unfold iterM. generalize 0 as i. induction l as [|x l IH]; intros i Hf; cbn [iterM_from]; [done|].
  pose proof (Hf i x ltac:(left)) as Hx. destruct (f i x); [|exact Hx]. apply IH. intros j y Hy. apply Hf. by right.
Qed.
Lemma walk_arg_errs text vars g a : walk_errs (walk_arg text vars g a).
Proof.
  assert (Hv : forall ident pos g, walk_errs (visit text vars ident pos g)).
  { intros ident pos g'. unfold visit. by repeat case_match. }
  revert g. induction a as [ident pos|n|name| |cmds IH] using arg_node_nested_ind; intros g; cbn [walk_arg];
    try done; [by destruct n|].
  apply iterM_errs. intros _ [pos args] Hin. destruct args as [|first rest]; [done|].
  assert (Hrest : forall h : nat -> bool, walk_errs (iterM (fun i arg => walk_arg text vars (h i) arg) (first :: rest))).
  { intros h. apply iterM_errs. intros i x Hx. by eapply IH. }
  destruct first; try apply (Hrest (fun _ => g)).
  destruct (negb _); [done | apply (Hrest (fun i => g || (i =? 2)))].
Qed.
Lemma walk_node_errs text vars n : walk_errs (walk_node text vars n).
Proof.
  induction n as [p| | |k p body e IHb IHe] using node_nested_ind; cbn [walk_node]; try done.
  { apply walk_arg_errs. }
  pose proof (walk_arg_errs text vars false (PipeNode p)) as Hp. unfold walk_pipe.
  destruct (walk_arg _ _ _ _); cbn [mbind result_bind]; [|done].
  pose proof (iterM_errs (fun _ n => walk_node text vars n) body (fun _ x Hx => IHb x Hx)) as Hb.
  destruct (iterM _ body); cbn [mbind result_bind]; [|done].
  destruct e as [l|]; [|done]. apply iterM_errs. intros _ x Hx. by apply (IHe l).
Qed.

(** * Properties *)

(** C37: what the validation of a template accepts and refuses.  Text without
    an action is left alone.  A template is rendered only if it does not
    mention ".Env" or is given the environment, and if, in the actions and
    branches the walk looks into, "default" is the only function in front of a
    command and every field written out as ".Vars.key" names a variable that
    exists, unless it stands in the value of a default; then its output is the
    executor's.  Every refusal has one of these reasons, or the parser's or the
    executor's.  A variable that is reached in another way, as a field of the
    dot inside "with .Vars" or of "$", is not looked up. *)
Theorem template_apply_spec `{TemplateLib} (text : gostring) (ctx : context) :
  let allowed root := forall n it, n ∈ root -> node_item n it -> item_ok (tc_vars ctx) it in
  match apply text ctx with
  | Ok out =>
      (contains text $"{{" = false /\ out = text) \/
      (contains text $"{{" = true /\ (tc_env ctx = None -> contains text $".Env" = false) /\
       exists root, template_parse text = Some root /\ allowed root /\ template_execute text ctx = Some out)
  | Err e =>
      contains text $"{{" = true /\
      match e with
      | EnvNotAvailable => tc_env ctx = None /\ contains text $".Env" = true
      | ParseError => template_parse text = None
      | ExecuteError => exists root, template_parse text = Some root /\ allowed root /\ template_execute text ctx = None
      | _ => exists root, template_parse text = Some root /\ ~ allowed root
      end
  end.
Proof.
  intros allowed. unfold apply. destruct (contains text $"{{"); cbn [negb]; [|by left].
  destruct (_ && contains text $".Env") eqn:Henv.
  { split; [done|]. apply andb_true_iff in Henv as [He ?]. by destruct (tc_env ctx). }
  assert (Hnone : tc_env ctx = None -> contains text $".Env" = false) by (by intros He; rewrite He in Henv).
  destruct (template_parse text) as [root|] eqn:Hp; [|done].
  pose proof (validate_ok text (tc_vars ctx) root) as Hv. fold (allowed root) in Hv.
  assert (Herr : walk_errs (validate_required_vars text (tc_vars ctx) root))
    by (apply iterM_errs; intros; apply walk_node_errs).
  destruct (validate_required_vars _ _ _) as [[]|e]; cbn [mbind result_bind].
  - destruct (template_execute text ctx) eqn:Hx; [right | split; [done|]]; naive_solver.
  - split; [done|]. assert (Hno : ~ allowed root) by (intros Ha; by apply Hv in Ha).
    destruct e; try done; by exists root.
Qed.

(** A cache mount: writable, with a source, below the sandbox home. *)
Definition cache_mount (home : gostring) (m : mount) : Prop :=
  m_mode m = MountRW /\ m_src m <> [] /\ exists t, m_dest m = home ++ $"/." ++ t.
Lemma cache_mount_snoc home ms src t :
  Forall (cache_mount home) ms -> src <> [] ->
  Forall (cache_mount home) (ms ++ [plain_mount src (home ++ $"/." ++ t) MountRW]).
Proof.
  intros Hms Hsrc. apply Forall_app. split; [done|]. apply Forall_singleton. split_and!; [done..|]. by exists t.
Qed.
Lemma expand_template_ok home tc st name :
  Forall (cache_mount home) (fst st) ->
  match expand_template home tc st name with
  | Ok st' => name ∈ builtin_templates /\ Forall (cache_mount home) (fst st')
  | Err e => e = name /\ name ∉ builtin_templates
  end.
Proof.
  destruct st as [mounts env]. intros Hst. cbn [fst] in Hst. unfold expand_template.
  destruct (seqb name $"go" || seqb name $"golang") eqn:Hgo; [|apply orb_false_iff in Hgo as [Hg1 Hg2]].
  { split; [apply smem_true; apply orb_true_iff in Hgo as [->%seqb_eq| ->%seqb_eq]; done|]. cbn [fst].
    destruct (is_empty (go_mod_cache tc)) eqn:H1, (is_empty (go_build_cache tc)) eqn:H2; cbn [negb]; breflect;
      repeat apply cache_mount_snoc; done. }
  destruct (seqb_spec name $"java") as [->|]; [split; [by apply smem_true | by apply (cache_mount_snoc _ _ _ $"m2")]|].
  destruct (seqb_spec name $"node") as [->|]; [split; [by apply smem_true | by apply (cache_mount_snoc _ _ _ $"npm")]|].
  destruct (seqb_spec name $"python") as [->|];
    [split; [by apply smem_true | by apply (cache_mount_snoc _ _ _ $"cache/pip")]|].
  breflect. split; [done|]. unfold builtin_templates. rewrite !elem_of_cons, elem_of_nil. tauto.
Qed.

(** the built-in templates only add: expanding a list of templates
    succeeds exactly when every name is a built-in one, so never fails for a
    validated repository; every mount it adds is a writable cache with a
    source, below the sandbox home. *)
Theorem expand_templates_spec (names : list gostring) (home : gostring) (tc : toolchain_paths) :
  match expand_templates names home tc with
  | Ok (mounts, env) =>
      Forall (fun n => n ∈ builtin_templates) names /\
      Forall (cache_mount home) mounts
  | Err name => name ∈ names /\ name ∉ builtin_templates
  end.
Proof.
  unfold expand_templates.
  assert (Hst : Forall (cache_mount home) (fst (@nil mount, ∅ : strmap))) by apply Forall_nil_2.
  revert Hst. generalize (@nil mount, ∅ : strmap) as st.
  induction names as [|n l IH]; intros st Hst; cbn [foldM_result]; [by destruct st|].
  pose proof (expand_template_ok home tc st n Hst) as Hn. destruct (expand_template home tc st n) as [st'|e].
  - destruct Hn as [Hn Hst']. specialize (IH st' Hst').
    destruct (foldM_result _ _ l) as [[ms env]|e]; [|by rewrite elem_of_cons; destruct IH; auto].
    destruct IH. by split; [constructor|].
  - destruct Hn as [-> ?]. by split; [left|].
Qed.

(** Bodies of named templates are parsed into trees of their own and an
    invocation is passed over, and so is a chain that does not start with a
    field: neither is looked into. *)
Example unchecked_nodes :
  let vars : strmap := ∅ in
  let printf := ActionNode [(2, [IdentifierNode $"printf"; OtherArg])] in
  let hidden := ActionNode [(2, [ChainNode (PipeNode [(3, [IdentifierNode $"printf"; OtherArg])])])] in
  walk_node $"{{printf 1}}" vars printf = Err (FunctionNotAvailable 1 $"printf") /\
  walk_node $"{{(printf 1).x}}" vars hidden = Ok tt /\
  walk_node $"{{template x}}" vars OtherNode = Ok tt.
Proof. cbv zeta. split_and!; reflexivity. Qed.
(** ["{{with .Vars}}{{.nope}}{{end}}"] and ["{{$.Vars.nope}}"]: a field of the
    dot that is not below ["Vars"], and a field of a variable, which is another
    kind of argument. *)
Example unchecked_variables :
  let vars : strmap := ∅ in
  let plain := ActionNode [(2, [FieldNode [$"Vars"; $"nope"] 2])] in
  let below := BranchNode WithNode [(7, [FieldNode [$"Vars"] 7])] [ActionNode [(16, [FieldNode [$"nope"] 16])]] None in
  let dollar := ActionNode [(2, [OtherArg])] in
  walk_node $"{{.Vars.nope}}" vars plain = Err (VarNotDefined 1 $"nope") /\
  walk_node $"{{with .Vars}}{{.nope}}{{end}}" vars below = Ok tt /\
  walk_node $"{{$.Vars.nope}}" vars dollar = Ok tt.
Proof. cbv zeta. split_and!; reflexivity. Qed.
