(* ===== verification/Secrets.v ===== *)
(** Dynamic secrets, [internal/secrets/secrets.go]: the initial fetch of every
    requested secret, the atomic write, and one refresh of the background
    refresher.

    The secret directory is a finite map from names to contents.  Running a
    command, and the outcome of each file operation, are arguments; the
    refresher's clock and goroutines are outside, one call of its [doFetch] is
    [do_fetch]. *)
From S2P Require Import GoStrings ConfigTypes Templates.
Local Open Scope go_scope.

(** * Writing *)
(** The file operations of [writeAtomic] in their order. *)
Inductive write_stage := SCreateTemp | SChmod | SWrite | SClose | SRename.
#[export] Instance write_stage_eq_dec : EqDecision write_stage.
Proof. solve_decision. Defined.
(** [broken] is the stage that fails, if any.  [os.CreateTemp] refuses a
    pattern with a path separator; the rename is what changes the named file,
    so a failure leaves it as it was, and the temporary file is removed. *)
Definition write_atomic (broken : option write_stage) (files : strmap) (name data : gostring)
  : result write_stage strmap :=
  if contains_byte "/" name then Err SCreateTemp
  else match broken with
  | Some stage => Err stage
  | None => Ok (<[name := data]> files)
  end.

(** * The command *)
Record run_request := RunRequest { rq_cmd : list gostring; rq_env : list gostring; rq_timeout : Z }.
Definition default_timeout : Z := (10 * 10 ^ 9)%Z.
Definition timeout_of (src : secret_source) : Z :=
  if (ss_timeout src <=? 0)%Z then default_timeout else ss_timeout src.
Definition build_secret_context (ref : secret_ref) (base : context) : context :=
  Ctx (<[$"secret_name" := ref_name ref]> (tc_vars base)) (tc_env base).
Definition extra_var (sctx : context) (var env : gostring) : list gostring :=
  match tc_vars sctx !! var with
  | Some v => if is_empty v then [] else [env ++ $"=" ++ v]
  | None => []
  end.
Definition build_subprocess_env (sctx : context) : list gostring :=
  extra_var sctx $"instance" $"KEG_INSTANCE" ++ extra_var sctx $"secret_name" $"KEG_SECRET_NAME"
  ++ extra_var sctx $"repo_dir" $"KEG_REPO_DIR".

Inductive secret_err :=
  | CreateSecretDir
  | NotDefined (name : gostring)
  | EmptyCommand (name : gostring)
  | RenderFailed (name : gostring) (e : template_err)
  | FetchFailed (name : gostring)
  | WriteSecret (name : gostring) (stage : write_stage).

(** The world at one fetch: [w_run] gives the standard output of a command,
    [None] when it fails or takes longer than its timeout; [w_broken] is the
    failing stage of the write of a secret; [w_readable] says whether the
    current file can be read. *)
Record world := World {
  w_run : run_request -> option gostring;
  w_broken : gostring -> option write_stage;
  w_readable : gostring -> bool }.

Section secrets.
Context `{TemplateLib}.
Definition render_cmd (cmd : list gostring) (sctx : context) : result template_err (list gostring) :=
  mapM_result (fun arg => apply arg sctx) cmd.
(** The part shared by the fetch and the refresh: the context, the rendered
    command and its request. *)
Definition request (ref : secret_ref) (src : secret_source) (base : context) : result template_err run_request :=
  let sctx := build_secret_context ref base in
  cmd ← render_cmd (ss_cmd src) sctx;
  Ok (RunRequest cmd (build_subprocess_env sctx) (timeout_of src)).

(** One turn of the loop of [FetchInitial]. *)
Definition fetch_one (w : world) (sources : gmap gostring secret_source) (base : context) (files : strmap)
    (ref : secret_ref) : result secret_err strmap :=
  let name := ref_name ref in
  match sources !! name with
  | None => Err (NotDefined name)
  | Some src =>
      if ss_async src then Ok files
      else if length (ss_cmd src) =? 0 then Err (EmptyCommand name)
      else
        req ← map_err (RenderFailed name) (request ref src base);
        match w_run w req with
        | None => Err (FetchFailed name)
        | Some data => map_err (WriteSecret name) (write_atomic (w_broken w name) files name data)
        end
  end.
(** [mkdir_ok]: the secret directory could be made. *)
Definition fetch_initial (w : world) (mkdir_ok : bool) (requested : list secret_ref)
    (sources : gmap gostring secret_source) (base : context) (files : strmap) : result secret_err strmap :=
  if length requested =? 0 then Ok files
  else if negb mkdir_ok then Err CreateSecretDir
  else foldM_result (fetch_one w sources base) files requested.

(** * Refreshing *)
Inductive status := SError | SUnchanged | SChanged.
(** What one [doFetch] did: the files afterwards, the audited status, and
    whether the refresher gives up (after the fatal callback). *)
Record refreshed := Refreshed { rf_files : strmap; rf_status : status; rf_fatal : bool }.
Definition failed (src : secret_source) (files : strmap) : refreshed :=
  Refreshed files SError (seqb (ss_on_error src) $"fail").
(** The command of a validated source is not empty. *)
Definition do_fetch (ref : secret_ref) (src : secret_source) (base : context) (files : strmap) (w : world)
  : refreshed :=
  let name := ref_name ref in
  match request ref src base with
  | Err _ => failed src files
  | Ok req =>
      match w_run w req with
      | None => failed src files
      | Some data =>
          if w_readable w name && match files !! name with Some cur => seqb cur data | None => false end
          then Refreshed files SUnchanged false
          else match write_atomic (w_broken w name) files name data with
               | Err _ => failed src files
               | Ok files' => Refreshed files' SChanged false
               end
      end
  end.
(** Which requested secrets [Start] gives a refresher. *)
Definition has_refresher (sources : gmap gostring secret_source) (ref : secret_ref) : option secret_source :=
  match sources !! ref_name ref with
  | None => None
  | Some src => if (ss_interval src <=? 0)%Z && negb (ss_async src) then None else Some src
  end.
(** The ticks of one refresher, each with its world, until it gives up: the
    files and the audited statuses. *)
Fixpoint tick_loop (ref : secret_ref) (src : secret_source) (base : context) (files : strmap)
    (log : list status) (ticks : list world) : strmap * list status :=
  match ticks with
  | [] => (files, log)
  | w :: rest =>
      let r := do_fetch ref src base files w in
      if rf_fatal r then (rf_files r, log ++ [rf_status r])
      else tick_loop ref src base (rf_files r) (log ++ [rf_status r]) rest
  end.
(** The goroutine of a refresher: an asynchronous secret is fetched at once;
    without an interval there are no ticks. *)
Definition refresher (ref : secret_ref) (src : secret_source) (base : context) (files : strmap)
    (first : world) (ticks : list world) : strmap * list status :=
  let ticks := if (ss_interval src <=? 0)%Z then [] else ticks in
  if ss_async src then tick_loop ref src base files [] (first :: ticks)
  else tick_loop ref src base files [] ticks.
End secrets.

(** * Lemmas *)
Section lemmas.
Context `{TemplateLib}.
(** The output a source gives for a name: it does not depend on which of the
    requests for the name is served. *)
Definition output (w : world) (sources : gmap gostring secret_source) (base : context) (name : gostring)
  : option gostring :=
  match sources !! name with
  | None => None
  | Some src =>
      match request (SecretRef name []) src base with
      | Err _ => None
      | Ok req => w_run w req
      end
  end.
Lemma request_name ref src base : request ref src base = request (SecretRef (ref_name ref) []) src base.
Proof. reflexivity. Qed.
(** A secret that is fetched before the start. *)
Definition fetched (sources : gmap gostring secret_source) (name : gostring) : Prop :=
  exists src, sources !! name = Some src /\ ss_async src = false.
#[export] Instance fetched_dec sources name : Decision (fetched sources name).
Proof.
  unfold fetched. destruct (sources !! name) as [src|]; [destruct (ss_async src) eqn:Ha|].
  - right. intros (? & [= <-] & ?). congruence.
  - left. by exists src.
  - right. by intros (? & ? & _).
Defined.
Lemma write_atomic_spec broken files name data :
  match write_atomic broken files name data with
  | Ok files' => files' = <[name := data]> files /\ "/"%char ∉ name /\ broken = None
  | Err stage => "/"%char ∈ name /\ stage = SCreateTemp \/ broken = Some stage
  end.
Proof.
  unfold write_atomic. destruct (contains_byte "/" name) eqn:Hs.
  - left. split; [by apply contains_byte_true | done].
  - apply contains_byte_false in Hs. destruct broken; [by right | done].
Qed.
Lemma fetch_one_spec w sources base files ref :
  let name := ref_name ref in
  match fetch_one w sources base files ref with
  | Ok files' =>
      is_Some (sources !! name) /\
      (fetched sources name -> exists data, output w sources base name = Some data /\ files' = <[name := data]> files) /\
      (~ fetched sources name -> files' = files)
  | Err (NotDefined n) => n = name /\ sources !! n = None
  | Err CreateSecretDir => False
  | Err (EmptyCommand n) => n = name /\ exists src, sources !! n = Some src /\ ss_cmd src = []
  | Err (RenderFailed n _) | Err (FetchFailed n) => n = name /\ fetched sources n /\ output w sources base n = None
  | Err (WriteSecret n stage) => n = name /\ fetched sources n /\ ("/"%char ∈ n \/ w_broken w n = Some stage)
  end.
Proof.
  intros name. unfold fetch_one, fetched, output. fold name.
  destruct (sources !! name) as [src|] eqn:Hs; [|done]. rewrite (request_name ref). fold name.
  destruct (ss_async src) eqn:Ha.
  { split; [done|]. split; [intros (? & [= <-] & ?); congruence | done]. }
  destruct (length (ss_cmd src) =? 0) eqn:Hc.
  { split; [done|]. exists src. split; [done|]. by destruct (ss_cmd src). }
  destruct (request _ src base) as [req|e] eqn:Hr; cbn [map_err mbind result_bind].
  2:{ rewrite Hs. by split_and!; [|exists src|rewrite Hr]. }
  destruct (w_run w req) as [data|] eqn:Hd.
  2:{ rewrite Hs. by split_and!; [|exists src|rewrite Hr]. }
  pose proof (write_atomic_spec (w_broken w name) files name data) as Hw.
  destruct (write_atomic _ _ _ _) as [files'|stage]; cbn [map_err].
  - destruct Hw as (-> & _ & _). split; [done|]. split; [by exists data | intros Hn; destruct Hn; by exists src].
  - split; [done|]. rewrite Hs. split; [by exists src | naive_solver].
Qed.

Lemma do_fetch_spec ref src base files w :
  let name := ref_name ref in
  let r := do_fetch ref src base files w in
  let stored := match request ref src base with Ok req => w_run w req | Err _ => None end in
  (forall n, n <> name -> rf_files r !! n = files !! n) /\
  match rf_status r with
  | SError => rf_files r = files /\ rf_fatal r = seqb (ss_on_error src) $"fail"
  | _ => rf_fatal r = false /\ is_Some stored /\ rf_files r !! name = stored
  end.
Proof.
  intros name r stored. subst r stored. unfold do_fetch. destruct (request ref src base) as [req|]; [|done].
  destruct (w_run w req) as [data|]; [|done]. fold name.
  destruct (w_readable w name && _) eqn:Hsame.
  - apply andb_true_iff in Hsame as [_ Hsame]. destruct (files !! name) as [cur|] eqn:Hf; [|done].
    apply seqb_eq in Hsame as ->. cbn. split_and!; [done | done | by eexists | by rewrite Hf].
  - pose proof (write_atomic_spec (w_broken w name) files name data) as Hw.
    destruct (write_atomic _ _ _ _) as [files'|stage]; [|done]. destruct Hw as (-> & _). cbn.
    split; [intros n Hn; by rewrite lookup_insert_ne|]. split_and!; [done | by eexists | by rewrite lookup_insert_eq].
Qed.
End lemmas.

Section refresh_lemmas.
Context `{TemplateLib} (ref : secret_ref) (src : secret_source) (base : context).
(** What a fetch in this world would store. *)
Definition stored (w : world) : option gostring :=
  match request ref src base with Ok req => w_run w req | Err _ => None end.
(** The content after the audited fetches: that of the last one that
    succeeded. *)
Definition latest (cur : option gostring) (fetches : list (world * status)) : option gostring :=
  fold_left (fun cur '(w, s) => match s with SError => cur | _ => stored w end) fetches cur.
Lemma tick_loop_spec ticks files log :
  exists sts, (tick_loop ref src base files log ticks).2 = log ++ sts /\
    let files' := (tick_loop ref src base files log ticks).1 in
    (forall n, n <> ref_name ref -> files' !! n = files !! n) /\
    files' !! ref_name ref = latest (files !! ref_name ref) (zip ticks sts) /\
    if seqb (ss_on_error src) $"fail"
    then length sts <= length ticks /\
         (forall i, sts !! i = Some SError -> S i = length sts) /\
         (length sts < length ticks -> last sts = Some SError)
    else length sts = length ticks.
Proof.
  revert files log. induction ticks as [|w ticks IH]; intros files log; cbn [tick_loop].
  { exists []. cbn. rewrite app_nil_r. split_and!; try done. destruct (seqb _ _); [split_and!; [lia | done | lia] | done]. }
  pose proof (do_fetch_spec ref src base files w) as Hd. cbv zeta in Hd. fold (stored w) in Hd.
  set (r := do_fetch ref src base files w) in *. destruct Hd as [Hother Hst].
  destruct (rf_fatal r) eqn:Hfatal; cbn [fst snd].
  { exists [rf_status r]. destruct (rf_status r) eqn:Hs; [|by destruct Hst..]. destruct Hst as [Hf Hfail].
    split; [done|]. rewrite <- Hfail, Hf. unfold latest. cbn [zip zip_with fold_left].
    split_and!; [done | by destruct ticks | cbn; lia | by intros [|i] | done]. }
  destruct (IH (rf_files r) (log ++ [rf_status r])) as (sts & -> & Hf & Hl & Hlen).
  exists (rf_status r :: sts). rewrite <- app_assoc. split; [done|]. cbv zeta in *.
  split; [intros n Hn; by rewrite Hf, Hother|].
  split.
  { rewrite Hl. unfold latest. cbn [zip zip_with fold_left]. f_equal.
    destruct (rf_status r); [by destruct Hst as [-> _] | by destruct Hst as (_ & _ & ->)..]. }
  destruct (seqb (ss_on_error src) $"fail") eqn:Hfail; [|cbn; by rewrite Hlen].
  destruct Hlen as (H1 & H2 & H3). split_and!; [cbn; lia | |].
  - intros [|i]; cbn [lookup list_lookup]; [|intros Hi; cbn; by rewrite (H2 i Hi)].
    intros [= Hs]. rewrite Hs in Hst. destruct Hst as [_ Hst]. congruence.
  - cbn [length]. intros Hlt. specialize (H3 ltac:(lia)). destruct sts; [done|]. exact H3.
Qed.
End refresh_lemmas.

(** * Properties *)

(** before the start every requested secret is there.  When the fetch
    succeeds, every requested name has a source, the file of each one that is
    not asynchronous holds the output of its rendered command, and no other
    file changed; when it fails, the error says what is missing. *)
Theorem fetch_initial_spec `{TemplateLib} (w : world) (mkdir_ok : bool) (requested : list secret_ref)
    (sources : gmap gostring secret_source) (base : context) (files : strmap) :
  let names := map ref_name requested in
  match fetch_initial w mkdir_ok requested sources base files with
  | Ok files' =>
      (forall n, n ∈ names -> is_Some (sources !! n)) /\
      (forall n, n ∈ names -> fetched sources n ->
         is_Some (output w sources base n) /\ files' !! n = output w sources base n) /\
      (forall n, n ∉ names \/ ~ fetched sources n -> files' !! n = files !! n)
  | Err CreateSecretDir => names <> [] /\ mkdir_ok = false
  | Err (NotDefined n) => n ∈ names /\ sources !! n = None
  | Err (EmptyCommand n) => n ∈ names /\ exists src, sources !! n = Some src /\ ss_cmd src = []
  | Err (RenderFailed n _) | Err (FetchFailed n) =>
      n ∈ names /\ fetched sources n /\ output w sources base n = None
  | Err (WriteSecret n stage) =>
      n ∈ names /\ fetched sources n /\ ("/"%char ∈ n \/ w_broken w n = Some stage)
  end.
Proof.
  intros names. unfold fetch_initial. destruct (length requested =? 0) eqn:Hlen.
  { destruct requested; [|done]. split_and!; [intros n Hn; by apply not_elem_of_nil in Hn..|done]. }
  destruct mkdir_ok; cbn [negb]; [|by destruct requested]. clear Hlen. subst names.
  revert files. induction requested as [|ref l IH]; intros files; cbn [foldM_result map].
  { split_and!; [intros n Hn; by apply not_elem_of_nil in Hn..|done]. }
  pose proof (fetch_one_spec w sources base files ref) as Hone. cbv zeta in Hone.
  destruct (fetch_one w sources base files ref) as [files1|e].
  2:{ destruct e; try done; destruct Hone as [-> Hone]; (split; [left | done]). }
  destruct Hone as (Hdef & Hf & Hnf). specialize (IH files1).
  destruct (foldM_result _ files1 l) as [files'|e].
  2:{ destruct e; try done; (destruct IH as [IH1 IH2]; split; [|exact IH2]); try (by right); done. }
  destruct IH as (IH1 & IH2 & IH3). split_and!.
  - intros n [->|Hn]%elem_of_cons; [done | by apply IH1].
  - intros n Hn Hfe. destruct (decide (n ∈ map ref_name l)) as [Hin|Hout]; [by apply IH2|].
    apply elem_of_cons in Hn as [->|Hn]; [|done]. destruct (Hf Hfe) as (data & Ho & ->).
    rewrite IH3, Ho by (by left). split; [by eexists | by rewrite lookup_insert_eq].
  - intros n Hn. rewrite IH3 by (destruct Hn as [Hn|]; [left; contradict Hn; by right | by right]).
    destruct (decide (fetched sources (ref_name ref))) as [Hd|Hd]; [|by rewrite Hnf].
    destruct (Hf Hd) as (data & _ & ->). rewrite lookup_insert_ne; [done|]. intros <-.
    destruct Hn as [Hn|Hn]; [apply Hn; left | done].
Qed.

(** the life of a refresher.  Whatever happens at each fetch, it touches
    no other file; its file always holds the output of the last fetch that
    succeeded, or what it held before, never part of one.  With
    on_refresh_error "fail" it stops at the first failure, after auditing it;
    otherwise failures are audited, the old value is kept and it goes on. *)
Theorem refresher_spec `{TemplateLib} (ref : secret_ref) (src : secret_source) (base : context)
    (files : strmap) (first : world) (ticks : list world) :
  let due := (if ss_async src then [first] else []) ++ (if (ss_interval src <=? 0)%Z then [] else ticks) in
  let '(files', log) := refresher ref src base files first ticks in
  (forall n, n <> ref_name ref -> files' !! n = files !! n) /\
  files' !! ref_name ref = latest ref src base (files !! ref_name ref) (zip due log) /\
  if seqb (ss_on_error src) $"fail"
  then length log <= length due /\
       (forall i, log !! i = Some SError -> S i = length log) /\
       (length log < length due -> last log = Some SError)
  else length log = length due.
Proof.
  intros due. destruct (refresher ref src base files first ticks) as [files' log] eqn:Hr.
  assert (Hrun : tick_loop ref src base files [] due = (files', log)).
  { rewrite <- Hr. unfold refresher, due. by destruct (ss_async src). }
  destruct (tick_loop_spec ref src base due files []) as (sts & Hl & Hf & Hlast & Hlen).
  rewrite Hrun in *. cbn in Hl. subst log. by split_and!.
Qed.
