(* ===== verification/PlanBuilder.v ===== *)
(** The plan of a sandbox, [internal/orchestrator/builder.go]: [BuildPlan]
    from the repository's and the user's configuration to the plan that
    [BuildArgs] and the background services read.

    What the host answers (files, directories, the trust gate, the fetch of a
    secret, the environment) is the record [host]; the YAML decoder is part of
    it.  [build_plan] returns the outcome together with the calls made on the
    host, in order: see [io]. *)
From S2P Require Import GoStrings GoPath GoNet ConfigTypes ConfigExpand ConfigMerge Templates Secrets BwrapArgs GuestEnv Ports.
Local Open Scope go_scope.

(** * The host *)
Inductive read_failure := NotExist | ReadFailure.
Inductive decoded (A : Type) := Decoded (a : A) | EndOfFile | BadYAML.
Arguments Decoded {A} a.
Arguments EndOfFile {A}.
Arguments BadYAML {A}.
Record host := Host {
  h_eval_symlinks : gostring -> option gostring;
  h_abs : gostring -> option gostring;
  h_trust : gostring -> gostring -> bool;           (* ensureTrustGate returns no error *)
  h_read : gostring -> result read_failure gostring;
  h_decode_repo : gostring -> decoded repo;
  h_decode_user : gostring -> decoded user;
  h_environ : list gostring;
  h_home : option gostring;                          (* os.UserHomeDir *)
  h_temp_dir : gostring;                             (* os.TempDir *)
  h_stat_file : gostring -> bool;                    (* os.Stat succeeds, not a directory *)
  h_mkdir_all : gostring -> bool;
  h_mkdir_temp : gostring -> option gostring;
  h_write : gostring -> bool;
  h_look_path : gostring -> option gostring;
  h_go_env : gostring -> option gostring;
  h_alloc : allocator;
  h_fetch : world;                                   (* the run of the initial fetch *)
  h_secret_files : strmap }.                         (* the secret directory before it *)
Definition lookup_env (h : host) (k : gostring) : option gostring := environ_map (h_environ h) !! k.
Definition get_env (h : host) (k : gostring) : gostring := default [] (lookup_env h k).
Definition expand (h : host) (p : gostring) : result expand_err gostring := expand_path (lookup_env h) (h_home h) p.
(** [if e, err := ExpandPath(p); err == nil { p = e }]. *)
Definition expand_or_keep (h : host) (p : gostring) : gostring :=
  match expand h p with Ok e => e | Err _ => p end.
(** The same, also keeping [p] when the expansion is empty. *)
Definition expand_nonempty (h : host) (p : gostring) : gostring :=
  match expand h p with Ok e => if negb (is_empty e) then e else p | Err _ => p end.

(** * Calls on the host *)
Inductive effect :=
  | AskTrust (root cfg_path : gostring)
  | ReadConfig (path : gostring)
  | MkdirAll (path : gostring)
  | MkdirTemp (base : gostring)
  | FetchSecrets (dir : gostring) (refs : list secret_ref)
  | WriteFile (path content : gostring)
  | Listen (specs : list port_spec).
Inductive plan_err :=
  | NotTrusted
  | RepoUnreadable (e : read_failure)
  | RepoUndecodable
  | RepoInvalid (e : config_err)
  | UserUnreadable (e : read_failure)
  | UserUndecodable
  | UserInvalid (e : config_err)
  | BadTemplate (e : template_err)
  | DeniedInherit (name : gostring)
  | BadInstanceName (name : gostring)
  | InstanceDir
  | SecretPath (name : gostring) (e : expand_err)
  | SecretFileMissing (name : gostring)
  | SecretUndefined (name : gostring)
  | SecretFetch (e : secret_err)
  | UnknownLanguage (name : gostring)
  | CacheLayer
  | WriteResolvConf
  | WriteHosts
  | BadPorts (e : resolve_err)
  | HooksDir
  | DiskLayer.
(** A computation with the calls it makes, those before an error included. *)
Definition io (A : Type) : Type := list effect * result plan_err A.
#[export] Instance io_ret : MRet io := fun A a => ([], Ok a).
#[export] Instance io_bind : MBind io := fun A B f m =>
  match m with
  | (t, Ok a) => (t ++ fst (f a), snd (f a))
  | (t, Err e) => (t, Err e)
  end.
Definition fails {A} (e : plan_err) : io A := ([], Err e).
Definition lift {E A} (f : E -> plan_err) (m : result E A) : io A := ([], map_err f m).
Definition call (e : effect) (ok : bool) (err : plan_err) : io unit := ([e], if ok then Ok tt else Err err).
(** A call whose failure is ignored. *)
Definition attempt (e : effect) : io unit := ([e], Ok tt).
Fixpoint io_fold {A S} (f : S -> A -> io S) (s : S) (l : list A) : io S :=
  match l with
  | [] => mret s
  | x :: rest => s ← f s x; io_fold f s rest
  end.

(** * Small pieces *)
(** [IsValidInstanceName] ranges over runes: any byte outside ASCII is part
    of a rune it refuses. *)
Definition is_valid_instance_name (name : gostring) : bool :=
  if is_empty name then false
  else forallb (fun r => ((97 <=? r) && (r <=? 122) || (65 <=? r) && (r <=? 90) || (48 <=? r) && (r <=? 57)
                          || (r =? 45) || (r =? 95))%Z) (runes name).
Definition resolve_extra_path (path_str repo_root sandbox_home : gostring) : gostring :=
  let path_str := trim_space path_str in
  if is_empty path_str then []
  else if seqb path_str $"~" || has_prefix path_str $"~/" then sandbox_home ++ trim_prefix path_str $"~"
  else if is_abs path_str then clean path_str
  else clean (path_join repo_root path_str).
(** The loops over path lists: resolved, without empty ones and repetitions. *)
Definition add_dirs (root home : gostring) (dirs raws : list gostring) : list gostring :=
  fold_left (fun dirs raw =>
    let p := resolve_extra_path raw root home in
    if is_empty p then dirs else if smem p dirs then dirs else dirs ++ [p]) raws dirs.
Definition upstream_proxy_from_env (getenv : gostring -> gostring) : gostring :=
  match List.find (fun k => negb (is_empty (getenv k))) [$"HTTPS_PROXY"; $"https_proxy"; $"HTTP_PROXY"; $"http_proxy"] with
  | Some k => trim_prefix (trim_prefix (getenv k) $"http://") $"https://"
  | None => []
  end.
Definition default_bridge_addr : gostring := $"127.0.0.1:18081".
Definition proxy_env (domains : list gostring) : strmap :=
  if length domains =? 0 then ∅
  else let url := $"http://" ++ default_bridge_addr in
       <[$"no_proxy" := loopback_names]> (<[$"NO_PROXY" := loopback_names]>
         (<[$"https_proxy" := url]> (<[$"http_proxy" := url]> (<[$"HTTPS_PROXY" := url]>
            (<[$"HTTP_PROXY" := url]> {[EnvProxyBridge := default_bridge_addr]}))))).
(** [FirstHostNameserver]; [content] is /etc/resolv.conf when it is readable. *)
Definition default_nameserver : gostring := $"127.0.0.53:53".
Fixpoint nameserver_lines (lines : list gostring) : gostring :=
  match lines with
  | [] => default_nameserver
  | line :: rest =>
      let line := trim_space line in
      match fields line with
      | _ :: ip :: _ =>
          if has_prefix line $"nameserver"
          then if negb (contains_byte ":" ip) then ip ++ $":53" else $"[" ++ ip ++ $"]:53"
          else nameserver_lines rest
      | _ => nameserver_lines rest
      end
  end.
Definition first_host_nameserver (content : option gostring) : gostring :=
  match content with Some data => nameserver_lines (split "010" data) | None => default_nameserver end.
Definition nl : gostring := ["010"%char].
Definition build_hosts_file `{MapRange gostring} (hosts : strmap) : gostring :=
  $"127.0.0.1 localhost" ++ nl ++ $"::1 localhost" ++ nl
  ++ concat (map (fun kv => snd kv ++ $" " ++ trim_prefix (fst kv) $"*." ++ nl) (map_range hosts)).
Definition default_audit_path (h : host) : gostring :=
  if negb (is_empty (get_env h $"XDG_CONFIG_HOME"))
  then path_join (path_join (get_env h $"XDG_CONFIG_HOME") $"keg") $"audit.log"
  else match h_home h with
       | Some home => path_join (path_join (path_join home $".config") $"keg") $"audit.log"
       | None => []
       end.
Definition default_storage : gostring := $"/var/lib/containers/storage/sandbox".

(** * The plan *)
Record dns_config := DNSConfig { dc_hosts : strmap; dc_whitelist : list gostring; dc_upstream : gostring }.
(** [Plan]: the fields [BuildArgs] reads, and the others. *)
Record full_plan := FullPlan {
  fp_bwrap : plan;
  fp_repo_cfg : gostring; fp_tmp_dir : gostring; fp_instance : gostring;
  fp_sni : list gostring; fp_allow : list gostring; fp_block : list gostring;
  fp_tcp : list tcp_endpoint; fp_dns : option dns_config; fp_transparent : bool;
  fp_ports : list resolved_port; fp_forward : list forward_host_spec;
  fp_tasks : delegated_tasks; fp_runner : runner_cfg; fp_hooks_dir : gostring;
  fp_audit_file : gostring; fp_upstream_proxy : gostring;
  fp_secrets : list secret_ref; fp_sources : gmap gostring secret_source; fp_secret_ctx : context;
  fp_landlock : gostring; fp_seccomp : gostring }.
(** The arguments of [BuildPlan]. *)
Record request := Request {
  q_repo_dir : gostring; q_repo_cfg : gostring; q_user_cfg : gostring;
  q_overlay : overlay; q_disk_name : gostring;
  q_cache_overlay : overlay; q_cache_name : gostring;
  q_instance : gostring; q_cli_vars : strmap }.

Section build.
Context `{TemplateLib, UnicodeCase, MapRange gostring, MapRange secret_source, MapRange exec_source}.
(** The repository overrides are looked up twice, and Go may visit a map in a
    different order each time. *)
Context (order1 order2 : MapRange repo_override).
Context (h : host).

(** ** Configuration *)
Definition resolve_root (repo_dir : gostring) : gostring :=
  let root := default repo_dir (h_eval_symlinks h repo_dir) in
  default root (h_abs h root).
Definition parse_repo (data : gostring) : io repo :=
  match h_decode_repo h data with
  | Decoded r => _ ← lift RepoInvalid (repo_validate r); mret r
  | _ => fails RepoUndecodable
  end.
Definition default_repo : repo :=
  Repo supported_version ∅ [] (RepoPaths [] [] []) empty_env [] [] [] [] [] empty_network (DelegatedTasks [] [] [] ∅) [].
Definition load_repo (cfg_path : gostring) (explicit : bool) : io repo :=
  _ ← attempt (ReadConfig cfg_path);
  match h_read h cfg_path with
  | Ok data => parse_repo data
  | Err NotExist => if explicit then fails (RepoUnreadable NotExist) else mret default_repo
  | Err e => fails (RepoUnreadable e)
  end.
Definition parse_user (data : gostring) : io user :=
  let go (u : user) : io user := _ ← lift UserInvalid (@user_validate _ _ order1 _ u); mret u in
  match h_decode_user h data with
  | Decoded u => go u
  | EndOfFile => go empty_user
  | BadYAML => fails UserUndecodable
  end.
Definition load_user (user_cfg : gostring) : io user :=
  let path := if is_empty user_cfg then default_user_path (get_env h) (default [] (h_home h)) else user_cfg in
  _ ← attempt (ReadConfig path);
  match h_read h path with
  | Ok data => parse_user data
  | Err e => if is_empty user_cfg then mret empty_user else fails (UserUnreadable e)
  end.
(** [envMap]. *)
Definition template_env (u : user) : option strmap :=
  match u_allow_env u with Some true => Some (environ_map (h_environ h)) | _ => None end.

(** [resolveTemplates]: the loops over mounts, environment and path lists. *)
Definition render (ctx : context) (s : gostring) : io gostring := lift BadTemplate (apply s ctx).
Definition render_mount (ctx : context) (ms : list mount) (m : mount) : io (list mount) :=
  src ← render ctx (m_src m);
  dest ← render ctx (m_dest m);
  mret (ms ++ [Mount src dest (m_mode m) (m_overlay_rw m) (m_overlay_work m)]).
Definition render_value (ctx : context) (m : strmap) (kv : gostring * gostring) : io strmap :=
  v ← render ctx (snd kv); mret (<[fst kv := v]> m).
Definition render_list (ctx : context) (l : list gostring) : io (list gostring) :=
  io_fold (fun out s => r ← render ctx s; mret (out ++ [r])) [] l.
Definition resolve_templates (r : repo) (ctx : context) : io repo :=
  ms ← io_fold (render_mount ctx) [] (r_mounts r);
  set_ ← io_fold (render_value ctx) (env_set (r_env r)) (map_range (env_set (r_env r)));
  extra ← render_list ctx (rp_extra (r_paths r));
  prepend ← render_list ctx (rp_prepend (r_paths r));
  append_ ← render_list ctx (rp_append (r_paths r));
  mret (Repo (r_version r) (r_vars r) (r_templates r) (RepoPaths extra prepend append_)
          (EnvSpec (env_unset (r_env r)) set_ (env_inherit (r_env r)) (env_inherit_all (r_env r)))
          (r_bwrap_args r) ms (r_secrets r) (r_ports r) (r_forward r) (r_network r) (r_tasks r) (r_anchors r)).

(** ** Environment *)
(** [mergedEnv] with its two checks; [override] is what the second lookup of
    the repository override found. *)
Definition merged_env (u : user) (r : repo) (override : option repo_override) : io env_spec :=
  let over := match override with Some o => ro_env o | None => empty_env end in
  let e := merge_env_chain [u_env u; r_env r; over] in
  match List.find (fun n => smem n HostDeniedEnvVars) (env_inherit e) with
  | Some name => fails (DeniedInherit name)
  | None =>
      mret (EnvSpec (env_unset e) (env_set e)
              (filter (fun n => smem n (env_unset e) = false) (env_inherit e)) (env_inherit_all e))
  end.

(** ** The instance directory *)
Definition instance_dir (u : user) (name : gostring) : io gostring :=
  let tmp_base := match expand h (pa_tmp (u_paths u)) with
                  | Ok e => if negb (is_empty e) then e else h_temp_dir h
                  | Err _ => h_temp_dir h
                  end in
  _ ← (if negb (is_empty tmp_base) then attempt (MkdirAll tmp_base) else mret tt);
  if negb (is_empty name) then
    if negb (is_valid_instance_name name) then fails (BadInstanceName name)
    else
      let dir := path_join tmp_base ($"keg-" ++ name) in
      _ ← call (MkdirAll dir) (h_mkdir_all h dir) InstanceDir;
      mret dir
  else
    _ ← attempt (MkdirTemp tmp_base);
    match h_mkdir_temp h tmp_base with
    | Some d => mret d
    | None => fails InstanceDir
    end.

(** ** Secrets *)
(** The needs of the repository, those of the matched override, and every
    source marked always. *)
Definition secret_needs (r : repo) (u : user) : list secret_ref :=
  let declared := r_secrets r ++ u_inject_needs u in
  declared ++
  concat (map (fun kv : gostring * secret_source =>
    if ss_always (snd kv) && negb (smem (fst kv) (map ref_name declared)) then [SecretRef (fst kv) []] else [])
    (map_range (u_secret_sources u))).
Definition secret_path (name : gostring) : gostring := $"/run/secrets/" ++ name.
(** One turn of the loop: the binds and the references to fetch. *)
Definition secret_step (u : user) (st : list secret_bind * list secret_ref) (ref : secret_ref)
  : io (list secret_bind * list secret_ref) :=
  let '(binds, refs) := st in
  let name := ref_name ref in
  match u_secrets u !! name with
  | Some raw =>
      host_path ← lift (SecretPath name) (expand h raw);
      let host_path := default host_path (h_abs h host_path) in
      if negb (h_stat_file h host_path) then fails (SecretFileMissing name)
      else mret (binds ++ [SecretBind host_path (secret_path name)], refs)
  | None =>
      match u_secret_sources u !! name with
      | Some _ => mret (binds, refs ++ [ref])
      | None => fails (SecretUndefined name)
      end
  end.
Definition secret_context (vars : strmap) (env : option strmap) (root tmp_dir instance : gostring) : context :=
  let inst := if is_empty instance then trim_prefix (path_base tmp_dir) $"keg-" else instance in
  Ctx (<[$"repo_dir" := root]> (<[$"instance" := inst]> vars)) env.
(** [SecretPathBinds], and when something is fetched [SecretDir], [Secrets]
    and the template context. *)
Record secret_plan := SecretPlan {
  sp_binds : list secret_bind; sp_dir : gostring; sp_refs : list secret_ref; sp_ctx : context }.
Definition resolve_secrets (u : user) (needs : list secret_ref) (ctx : context) (tmp_dir : gostring)
  : io secret_plan :=
  '(binds, refs) ← io_fold (secret_step u) ([], []) needs;
  if length refs =? 0 then mret (SecretPlan binds [] [] (Ctx ∅ None))
  else
    let dir := path_join tmp_dir $"secrets" in
    _ ← attempt (FetchSecrets dir refs);
    _ ← lift SecretFetch (fetch_initial (h_fetch h) (h_mkdir_all h dir) refs (u_secret_sources u) ctx (h_secret_files h));
    mret (SecretPlan binds dir refs ctx).
(** The variables that name a secret's file. *)
Definition secret_env (needs : list secret_ref) (env : strmap) : strmap :=
  fold_left (fun (env : strmap) s =>
    if is_empty (ref_env s) then env else <[ref_env s := secret_path (ref_name s)]> env) needs env.

(** ** Language templates *)
Definition storage_base (u : user) : gostring := expand_or_keep h (or_else (pa_storage (u_paths u)) default_storage).
Definition toolchain (u : user) : toolchain_paths :=
  let tc := detect_toolchain_paths (h_look_path h) (h_go_env h) in
  let pick (own detected : gostring) : gostring :=
    if negb (is_empty own) then match expand h own with Ok e => e | Err _ => detected end else detected in
  Toolchain (pick (pa_gomod (u_paths u)) (go_mod_cache tc)) (pick (pa_gobuild (u_paths u)) (go_build_cache tc))
            (go_root tc).
(** A template mount, isolated as the cache overlay asks. *)
Definition cache_mount_step (u : user) (cache : overlay) (cache_name : gostring) (ms : list mount) (m : mount)
  : io (list mount) :=
  let src := expand_or_keep h (m_src m) in
  match cache with
  | OverlayEphemeral => mret (ms ++ [Mount src (m_dest m) MountEphemeral [] []])
  | OverlayDisk =>
      if is_empty cache_name then mret (ms ++ [Mount src (m_dest m) (m_mode m) [] []])
      else
        let dir := path_join (storage_base u) ($"cache-" ++ cache_name) in
        let base := path_base (m_dest m) in
        let key := if is_empty base || seqb base $"." || seqb base $"/" then $"cache" else base in
        let rw := path_join dir (key ++ $"-rw") in
        let work := path_join dir (key ++ $"-work") in
        _ ← call (MkdirAll rw) (h_mkdir_all h rw) CacheLayer;
        _ ← call (MkdirAll work) (h_mkdir_all h work) CacheLayer;
        mret (ms ++ [Mount src (m_dest m) MountDisk rw work])
  | OverlayPlain => mret (ms ++ [Mount src (m_dest m) (m_mode m) [] []])
  end.
(** Mounts, environment and extra path directories with the templates. *)
Definition language_templates (q : request) (u : user) (names : list gostring) (home : gostring)
    (ms : list mount) (env : strmap) : io (list mount * strmap * list gostring) :=
  if length names =? 0 then mret (ms, env, [])
  else
    let tc := toolchain u in
    '(tpl_mounts, tpl_env) ← lift UnknownLanguage (expand_templates names home tc);
    ms ← io_fold (cache_mount_step u (q_cache_overlay q) (q_cache_name q)) ms tpl_mounts;
    let env := env ∪ tpl_env in
    if go_root_needs_bind tc
    then mret (ms ++ [plain_mount (go_root tc) (go_root tc) MountRO], env, [go_root tc ++ $"/bin"])
    else mret (ms, env, []).

(** ** DNS *)
Definition resolv_conf_text : gostring := $"nameserver 127.0.0.1" ++ nl ++ $"options timeout:1 retries:1" ++ nl.
Definition host_nameserver : gostring :=
  first_host_nameserver (match h_read h $"/etc/resolv.conf" with Ok data => Some data | Err _ => None end).
(** [ResolvConf], [HostsFile] and [EgressDNS]. *)
Record dns_plan := DnsPlan { dp_resolv : gostring; dp_hosts_file : gostring; dp_dns : option dns_config }.
Definition dns_whitelist (sni : list gostring) (tcp : list tcp_endpoint) : list gostring :=
  sni ++ map (fun ep => to_lower (te_host ep)) tcp.
Definition write_dns_files (tmp_dir : gostring) (hosts : strmap) : io (gostring * gostring) :=
  let rc := path_join tmp_dir $"resolv.conf" in
  let hf := path_join tmp_dir $"hosts" in
  _ ← call (WriteFile rc resolv_conf_text) (h_write h rc) WriteResolvConf;
  _ ← call (WriteFile hf (build_hosts_file hosts)) (h_write h hf) WriteHosts;
  mret (rc, hf).
Definition egress_dns (r u : network_cfg) (sni : list gostring) (tcp : list tcp_endpoint) (tmp_dir : gostring)
  : io dns_plan :=
  let hosts := merge_string_maps (dns_hosts (nw_dns r)) (dns_hosts (nw_dns u)) in
  let enabled := dns_enabled (nw_dns r) || dns_enabled (nw_dns u) in
  if (0 <? length sni) || (0 <? length tcp) || enabled || (0 <? size hosts) then
    let upstream := or_else (or_else (dns_upstream (nw_dns u)) (dns_upstream (nw_dns r))) host_nameserver in
    '(rc, hf) ← write_dns_files tmp_dir hosts;
    mret (DnsPlan rc hf (Some (DNSConfig hosts (dns_whitelist sni tcp) upstream)))
  else mret (DnsPlan [] [] None).

(** ** Ports and tasks *)
(** [AddPortsToPlan] on the ports and the environment of a plan. *)
Definition add_ports (specs : list port_spec) (ports : list resolved_port) (env : strmap)
  : io (list resolved_port * strmap) :=
  if length specs =? 0 then mret (ports, env)
  else
    _ ← attempt (Listen specs);
    resolved ← lift BadPorts (resolve specs (Some (h_alloc h)));
    let ports := ports ++ resolved in
    mret (ports, <[EnvPortsForward := format_allowed ports]> (port_env resolved ∪ env)).
(** The names in [RUNNER_WHITELIST]. *)
Definition env_tasks : list gostring :=
  let env := get_env h $"RUNNER_WHITELIST" in
  if is_empty env then []
  else filter (fun n => is_empty n = false) (map trim_space (split "," env)).
Definition merged_tasks (r : repo) (u : user) : delegated_tasks :=
  let t := r_tasks r in
  let e := u_runner u in
  DelegatedTasks (dt_exact t ++ env_tasks ++ rc_exact e) (dt_prefixes t ++ rc_prefixes e) (dt_raw t ++ rc_raw e)
    (if (0 <? size (dt_descriptions t)) || (0 <? size (rc_descriptions e))
     then merge_string_maps (dt_descriptions t) (rc_descriptions e) else dt_descriptions t).
Definition has_tasks (t : delegated_tasks) : bool :=
  (0 <? length (dt_exact t)) || (0 <? length (dt_prefixes t)) || (0 <? length (dt_raw t)).
Definition no_tasks : delegated_tasks := DelegatedTasks [] [] [] ∅.
(** The hooks directory, empty without tasks. *)
Definition hooks_dir (tasks : delegated_tasks) (instance_dir : gostring) : io gostring :=
  if has_tasks tasks then
    let dir := path_join instance_dir $"hooks" in
    _ ← call (MkdirAll dir) (h_mkdir_all h dir) HooksDir;
    mret dir
  else mret [].

(** ** The disk layer and Landlock *)
Definition disk_layer (u : user) (o : overlay) (disk_name : gostring) : io (gostring * gostring) :=
  match o with
  | OverlayDisk =>
      let layer := path_join (storage_base u) disk_name in
      let rw := path_join layer $"rw" in
      let work := path_join layer $"work" in
      _ ← call (MkdirAll rw) (h_mkdir_all h rw) DiskLayer;
      _ ← call (MkdirAll work) (h_mkdir_all h work) DiskLayer;
      mret (rw, work)
  | _ => mret ([], [])
  end.
Definition writable_mounts (ms : list mount) : list gostring :=
  fold_left (fun out m =>
    if negb (seqb (m_mode m) MountRO) && negb (is_empty (m_dest m)) && negb (smem (m_dest m) out)
    then out ++ [m_dest m] else out) ms [].

(** ** BuildPlan *)
Definition sandbox_home_path : gostring := $"/home/sandbox".
Definition config_path (q : request) : gostring :=
  or_else (q_repo_cfg q) (path_join (resolve_root (q_repo_dir q)) $".keg.yaml").
(** [effective], and the override found by the second lookup. *)
Definition effective (q : request) (u : user) : user :=
  @match_repo (lookup_env h) (h_home h) order1 u (resolve_root (q_repo_dir q)).
Definition second_override (q : request) (u : user) : option repo_override :=
  @find_repo_override (lookup_env h) (h_home h) order2 u (resolve_root (q_repo_dir q)).
Definition template_context (q : request) (r : repo) (eff : user) : context :=
  Ctx (merge_vars (h_environ h) (r_vars r) (u_vars eff) ∅ [q_cli_vars q]) (template_env eff).
Definition expanded_mounts (r : repo) (eff : user) : list mount :=
  map (fun m => Mount (expand_nonempty h (m_src m)) (m_dest m) (m_mode m) (m_overlay_rw m) (m_overlay_work m))
      (r_mounts r ++ u_mounts eff).
Definition plan_mode (r : repo) (eff : user) : gostring := or_else (nw_mode (u_network eff)) (nw_mode (r_network r)).
Definition plan_sni (r : repo) (eff : user) : list gostring :=
  union_strings (nw_sni (r_network r)) (nw_sni (u_network eff)).
Definition plan_tcp (r : repo) (eff : user) : list tcp_endpoint := nw_tcp (r_network r) ++ nw_tcp (u_network eff).
Definition plan_landlock (eff : user) : gostring := or_else (sec_landlock (u_security eff)) $"auto".
Definition plan_seccomp (eff : user) : gostring := or_else (sec_seccomp (u_security eff)) $"auto".
(** The environment before the templates, and the additions after the ports. *)
Definition base_env (eff : user) (e : env_spec) (needs : list secret_ref) : strmap :=
  secret_env needs (env_set e ∪ {[EnvLandlock := plan_landlock eff]}).
Definition with_proxy (r : repo) (eff : user) (env : strmap) : strmap :=
  if negb (seqb (plan_mode r eff) $"transparent") then proxy_env (plan_sni r eff) ∪ env else env.
Definition final_env (r : repo) (tasks : delegated_tasks) (ms : list mount) (env : strmap) : strmap :=
  let env := if 0 <? length (r_forward r) then <[EnvForwardHosts := format_forward_hosts (r_forward r)]> env else env in
  let env := if has_tasks tasks then <[EnvDelegation := $"1"]> env else env in
  if 0 <? length (writable_mounts ms) then <[EnvLandlockWritable := join $"," (writable_mounts ms)]> env else env.
Definition prepend_paths (root : gostring) (r : repo) (eff : user) : list gostring :=
  let dirs := add_dirs root sandbox_home_path in
  dirs (dirs [] (rp_prepend (r_paths r) ++ rp_extra (r_paths r))) (pa_prepend (u_paths eff) ++ pa_extra (u_paths eff)).
Definition append_paths (root : gostring) (r : repo) (eff : user) : list gostring :=
  let dirs := add_dirs root sandbox_home_path in
  dirs (dirs [] (rp_append (r_paths r))) (pa_append (u_paths eff)).
(** What the calls on the host contributed. *)
Record pieces := Pieces {
  pc_repo : repo;                    (* with its templates resolved *)
  pc_env : env_spec; pc_tmp : gostring; pc_secrets : secret_plan;
  pc_mounts : list mount; pc_extra : list gostring; pc_dns : dns_plan;
  pc_ports : list resolved_port; pc_port_env : strmap; pc_hooks : gostring;
  pc_rw : gostring; pc_work : gostring }.
Definition assemble (q : request) (eff : user) (c : pieces) : full_plan :=
  let root := resolve_root (q_repo_dir q) in
  let r := pc_repo c in
  let e := pc_env c in
  let sp := pc_secrets c in
  let tasks := merged_tasks r eff in
  FullPlan
    (Plan root sandbox_home_path (dp_resolv (pc_dns c)) (dp_hosts_file (pc_dns c)) (sp_dir sp) (sp_binds sp)
       (pc_mounts c) (env_unset e) (final_env r tasks (pc_mounts c) (pc_port_env c)) (env_inherit e)
       (env_inherit_all e) (r_bwrap_args r)
       (match allow_weak_bwrap (u_security eff) with Some b => b | None => false end)
       (q_overlay q) (pc_rw c) (pc_work c) [] (has_tasks tasks) (pc_extra c) (prepend_paths root r eff)
       (append_paths root r eff) 0 [])
    (config_path q) (pc_tmp c) (q_instance q) (plan_sni r eff)
    (union_strings (nw_allow (r_network r)) (nw_allow (u_network eff)))
    (union_strings (nw_block (r_network r)) (nw_block (u_network eff)))
    (plan_tcp r eff) (dp_dns (pc_dns c))
    (seqb (plan_mode r eff) $"transparent" || seqb (plan_mode r eff) $"both")
    (pc_ports c) (r_forward r)
    (if has_tasks tasks then tasks else no_tasks) (if has_tasks tasks then u_runner eff else empty_runner)
    (pc_hooks c)
    (if is_empty (u_audit_file eff) then default_audit_path h else expand_or_keep h (u_audit_file eff))
    (upstream_proxy_from_env (get_env h)) (sp_refs sp)
    (if length (sp_refs sp) =? 0 then ∅ else u_secret_sources eff) (sp_ctx sp)
    (plan_landlock eff) (plan_seccomp eff).
Definition build_plan (q : request) : io (full_plan * user) :=
  let root := resolve_root (q_repo_dir q) in
  let cfg_path := config_path q in
  _ ← call (AskTrust root cfg_path) (h_trust h root cfg_path) NotTrusted;
  r0 ← load_repo cfg_path (negb (is_empty (q_repo_cfg q)));
  u ← load_user (q_user_cfg q);
  let eff := effective q u in
  let ctx := template_context q r0 eff in
  r ← resolve_templates r0 ctx;
  e ← merged_env u r (second_override q u);
  tmp_dir ← instance_dir eff (q_instance q);
  let needs := secret_needs r eff in
  sp ← resolve_secrets eff needs (secret_context (tc_vars ctx) (tc_env ctx) root tmp_dir (q_instance q)) tmp_dir;
  '(ms, env, extra) ← language_templates q eff (r_templates r) sandbox_home_path (expanded_mounts r eff)
                        (base_env eff e needs);
  dp ← egress_dns (r_network r) (u_network eff) (plan_sni r eff) (plan_tcp r eff) tmp_dir;
  '(ports, env) ← add_ports (r_ports r) [] (with_proxy r eff env);
  hooks ← hooks_dir (merged_tasks r eff) tmp_dir;
  '(rw, work) ← disk_layer eff (q_overlay q) (q_disk_name q);
  mret (assemble q eff (Pieces r e tmp_dir sp ms extra dp ports env hooks rw work), u).
End build.

(** ** Additions from the command line *)
(** [AddSNIDomainsToPlan] on a plan: the domains, the environment and the DNS
    channel, which may be new. *)
Definition with_bwrap (p : full_plan) (b : plan) (sni : list gostring) (dns : option dns_config) : full_plan :=
  FullPlan b (fp_repo_cfg p) (fp_tmp_dir p) (fp_instance p) sni (fp_allow p) (fp_block p) (fp_tcp p) dns
    (fp_transparent p) (fp_ports p) (fp_forward p) (fp_tasks p) (fp_runner p) (fp_hooks_dir p)
    (fp_audit_file p) (fp_upstream_proxy p) (fp_secrets p) (fp_sources p) (fp_secret_ctx p)
    (fp_landlock p) (fp_seccomp p).
Definition with_channel (b : plan) (env : strmap) (resolv hosts : gostring) : plan :=
  Plan (repo_root b) (sandbox_home b) resolv hosts (secret_dir b) (secret_path_binds b) (mounts b)
    (env_unset_vars b) env (env_inherit_vars b) (inherit_all b) (bwrap_args b) (p_allow_weak b) (p_overlay b)
    (disk_layer_rw b) (disk_layer_work b) (self_exe b) (enable_runner b) (extra_dirs b) (prepend_dirs b)
    (append_dirs b) (seccomp_fd b) (p_command b).
Definition add_sni_domains `{UnicodeCase, MapRange gostring} (h : host) (p : full_plan) (domains : list gostring)
  : io full_plan :=
  if length domains =? 0 then mret p
  else
    let sni := union_strings (fp_sni p) domains in
    let b := fp_bwrap p in
    let env := if negb (fp_transparent p) then proxy_env sni ∪ env_set_vars b else env_set_vars b in
    match fp_dns p with
    | Some d =>
        let d := DNSConfig (dc_hosts d) (union_strings (dc_whitelist d) domains) (dc_upstream d) in
        mret (with_bwrap p (with_channel b env (resolv_conf b) (hosts_file b)) sni (Some d))
    | None =>
        if 0 <? length sni then
          '(rc, hf) ← write_dns_files h (fp_tmp_dir p) ∅;
          let d := DNSConfig ∅ (dns_whitelist sni (fp_tcp p)) (host_nameserver h) in
          mret (with_bwrap p (with_channel b env rc hf) sni (Some d))
        else mret (with_bwrap p (with_channel b env (resolv_conf b) (hosts_file b)) sni None)
    end.

(** * Lemmas: computations *)
Lemma io_ok_inv {A B} (m : io A) (f : A -> io B) t b :
  m ≫= f = (t, Ok b) -> exists a t1 t2, m = (t1, Ok a) /\ f a = (t2, Ok b) /\ t = t1 ++ t2.
Proof.
  destruct m as [t1 [a|e]]; cbn; [|done]. destruct (f a) as [t2 r] eqn:Hf. cbn. intros [= <- ->].
  by exists a, t1, t2.
Qed.
Lemma lift_ok_inv {E A} (f : E -> plan_err) (m : result E A) t a : lift f m = (t, Ok a) -> t = [] /\ m = Ok a.
Proof. unfold lift. destruct m; cbn; [by intros [= <- <-] | done]. Qed.
Lemma call_ok_inv e ok err t x : call e ok err = (t, Ok x) -> t = [e] /\ ok = true.
Proof. unfold call. destruct ok; [by intros [= <- _] | done]. Qed.
Lemma mret_ok_inv {A} (a b : A) t : (mret a : io A) = (t, Ok b) -> t = [] /\ a = b.
Proof. by intros [= <- <-]. Qed.
(** Takes a successful computation apart, one call after the other. *)
Ltac io_inv H :=
  let t1 := fresh "t" in let t2 := fresh "t" in let H1 := fresh H in let H2 := fresh H in
  apply io_ok_inv in H as (? & t1 & t2 & H1 & H2 & ->).
Section lemmas.
Context `{TemplateLib, UnicodeCase, MapRangeLaws gostring, MapRangeLaws secret_source, MapRangeLaws exec_source}.
Context (order1 order2 : MapRange repo_override) {L1 : @MapRangeLaws _ order1} {L2 : @MapRangeLaws _ order2}.
Context (h : host).

(** What a successful run went through, call by call. *)
Lemma build_plan_ok q t p u :
  build_plan order1 order2 h q = (t, Ok (p, u)) ->
  let root := resolve_root h (q_repo_dir q) in
  let eff := effective order1 h q u in
  exists c r0 env tr t0 t1 t2 t3 t4 t5 t6 t7 t8 t9,
    p = assemble h q eff c /\
    h_trust h root (config_path h q) = true /\
    load_repo h (config_path h q) (negb (is_empty (q_repo_cfg q))) = (t0, Ok r0) /\
    load_user order1 h (q_user_cfg q) = (t1, Ok u) /\
    resolve_templates r0 (template_context h q r0 eff) = (t2, Ok (pc_repo c)) /\
    merged_env u (pc_repo c) (second_override order2 h q u) = (t3, Ok (pc_env c)) /\
    instance_dir h eff (q_instance q) = (t4, Ok (pc_tmp c)) /\
    (let ctx := template_context h q r0 eff in
     resolve_secrets h eff (secret_needs (pc_repo c) eff)
       (secret_context (tc_vars ctx) (tc_env ctx) root (pc_tmp c) (q_instance q)) (pc_tmp c) = (t5, Ok (pc_secrets c))) /\
    language_templates h q eff (r_templates (pc_repo c)) sandbox_home_path (expanded_mounts h (pc_repo c) eff)
      (base_env eff (pc_env c) (secret_needs (pc_repo c) eff)) = (t6, Ok (pc_mounts c, env, pc_extra c)) /\
    egress_dns h (r_network (pc_repo c)) (u_network eff) (plan_sni (pc_repo c) eff) (plan_tcp (pc_repo c) eff)
      (pc_tmp c) = (t7, Ok (pc_dns c)) /\
    add_ports h (r_ports (pc_repo c)) [] (with_proxy (pc_repo c) eff env) = (t8, Ok (pc_ports c, pc_port_env c)) /\
    hooks_dir h (merged_tasks h (pc_repo c) eff) (pc_tmp c) = (t9, Ok (pc_hooks c)) /\
    t = AskTrust root (config_path h q) :: t0 ++ t1 ++ tr.
Proof.
  intros Hb root eff. unfold build_plan in Hb. fold root in Hb. cbv zeta in Hb.
  apply io_ok_inv in Hb as (? & ta & tb & [-> Htrust]%call_ok_inv & Hb & ->).
  apply io_ok_inv in Hb as (r0 & t0 & tr0 & Hr0 & Hb & ->).
  apply io_ok_inv in Hb as (u' & t1 & tr1 & Hu & Hb & ->).
  apply io_ok_inv in Hb as (r & t2 & tr2 & Hr & Hb & ->).
  apply io_ok_inv in Hb as (e & t3 & tr3 & He & Hb & ->).
  apply io_ok_inv in Hb as (tmp & t4 & tr4 & Htmp & Hb & ->).
  apply io_ok_inv in Hb as (sp & t5 & tr5 & Hsp & Hb & ->).
  apply io_ok_inv in Hb as ([[ms env] extra] & t6 & tr6 & Hms & Hb & ->).
  apply io_ok_inv in Hb as (dp & t7 & tr7 & Hdp & Hb & ->).
  apply io_ok_inv in Hb as ([ports penv] & t8 & tr8 & Hports & Hb & ->).
  apply io_ok_inv in Hb as (hooks & t9 & tr9 & Hhooks & Hb & ->).
  apply io_ok_inv in Hb as ([rw work] & t10 & tr10 & Hdisk & Hb & ->).
  apply mret_ok_inv in Hb as [-> [= <- <-]].
  exists (Pieces r e tmp sp ms extra dp ports penv hooks rw work), r0, env. do 11 eexists. cbn [pc_repo pc_env pc_tmp
    pc_secrets pc_mounts pc_extra pc_dns pc_ports pc_port_env pc_hooks].
  split_and!; try eassumption; reflexivity.
Qed.

(** ** Environment and secrets *)
Lemma merged_env_ok u r o t e :
  merged_env u r o = (t, Ok e) ->
  let m := merge_env_chain [u_env u; r_env r; match o with Some o => ro_env o | None => empty_env end] in
  env_unset e = env_unset m /\ env_set e = env_set m /\ env_inherit_all e = env_inherit_all m /\
  (forall n, n ∈ env_inherit e <-> n ∈ env_inherit m /\ n ∉ env_unset m) /\
  (forall n, n ∈ env_inherit m -> n ∉ HostDeniedEnvVars).
Proof.
  unfold merged_env. cbv zeta. set (m := merge_env_chain _).
  destruct (List.find _ _) as [name|] eqn:Hf; [done|]. intros [_ <-]%mret_ok_inv. split_and!; [done..| |].
  - intros n. cbn [env_inherit]. rewrite list_elem_of_filter, smem_false. tauto.
  - intros n Hi. apply smem_false. rewrite list_elem_of_In in Hi. by apply (List.find_none _ _ Hf n).
Qed.
(** The bind of a need that the user's configuration maps to a host file. *)
Definition resolved_bind (u : user) (ref : secret_ref) : option secret_bind :=
  raw ← u_secrets u !! ref_name ref;
  match expand h raw with
  | Ok path => Some (SecretBind (default path (h_abs h path)) (secret_path (ref_name ref)))
  | Err _ => None
  end.
Definition from_source (u : user) (ref : secret_ref) : bool :=
  match u_secrets u !! ref_name ref with Some _ => false | None => true end.
Definition need_met (u : user) (ref : secret_ref) : Prop :=
  (exists b, resolved_bind u ref = Some b /\ h_stat_file h (sb_host_path b) = true) \/
  (from_source u ref = true /\ is_Some (u_secret_sources u !! ref_name ref)).
Lemma secret_step_ok u binds refs ref t st :
  secret_step h u (binds, refs) ref = (t, Ok st) ->
  need_met u ref /\
  st = (binds ++ option_list (resolved_bind u ref), refs ++ (if from_source u ref then [ref] else [])).
Proof.
  unfold secret_step, need_met, resolved_bind, from_source.
  destruct (u_secrets u !! ref_name ref) as [raw|] eqn:Hraw; cbn [mbind option_bind].
  - intros (path & t1 & t2 & [_ Hx]%lift_ok_inv & Hb & _)%io_ok_inv. rewrite Hx in *. cbv zeta in Hb.
    destruct (h_stat_file h _) eqn:Hst; cbn [negb] in Hb; [|done]. apply mret_ok_inv in Hb as [_ <-].
    cbn [option_list]. rewrite app_nil_r. split; [|done]. left. by eexists.
  - destruct (u_secret_sources u !! ref_name ref) eqn:Hs; [|done]. intros [_ <-]%mret_ok_inv.
    cbn [option_list]. rewrite app_nil_r. split; [|done]. right. split; [done | by eexists].
Qed.
Lemma secret_fold_ok u needs st t st' :
  io_fold (secret_step h u) st needs = (t, Ok st') ->
  Forall (need_met u) needs /\
  st' = (st.1 ++ omap (resolved_bind u) needs, st.2 ++ filter (fun ref => from_source u ref = true) needs).
Proof.
  revert st t. induction needs as [|ref needs IH]; intros st t; cbn [io_fold].
  { intros [_ <-]%mret_ok_inv. cbn. rewrite !app_nil_r. by destruct st. }
  intros (st1 & t1 & t2 & Hs & Hf & _)%io_ok_inv. destruct st as [binds refs].
  apply secret_step_ok in Hs as [Hn ->]. apply IH in Hf as [Hf ->]. split; [by constructor|].
  cbn [fst snd omap list_omap]. rewrite filter_cons, <- !app_assoc. f_equal; f_equal.
  - by destruct (resolved_bind u ref).
  - by destruct (from_source u ref); case_decide.
Qed.
Definition fetched (u : user) (needs : list secret_ref) : list secret_ref :=
  filter (fun ref => from_source u ref = true) needs.
Lemma resolve_secrets_ok u needs ctx tmp t sp :
  resolve_secrets h u needs ctx tmp = (t, Ok sp) ->
  Forall (need_met u) needs /\ sp_binds sp = omap (resolved_bind u) needs /\ sp_refs sp = fetched u needs /\
  sp_dir sp = (if length (fetched u needs) =? 0 then [] else path_join tmp $"secrets") /\
  sp_ctx sp = (if length (fetched u needs) =? 0 then Ctx ∅ None else ctx) /\
  (fetched u needs <> [] -> h_mkdir_all h (sp_dir sp) = true /\
   is_ok (fetch_initial (h_fetch h) true (sp_refs sp) (u_secret_sources u) ctx (h_secret_files h))).
Proof.
  unfold resolve_secrets, fetched. intros ([binds refs] & t1 & t2 & Hf & Hb & _)%io_ok_inv.
  apply secret_fold_ok in Hf as [Hmet [= -> ->]]. cbn [app fst snd] in Hb. set (refs := filter _ needs) in *.
  destruct (length refs =? 0) eqn:Hl.
  { apply mret_ok_inv in Hb as [_ <-]. destruct refs; [|done]. by split_and!. }
  apply io_ok_inv in Hb as (? & t3 & t4 & _ & Hb & _). apply io_ok_inv in Hb as (out & t5 & t6 & [_ Hx]%lift_ok_inv & Hb & _).
  apply mret_ok_inv in Hb as [_ <-]. cbn [sp_binds sp_refs sp_dir sp_ctx]. split_and!; try done.
  intros _. destruct (h_mkdir_all h _); [by rewrite Hx|]. unfold fetch_initial in Hx. by rewrite Hl in Hx.
Qed.
(** The variable that names a secret's file: the last need decides. *)
Definition secret_var (needs : list secret_ref) (k : gostring) : option gostring :=
  (fun s => secret_path (ref_name s)) <$> last (filter (fun s => ref_env s = k /\ k <> []) needs).
Lemma secret_env_lookup needs env k :
  secret_env needs env !! k = match secret_var needs k with Some v => Some v | None => env !! k end.
Proof.
  unfold secret_env, secret_var. induction needs as [|s needs IH] using rev_ind; [done|].
  rewrite fold_left_app, filter_app. cbn [fold_left]. rewrite filter_cons, filter_nil.
  destruct (is_empty (ref_env s)) eqn:He; breflect.
  - rewrite decide_False by (intros [Hk Hne]; congruence). by rewrite app_nil_r.
  - case_decide as Hd.
    + destruct Hd as [<- _]. by rewrite last_snoc, lookup_insert_eq.
    + rewrite app_nil_r, lookup_insert_ne by (intros <-; tauto). done.
Qed.

(** ** Environment additions *)
(** The first value that is given. *)
Fixpoint first_of (l : list (option gostring)) : option gostring :=
  match l with [] => None | Some v :: _ => Some v | None :: l => first_of l end.
Definition only_for (k name : gostring) (given : bool) (v : gostring) : option gostring :=
  if seqb k name && given then Some v else None.
Lemma insert_if_lookup (env : strmap) (k name v : gostring) (given : bool) :
  (if given then <[name := v]> env else env : strmap) !! k
  = match only_for k name given v with Some v => Some v | None => env !! k end.
Proof.
  unfold only_for. destruct given; [|by rewrite andb_false_r]. rewrite andb_true_r.
  destruct (seqb_spec k name) as [->|Hne]; [by rewrite lookup_insert_eq | by rewrite lookup_insert_ne].
Qed.
Lemma final_env_lookup r tasks ms env k :
  final_env r tasks ms env !! k =
  first_of [only_for k EnvLandlockWritable (0 <? length (writable_mounts ms)) (join $"," (writable_mounts ms));
            only_for k EnvDelegation (has_tasks tasks) $"1";
            only_for k EnvForwardHosts (0 <? length (r_forward r)) (format_forward_hosts (r_forward r));
            env !! k].
Proof.
  unfold final_env. rewrite !insert_if_lookup. cbn [first_of].
  by repeat match goal with |- context [only_for ?a ?b ?c ?d] => destruct (only_for a b c d) end; destruct (env !! k).
Qed.
Lemma add_ports_ok specs env t ports env' :
  add_ports h specs [] env = (t, Ok (ports, env')) ->
  (if length specs =? 0 then ports = [] else resolve specs (Some (h_alloc h)) = Ok ports) /\
  forall k, env' !! k =
    first_of [only_for k EnvPortsForward (0 <? length specs) (format_allowed ports); port_env ports !! k; env !! k].
Proof.
  unfold add_ports. destruct (length specs =? 0) eqn:Hl.
  { intros [_ [= <- <-]]%mret_ok_inv. split; [done|]. intros k. destruct specs; [|done].
    unfold only_for. rewrite andb_false_r. cbn. by destruct (env !! k). }
  intros (? & t1 & t2 & _ & Hb & _)%io_ok_inv. apply io_ok_inv in Hb as (out & t3 & t4 & [_ Hr]%lift_ok_inv & Hb & _).
  apply mret_ok_inv in Hb as [_ [= <- <-]]. split; [done|]. intros k. cbn [app first_of].
  assert (Hlt : (0 <? length specs) = true) by (apply Nat.ltb_lt; apply Nat.eqb_neq in Hl; lia). rewrite Hlt.
  pose proof (insert_if_lookup (port_env out ∪ env) k EnvPortsForward (format_allowed out) true) as Hk.
  cbv iota in Hk. rewrite Hk. destruct (only_for _ _ _ _); [done|]. rewrite lookup_union.
  destruct (port_env out !! k), (env !! k); done.
Qed.
Lemma language_templates_ok q u names home ms env t ms' env' extra :
  language_templates h q u names home ms env = (t, Ok (ms', env', extra)) ->
  exists tpl_mounts tpl_env, expand_templates names home (toolchain h u) = Ok (tpl_mounts, tpl_env) /\
    env' = env ∪ tpl_env.
Proof.
  unfold language_templates. destruct names as [|n names]; cbn [length Nat.eqb].
  { intros [_ [= <- <- <-]]%mret_ok_inv. exists [], ∅. split; [done|]. by rewrite map_union_empty. }
  intros ([tm te] & t1 & t2 & [_ Hx]%lift_ok_inv & Hb & _)%io_ok_inv.
  apply io_ok_inv in Hb as (ms1 & t3 & t4 & _ & Hb & _). exists tm, te. split; [done|].
  destruct (go_root_needs_bind _); by apply mret_ok_inv in Hb as [_ [= <- <- <-]].
Qed.

Lemma base_env_lookup r eff e needs tpl_env k :
  with_proxy r eff (base_env eff e needs ∪ tpl_env) !! k =
  first_of [(if seqb (plan_mode r eff) $"transparent" then None else proxy_env (plan_sni r eff) !! k);
            secret_var needs k; env_set e !! k; only_for k EnvLandlock true (plan_landlock eff); tpl_env !! k].
Proof.
  assert (Hb : (base_env eff e needs ∪ tpl_env) !! k =
    first_of [secret_var needs k; env_set e !! k; only_for k EnvLandlock true (plan_landlock eff); tpl_env !! k]).
  { unfold base_env. rewrite lookup_union, secret_env_lookup, lookup_union. unfold only_for. rewrite andb_true_r.
    cbn [first_of]. destruct (secret_var needs k), (env_set e !! k), (tpl_env !! k);
      destruct (seqb_spec k EnvLandlock) as [->|Hne]; rewrite ?lookup_singleton_eq, ?lookup_singleton_ne by congruence;
      reflexivity. }
  unfold with_proxy. destruct (seqb _ _); cbn [negb first_of]; [done|]. rewrite (lookup_union (proxy_env _)), Hb.
  cbn [first_of]. destruct (proxy_env _ !! k); by repeat case_match.
Qed.

(** ** Templates, the DNS channel and the delegation channel *)
(** Rendering touches mounts, set variables and path lists only. *)
Lemma resolve_templates_ok r ctx t r' :
  resolve_templates r ctx = (t, Ok r') ->
  r_secrets r' = r_secrets r /\ r_network r' = r_network r /\ r_tasks r' = r_tasks r /\ r_ports r' = r_ports r /\
  r_forward r' = r_forward r /\ r_templates r' = r_templates r /\ r_bwrap_args r' = r_bwrap_args r.
Proof.
  unfold resolve_templates. intros (ms & ? & ? & _ & Hb & _)%io_ok_inv.
  do 4 (apply io_ok_inv in Hb as (? & ? & ? & _ & Hb & _)). by apply mret_ok_inv in Hb as [_ <-].
Qed.
Lemma proxy_env_names domains k :
  smem k [$"no_proxy"; $"NO_PROXY"; $"https_proxy"; $"http_proxy"; $"HTTPS_PROXY"; $"HTTP_PROXY"; EnvProxyBridge] = false ->
  proxy_env domains !! k = None.
Proof.
  intros Hk%smem_false. unfold proxy_env. destruct (_ =? 0); [apply lookup_empty|]. rewrite !not_elem_of_cons in Hk.
  rewrite !lookup_insert_ne, lookup_singleton_ne by (intros <-; tauto). done.
Qed.
(** The texts of a repository's configuration that are rendered as templates:
    mounts, set variables and path lists. *)
Definition rendered_texts (r : repo) : list gostring :=
  map m_src (r_mounts r) ++ map m_dest (r_mounts r) ++ map snd (map_range (env_set (r_env r))) ++
  rp_extra (r_paths r) ++ rp_prepend (r_paths r) ++ rp_append (r_paths r).
Lemma io_fold_each {A S} (P : A -> Prop) (f : S -> A -> io S) s l t s' :
  (forall s x t s', f s x = (t, Ok s') -> P x) -> io_fold f s l = (t, Ok s') -> Forall P l.
Proof.
  intros Hf. revert s t. induction l as [|x l IH]; intros s t; [constructor|]. cbn [io_fold].
  intros (s1 & ? & ? & Hx & Hl & _)%io_ok_inv. constructor; [by eapply Hf | by eapply IH].
Qed.
(** A text that was rendered without a host environment does not ask for one. *)
Definition asks_no_env (s : gostring) : Prop := contains s $"{{" = true -> contains s $".Env" = false.
Lemma render_no_env ctx s t out : tc_env ctx = None -> render ctx s = (t, Ok out) -> asks_no_env s.
Proof.
  intros He [_ Ha]%lift_ok_inv Hb. unfold apply in Ha. rewrite Hb, He in Ha. cbn [negb andb] in Ha.
  by destruct (contains s $".Env").
Qed.
Lemma resolve_templates_no_env r ctx t r' :
  tc_env ctx = None -> resolve_templates r ctx = (t, Ok r') -> Forall asks_no_env (rendered_texts r).
Proof.
  intros He. unfold resolve_templates. intros (ms & ? & ? & Hms & Hb & _)%io_ok_inv.
  apply io_ok_inv in Hb as (st & ? & ? & Hset & Hb & _). apply io_ok_inv in Hb as (ex & ? & ? & Hex & Hb & _).
  apply io_ok_inv in Hb as (pr & ? & ? & Hpr & Hb & _). apply io_ok_inv in Hb as (ap & ? & ? & Hap & _ & _).
  assert (Hlist : forall l t out, render_list ctx l = (t, Ok out) -> Forall asks_no_env l).
  { intros l ? ?. apply io_fold_each. intros ? y ? ? (? & ? & ? & Hx & _)%io_ok_inv. by eapply render_no_env. }
  assert (Hm : Forall (fun m => asks_no_env (m_src m) /\ asks_no_env (m_dest m)) (r_mounts r)).
  { revert Hms. apply io_fold_each. intros ? y ? ? (? & ? & ? & Hs & Hb & _)%io_ok_inv.
    apply io_ok_inv in Hb as (? & ? & ? & Hd & _). split; by eapply render_no_env. }
  assert (Hv : Forall (fun kv => asks_no_env (snd kv)) (map_range (env_set (r_env r)))).
  { revert Hset. apply io_fold_each. intros ? y ? ? (? & ? & ? & Hx & _)%io_ok_inv. by eapply render_no_env. }
  unfold rendered_texts. rewrite !Forall_app, !Forall_map. split_and!; try (by eapply Hlist); [..|exact Hv];
    eapply Forall_impl; [exact Hm | by intros m [] | exact Hm | by intros m []].
Qed.
Lemma secret_needs_elem r u ref :
  ref ∈ secret_needs r u <->
  ref ∈ r_secrets r ++ u_inject_needs u \/
  exists name src, u_secret_sources u !! name = Some src /\ ss_always src = true /\ ref = SecretRef name [] /\
    name ∉ map ref_name (r_secrets r ++ u_inject_needs u).
Proof.
  unfold secret_needs. cbv zeta. rewrite (elem_of_app (r_secrets r ++ _)). apply or_iff_compat_l.
  rewrite list_elem_of_In, in_concat. split.
  - intros (l & Hl & Hin). apply in_map_iff in Hl as ([name src] & <- & Hkv).
    apply list_elem_of_In, map_range_elem in Hkv. cbn [fst snd] in Hin.
    destruct (ss_always src) eqn:Ha; [|done]. destruct (smem name _) eqn:Hs; cbn [andb negb] in Hin; [done|].
    destruct Hin as [<-|[]]. breflect. by exists name, src.
  - intros (name & src & Hsrc & Ha & -> & Hno). exists [SecretRef name []]. split; [|by left].
    apply in_map_iff. exists (name, src). cbn [fst snd]. rewrite Ha. apply smem_false in Hno. rewrite Hno.
    split; [done|]. by apply list_elem_of_In, map_range_elem.
Qed.
Lemma egress_dns_ok nr nu sni tcp tmp t dp :
  egress_dns h nr nu sni tcp tmp = (t, Ok dp) ->
  let hosts := merge_string_maps (dns_hosts (nw_dns nr)) (dns_hosts (nw_dns nu)) in
  if (0 <? length sni) || (0 <? length tcp) || (dns_enabled (nw_dns nr) || dns_enabled (nw_dns nu)) || (0 <? size hosts)
  then dp_dns dp = Some (DNSConfig hosts (dns_whitelist sni tcp)
         (or_else (or_else (dns_upstream (nw_dns nu)) (dns_upstream (nw_dns nr))) (host_nameserver h))) /\
       dp_resolv dp = path_join tmp $"resolv.conf" /\ dp_hosts_file dp = path_join tmp $"hosts"
  else dp = DnsPlan [] [] None.
Proof.
  unfold egress_dns, write_dns_files. cbv zeta.
  destruct (_ || (0 <? size _)); [|by intros [_ <-]%mret_ok_inv].
  intros ([rc hf] & t1 & t2 & Hw & Hb & _)%io_ok_inv. apply mret_ok_inv in Hb as [_ <-].
  do 2 (apply io_ok_inv in Hw as (? & ? & ? & _ & Hw & _)). by apply mret_ok_inv in Hw as [_ [= <- <-]].
Qed.
Lemma no_names_no_channel (sni : list gostring) (tcp : list tcp_endpoint) (enabled : bool) (hosts : strmap) :
  (0 <? length sni) || (0 <? length tcp) || enabled || (0 <? size hosts) = false <->
  sni = [] /\ tcp = [] /\ enabled = false /\ hosts = ∅.
Proof.
  rewrite !orb_false_iff, !Nat.ltb_ge, <- map_size_empty_iff. split.
  - intros [[[Hs Ht] He] Hh]. destruct sni, tcp; cbn in *; split_and!; done || lia.
  - intros (-> & -> & -> & ->). split_and!; done || lia.
Qed.
Lemma has_tasks_elem t :
  has_tasks t = true <-> (exists n, n ∈ dt_exact t) \/ (exists n, n ∈ dt_prefixes t) \/ (exists rr, rr ∈ dt_raw t).
Proof.
  assert (Hl : forall A (l : list A), (0 <? length l) = true <-> exists x, x ∈ l).
  { intros A l. rewrite Nat.ltb_lt. destruct l as [|x l]; cbn; split; [lia | by intros [x ?%not_elem_of_nil] | | lia].
    intros _. exists x. by left. }
  unfold has_tasks. rewrite !orb_true_iff, !Hl. tauto.
Qed.
(** The tasks of a plan are the merged ones, also when there are none. *)
Lemma kept_tasks t :
  let kept := if has_tasks t then t else no_tasks in
  dt_exact kept = dt_exact t /\ dt_prefixes kept = dt_prefixes t /\ dt_raw kept = dt_raw t /\ has_tasks kept = has_tasks t.
Proof.
  cbv zeta. destruct (has_tasks t) eqn:Ht; [done|]. unfold has_tasks in Ht.
  rewrite !orb_false_iff, !Nat.ltb_ge in Ht. destruct t as [[|] [|] [|] ?]; cbn in *; done || lia.
Qed.
Lemma hooks_dir_ok tasks dir t hooks :
  hooks_dir h tasks dir = (t, Ok hooks) -> hooks = if has_tasks tasks then path_join dir $"hooks" else [].
Proof.
  unfold hooks_dir. destruct (has_tasks tasks); [|by intros [_ <-]%mret_ok_inv].
  intros (? & ? & ? & _ & Hb & _)%io_ok_inv. by apply mret_ok_inv in Hb as [_ <-].
Qed.

(** The override of a repository leaves the global decisions alone. *)
Lemma effective_kept q u :
  let eff := effective order1 h q u in
  u_security eff = u_security u /\ u_secrets eff = u_secrets u /\ u_secret_sources eff = u_secret_sources u /\
  u_allow_env eff = u_allow_env u /\ u_audit_file eff = u_audit_file u.
Proof. cbv zeta. unfold effective, match_repo. by destruct (find_repo_override _ _ _ _). Qed.
(** Where the user's configuration comes from: the file the request names, or
    the default one, which may be missing or empty. *)
Definition user_path (q : request) : gostring :=
  or_else (q_user_cfg q) (default_user_path (get_env h) (default [] (h_home h))).
Definition user_source (q : request) (u : user) : Prop :=
  match h_read h (user_path q) with
  | Ok data => match h_decode_user h data with
               | Decoded v => u = v
               | EndOfFile => u = empty_user
               | BadYAML => False
               end
  | Err _ => q_user_cfg q = [] /\ u = empty_user
  end.
Lemma validated_user (v u : user) t :
  (_ ← lift UserInvalid (@user_validate _ _ order1 _ v); mret v : io user) = (t, Ok u) -> u = v /\ user_wf u.
Proof.
  intros ([] & ? & ? & [_ Hv]%lift_ok_inv & [_ ->]%mret_ok_inv & _)%io_ok_inv. split; [done|].
  by apply (@user_validate_wf _ _ _ _ order1 L1) in Hv.
Qed.
Lemma load_user_ok q t u :
  load_user order1 h (q_user_cfg q) = (t, Ok u) -> user_source q u /\ (u = empty_user \/ user_wf u).
Proof.
  unfold load_user, user_source, user_path, or_else. cbv zeta. set (path := if is_empty _ then _ else _).
  intros (? & t1 & t2 & _ & Hb & _)%io_ok_inv. destruct (h_read h path) as [data|e] eqn:Hr.
  - unfold parse_user in Hb. destruct (h_decode_user h data) as [v| |] eqn:Hd; [| |done].
    + apply validated_user in Hb as [-> ?]. by split; [|right].
    + apply validated_user in Hb as [-> _]. by split; [|left].
  - destruct (is_empty (q_user_cfg q)) eqn:He; [|done]. apply mret_ok_inv in Hb as [_ <-]. breflect. by split; [|left].
Qed.
Lemma load_repo_reads path explicit : exists t, fst (load_repo h path explicit) = ReadConfig path :: t.
Proof.
  unfold load_repo, attempt. destruct (h_read h path) as [data|[|]]; cbn; [|by destruct explicit; cbn; eexists..].
  by eexists.
Qed.

(** * Properties *)

(** C6: the trust gate comes first.  Whatever the request, the first call on
    the host asks whether the configuration at the path that is then loaded is
    trusted; if it is not, that is the only call and there is no plan. *)
Theorem trust_gate_first (q : request) :
  let path := config_path h q in
  let ask := AskTrust (resolve_root h (q_repo_dir q)) path in
  if h_trust h (resolve_root h (q_repo_dir q)) path
  then exists t, fst (build_plan order1 order2 h q) = ask :: ReadConfig path :: t
  else build_plan order1 order2 h q = ([ask], Err NotTrusted).
Proof.
  intros path ask. unfold build_plan. fold path. cbv zeta. unfold call at 1. fold ask.
  destruct (h_trust h _ path); [|done]. destruct (load_repo_reads path (negb (is_empty (q_repo_cfg q)))) as [t Ht].
  destruct (load_repo h path _) as [t0 [r0|e]]; cbn in Ht |- *; subst t0; cbn; by eexists.
Qed.

(** the environment of a plan.  A variable has the value of the first of
    these that gives one: the internal markers (writable mounts, delegation,
    forwarded hosts, ports), the named ports, the proxy variables (unless the
    network is transparent), the secret files, the [env.set] of the matched
    override, of the repository and of the user, the Landlock mode, and the
    language templates.  A name is unset when any of the three scopes unsets
    it, and inherited when one of them asks for it and none unsets it; a plan
    for which one of them asks for a denied name does not exist. *)
Theorem plan_environment (q : request) (t : list effect) (p : full_plan) (u : user)
    (Hplan : build_plan order1 order2 h q = (t, Ok (p, u))) :
  let eff := effective order1 h q u in
  let b := fp_bwrap p in
  exists r0 r tpl_mounts tpl_env,
    snd (load_repo h (config_path h q) (negb (is_empty (q_repo_cfg q)))) = Ok r0 /\
    snd (resolve_templates r0 (template_context h q r0 eff)) = Ok r /\
    expand_templates (r_templates r) sandbox_home_path (toolchain h eff) = Ok (tpl_mounts, tpl_env) /\
    let override := match second_override order2 h q u with Some o => ro_env o | None => empty_env end in
    let scopes := [u_env u; r_env r; override] in
    (forall k, env_set_vars b !! k = first_of [
       only_for k EnvLandlockWritable (0 <? length (writable_mounts (mounts b))) (join $"," (writable_mounts (mounts b)));
       only_for k EnvDelegation (enable_runner b) $"1";
       only_for k EnvForwardHosts (0 <? length (fp_forward p)) (format_forward_hosts (fp_forward p));
       only_for k EnvPortsForward (0 <? length (r_ports r)) (format_allowed (fp_ports p));
       port_env (fp_ports p) !! k;
       (if seqb (plan_mode r eff) $"transparent" then None else proxy_env (fp_sni p) !! k);
       secret_var (secret_needs r eff) k;
       last_some (fun e => env_set e !! k) scopes;
       only_for k EnvLandlock true (fp_landlock p);
       tpl_env !! k]) /\
    (forall n, n ∈ env_unset_vars b <-> exists e, e ∈ scopes /\ n ∈ env_unset e) /\
    (forall n, n ∈ env_inherit_vars b <-> (exists e, e ∈ scopes /\ n ∈ env_inherit e) /\ n ∉ env_unset_vars b) /\
    (forall n e, e ∈ scopes -> n ∈ env_inherit e -> n ∉ HostDeniedEnvVars).
Proof.
  apply build_plan_ok in Hplan as (c & r0 & env & tr & t0 & t1 & t2 & t3 & t4 & t5 & t6 & t7 & t8 & t9 & -> & _ & Hr0 &
    _ & Hr & He & _ & _ & Hlang & _ & Hports & _).
  apply merged_env_ok in He as (Hun & Hset & _ & Hinh & Hden). set (scopes := [_; _; _]) in *.
  apply language_templates_ok in Hlang as (tm & te & Htpl & ->). apply add_ports_ok in Hports as [_ Hports].
  intros eff b. exists r0, (pc_repo c), tm, te. unfold eff. rewrite Hr0, Hr. split; [done|]. split; [done|]. split; [done|].
  cbv zeta. fold scopes. pose proof (merge_env_chain_spec scopes) as Hm. unfold b, assemble.
  cbn [env_set_vars fp_bwrap mounts enable_runner fp_forward fp_ports fp_sni fp_landlock env_unset_vars env_inherit_vars].
  split_and!.
  - intros k. rewrite final_env_lookup, Hports, base_env_lookup, Hset. destruct (Hm k) as (-> & _). cbn [first_of].
    destruct (seqb (plan_mode _ _) _); by repeat case_match.
  - intros n. rewrite Hun. by destruct (Hm n) as (_ & -> & _).
  - intros n. rewrite Hinh, Hun. by destruct (Hm n) as (_ & _ & -> & _).
  - intros n e Hs Hn. apply Hden, Hm. by exists e.
Qed.

(** C5: what a repository can and cannot decide. In every plan the consent to
    weak bwrap arguments and the seccomp mode are those of the user's own
    configuration file (or the defaults without one); without the user's
    permission no template of the repository that is rendered (mounts, set
    variables, path lists) asks for the host environment, and the context that
    the plan keeps for the commands of the secrets has none; and raw bwrap
    arguments that the gate recognizes as weak are refused when the command
    line is built unless the user consented. The Landlock mode that the guest
    is given is the user's only if no secret and no env.set, the repository's
    included, names its variable; otherwise the secret's path or the innermost
    of these values takes its place. *)
Theorem repository_cannot_weaken (q : request) (t : list effect) (p : full_plan) (u : user)
    (marshal : env_keep_marker -> option gostring)
    (Hplan : build_plan order1 order2 h q = (t, Ok (p, u))) :
  user_source q u /\
  (p_allow_weak (fp_bwrap p) = true <-> allow_weak_bwrap (u_security u) = Some true) /\
  fp_seccomp p = or_else (sec_seccomp (u_security u)) $"auto" /\ fp_seccomp p ∈ [$"auto"; $"on"; $"off"] /\
  (u_allow_env u <> Some true -> tc_env (fp_secret_ctx p) = None) /\
  (weak_args (bwrap_args (fp_bwrap p)) -> allow_weak_bwrap (u_security u) <> Some true ->
   exists l, build_args marshal (fp_bwrap p) = Err (WeakArgs l) /\ l <> []) /\
  exists r0 r, snd (load_repo h (config_path h q) (negb (is_empty (q_repo_cfg q)))) = Ok r0 /\
    snd (resolve_templates r0 (template_context h q r0 (effective order1 h q u))) = Ok r /\
    (u_allow_env u <> Some true -> Forall asks_no_env (rendered_texts r0)) /\
    let override := match second_override order2 h q u with Some o => ro_env o | None => empty_env end in
    let mode := or_else (sec_landlock (u_security u)) $"auto" in
    mode ∈ [$"auto"; $"on"; $"off"] /\
    env_set_vars (fp_bwrap p) !! EnvLandlock = Some
      (match secret_var (secret_needs r (effective order1 h q u)) EnvLandlock with
       | Some path => path
       | None => default mode (last_some (fun e => env_set e !! EnvLandlock) [u_env u; r_env r; override])
       end).
Proof.
  pose proof (plan_environment _ _ _ _ Hplan) as (r0' & r' & tm & te & Hr0' & Hr' & _ & Henv & _).
  specialize (Henv EnvLandlock).
  apply build_plan_ok in Hplan as (c & r0 & env & tr & t0 & t1 & t2 & t3 & t4 & t5 & t6 & t7 & t8 & t9 & -> & _ & Hr0 &
    Hu & Hr & _ & _ & Hsec & _). cbv zeta in Hsec.
  rewrite Hr0 in Hr0'. apply ok_inj in Hr0' as <-. rewrite Hr in Hr'. apply ok_inj in Hr' as <-.
  destruct (effective_kept q u) as (Hs & _ & _ & Hallow & _). apply load_user_ok in Hu as [Hsrc Hwf].
  apply resolve_secrets_ok in Hsec as (_ & _ & _ & _ & Hctx & _).
  assert (Hno : u_allow_env u <> Some true -> template_env h (effective order1 h q u) = None).
  { unfold template_env. rewrite Hallow. by destruct (u_allow_env u) as [[]|]. }
  assert (Hmode : forall m, m ∈ [[]; $"auto"; $"on"; $"off"] -> or_else m $"auto" ∈ [$"auto"; $"on"; $"off"]).
  { intros m. rewrite !elem_of_cons, elem_of_nil. intros [->|[->|[->|[->|[]]]]]; cbn; tauto. }
  assert (Hweak : (match allow_weak_bwrap (u_security u) with Some b => b | None => false end) = true
                  <-> allow_weak_bwrap (u_security u) = Some true).
  { destruct (allow_weak_bwrap _) as [[]|]; split; congruence. }
  split; [done|]. split; [cbn [assemble fp_bwrap p_allow_weak]; by rewrite Hs|]. split_and!.
  - cbn. unfold plan_seccomp. by rewrite Hs.
  - cbn. unfold plan_seccomp. rewrite Hs. apply Hmode. destruct Hwf as [->|[]]; [by left | done].
  - intros Hne. cbn [assemble fp_secret_ctx]. rewrite Hctx. destruct (length _ =? 0); [done|]. by apply Hno.
  - intros Hw Hnc. apply weak_args_refused; [done|]. cbn. rewrite Hs. destruct (allow_weak_bwrap _) as [[]|]; done.
  - exists r0, (pc_repo c). rewrite Hr0, Hr. split; [done|]. split; [done|].
    split; [intros Hne; exact (resolve_templates_no_env r0 (template_context h q r0 (effective order1 h q u)) _ _ (Hno Hne) Hr)|]. cbv zeta. split.
    + apply Hmode. destruct Hwf as [->|[]]; [by left | done].
    + rewrite Henv. change (fp_landlock (assemble h q (effective order1 h q u) c)) with (plan_landlock (effective order1 h q u)).
      unfold plan_landlock. rewrite Hs. cbn [first_of only_for seqb].
      destruct (port_env _ !! EnvLandlock) eqn:Hp; [by apply port_env_names in Hp|].
      assert (Hpx : (if seqb (plan_mode (pc_repo c) (effective order1 h q u)) $"transparent" then None
                     else proxy_env (fp_sni (assemble h q (effective order1 h q u) c)) !! EnvLandlock) = None).
      { destruct (seqb _ _); [done | apply proxy_env_names; done]. }
      rewrite Hpx. by repeat case_match.
Qed.

(** secrets.  What a plan needs are the secrets that the repository and
    the matched override name and the user's sources marked always.  Each need
    is met by the user's own configuration, as an existing host file, which is
    bound under [/run/secrets], or as a command, which has been fetched into
    the instance's directory; a plan with a need that is not met does not
    exist. *)
Theorem plan_secrets (q : request) (t : list effect) (p : full_plan) (u : user)
    (Hplan : build_plan order1 order2 h q = (t, Ok (p, u))) :
  let eff := effective order1 h q u in
  exists r0 r,
    let needs := secret_needs r eff in
    let base := template_context h q r0 eff in
    let ctx := secret_context (tc_vars base) (tc_env base) (resolve_root h (q_repo_dir q)) (fp_tmp_dir p) (q_instance q) in
    snd (load_repo h (config_path h q) (negb (is_empty (q_repo_cfg q)))) = Ok r0 /\ r_secrets r = r_secrets r0 /\
    (forall ref, ref ∈ needs <->
       ref ∈ r_secrets r ++ u_inject_needs eff \/
       exists name src, u_secret_sources u !! name = Some src /\ ss_always src = true /\ ref = SecretRef name [] /\
         name ∉ map ref_name (r_secrets r ++ u_inject_needs eff)) /\
    Forall (need_met u) needs /\
    secret_path_binds (fp_bwrap p) = omap (resolved_bind u) needs /\
    fp_secrets p = fetched u needs /\
    (if length (fetched u needs) =? 0 then secret_dir (fp_bwrap p) = [] /\ fp_secret_ctx p = Ctx ∅ None
     else secret_dir (fp_bwrap p) = path_join (fp_tmp_dir p) $"secrets" /\ fp_secret_ctx p = ctx /\
          is_ok (fetch_initial (h_fetch h) true (fetched u needs) (u_secret_sources u) ctx (h_secret_files h))).
Proof.
  apply build_plan_ok in Hplan as (c & r0 & env & tr & t0 & t1 & t2 & t3 & t4 & t5 & t6 & t7 & t8 & t9 & -> & _ & Hr0 &
    _ & Hr & _ & _ & Hsec & _). cbv zeta in Hsec.
  apply resolve_templates_ok in Hr as (Hrs & _). apply resolve_secrets_ok in Hsec as (Hmet & Hbinds & Hrefs & Hdir & Hctx & Hok).
  intros eff. exists r0, (pc_repo c). cbv zeta. unfold eff.
  pose proof (secret_needs_elem (pc_repo c) (effective order1 h q u)) as Helem.
  destruct (effective_kept q u) as (_ & Hsecs & Hsrcs & _).
  assert (Hb : resolved_bind (effective order1 h q u) = resolved_bind u) by (unfold resolved_bind; by rewrite Hsecs).
  assert (Hf : fetched (effective order1 h q u) = fetched u) by (unfold fetched, from_source; by rewrite Hsecs).
  assert (Hn : need_met (effective order1 h q u) = need_met u).
  { unfold need_met, from_source. by rewrite Hb, Hsecs, Hsrcs. }
  rewrite Hb in *. rewrite Hf in *. rewrite Hn in *. rewrite Hsrcs in *.
  cbn [assemble fp_bwrap fp_secrets fp_secret_ctx fp_tmp_dir secret_path_binds secret_dir].
  rewrite Hr0. split_and!; [done..|].
  destruct (length (fetched u _) =? 0) eqn:Hl; [done|]. rewrite Hdir, Hctx, Hrefs in *. split_and!; [done..|].
  destruct Hok as [_ Hfetch]; [intros Hx; by rewrite Hx in Hl | exact Hfetch].
Qed.

(** the channels of a plan.  Domains and networks are those of the
    repository and of the user (with the matched override), tasks those of the
    repository, of [RUNNER_WHITELIST] and of the user; the delegation channel
    is open iff there is a task, and the DNS channel iff something can be
    resolved: a domain, an endpoint, a host entry, or a configuration that
    enables it.  The channel then answers for the domains and the endpoints'
    hosts, and a host entry of the user overrides the repository's. *)
Theorem plan_channels (q : request) (t : list effect) (p : full_plan) (u : user)
    (Hplan : build_plan order1 order2 h q = (t, Ok (p, u))) :
  let nu := u_network (effective order1 h q u) in
  let ru := u_runner (effective order1 h q u) in
  let b := fp_bwrap p in
  exists r, snd (load_repo h (config_path h q) (negb (is_empty (q_repo_cfg q)))) = Ok r /\
    let nr := r_network r in
    (forall d, d ∈ fp_sni p <-> d ∈ nw_sni nr \/ d ∈ nw_sni nu) /\
    (forall n, n ∈ fp_allow p <-> n ∈ nw_allow nr \/ n ∈ nw_allow nu) /\
    (forall n, n ∈ fp_block p <-> n ∈ nw_block nr \/ n ∈ nw_block nu) /\
    fp_tcp p = nw_tcp nr ++ nw_tcp nu /\
    (fp_dns p = None <-> fp_sni p = [] /\ fp_tcp p = [] /\ dns_enabled (nw_dns nr) || dns_enabled (nw_dns nu) = false /\
                         merge_string_maps (dns_hosts (nw_dns nr)) (dns_hosts (nw_dns nu)) = ∅) /\
    match fp_dns p with
    | None => resolv_conf b = [] /\ hosts_file b = []
    | Some d =>
        resolv_conf b = path_join (fp_tmp_dir p) $"resolv.conf" /\ hosts_file b = path_join (fp_tmp_dir p) $"hosts" /\
        dc_whitelist d = fp_sni p ++ map (fun ep => to_lower (te_host ep)) (fp_tcp p) /\
        forall k, dc_hosts d !! k = match dns_hosts (nw_dns nu) !! k with
                                    | Some v => Some v | None => dns_hosts (nw_dns nr) !! k end
    end /\
    dt_exact (fp_tasks p) = dt_exact (r_tasks r) ++ env_tasks h ++ rc_exact ru /\
    dt_prefixes (fp_tasks p) = dt_prefixes (r_tasks r) ++ rc_prefixes ru /\
    dt_raw (fp_tasks p) = dt_raw (r_tasks r) ++ rc_raw ru /\
    (enable_runner b = true <->
       (exists n, n ∈ dt_exact (fp_tasks p)) \/ (exists n, n ∈ dt_prefixes (fp_tasks p)) \/
       (exists rr, rr ∈ dt_raw (fp_tasks p))) /\
    fp_hooks_dir p = (if enable_runner b then path_join (fp_tmp_dir p) $"hooks" else []).
Proof.
  apply build_plan_ok in Hplan as (c & r0 & env & tr & t0 & t1 & t2 & t3 & t4 & t5 & t6 & t7 & t8 & t9 & -> & _ & Hr0 &
    _ & Hr & _ & _ & _ & _ & Hdns & _ & Hhooks & _).
  apply resolve_templates_ok in Hr as (_ & Hnet & Htasks & _). apply egress_dns_ok in Hdns. apply hooks_dir_ok in Hhooks.
  intros nu ru b. exists r0. rewrite Hr0. split; [done|]. unfold b, assemble, plan_sni, plan_tcp in *.
  rewrite Hnet in *. fold nu in Hdns. cbv zeta.
  cbn [fp_bwrap fp_sni fp_allow fp_block fp_tcp fp_dns fp_tmp_dir fp_tasks fp_hooks_dir enable_runner resolv_conf hosts_file].
  destruct (kept_tasks (merged_tasks h (pc_repo c) (effective order1 h q u))) as (He & Hp & Hw & Hk).
  rewrite He, Hp, Hw. unfold merged_tasks at 1 2 3. cbn [dt_exact dt_prefixes dt_raw]. rewrite Htasks.
  split; [apply union_strings_elem|]. split; [apply union_strings_elem|]. split; [apply union_strings_elem|].
  split; [done|]. split; [|split].
  - rewrite <- no_names_no_channel. fold nu. destruct (_ || (0 <? size _)) eqn:Hch; [destruct Hdns as (-> & _) | rewrite Hdns]; done.
  - fold nu. destruct (_ || (0 <? size _)) eqn:Hch; [destruct Hdns as (-> & -> & ->) | by rewrite Hdns].
    split_and!; [done..|]. intros k. apply merge_lookup.
  - split_and!; try done. by rewrite has_tasks_elem.
Qed.
End lemmas.

(** * A concrete plan *)
Module Example_.
#[local] Instance lower : UnicodeCase := fun s => s.
#[local] Instance lib : TemplateLib := {| template_parse := fun _ => None; template_execute := fun _ _ => None |}.
#[local] Instance ranges {V} : MapRange V := map_range_default.
#[local] Instance ranges_laws {V} : @MapRangeLaws V ranges := map_range_default_laws.
(** The repository asks for two secrets, a domain, a port, a task, the weak
    flag [--share-net] and its own value of [KEG_LANDLOCK]; the user wants
    Landlock on. *)
Definition repo1 : repo :=
  Repo $"1" ∅ [] (RepoPaths [] [] []) (EnvSpec [] {[EnvLandlock := $"off"]} [$"TERM"] false) [$"--share-net"]
    [Mount $"/opt/data" $"/data" MountRW [] []] [SecretRef $"key" $"KEY_FILE"; SecretRef $"tok" []]
    [PortSpec $"web" $"127.0.0.1" 3000 8080 false] [] (Network [] (DNS false [] ∅) [$"github.com"] [] [] [])
    (DelegatedTasks [$"build"] [] [] ∅) [].
Definition user1 : user :=
  User empty_paths empty_runner ∅ None ∅ (Security None $"on" []) [] {[$"tok" := SecretSource [$"pass"] 0 0 [] false false]}
    [] {[$"key" := $"~/.key"]} [] empty_network (EnvSpec [] ∅ [$"LANG"] false) ∅.
Definition host1 : host :=
  Host (fun p => Some p) (fun p => Some p) (fun _ _ => true)
    (fun p => if seqb p $"/w/app/.keg.yaml" then Ok $"repo" else if seqb p $"/u.yaml" then Ok $"user" else Err NotExist)
    (fun _ => Decoded repo1) (fun _ => Decoded user1) [$"HOME=/home/me"] (Some $"/home/me") $"/tmp"
    (fun p => seqb p $"/home/me/.key") (fun _ => true) (fun _ => Some $"/tmp/keg-1") (fun _ => true)
    (fun _ => None) (fun _ => None) (fun _ _ => Some (TCPListener 40000))
    (World (fun _ => Some $"s3cret") (fun _ => None) (fun _ => true)) ∅.
Definition request1 : request := Request $"/w/app" [] $"/u.yaml" OverlayPlain [] OverlayPlain [] [] ∅.
Definition run1 : list effect * result plan_err (full_plan * user) :=
  build_plan ranges ranges host1 request1.
Definition plan1 : full_plan :=
  match snd run1 with Ok (p, _) => p | Err _ => assemble host1 request1 user1 (Pieces repo1 empty_env [] (SecretPlan [] [] [] (Ctx ∅ None)) [] [] (DnsPlan [] [] None) [] ∅ [] [] []) end.
Example trace1 : fst run1 =
  [AskTrust $"/w/app" $"/w/app/.keg.yaml"; ReadConfig $"/w/app/.keg.yaml"; ReadConfig $"/u.yaml"; MkdirAll $"/tmp";
   MkdirTemp $"/tmp"; FetchSecrets $"/tmp/keg-1/secrets" [SecretRef $"tok" []];
   WriteFile $"/tmp/keg-1/resolv.conf" resolv_conf_text; WriteFile $"/tmp/keg-1/hosts" (build_hosts_file ∅);
   Listen (r_ports repo1); MkdirAll $"/tmp/keg-1/hooks"].
Proof. vm_compute. reflexivity. Qed.
(** The mode that the plan reports is the user's, but the variable the guest
    reads it from carries the value of the repository. *)
Example repository_overrides_landlock :
  fp_landlock plan1 = $"on" /\ env_set_vars (fp_bwrap plan1) !! EnvLandlock = Some $"off".
Proof. vm_compute. split; reflexivity. Qed.
Lemma run1_ok : run1 = (fst run1, Ok (plan1, user1)).
Proof. vm_compute. reflexivity. Qed.
Lemma loaded1 :
  snd (load_repo host1 (config_path host1 request1) (negb (is_empty (q_repo_cfg request1)))) = Ok repo1.
Proof. vm_compute. reflexivity. Qed.
Lemma rendered1 :
  snd (resolve_templates repo1 (template_context host1 request1 repo1 (effective ranges host1 request1 user1)))
  = Ok repo1.
Proof. vm_compute. reflexivity. Qed.
Lemma repository_cannot_weaken_witness :
  run1 = (fst run1, Ok (plan1, user1)) /\ allow_weak_bwrap (u_security user1) <> Some true /\ fp_seccomp plan1 = $"auto" /\
  (exists l, build_args (fun _ => None) (fp_bwrap plan1) = Err (WeakArgs l) /\ l <> []) /\
  asks_no_env $"/opt/data".
Proof.
  pose proof run1_ok as H.
  assert (Ha : allow_weak_bwrap (u_security user1) <> Some true) by discriminate.
  destruct (repository_cannot_weaken ranges ranges host1 request1 _ _ _ (fun _ => None) H)
    as (_ & _ & Hs & _ & _ & Hw & r0 & r & H0 & _ & Hn & _).
  split; [exact H|]. split; [exact Ha|]. split; [exact Hs|]. split.
  - apply Hw; [|exact Ha]. left. exists $"--share-net". split; apply list_elem_of_here.
  - injection (eq_trans (eq_sym loaded1) H0) as <-. assert (Hu : u_allow_env user1 <> Some true) by discriminate.
    specialize (Hn Hu). apply Forall_app in Hn as [Hn _]. exact (Forall_inv Hn).
Defined.
Lemma plan_environment_witness :
  run1 = (fst run1, Ok (plan1, user1)) /\ $"TERM" ∈ env_inherit_vars (fp_bwrap plan1).
Proof.
  pose proof run1_ok as H.
  split; [exact H|].
  destruct (plan_environment ranges ranges host1 request1 _ _ _ H) as (r0 & r & tm & te & H0 & Hr & _ & _ & _ & Hin & _).
  injection (eq_trans (eq_sym loaded1) H0) as <-. injection (eq_trans (eq_sym rendered1) Hr) as <-.
  apply Hin. split; [|vm_compute; intros Hx; inversion Hx].
  eexists. split; [right; left | left].
Defined.
Lemma plan_secrets_witness :
  run1 = (fst run1, Ok (plan1, user1)) /\
  secret_path_binds (fp_bwrap plan1) = [SecretBind $"/home/me/.key" $"/run/secrets/key"] /\
  fp_secrets plan1 = [SecretRef $"tok" []].
Proof.
  pose proof run1_ok as H.
  split; [exact H|].
  destruct (plan_secrets ranges ranges host1 request1 _ _ _ H) as (r0 & r & H0 & Hr & _ & _ & Hb & Hf & _).
  injection (eq_trans (eq_sym loaded1) H0) as <-. rewrite Hb, Hf. unfold secret_needs. rewrite Hr.
  split; vm_compute; reflexivity.
Defined.
Lemma plan_channels_witness :
  run1 = (fst run1, Ok (plan1, user1)) /\ fp_dns plan1 <> None /\ enable_runner (fp_bwrap plan1) = true.
Proof.
  pose proof run1_ok as H.
  split; [exact H|].
  destruct (plan_channels ranges ranges host1 request1 _ _ _ H)
    as (r & H0 & Hs & _ & _ & _ & Hd & _ & He & _ & _ & Hrun & _).
  injection (eq_trans (eq_sym loaded1) H0) as <-. split.
  - rewrite Hd. intros [Hno _].
    assert (Hin : $"github.com" ∈ fp_sni plan1) by (apply Hs; left; left). rewrite Hno in Hin. inversion Hin.
  - apply Hrun. left. exists $"build". rewrite He. left.
Defined.
End Example_.
