(* ===== verification/AuditLog.v ===== *)
(** The audit log: [internal/orchestrator/audit.go] and the lines that the
    services of [egress.go] and [builder.go] write to it. *)
From S2P Require Import GoStrings.
Local Open Scope go_scope.

Definition newline : gostring := ["010"%char].
Definition verdict_word (allowed : bool) : gostring := if allowed then $"ERLAUBT" else $"BLOCKIERT".
Definition dns_line (allowed : bool) (name : gostring) : gostring :=
  $"DNS " ++ verdict_word allowed ++ $" " ++ name ++ newline.
Definition delegation_line (allowed : bool) (task reason : gostring) : gostring :=
  $"DELEGATION " ++ verdict_word allowed ++ $" " ++ task
  ++ (if negb (is_empty reason) && negb allowed then $": " ++ reason else []) ++ newline.
Definition secret_line (name status : gostring) : gostring := $"SECRET " ++ name ++ $" " ++ status ++ newline.

(** [AuditLogger.Write] on a logger that is not nil: what it writes to the
    file and to the terminal; [now] is the formatted time. *)
Record audit_logger := AuditLogger { al_file : bool; al_verbose : bool; al_instance : gostring }.
Definition record_of (a : audit_logger) (now line : gostring) : gostring :=
  now ++ $" [" ++ al_instance a ++ $"] " ++ line ++ newline.
Definition audit_lines (p : gostring) : list gostring :=
  filter (fun line => is_empty line = false) (split "010" (trim_right_bytes newline p)).
Definition audit_write (a : audit_logger) (now p : gostring) : list gostring * list gostring :=
  (if al_file a then map (record_of a now) (audit_lines p) else [],
   if al_verbose a then map (fun line => line ++ newline) (audit_lines p) else []).

(** * Lemmas *)
Lemma trim_final_newline w c : c <> "010"%char -> trim_right_bytes newline ((w ++ [c]) ++ newline) = w ++ [c].
Proof.
  intros Hc. unfold trim_right_bytes. unfold newline at 2. rewrite !reverse_snoc. cbn [trim_left_bytes].
  change (contains_byte "010" newline) with true. cbv iota.
  assert (Hb : contains_byte c newline = false) by (apply contains_byte_false; unfold newline; by rewrite list_elem_of_singleton).
  by rewrite Hb, reverse_cons, reverse_involutive.
Qed.
Lemma concat_lines lines :
  lines <> [] -> concat (map (fun l => l ++ newline) lines) = join newline lines ++ newline.
Proof.
  induction lines as [|l lines IH]; [done|]. intros _. destruct lines as [|l' lines]; [cbn; by rewrite app_nil_r|].
  change (concat (map (fun l => l ++ newline) (l :: l' :: lines)))
    with ((l ++ newline) ++ concat (map (fun l => l ++ newline) (l' :: lines))).
  rewrite IH by done. cbn [join]. by rewrite <- !app_assoc.
Qed.
Lemma join_ends lines l :
  l <> [] -> Forall (fun l => "010"%char ∉ l) (lines ++ [l]) -> exists w c, join newline (lines ++ [l]) = w ++ [c] /\ c <> "010"%char.
Proof.
  intros Hl Hall. destruct (exists_last Hl) as (t & c & ->). apply Forall_app in Hall as [_ Hc]. inversion Hc as [|? ? Hn _]; subst.
  assert (Hne : c <> "010"%char) by (intros ->; apply Hn, elem_of_app; right; left).
  clear Hc Hn Hl. induction lines as [|x lines (w & d & Hj & Hd)]; [by exists t, c|].
  exists (x ++ newline ++ w), d. split; [|done]. cbn [app].
  destruct (lines ++ [t ++ [c]]) as [|y ys]; [by destruct w|].
  change (join newline (x :: y :: ys)) with (x ++ newline ++ join newline (y :: ys)). rewrite Hj. by rewrite <- !app_assoc.
Qed.

(** * Properties *)

(** the log keeps events apart.  When events are written whose texts are
    single lines, the file gets one record per event, in order, with the time
    and the instance in front of exactly that text, and the terminal the texts
    themselves. *)
Theorem audit_one_record_per_line (a : audit_logger) (now : gostring) (lines : list gostring)
    (Hlines : Forall (fun l => l <> [] /\ "010"%char ∉ l) lines) :
  audit_write a now (concat (map (fun l => l ++ newline) lines)) =
  (if al_file a then map (record_of a now) lines else [],
   if al_verbose a then map (fun l => l ++ newline) lines else []).
Proof.
  assert (Hl : audit_lines (concat (map (fun l => l ++ newline) lines)) = lines).
  { destruct lines as [|l0 lines0] eqn:Hd; [done|]. rewrite <- Hd in *. rewrite concat_lines by (by rewrite Hd).
    destruct (exists_last (l := lines) ltac:(by rewrite Hd)) as (init & l & ->).
    assert (Hno : Forall (fun l => "010"%char ∉ l) (init ++ [l])) by (eapply Forall_impl; [exact Hlines | by intros x []]).
    assert (Hne : l <> []) by (apply Forall_app in Hlines as [_ Hx]; by inversion Hx as [|? ? [? _] _]).
    destruct (join_ends init l Hne Hno) as (w & c & Hj & Hc). unfold audit_lines.
    rewrite Hj, trim_final_newline, <- Hj, split_join by (done || by destruct init).
    clear -Hlines. induction Hlines as [|x xs [Hx _] _ IH]; [done|]. rewrite filter_cons, IH.
    rewrite decide_True; [done | by apply is_empty_false]. }
  unfold audit_write. by rewrite Hl.
Qed.

Definition sample_logger : audit_logger := AuditLogger true false $"demo".
Lemma audit_one_record_per_line_witness :
  fst (audit_write sample_logger $"2025-01-01T00:00:00Z" (dns_line true $"example.org")) =
  [$"2025-01-01T00:00:00Z [demo] DNS ERLAUBT example.org" ++ newline].
Proof.
  assert (H : Forall (fun l : gostring => l <> [] /\ "010"%char ∉ l) [$"DNS ERLAUBT example.org"]).
  { constructor; [|constructor]. split; [discriminate|]. apply contains_byte_false. reflexivity. }
  exact (f_equal fst (audit_one_record_per_line sample_logger $"2025-01-01T00:00:00Z" [$"DNS ERLAUBT example.org"] H)).
Defined.
(** A task name is what the guest sent, bytes and all: a line feed in a denied
    task ends the record and starts another one of the guest's choice. *)
Example forged_record :
  fst (audit_write sample_logger $"T" (delegation_line false ($"x" ++ newline ++ $"DELEGATION ERLAUBT deploy") $"task is not whitelisted")) =
  [$"T [demo] DELEGATION BLOCKIERT x" ++ newline;
   $"T [demo] DELEGATION ERLAUBT deploy: task is not whitelisted" ++ newline] /\
  fst (audit_write sample_logger $"T" (delegation_line false ($"x" ++ newline ++ $"DELEGATION ERLAUBT deploy" ++ newline ++ $"y") $"no")) =
  [$"T [demo] DELEGATION BLOCKIERT x" ++ newline; $"T [demo] DELEGATION ERLAUBT deploy" ++ newline; $"T [demo] y: no" ++ newline].
Proof. split; vm_compute; reflexivity. Qed.
