(* ===== verification/Services.v ===== *)
(** The services of a running sandbox: the [Sandbox] of
    [internal/orchestrator/launch.go] (its channels and [Close]), the [Start]
    functions of [egress.go] and [StartBackgroundServices] of [builder.go].

    A goroutine that serves a channel is a [service] with its configuration.
    The process of the sandbox may exit at any moment, and its monitor then
    closes the sandbox: [sb_death] is the number of times the mutex is taken
    before that happens, so every interleaving of the start-up with the exit
    is a value of it. *)
From S2P Require Import GoStrings GoPath GoNet ConfigTypes ConfigMerge Matcher Whitelist Justfile Templates Secrets BwrapArgs Ports PlanBuilder.
Local Open Scope go_scope.

(** * Plans *)
(** What the callers add to a plan before they launch it. *)
Record launch_plan := LaunchPlan {
  lp_plan : full_plan; lp_allow_all : bool; lp_audit : option nat }.
(** [AddNetworkCIDRsToPlan] on the lists of a plan. *)
Definition add_network_cidrs (lists : list gostring * list gostring) (allow block : list gostring)
  : result policy_err (list gostring * list gostring) :=
  _ ← new_network_policy allow block false;
  Ok (union_strings (fst lists) allow, union_strings (snd lists) block).

(** * The sandbox *)
Definition FDProxy : nat := 3.
Definition FDDNS : nat := 4.
Definition FDRunner : nat := 5.
Definition FDPorts : nat := 6.
Definition FDHostForward : nat := 7.
Definition FDPreserved : nat := 5.
Inductive channel := ChProxy | ChDNS | ChRunner | ChPorts | ChHosts | ChSecrets.
#[export] Instance channel_eq_dec : EqDecision channel.
Proof. solve_decision. Defined.
(** A writer of audit lines. *)
Inductive sink := Stderr | Writer (n : nat).
(** Listeners of port entries: bound before the launch, or by it. *)
Inductive port_listener := Prebound (i : nat) | Listening (i : nat).
#[export] Instance port_listener_eq_dec : EqDecision port_listener.
Proof. solve_decision. Defined.
Record proxy_cfg := ProxyCfg { px_sni : list gostring; px_policy : network_policy; px_upstream : gostring }.
(** [runner.ServerConfig] as it is built here, with the arguments of
    [trust.VerifyApproved] for its [ValidateTrust]. *)
Record runner_service := RunnerService {
  rs_engine : engine; rs_repo_root : gostring; rs_hooks_dir : gostring; rs_cfg_path : gostring }.
Inductive service :=
  | ServeDNS (cfg : dns_config) (policy : network_policy) (endpoints : list tcp_endpoint)
  | ServeProxy (cfg : proxy_cfg)
  | ForwardPort (ln : port_listener) (guest : Z)
  | ServeHosts (specs : list forward_host_spec)
  | ServeRunner (cfg : runner_service)
  | RefreshSecrets (refs : list secret_ref) (sources : gmap gostring secret_source) (dir : gostring) (ctx : context).
Record audits := Audits { au_dns : option sink; au_proxy : option sink; au_runner : option sink }.
(** [sb_ends]: the host ends by number, in channel order; [sb_gone]: the
    listeners that have been closed. *)
Record sandbox := Sandbox {
  sb_closed : bool; sb_ends : list nat; sb_listeners : list port_listener; sb_gone : list port_listener;
  sb_raw : option (list tcp_endpoint); sb_started : list channel; sb_audits : audits;
  sb_services : list service; sb_death : option nat }.
(** The sandbox of [start]: five channels, nothing running. *)
Definition new_sandbox (gone : list port_listener) (death : option nat) : sandbox :=
  Sandbox false (seq 0 FDPreserved) [] gone None [] (Audits None None None) [] death.
(** [Close]. *)
Definition close (s : sandbox) : sandbox :=
  if sb_closed s then s
  else Sandbox true [] [] (sb_gone s ++ sb_listeners s) (sb_raw s) (sb_started s) (sb_audits s) (sb_services s)
         (sb_death s).
Definition with_death (d : option nat) (s : sandbox) : sandbox :=
  Sandbox (sb_closed s) (sb_ends s) (sb_listeners s) (sb_gone s) (sb_raw s) (sb_started s) (sb_audits s)
    (sb_services s) d.
(** [closeMu.Lock], which the monitor's [Close] may get before us. *)
Definition acquire (s : sandbox) : sandbox :=
  match sb_death s with
  | None => s
  | Some O => with_death None (close s)
  | Some (S n) => with_death (Some n) s
  end.
Definition with_audits (f : audits -> audits) (s : sandbox) : sandbox :=
  Sandbox (sb_closed s) (sb_ends s) (sb_listeners s) (sb_gone s) (sb_raw s) (sb_started s) (f (sb_audits s))
    (sb_services s) (sb_death s).
Definition mark_started (c : channel) (s : sandbox) : sandbox :=
  Sandbox (sb_closed s) (sb_ends s) (sb_listeners s) (sb_gone s) (sb_raw s) (c :: sb_started s) (sb_audits s)
    (sb_services s) (sb_death s).
Definition with_raw (endpoints : list tcp_endpoint) (s : sandbox) : sandbox :=
  Sandbox (sb_closed s) (sb_ends s) (sb_listeners s) (sb_gone s) (Some endpoints) (sb_started s) (sb_audits s)
    (sb_services s) (sb_death s).
Definition with_listeners (live gone : list port_listener) (s : sandbox) : sandbox :=
  Sandbox (sb_closed s) (sb_ends s) live gone (sb_raw s) (sb_started s) (sb_audits s) (sb_services s) (sb_death s).
(** The [go] statement. *)
Definition spawn (v : service) (s : sandbox) : sandbox :=
  Sandbox (sb_closed s) (sb_ends s) (sb_listeners s) (sb_gone s) (sb_raw s) (sb_started s) (sb_audits s)
    (sb_services s ++ [v]) (sb_death s).

(** * Computations on a sandbox *)
Inductive svc_err :=
  | BadPolicy (e : policy_err)
  | NoChannel (fd : nat)
  | BindFailed (name : gostring)
  | BadWhitelist (e : engine_err).
Definition svc (A : Type) : Type := sandbox -> sandbox * result svc_err A.
#[export] Instance svc_ret : MRet svc := fun A a s => (s, Ok a).
#[export] Instance svc_bind : MBind svc := fun A B f m s =>
  match m s with
  | (s, Ok a) => f a s
  | (s, Err e) => (s, Err e)
  end.
Definition modify (f : sandbox -> sandbox) : svc unit := fun s => (f s, Ok tt).
Definition svc_fails {A} (e : svc_err) : svc A := fun s => (s, Err e).
Definition svc_lift {E A} (f : E -> svc_err) (m : result E A) : svc A := fun s => (s, map_err f m).
Definition is_closed : svc bool := fun s => let s := acquire s in (s, Ok (sb_closed s)).
(** [Channel]: the host end of a descriptor of the guest. *)
Definition channel_end (fd : nat) : svc (option nat) := fun s =>
  let s := acquire s in
  (s, Ok (if fd <? FDProxy then None else sb_ends s !! (fd - FDProxy))).
(** How every [Start] function begins: under the mutex it notes the audit
    sink, returns when the sandbox is closed or the channel was started (or
    [skip] holds), and sets the flag; without a channel it fails unless the
    sandbox was closed meanwhile.  [None]: return without an error. *)
Definition open_channel (c : channel) (fd : nat) (note : audits -> audits) (skip : bool) : svc (option nat) :=
  ready ← (fun s =>
    let s := with_audits note (acquire s) in
    if sb_closed s || bool_decide (c ∈ sb_started s) || skip then (s, Ok false)
    else (mark_started c s, Ok true));
  if negb ready then mret None
  else
    file ← channel_end fd;
    match file with
    | Some f => mret (Some f)
    | None => closed ← is_closed; if (closed : bool) then mret None else svc_fails (NoChannel fd)
    end.
Definition note_dns (a : option sink) (au : audits) : audits :=
  match a with Some _ => Audits a (au_proxy au) (au_runner au) | None => au end.
Definition note_proxy (a : option sink) (au : audits) : audits :=
  match a with Some _ => Audits (au_dns au) a (au_runner au) | None => au end.
Definition note_runner (a : option sink) (au : audits) : audits :=
  match a with Some _ => Audits (au_dns au) (au_proxy au) a | None => au end.

Section services.
Context `{UnicodeCase, Regexp}.
(** [bind i ip port]: the listener of the [i]-th entry could be bound. *)
Context (fs : filesystem) (bind : nat -> gostring -> Z -> bool).

Definition start_egress_dns (cfg : dns_config) (policy : network_policy) (audit : option sink)
    (endpoints : list tcp_endpoint) : svc unit :=
  file ← open_channel ChDNS FDDNS (note_dns audit) false;
  match file with
  | None => mret tt
  | Some _ =>
      _ ← modify (fun s => with_raw endpoints (acquire s));
      modify (spawn (ServeDNS cfg policy endpoints))
  end.
Definition start_egress_proxy (cfg : proxy_cfg) (audit : option sink) : svc unit :=
  file ← open_channel ChProxy FDProxy (note_proxy audit) false;
  match file with
  | None => mret tt
  | Some _ => modify (spawn (ServeProxy cfg))
  end.
(** The listener of an entry, bound now unless it is already. *)
Definition listener_of (i : nat) (p : resolved_port) : svc port_listener :=
  if rp_bound p then mret (Prebound i)
  else if bind i (or_else (rp_host_ip p) $"127.0.0.1") (rp_host_port p) then mret (Listening i)
  else
    _ ← modify (fun s => let s := acquire s in with_listeners [] (sb_gone s ++ sb_listeners s) s);
    svc_fails (BindFailed (rp_name p)).
Fixpoint ports_loop (i : nat) (ports : list resolved_port) : svc unit :=
  match ports with
  | [] => mret tt
  | p :: rest =>
      ln ← listener_of i p;
      stop ← (fun s =>
        let s := acquire s in
        if sb_closed s then (with_listeners (sb_listeners s) (sb_gone s ++ [ln]) s, Ok true)
        else (with_listeners (sb_listeners s ++ [ln]) (sb_gone s) s, Ok false));
      if (stop : bool) then mret tt
      else _ ← modify (spawn (ForwardPort ln (rp_guest p))); ports_loop (S i) rest
  end.
Definition start_ports_forward (ports : list resolved_port) : svc unit :=
  file ← open_channel ChPorts FDPorts (fun a => a) false;
  match file with
  | None => mret tt
  | Some _ => ports_loop 0 ports
  end.
Definition start_host_forward (specs : list forward_host_spec) : svc unit :=
  file ← open_channel ChHosts FDHostForward (fun a => a) (length specs =? 0);
  match file with
  | None => mret tt
  | Some _ => modify (spawn (ServeHosts specs))
  end.
Definition start_runner (cfg : runner_service) (audit : option sink) : svc unit :=
  file ← open_channel ChRunner FDRunner (note_runner audit) false;
  match file with
  | None => mret tt
  | Some _ => modify (spawn (ServeRunner cfg))
  end.
(** The refresher does not look at [closed]: its context ends it. *)
Definition start_secrets (p : full_plan) : svc unit := fun s =>
  let s := acquire s in
  if bool_decide (ChSecrets ∈ sb_started s) then (s, Ok tt)
  else (spawn (RefreshSecrets (fp_secrets p) (fp_sources p) (secret_dir (fp_bwrap p)) (fp_secret_ctx p))
          (mark_started ChSecrets s), Ok tt).

(** ** StartBackgroundServices *)
Definition runner_cfg_for (p : full_plan) (who : option user) : runner_cfg :=
  match who with
  | Some u =>
      let c := u_runner u in
      if negb (is_empty (rc_just_bin c)) || (0 <? length (rc_exact c)) || (0 <? length (rc_prefixes c))
         || (0 <? length (rc_raw c))
      then c else fp_runner p
  | None => fp_runner p
  end.
Definition fallback_descriptions (root : gostring) : strmap := default ∅ (discover_justfile_descriptions fs root).
Definition runner_service_for (p : full_plan) (who : option user) : result engine_err runner_service :=
  e ← new_engine (fp_tasks p) (runner_cfg_for p who);
  let root := repo_root (fp_bwrap p) in
  Ok (RunnerService (set_fallback e (fallback_descriptions root)) root (fp_hooks_dir p)
        (or_else (fp_repo_cfg p) (path_join root $".keg.yaml"))).
Definition wants_runner (p : full_plan) : bool := enable_runner (fp_bwrap p) && has_tasks (fp_tasks p).
Definition wants_proxy (p : full_plan) : bool := (0 <? length (fp_sni p)) || (0 <? length (fp_tcp p)).
Definition wants_secrets (p : full_plan) : bool :=
  (0 <? length (secret_dir (fp_bwrap p))) && (0 <? length (fp_secrets p)).
Definition proxy_cfg_for (p : full_plan) (policy : network_policy) : proxy_cfg :=
  ProxyCfg (fp_sni p) policy (fp_upstream_proxy p).
Definition when_ (b : bool) (m : svc unit) : svc unit := if b then m else mret tt.
Definition start_background_services (lp : launch_plan) (who : option user) (writer : option nat) : svc unit :=
  let p := lp_plan lp in
  closed ← is_closed;
  if (closed : bool) then mret tt
  else
    let aw := Writer <$> match writer with Some w => Some w | None => lp_audit lp end in
    policy ← svc_lift BadPolicy (new_network_policy (fp_allow p) (fp_block p) (lp_allow_all lp));
    _ ← match fp_dns p with
        | Some cfg => start_egress_dns cfg policy aw (fp_tcp p)
        | None => mret tt
        end;
    _ ← when_ (wants_proxy p) (start_egress_proxy (proxy_cfg_for p policy) (Some (default Stderr aw)));
    _ ← when_ (0 <? length (fp_ports p)) (start_ports_forward (fp_ports p));
    _ ← when_ (0 <? length (fp_forward p)) (start_host_forward (fp_forward p));
    _ ← (if wants_runner p
         then cfg ← svc_lift BadWhitelist (runner_service_for p who); start_runner cfg aw
         else mret tt);
    when_ (wants_secrets p) (start_secrets p).
End services.

(** * Invariants under every interleaving *)
Lemma svc_bind_eq {A B} (m : svc A) (f : A -> svc B) s :
  (m ≫= f) s = match m s with (s, Ok a) => f a s | (s, Err e) => (s, Err e) end.
Proof. reflexivity. Qed.
(** What holds whenever the mutex is free: an open sandbox has its channels, a
    closed one has nothing left, a listener that is forwarded is released when
    the sandbox closes, and what runs satisfies [P]. *)
Record ok_state (P : service -> Prop) (s : sandbox) : Prop := {
  ok_open : sb_closed s = false -> sb_ends s = seq 0 FDPreserved;
  ok_closed : sb_closed s = true -> sb_ends s = [] /\ sb_listeners s = [];
  ok_forwards : forall ln guest, ForwardPort ln guest ∈ sb_services s -> ln ∈ sb_listeners s \/ ln ∈ sb_gone s;
  ok_running : Forall P (sb_services s) }.
(** [m] preserves that, and does not fail for want of a channel. *)
Definition keeps {A} (P : service -> Prop) (m : svc A) : Prop :=
  forall s, ok_state P s -> ok_state P (fst (m s)) /\ forall fd, snd (m s) <> Err (NoChannel fd).

Section keeps.
Context (P : service -> Prop).
Lemma close_ok s : ok_state P s -> ok_state P (close s).
Proof.
  intros Hs. unfold close. destruct (sb_closed s) eqn:Hc; [done|]. destruct Hs as [Ho _ Hf Hr]. split; cbn; try done.
  intros ln g Hin. right. apply elem_of_app. destruct (Hf _ _ Hin); tauto.
Qed.
Lemma acquire_ok s : ok_state P s -> ok_state P (acquire s).
Proof.
  intros Hs. unfold acquire. destruct (sb_death s) as [[|n]|]; [|by destruct Hs; split..|done].
  pose proof (close_ok _ Hs) as []. by split.
Qed.
Lemma acquire_services s : sb_services (acquire s) = sb_services s.
Proof. unfold acquire, close. destruct (sb_death s) as [[|n]|]; cbn; [by destruct (sb_closed s) | done..]. Qed.
Lemma acquire_closed s : sb_closed s = true -> sb_closed (acquire s) = true.
Proof. unfold acquire, close. intros Hc. destruct (sb_death s) as [[|n]|]; cbn; rewrite ?Hc; done. Qed.
Lemma keeps_ret {A} (a : A) : keeps P (mret a : svc A).
Proof. intros s Hs. by split. Qed.
Lemma keeps_bind {A B} (m : svc A) (f : A -> svc B) : keeps P m -> (forall a, keeps P (f a)) -> keeps P (m ≫= f).
Proof.
  intros Hm Hf s Hs. destruct (Hm s Hs) as [Hs' Hno]. unfold mbind, svc_bind. destruct (m s) as [s' [a|e]]; cbn in *; [by apply Hf|].
  split; [done|]. intros fd [= ->]. by apply (Hno fd).
Qed.
Lemma keeps_lift {E A B} (c : E -> svc_err) (m : result E A) (f : A -> svc B) :
  (forall e fd, c e <> NoChannel fd) -> (forall a, m = Ok a -> keeps P (f a)) -> keeps P (svc_lift c m ≫= f).
Proof.
  intros Hc Hf s Hs. unfold mbind, svc_bind, svc_lift. destruct m as [a|e]; cbn; [by apply Hf|]. split; [done|]. intros fd [= Hx]. by apply (Hc e fd).
Qed.
Lemma keeps_when b m : (b = true -> keeps P m) -> keeps P (when_ b m).
Proof. destruct b; [auto | intros _; apply keeps_ret]. Qed.
Lemma keeps_is_closed : keeps P is_closed.
Proof. intros s Hs. split; [by apply acquire_ok | done]. Qed.
Lemma keeps_spawn v : (forall ln g, v <> ForwardPort ln g) -> P v -> keeps P (modify (spawn v)).
Proof.
  intros Hv HP s []. split; [|done]. split; cbn; [done..| |by apply Forall_app; split; [|constructor]].
  intros ln g Hin. apply elem_of_app in Hin as [Hin|Hin%list_elem_of_singleton]; [eauto | by destruct (Hv ln g)].
Qed.
Lemma keeps_open_channel c fd note skip :
  FDProxy <= fd < FDProxy + FDPreserved -> keeps P (open_channel c fd note skip).
Proof.
  intros Hfd s Hs. unfold open_channel, mbind, svc_bind, channel_end, is_closed. cbv zeta.
  set (s0 := with_audits note (acquire s)).
  assert (Ha : ok_state P s0) by (pose proof (acquire_ok _ Hs) as []; by split).
  destruct (sb_closed s0 || _ || skip); cbn [negb fst snd]; [by split|]. set (s1 := acquire (mark_started c s0)).
  assert (H1 : ok_state P s1) by (apply acquire_ok; destruct Ha; by split).
  assert (Hlt : (fd <? FDProxy) = false) by (apply Nat.ltb_ge; lia). rewrite Hlt.
  destruct (sb_ends s1 !! (fd - FDProxy)) as [f|] eqn:Hf; cbn [negb fst snd]; [by split|].
  assert (Hc : sb_closed s1 = true).
  { apply not_false_iff_true. intros Hc. rewrite (ok_open _ _ H1 Hc) in Hf.
    apply lookup_ge_None in Hf. rewrite length_seq in Hf. unfold FDProxy, FDPreserved in *. lia. }
  rewrite (acquire_closed _ Hc). cbn [fst snd]. split; [by apply acquire_ok | done].
Qed.
(** Where the flag is set nothing happens. *)
Lemma open_channel_started c fd note skip s :
  c ∈ sb_started s -> exists s', open_channel c fd note skip s = (s', Ok None) /\ sb_services s' = sb_services s /\
    sb_started s' = sb_started s.
Proof.
  intros Hc. unfold open_channel, mbind, svc_bind. cbv zeta.
  assert (Hst : sb_started (acquire s) = sb_started s).
  { unfold acquire, close. destruct (sb_death s) as [[|n]|]; cbn; [by destruct (sb_closed s) | done..]. }
  rewrite bool_decide_true by (cbn; by rewrite Hst). rewrite orb_true_r. cbn.
  eexists. split; [reflexivity|]. cbn. by rewrite acquire_services, Hst.
Qed.
End keeps.

Section starts.
Context `{UnicodeCase, Regexp} (fs : filesystem) (bind : nat -> gostring -> Z -> bool).
(** What a plan asks for. *)
Definition listener_for (i : nat) (p : resolved_port) : port_listener := if rp_bound p then Prebound i else Listening i.
Definition policy_of (lp : launch_plan) : result policy_err network_policy :=
  new_network_policy (fp_allow (lp_plan lp)) (fp_block (lp_plan lp)) (lp_allow_all lp).
Definition service_of (lp : launch_plan) (who : option user) (v : service) : Prop :=
  let p := lp_plan lp in
  match v with
  | ServeDNS cfg policy eps => fp_dns p = Some cfg /\ policy_of lp = Ok policy /\ eps = fp_tcp p
  | ServeProxy cfg => wants_proxy p = true /\ exists policy, policy_of lp = Ok policy /\ cfg = proxy_cfg_for p policy
  | ForwardPort ln guest => exists i rp, fp_ports p !! i = Some rp /\ ln = listener_for i rp /\ guest = rp_guest rp
  | ServeHosts specs => specs <> [] /\ specs = fp_forward p
  | ServeRunner cfg => wants_runner p = true /\ runner_service_for fs p who = Ok cfg
  | RefreshSecrets refs sources dir ctx =>
      wants_secrets p = true /\ refs = fp_secrets p /\ sources = fp_sources p /\ dir = secret_dir (fp_bwrap p) /\
      ctx = fp_secret_ctx p
  end.
Lemma keeps_listener P i p : keeps P (listener_of bind i p).
Proof.
  unfold listener_of. destruct (rp_bound p); [apply keeps_ret|]. destruct (bind _ _ _); [apply keeps_ret|].
  intros s Hs. pose proof (acquire_ok _ _ Hs) as [Ho Hc Hf Hr]. split; [|done].
  split; cbn; [done | by intros [He _]%Hc | | done]. intros ln g Hin. right. apply elem_of_app. destruct (Hf _ _ Hin); tauto.
Qed.
Lemma listener_of_ok i p s s' ln : listener_of bind i p s = (s', Ok ln) -> ln = listener_for i p /\ s' = s.
Proof.
  unfold listener_of, listener_for. destruct (rp_bound p); [by intros [= <- <-]|].
  destruct (bind _ _ _); [by intros [= <- <-] | done].
Qed.
Lemma keeps_ports P ports i :
  (forall j rp, ports !! j = Some rp -> P (ForwardPort (listener_for (i + j) rp) (rp_guest rp))) ->
  keeps P (ports_loop bind i ports).
Proof.
  revert i. induction ports as [|p ports IH]; intros i HP; [apply keeps_ret|]. intros s Hs. cbn [ports_loop].
  rewrite svc_bind_eq. pose proof (keeps_listener P i p s Hs) as [H1 Hno1].
  destruct (listener_of bind i p s) as [s1 [ln|e]] eqn:Hl; [|split; [done|]; by intros fd [= ->]; apply (Hno1 fd)].
  apply listener_of_ok in Hl as [-> _]. rewrite svc_bind_eq.
  pose proof (acquire_ok _ _ H1) as H2. cbn [fst snd] in *. set (s2 := acquire s1) in *. destruct H2 as [Ho Hc Hf Hr].
  destruct (sb_closed s2) eqn:Hcl.
  { cbn. split; [|done]. split; cbn; try done; [by rewrite Hcl|by intros _; apply Hc|].
    intros ln g Hin. destruct (Hf _ _ Hin); [by left | right; apply elem_of_app; by left]. }
  rewrite svc_bind_eq. apply IH; [intros j rp Hj; rewrite Nat.add_succ_comm; by apply (HP (S j))|].
  split; cbn; [intros _; by apply Ho | by rewrite Hcl | |].
  - intros ln g Hin. apply elem_of_app in Hin as [Hin|Hin%list_elem_of_singleton].
    + destruct (Hf _ _ Hin); [left; apply elem_of_app; by left | by right].
    + injection Hin as -> _. left. apply elem_of_app. right. by left.
  - apply Forall_app; split; [done|]. constructor; [|done]. rewrite <- (Nat.add_0_r i). by apply (HP 0).
Qed.
Lemma keeps_start P c fd note skip (m : svc unit) :
  FDProxy <= fd < FDProxy + FDPreserved -> (skip = false -> keeps P m) ->
  keeps P (file ← open_channel c fd note skip; match file with None => mret tt | Some _ => m end).
Proof.
  intros Hfd Hm. destruct skip.
  - intros s Hs. unfold open_channel, mbind, svc_bind. cbv zeta. rewrite orb_true_r. cbn [negb fst snd].
    pose proof (acquire_ok _ _ Hs) as []. split; [by split | done].
  - apply keeps_bind; [by apply keeps_open_channel|]. intros [f|]; [by apply Hm | apply keeps_ret].
Qed.
Lemma start_keeps (P : service -> Prop) lp who writer :
  (forall v, service_of lp who v -> P v) -> keeps P (start_background_services fs bind lp who writer).
Proof.
  intros HP. unfold start_background_services. apply keeps_bind; [apply keeps_is_closed|]. intros []; [apply keeps_ret|].
  apply keeps_lift; [done|]. intros policy Hpol. set (p := lp_plan lp) in *.
  apply keeps_bind; [|intros _; apply keeps_bind; [|intros _; apply keeps_bind; [|intros _; apply keeps_bind;
    [|intros _; apply keeps_bind; [|intros _]]]]].
  - destruct (fp_dns p) as [cfg|] eqn:Hd; [|apply keeps_ret]. apply keeps_start; [unfold FDProxy, FDDNS, FDPreserved; lia|].
    intros _. apply keeps_bind; [|intros _; by apply keeps_spawn; [|apply HP]].
    intros s Hs. pose proof (acquire_ok _ _ Hs) as []. split; [by split | done].
  - apply keeps_when. intros Hw. apply keeps_start; [unfold FDProxy, FDPreserved; lia|]. intros _. apply keeps_spawn; [done|].
    apply HP. split; [done | by exists policy].
  - apply keeps_when. intros _. apply keeps_start; [unfold FDProxy, FDPorts, FDPreserved; lia|]. intros _.
    apply keeps_ports. intros j rp Hj. apply HP. by exists j, rp.
  - apply keeps_when. intros _. apply keeps_start; [unfold FDProxy, FDHostForward, FDPreserved; lia|]. intros Hn.
    apply keeps_spawn; [done|]. apply HP. split; [|done]. by intros Hnil; rewrite Hnil in Hn.
  - destruct (wants_runner p) eqn:Hw; [|apply keeps_ret]. apply keeps_lift; [done|]. intros cfg Hcfg.
    apply keeps_start; [unfold FDProxy, FDRunner, FDPreserved; lia|]. intros _. apply keeps_spawn; [done | by apply HP].
  - apply keeps_when. intros Hw s Hs. unfold start_secrets. pose proof (acquire_ok _ _ Hs) as Ha.
    destruct (bool_decide _); [by split|]. apply (keeps_spawn _ _); [done | by apply HP |]. by destruct Ha; split.
Qed.

Lemma new_sandbox_ok P gone death : ok_state P (new_sandbox gone death).
Proof. split; [done | done | by intros ? ? ?%not_elem_of_nil | constructor]. Qed.
Lemma started_service lp who writer gone death v :
  v ∈ sb_services (fst (start_background_services fs bind lp who writer (new_sandbox gone death))) -> service_of lp who v.
Proof.
  destruct (start_keeps (service_of lp who) lp who writer (fun _ Hv => Hv) _ (new_sandbox_ok _ gone death)) as [Hs _].
  apply ok_running in Hs. rewrite Forall_forall in Hs. apply Hs.
Qed.

(** * The start without an exit *)
(** The entries that are forwarded, and the first that cannot be bound. *)
Fixpoint forwarded_ports (i : nat) (ports : list resolved_port) : list service * option gostring :=
  match ports with
  | [] => ([], None)
  | p :: rest =>
      if rp_bound p || bind i (or_else (rp_host_ip p) $"127.0.0.1") (rp_host_port p) then
        let '(l, failed) := forwarded_ports (S i) rest in
        (ForwardPort (listener_for i p) (rp_guest p) :: l, failed)
      else ([], Some (rp_name p))
  end.
Definition if_list {A} (b : bool) (x : A) : list A := if b then [x] else [].
(** What runs in the end, in the order in which it was started, and how the
    start ends. *)
Definition planned (lp : launch_plan) (who : option user) : list service * result svc_err unit :=
  let p := lp_plan lp in
  match policy_of lp with
  | Err e => ([], Err (BadPolicy e))
  | Ok policy =>
      let egress := (match fp_dns p with Some cfg => [ServeDNS cfg policy (fp_tcp p)] | None => [] end)
                    ++ if_list (wants_proxy p) (ServeProxy (proxy_cfg_for p policy)) in
      let '(ports, failed) := forwarded_ports 0 (fp_ports p) in
      match failed with
      | Some name => (egress ++ ports, Err (BindFailed name))
      | None =>
          let hosts := if_list (0 <? length (fp_forward p)) (ServeHosts (fp_forward p)) in
          let secrets := if_list (wants_secrets p)
            (RefreshSecrets (fp_secrets p) (fp_sources p) (secret_dir (fp_bwrap p)) (fp_secret_ctx p)) in
          if wants_runner p then
            match runner_service_for fs p who with
            | Err e => (egress ++ ports ++ hosts, Err (BadWhitelist e))
            | Ok cfg => (egress ++ ports ++ hosts ++ [ServeRunner cfg] ++ secrets, Ok tt)
            end
          else (egress ++ ports ++ hosts ++ secrets, Ok tt)
      end
  end.
(** The sandbox after some services have been started. *)
Record up (s : sandbox) (services : list service) (started : list channel) : Prop := {
  up_open : sb_closed s = false; up_ends : sb_ends s = seq 0 FDPreserved; up_death : sb_death s = None;
  up_services : sb_services s = services; up_started : sb_started s = started }.
Lemma acquire_up s l c : up s l c -> acquire s = s.
Proof. intros []. unfold acquire. by rewrite up_death0. Qed.
Lemma open_channel_up c fd note s l cs :
  FDProxy <= fd < FDProxy + FDPreserved -> up s l cs -> c ∉ cs ->
  exists s' f, open_channel c fd note false s = (s', Ok (Some f)) /\ up s' l (c :: cs).
Proof.
  intros Hfd Hs Hc. pose proof (acquire_up _ _ _ Hs) as Ha. destruct Hs as [Ho He Hd Hl Hst].
  unfold open_channel. rewrite svc_bind_eq. cbv zeta. rewrite Ha. cbn [sb_closed with_audits sb_started]. rewrite Ho, Hst.
  rewrite bool_decide_false by done. cbn [orb negb]. rewrite svc_bind_eq. unfold channel_end. cbv zeta.
  set (s1 := mark_started c _). assert (Ha1 : acquire s1 = s1) by (unfold acquire; cbn; by rewrite Hd). rewrite Ha1.
  assert (Hlt : (fd <? FDProxy) = false) by (apply Nat.ltb_ge; lia). rewrite Hlt. cbn [sb_ends s1 mark_started with_audits].
  rewrite He. rewrite lookup_seq_lt by lia. eexists _, _. split; [reflexivity|]. split; cbn; try done. by rewrite Hst.
Qed.
Lemma spawn_up s l cs v : up s l cs -> up (spawn v s) (l ++ [v]) cs.
Proof. intros []. split; cbn; try done. by rewrite up_services0. Qed.
(** One channel served by one goroutine. *)
Lemma serve_up c fd note (f : sandbox -> sandbox) v s l cs :
  FDProxy <= fd < FDProxy + FDPreserved -> up s l cs -> c ∉ cs -> (forall s l cs, up s l cs -> up (f s) l cs) ->
  exists s', (file ← open_channel c fd note false;
              match file with None => mret tt | Some _ => _ ← modify f; modify (spawn v) end) s = (s', Ok tt) /\
    up s' (l ++ [v]) (c :: cs).
Proof.
  intros Hfd Hs Hc Hf. destruct (open_channel_up c fd note s l cs Hfd Hs Hc) as (s1 & e & Ho & H1).
  rewrite svc_bind_eq, Ho. eexists. split; [reflexivity|]. by apply spawn_up, Hf.
Qed.
Lemma listener_of_bound i p s :
  rp_bound p || bind i (or_else (rp_host_ip p) $"127.0.0.1") (rp_host_port p) = true ->
  listener_of bind i p s = (s, Ok (listener_for i p)).
Proof. unfold listener_of, listener_for. destruct (rp_bound p); [done|]. cbn [orb]. by intros ->. Qed.
Lemma ports_loop_up ports i s l cs :
  up s l cs -> exists s', up s' (l ++ fst (forwarded_ports i ports)) cs /\
    ports_loop bind i ports s = (s', match snd (forwarded_ports i ports) with
                                     | Some name => Err (BindFailed name) | None => Ok tt end).
Proof.
  revert i s l. induction ports as [|p ports IH]; intros i s l Hs; cbn [ports_loop forwarded_ports].
  { exists s. cbn. by rewrite app_nil_r. }
  rewrite svc_bind_eq. destruct (rp_bound p || bind i _ _) eqn:Hb.
  - rewrite (listener_of_bound i p s Hb), svc_bind_eq. cbv zeta. rewrite (acquire_up _ _ _ Hs), (up_open _ _ _ Hs), svc_bind_eq.
    set (s1 := with_listeners _ _ s). assert (H1 : up s1 l cs) by (destruct Hs; by split).
    destruct (IH (S i) _ _ (spawn_up _ _ _ (ForwardPort (listener_for i p) (rp_guest p)) H1)) as (s' & H' & Heq).
    exists s'. unfold modify. rewrite Heq. destruct (forwarded_ports (S i) ports). cbn in *. by rewrite <- app_assoc in H'.
  - unfold listener_of. apply orb_false_iff in Hb as [-> Hb]. rewrite Hb, svc_bind_eq. unfold modify, svc_fails. eexists. split; [|reflexivity].
    cbn. rewrite app_nil_r, (acquire_up _ _ _ Hs). destruct Hs. by split.
Qed.
Lemma when_serve_up (b : bool) c fd note (m : svc unit) v s l cs :
  FDProxy <= fd < FDProxy + FDPreserved -> up s l cs -> c ∉ cs ->
  (b = true -> exists f, (forall s l cs, up s l cs -> up (f s) l cs) /\
     m = (file ← open_channel c fd note false;
          match file with None => mret tt | Some _ => _ ← modify f; modify (spawn v) end)) ->
  exists s', when_ b m s = (s', Ok tt) /\ up s' (l ++ if_list b v) (if_list b c ++ cs).
Proof.
  intros Hfd Hs Hc Hm. destruct b; cbn [when_ if_list].
  - destruct (Hm eq_refl) as (f & Hf & ->). by apply serve_up.
  - exists s. by rewrite app_nil_r.
Qed.
Lemma ports_up p s l cs :
  up s l cs -> ChPorts ∉ cs ->
  exists s', up s' (l ++ fst (forwarded_ports 0 (fp_ports p))) (if_list (0 <? length (fp_ports p)) ChPorts ++ cs) /\
    when_ (0 <? length (fp_ports p)) (start_ports_forward bind (fp_ports p)) s =
    (s', match snd (forwarded_ports 0 (fp_ports p)) with Some name => Err (BindFailed name) | None => Ok tt end).
Proof.
  intros Hs Hc. destruct (0 <? length (fp_ports p)) eqn:Hl; cbn [when_ if_list].
  - unfold start_ports_forward. destruct (open_channel_up ChPorts FDPorts (fun a => a) s l cs) as (s1 & e & Ho & H1);
      [unfold FDProxy, FDPorts, FDPreserved; lia | done..|].
    rewrite svc_bind_eq, Ho. destruct (ports_loop_up (fp_ports p) 0 _ _ _ H1) as (s' & ? & ?). by exists s'.
  - exists s. destruct (fp_ports p); [|done]. cbn. by rewrite app_nil_r.
Qed.
Lemma keep_up : forall s l cs, up s l cs -> up s l cs. Proof. done. Qed.
Lemma dns_up p policy aw s l cs :
  up s l cs -> ChDNS ∉ cs ->
  exists s', (match fp_dns p with Some cfg => start_egress_dns cfg policy aw (fp_tcp p) | None => mret tt end) s = (s', Ok tt) /\
    up s' (l ++ match fp_dns p with Some cfg => [ServeDNS cfg policy (fp_tcp p)] | None => [] end)
       (if_list (is_some (fp_dns p)) ChDNS ++ cs).
Proof.
  intros Hs Hc. destruct (fp_dns p) as [cfg|]; cbn [is_some if_list app]; [|exists s; by rewrite app_nil_r].
  apply serve_up; [unfold FDProxy, FDDNS, FDPreserved; lia | done..|].
  intros s1 l1 c1 H1. rewrite (acquire_up _ _ _ H1). destruct H1. by split.
Qed.
Lemma secrets_up p s l cs :
  up s l cs -> ChSecrets ∉ cs ->
  exists s', when_ (wants_secrets p) (start_secrets p) s = (s', Ok tt) /\
    up s' (l ++ if_list (wants_secrets p)
               (RefreshSecrets (fp_secrets p) (fp_sources p) (secret_dir (fp_bwrap p)) (fp_secret_ctx p)))
       (if_list (wants_secrets p) ChSecrets ++ cs).
Proof.
  intros Hs Hc. destruct (wants_secrets p); cbn [when_ if_list app]; [|exists s; by rewrite app_nil_r].
  unfold start_secrets. rewrite (acquire_up _ _ _ Hs), (up_started _ _ _ Hs), bool_decide_false by done.
  eexists. split; [reflexivity|]. destruct Hs. split; cbn -[seq]; congruence.
Qed.
Ltac in_no_list := unfold if_list; repeat case_match; set_solver.
Lemma start_planned lp who writer gone :
  exists s' cs, start_background_services fs bind lp who writer (new_sandbox gone None) = (s', snd (planned lp who)) /\
    up s' (fst (planned lp who)) cs /\
    (is_ok (snd (planned lp who)) ->
     cs = if_list (wants_secrets (lp_plan lp)) ChSecrets ++ if_list (wants_runner (lp_plan lp)) ChRunner
          ++ if_list (0 <? length (fp_forward (lp_plan lp))) ChHosts ++ if_list (0 <? length (fp_ports (lp_plan lp))) ChPorts
          ++ if_list (wants_proxy (lp_plan lp)) ChProxy ++ if_list (is_some (fp_dns (lp_plan lp))) ChDNS).
Proof.
  assert (Hup : up (new_sandbox gone None) [] []) by done.
  unfold start_background_services. rewrite svc_bind_eq. unfold is_closed at 1. cbv zeta.
  change (acquire (new_sandbox gone None)) with (new_sandbox gone None). cbn [sb_closed new_sandbox].
  set (s0 := new_sandbox gone None) in *. set (p := lp_plan lp). set (aw := Writer <$> _). unfold planned. fold p.
  rewrite svc_bind_eq. unfold svc_lift at 1.
  change (new_network_policy (fp_allow p) (fp_block p) (lp_allow_all lp)) with (policy_of lp).
  destruct (policy_of lp) as [policy|e]; cbn [map_err]; [|by exists s0, []].
  destruct (dns_up p policy aw _ _ _ Hup) as (s1 & E1 & H1); [set_solver|]. rewrite svc_bind_eq, E1.
  rewrite app_nil_r in H1. cbn [app] in H1.
  destruct (when_serve_up (wants_proxy p) ChProxy FDProxy (note_proxy (Some (default Stderr aw)))
    (start_egress_proxy (proxy_cfg_for p policy) (Some (default Stderr aw))) (ServeProxy (proxy_cfg_for p policy)) s1 _ _
    ltac:(unfold FDProxy, FDPreserved; lia) H1 ltac:(in_no_list)) as (s2 & E2 & H2).
  { intros _. exists (fun s => s). split; [done | reflexivity]. }
  rewrite svc_bind_eq, E2.
  destruct (ports_up p _ _ _ H2) as (s3 & H3 & E3); [in_no_list|]. rewrite svc_bind_eq, E3.
  rewrite <- app_assoc in H3. cbn [app] in H3. destruct (forwarded_ports 0 (fp_ports p)) as [ports [name|]].
  { cbn [fst snd] in *. rewrite <- app_assoc. exists s3. eexists. by split. }
  cbn [fst snd] in H3. destruct (when_serve_up (0 <? length (fp_forward p)) ChHosts FDHostForward (fun a => a)
    (start_host_forward (fp_forward p)) (ServeHosts (fp_forward p)) s3 _ _
    ltac:(unfold FDProxy, FDHostForward, FDPreserved; lia) H3 ltac:(in_no_list)) as (s4 & E4 & H4).
  { intros Hl. exists (fun s => s). split; [done|]. unfold start_host_forward.
    replace (length (fp_forward p) =? 0) with false; [reflexivity|]. by destruct (fp_forward p). }
  rewrite svc_bind_eq, E4, svc_bind_eq. destruct (wants_runner p) eqn:Hr.
  - rewrite svc_bind_eq. unfold svc_lift at 1. destruct (runner_service_for fs p who) as [cfg|e]; cbn [map_err].
    + destruct (when_serve_up true ChRunner FDRunner (note_runner aw) (start_runner cfg aw) (ServeRunner cfg) s4 _ _
        ltac:(unfold FDProxy, FDRunner, FDPreserved; lia) H4 ltac:(in_no_list)) as (s5 & E5 & H5).
      { intros _. exists (fun s => s). split; [done | reflexivity]. }
      cbn [when_] in E5. rewrite E5. destruct (secrets_up p _ _ _ H5) as (s6 & E6 & H6); [in_no_list|].
      rewrite E6. exists s6. eexists. split; [reflexivity|]. cbn [fst snd]. split; [|done].
      by rewrite <- !app_assoc in H6; rewrite <- !app_assoc.
    + rewrite <- !app_assoc in H4. match type of H4 with up _ _ ?cs => exists s4, cs end. split; [reflexivity|].
      cbn [fst snd]. split; [|done]. by rewrite <- !app_assoc.
  - destruct (secrets_up p _ _ _ H4) as (s6 & E6 & H6); [in_no_list|].
    cbv [mret svc_ret]. rewrite E6. exists s6. eexists. split; [reflexivity|]. cbn [fst snd]. split; [|done].
    by rewrite <- !app_assoc in H6; rewrite <- !app_assoc.
Qed.

(** * Starting again *)
(** On a sandbox whose wanted channels are all started, [m] starts nothing and
    can only fail with an error in [E]. *)
Definition ready (p : full_plan) (s : sandbox) : Prop :=
  (is_some (fp_dns p) = true -> ChDNS ∈ sb_started s) /\ (wants_proxy p = true -> ChProxy ∈ sb_started s) /\
  ((0 <? length (fp_ports p)) = true -> ChPorts ∈ sb_started s) /\
  ((0 <? length (fp_forward p)) = true -> ChHosts ∈ sb_started s) /\
  (wants_runner p = true -> ChRunner ∈ sb_started s) /\ (wants_secrets p = true -> ChSecrets ∈ sb_started s).
Definition idle (p : full_plan) {A} (E : svc_err -> Prop) (m : svc A) : Prop :=
  forall s, ready p s -> ready p (fst (m s)) /\ sb_services (fst (m s)) = sb_services s /\
    forall e, snd (m s) = Err e -> E e.
Lemma idle_bind p {A B} E (m : svc A) (f : A -> svc B) : idle p E m -> (forall a, idle p E (f a)) -> idle p E (m ≫= f).
Proof.
  intros Hm Hf s Hs. rewrite svc_bind_eq. destruct (Hm s Hs) as (Hr & Hl & He). destruct (m s) as [s' [a|e]]; cbn in *.
  - destruct (Hf a s' Hr) as (? & Hl' & ?). split_and!; [done | by rewrite Hl' | done].
  - split_and!; [done..|]. intros e' [= <-]. by apply He.
Qed.
Lemma idle_ret p {A} E (a : A) : idle p E (mret a : svc A).
Proof. by intros s Hs. Qed.
Lemma idle_when p E b m : (b = true -> idle p E m) -> idle p E (when_ b m).
Proof. destruct b; [auto | intros _; apply idle_ret]. Qed.
Lemma idle_channel p E c fd note skip (m : nat -> svc unit) :
  (forall s, ready p s -> c ∈ sb_started s) ->
  idle p E (file ← open_channel c fd note skip; match file with None => mret tt | Some f => m f end).
Proof.
  intros Hc s Hs. rewrite svc_bind_eq.
  destruct (open_channel_started c fd note skip s (Hc s Hs)) as (s' & -> & Hl & Hst). cbn. unfold ready. by rewrite Hst.
Qed.
Lemma acquire_started s : sb_started (acquire s) = sb_started s.
Proof. unfold acquire, close. destruct (sb_death s) as [[|n]|]; cbn; [by destruct (sb_closed s) | done..]. Qed.
Lemma idle_is_closed p E : idle p E is_closed.
Proof. intros s Hs. cbn. unfold ready. rewrite acquire_services. by rewrite acquire_started. Qed.
Lemma idle_start lp who writer policy :
  policy_of lp = Ok policy ->
  idle (lp_plan lp) (fun e => exists e', e = BadWhitelist e' /\ runner_service_for fs (lp_plan lp) who = Err e')
    (start_background_services fs bind lp who writer).
Proof.
  intros Hpol. unfold start_background_services. apply idle_bind; [apply idle_is_closed|]. intros []; [apply idle_ret|].
  apply idle_bind; [intros s Hs; cbn; fold (policy_of lp); by rewrite Hpol|]. intros pol.
  apply idle_bind; [|intros _; apply idle_bind; [|intros _; apply idle_bind; [|intros _; apply idle_bind;
    [|intros _; apply idle_bind; [|intros _]]]]].
  - destruct (fp_dns _) as [cfg|] eqn:Hd; [|apply idle_ret]. apply idle_channel. intros s (Hx & _). apply Hx. by rewrite Hd.
  - apply idle_when. intros Hw. apply idle_channel. intros s (_ & Hx & _). by apply Hx.
  - apply idle_when. intros Hw. apply idle_channel. intros s (_ & _ & Hx & _). by apply Hx.
  - apply idle_when. intros Hw. apply idle_channel. intros s (_ & _ & _ & Hx & _). by apply Hx.
  - destruct (wants_runner _) eqn:Hw; [|apply idle_ret]. apply idle_bind.
    + intros s Hs. unfold svc_lift. destruct (runner_service_for _ _ _) as [c|e']; [done|]. split_and!; [done..|].
      intros e [= <-]. by exists e'.
    + intros cfg. apply idle_channel. intros s (_ & _ & _ & _ & Hx & _). by apply Hx.
  - apply idle_when. intros Hw s Hs. unfold start_secrets. rewrite bool_decide_true
      by (rewrite acquire_started; by apply Hs). cbn. unfold ready. rewrite acquire_services. by rewrite acquire_started.
Qed.

(** * Properties *)

(** C21: starting the services as an abstract sequence.  On a fresh sandbox
    that does not exit meanwhile, the start ends as [planned] says: nothing is
    started when a network list is malformed; otherwise the resolver, the
    proxy, one forwarder per port up to the first that cannot be bound, the
    host forwards, the delegation server (unless its whitelist is refused) and
    the secret refresher, each exactly once and only if the plan asks for it,
    and the sandbox is still open. *)
Theorem services_start_as_planned (lp : launch_plan) (who : option user) (writer : option nat)
    (gone : list port_listener) :
  let '(s, r) := start_background_services fs bind lp who writer (new_sandbox gone None) in
  r = snd (planned lp who) /\ sb_services s = fst (planned lp who) /\ sb_closed s = false.
Proof. destruct (start_planned lp who writer gone) as (s & cs & -> & [] & _). by split_and!. Qed.

(** C10: the start under every interleaving with the exit of the sandbox.
    Whenever the monitor closes the sandbox, the start never fails for want of
    a channel; everything it started is a service of the plan with the plan's
    policy; when the sandbox is closed its channels are, and every listener
    that was being forwarded is released by the time it has been closed. *)
Theorem services_within_plan (lp : launch_plan) (who : option user) (writer : option nat)
    (gone : list port_listener) (death : option nat) :
  let '(s, r) := start_background_services fs bind lp who writer (new_sandbox gone death) in
  (forall fd, r <> Err (NoChannel fd)) /\
  Forall (service_of lp who) (sb_services s) /\
  (sb_closed s = true -> sb_ends s = [] /\ sb_listeners s = []) /\
  (forall ln guest, ForwardPort ln guest ∈ sb_services s -> ln ∈ sb_gone (close s)).
Proof.
  destruct (start_keeps (service_of lp who) lp who writer (fun _ Hv => Hv) _ (new_sandbox_ok _ gone death)) as [Hs Hno].
  destruct (start_background_services fs bind lp who writer (new_sandbox gone death)) as [s r]. cbn [fst snd] in *.
  split_and!; [done | by destruct Hs | by destruct Hs |]. intros ln g Hin.
  assert (Hcl : sb_listeners (close s) = []).
  { unfold close. destruct (sb_closed s) eqn:Hc; [by apply (ok_closed _ _ Hs) | done]. }
  assert (Hin' : ForwardPort ln g ∈ sb_services (close s)) by (unfold close; by destruct (sb_closed s)).
  pose proof (ok_forwards _ _ (close_ok _ _ Hs) _ _ Hin') as [Hx|Hx]; [|done]. rewrite Hcl in Hx. by apply not_elem_of_nil in Hx.
Qed.

(** a second start.  [Launch] starts the services, and its callers start
    them again with the user's configuration: whatever they pass, and whenever
    the sandbox exits, nothing is started or replaced by then, and the only
    possible error is that the whitelist of the other configuration is
    malformed. *)
Theorem second_start_starts_nothing (lp : launch_plan) (who who2 : option user) (writer writer2 : option nat)
    (gone : list port_listener) (s : sandbox) (death : option nat)
    (Hfirst : start_background_services fs bind lp who writer (new_sandbox gone None) = (s, Ok tt)) :
  let '(s2, r) := start_background_services fs bind lp who2 writer2 (with_death death s) in
  sb_services s2 = sb_services s /\
  forall e, r = Err e -> exists e', e = BadWhitelist e' /\ runner_service_for fs (lp_plan lp) who2 = Err e'.
Proof.
  destruct (start_planned lp who writer gone) as (s' & cs & Hs & Hup & Hcs). rewrite Hfirst in Hs.
  injection Hs as -> Hok. rewrite <- Hok in Hcs.
  assert (Hpol : exists policy, policy_of lp = Ok policy).
  { unfold planned in Hok. destruct (policy_of lp); [by eexists | done]. }
  destruct Hpol as [policy Hpol].
  assert (Hready : ready (lp_plan lp) (with_death death s')).
  { unfold ready. cbn [sb_started with_death]. rewrite (up_started _ _ _ Hup), Hcs by done.
    unfold if_list. split_and!; intros ->; set_solver. }
  destruct (idle_start lp who2 writer2 policy Hpol _ Hready) as (_ & Hl & He).
  by destruct (start_background_services fs bind lp who2 writer2 (with_death death s')).
Qed.
End starts.
(** Started twice: whatever becomes of the sandbox between the starts and during
    the second, what runs is what the first one planned. *)
Lemma services_twice `{UnicodeCase, Regexp} fs bind bind2 lp who who2 writer writer2 gone death s0 s :
  start_background_services fs bind lp who writer (new_sandbox gone None) = (s0, Ok tt) -> s = s0 \/ s = close s0 ->
  sb_services (fst (start_background_services fs bind2 lp who2 writer2 (with_death death s))) = fst (planned fs bind lp who).
Proof.
  intros Hfirst Hs. destruct (start_planned fs bind lp who writer gone) as (s' & cs & Hp & Hup & Hcs). rewrite Hfirst in Hp.
  injection Hp as <- Hok. rewrite <- Hok in Hcs.
  assert (Hpol : exists policy, policy_of lp = Ok policy).
  { unfold planned in Hok. destruct (policy_of lp); [by eexists | done]. }
  destruct Hpol as [policy Hpol].
  assert (Hsame : sb_started s = sb_started s0 /\ sb_services s = sb_services s0).
  { destruct Hs as [-> | ->]; [done|]. unfold close. by destruct (sb_closed s0). }
  destruct Hsame as [Hst Hsv].
  assert (Hready : ready (lp_plan lp) (with_death death s)).
  { unfold ready. cbn [sb_started with_death]. rewrite Hst, (up_started _ _ _ Hup), Hcs by done.
    unfold if_list. split_and!; intros ->; set_solver. }
  destruct (idle_start fs bind2 lp who2 writer2 policy Hpol _ Hready) as (_ & Hl & _). rewrite Hl. cbn [sb_services with_death].
  rewrite Hsv. by apply Hup.
Qed.

(** * A concrete start *)
Module Example_.
#[local] Existing Instance PlanBuilder.Example_.lower.
#[local] Instance regexps : Regexp := {| regexp_ok := fun _ => true; regexp_match := fun re a => contains a re |}.
Definition lp0 : launch_plan := LaunchPlan PlanBuilder.Example_.plan1 false None.
Definition first0 : sandbox * result svc_err unit :=
  start_background_services ∅ (fun _ _ _ => true) lp0 None None (new_sandbox [] None).
(** A user who asks for another [just] and for more tasks: the runner that
    [Launch] started stays as it is. *)
Definition user0 : user :=
  let u := PlanBuilder.Example_.user1 in
  User (u_paths u) (RunnerCfg $"/opt/just" [$"deploy"] [] [] ∅) (u_vars u) (u_allow_env u) (u_vars_from_exec u) (u_security u)
    (u_audit_file u) (u_secret_sources u) (u_inject_needs u) (u_secrets u) (u_mounts u) (u_network u) (u_env u) (u_repos u).
Lemma second_start_starts_nothing_witness :
  first0 = (fst first0, Ok tt) /\
  sb_services (fst (start_background_services ∅ (fun _ _ _ => true) lp0 (Some user0) (Some 7) (with_death (Some 2) (fst first0))))
  = sb_services (fst first0).
Proof.
  assert (H : first0 = (fst first0, Ok tt)) by (vm_compute; reflexivity). split; [exact H|].
  pose proof (second_start_starts_nothing ∅ (fun _ _ _ => true) lp0 None (Some user0) None (Some 7) [] (fst first0) (Some 2)) as Hx.
  specialize (Hx H).
  destruct (start_background_services ∅ (fun _ _ _ => true) lp0 (Some user0) (Some 7) (with_death (Some 2) (fst first0)))
    as [s r].
  exact (proj1 Hx).
Defined.
(** The second port cannot be bound: the first is no longer forwarded, and
    what comes after the ports is not started. *)
Definition two_ports : full_plan :=
  let p := PlanBuilder.Example_.plan1 in
  FullPlan (fp_bwrap p) (fp_repo_cfg p) (fp_tmp_dir p) (fp_instance p) (fp_sni p) (fp_allow p) (fp_block p) (fp_tcp p) (fp_dns p)
    (fp_transparent p) [ResolvedPort $"a" [] 3000 8080 false; ResolvedPort $"b" [] 3001 80 false] (fp_forward p) (fp_tasks p)
    (fp_runner p) (fp_hooks_dir p) (fp_audit_file p) (fp_upstream_proxy p) (fp_secrets p) (fp_sources p) (fp_secret_ctx p)
    (fp_landlock p) (fp_seccomp p).
Example bind_failure :
  let '(s, r) := start_background_services ∅ (fun _ _ port => (1023 <? port)%Z) (LaunchPlan two_ports false None) None None
                   (new_sandbox [] None) in
  r = Err (BindFailed $"b") /\ sb_gone s = [Listening 0] /\ sb_listeners s = [] /\
  drop 2 (sb_services s) = [ForwardPort (Listening 0) 3000].
Proof. vm_compute. by split_and!. Qed.
End Example_.
