(* ===== verification/Transparent.v ===== *)
(** The transparent mode of the network stage: [transparent.go] and
    [origdst.go] of [internal/orchestrator].

    [ruleset_text] is the rule set that is handed to nft, and [nat_out] and
    [postrouting] what its rules do to a packet; [handle_transparent] is the
    dispatch of one redirected connection, [relay_connect] its CONNECT over the
    channel.  A connection is the list of the segments that its reads see. *)
From S2P Require Import GoStrings GoNet Sni Matcher ProxyServer.
Local Open Scope go_scope.

(** * The rule set *)
Definition relay_port : Z := 7443.
Inductive nat_rule := ReturnLoopback | RedirectDNS | RedirectTCP (port : Z).
(** The rules of the [natout] chain, in order. *)
Definition nat_rules (ports : list Z) : list nat_rule :=
  [ReturnLoopback; RedirectDNS] ++ map RedirectTCP ports
  ++ (if existsb (Z.eqb 443) ports then [] else [RedirectTCP 443]).
Definition nl : gostring := ["010"%char].
(** [rulesetReader]. *)
Definition ruleset_head : gostring :=
  $"table ip keg {" ++ nl ++ $"  chain natout {" ++ nl ++ $"    type nat hook output priority dstnat; policy accept;".
Definition return_text : gostring := nl ++ $"    ip daddr 127.0.0.0/8 return".
Definition dns_text : gostring := nl ++ $"    udp dport 53 redirect to :53".
Definition tcp_text (port : gostring) : gostring := nl ++ $"    tcp dport " ++ port ++ $" redirect to :7443".
Definition ruleset_tail : gostring :=
  nl ++ $"  }" ++ nl ++ $"  chain postr {" ++ nl
  ++ $"    type filter hook postrouting priority srcnat; policy accept;" ++ nl
  ++ $"    ip daddr 127.0.0.0/8 accept" ++ nl ++ $"    ct state established,related accept" ++ nl
  ++ $"    drop" ++ nl ++ $"  }" ++ nl ++ $"}" ++ nl.
Definition ruleset_text (ports : list Z) : gostring :=
  ruleset_head ++ return_text ++ dns_text ++ concat (map (fun port => tcp_text (itoa port)) ports)
  ++ (if negb (existsb (Z.eqb 443) ports) then tcp_text $"443" else []) ++ ruleset_tail.
(** What the rules say: the first packet of a flow, or one of a flow that is
    established. *)
Inductive protocol := TCP | UDP | OtherProtocol.
Record packet := Packet { pk_protocol : protocol; pk_daddr : list Z; pk_dport : Z; pk_established : bool }.
Definition is_loopback4 (a : list Z) : bool := match a with b :: _ => (b =? 127)%Z | [] => false end.
Definition redirected (to : Z) (pk : packet) : packet :=
  Packet (pk_protocol pk) [127; 0; 0; 1]%Z to (pk_established pk).
Fixpoint nat_chain (rules : list nat_rule) (pk : packet) : packet :=
  match rules with
  | [] => pk
  | ReturnLoopback :: rules => if is_loopback4 (pk_daddr pk) then pk else nat_chain rules pk
  | RedirectDNS :: rules =>
      match pk_protocol pk with
      | UDP => if (pk_dport pk =? 53)%Z then redirected 53 pk else nat_chain rules pk
      | _ => nat_chain rules pk
      end
  | RedirectTCP port :: rules =>
      match pk_protocol pk with
      | TCP => if (pk_dport pk =? port)%Z then redirected relay_port pk else nat_chain rules pk
      | _ => nat_chain rules pk
      end
  end.
(** The chains are of a [table ip]: only IPv4 packets traverse them. *)
Definition in_table (pk : packet) : bool := length (pk_daddr pk) =? 4.
Definition nat_out (rules : list nat_rule) (pk : packet) : packet := if in_table pk then nat_chain rules pk else pk.
Definition postrouting (pk : packet) : bool :=
  if in_table pk then is_loopback4 (pk_daddr pk) || pk_established pk else true.
(** Where the first packet of a flow ends up. *)
Definition delivered (ports : list Z) (pk : packet) : option packet :=
  let pk := nat_out (nat_rules ports) pk in
  if postrouting pk then Some pk else None.

(** * The destination before the redirection *)
Definition AF_INET : Z := 2.
(** [little]: the byte order of the machine. *)
Definition parse_original_dest (little : bool) (sa : gostring) : option (ip * Z) :=
  match sa with
  | f0 :: f1 :: p0 :: p1 :: a0 :: a1 :: a2 :: a3 :: _ =>
      let family := if little then be16 f1 f0 else be16 f0 f1 in
      if negb (family =? AF_INET)%Z then None
      else
        let port := be16 p0 p1 in
        let addr := map byteZ [a0; a1; a2; a3] in
        if (port =? 0)%Z || forallb (Z.eqb 0) addr then None else Some (addr, port)
  | _ => None
  end.

(** [originalDest]: a connection that is not TCP, or whose descriptor cannot be
    used, or that the kernel knows no destination of, has none. *)
Inductive nat_answer := NotTCP | NoRawConn | ControlFailed | NoEntry | SockAddr (sa : gostring).
Definition original_dest (little : bool) (a : nat_answer) : option (ip * Z) :=
  match a with SockAddr sa => parse_original_dest little sa | _ => None end.
(** [OutboundIPv4]: the local address of a UDP socket that is connected to
    8.8.8.8, [None] when it cannot be. *)
Definition outbound_ipv4 (local : option ip) : option gostring :=
  match local with
  | None => None
  | Some a => match to4 a with
              | None => None
              | Some v4 => if forallb (Z.eqb 0) v4 then None else Some (ip_string v4)
              end
  end.

(** * Dispatch *)
Definition sniff_size : nat := 16384.
(** One read of at most [cap] bytes; after the last segment it fails. *)
Definition read (cap : nat) (segs : list gostring) : gostring * bool * list gostring :=
  match segs with
  | [] => ([], true, [])
  | s :: rest => if cap <? length s then (take cap s, false, drop cap s :: rest) else (s, false, rest)
  end.
(** What is done with a connection: nothing, or a CONNECT, with the bytes that
    were read and the segments that are still to come. *)
Inductive dispatched :=
  | Dropped
  | Relayed (host : gostring) (port : Z) (prefix : gostring) (rest : list gostring).
(** The loop over the reads of a ClientHello; [failed] is the error of the
    last read.  [None]: the fuel did not suffice, or the parser panicked. *)
Fixpoint hello_loop (fuel : nat) (dst : option (ip * Z)) (buf : gostring) (failed : bool) (segs : list gostring)
  : option dispatched :=
  match fuel with
  | O => None
  | S f =>
      r ← parse_sni buf;
      match r with
      | Some sni => Some (Relayed sni (match dst with Some (_, port) => port | None => 443 end) buf segs)
      | None =>
          if failed || (length buf =? sniff_size) then Some Dropped
          else let '(b, failed, segs) := read (sniff_size - length buf) segs in
               hello_loop f dst (buf ++ b) failed segs
      end
  end.
(** [silent]: nothing arrived within the sniff timeout. *)
Definition handle_transparent (dst : option (ip * Z)) (silent : bool) (segs : list gostring) : option dispatched :=
  let '(buf, failed, rest) := if silent then ([], true, segs) else read sniff_size segs in
  match buf with
  | [] => Some Dropped
  | b0 :: _ =>
      if (byteZ b0 =? 22)%Z then hello_loop (2 + length rest) dst buf failed rest
      else match dst with
           | None => Some Dropped
           | Some (a, port) => Some (Relayed (ip_string a) port buf rest)
           end
  end.

(** [serveTransparent]: every accepted connection is dispatched by a goroutine
    of its own, until the listener is closed ([None]). *)
Record redirected_conn := RedirectedConn { rc_dest : nat_answer; rc_silent : bool; rc_segments : list gostring }.
Fixpoint serve_transparent (little : bool) (accepts : list (option redirected_conn)) : list (option dispatched) :=
  match accepts with
  | Some c :: accepts =>
      handle_transparent (original_dest little (rc_dest c)) (rc_silent c) (rc_segments c) :: serve_transparent little accepts
  | _ => []
  end.

(** * The CONNECT *)
Definition crlf : gostring := ["013"%char; "010"%char].
Definition relay_target (host : gostring) (port : Z) : gostring := host ++ $":" ++ itoa port.
Definition relay_request (host : gostring) (port : Z) : gostring :=
  $"CONNECT " ++ relay_target host port ++ $" HTTP/1.1" ++ crlf ++ $"Host: " ++ relay_target host port ++ crlf ++ crlf.
Definition accepted (status : gostring) : bool :=
  negb (length status <? 12) && match status !! 9 with Some c => Ascii.eqb c "2" | None => false end.
(** [relayCONNECT], with a stream that could be opened and written to:
    [replies] are the segments the proxy sends.  The result is what the
    connection and the stream carry. *)
Record relayed := RelayedBytes { to_stream : gostring; to_client : gostring }.
Definition relay_connect (host : gostring) (port : Z) (prefix : gostring) (rest : list gostring) (replies : list gostring)
  : relayed :=
  let '(status, failed, replies) := read 512 replies in
  if failed || negb (accepted status) then RelayedBytes (relay_request host port) []
  else RelayedBytes (relay_request host port ++ prefix ++ concat rest) (concat replies).

(** * Lemmas *)
(** What counts as the destination is an IPv4 address and a port, neither of
    them zero. *)
Lemma original_dest_sound little a d port :
  original_dest little a = Some (d, port) -> length d = 4 /\ forallb (Z.eqb 0) d = false /\ (0 < port < 65536)%Z.
Proof.
  destruct a as [| | | |sa]; try done. cbn [original_dest]. unfold parse_original_dest.
  destruct sa as [|f0 [|f1 [|p0 [|p1 [|a0 [|a1 [|a2 [|a3 sa]]]]]]]]; try done.
  destruct (negb _); [done|]. destruct (_ || _) eqn:Hz; [done|]. apply orb_false_iff in Hz as [Hp Ha].
  intros Heq. assert (Hd : map byteZ [a0; a1; a2; a3] = d) by congruence. assert (Hport : be16 p0 p1 = port) by congruence.
  subst d port. apply Z.eqb_neq in Hp. pose proof (be16_bound p0 p1). split; [done|]. split; [done|]. lia.
Qed.
Lemma read_concat cap segs b failed rest :
  read cap segs = (b, failed, rest) ->
  b ++ concat rest = concat segs /\ length b <= cap /\ (failed = true -> rest = []) /\
  (failed = false -> length b = cap \/ length rest < length segs).
Proof.
  unfold read. destruct segs as [|s segs]; [by intros [= <- <- <-]; cbn; split_and!; [|lia| |]|].
  destruct (cap <? length s) eqn:Hc; intros [= <- <- <-]; breflect; cbn.
  - split_and!; [by rewrite app_assoc, take_drop | rewrite length_take; lia | done | intros _; left; rewrite length_take; lia].
  - split_and!; [done | lia | done | intros _; right; lia].
Qed.
Definition hello_port (dst : option (ip * Z)) : Z := match dst with Some (_, port) => port | None => 443 end.
(** What the loop returns is decided by the first [sniff_size] bytes. *)
Lemma hello_loop_spec fuel dst buf failed segs :
  length buf <= sniff_size -> (failed = true -> segs = []) ->
  (2 + length segs <= fuel \/ ((failed = true \/ length buf = sniff_size) /\ 1 <= fuel)) ->
  exists r, hello_loop fuel dst buf failed segs = Some r /\
  match parse_sni (take sniff_size (buf ++ concat segs)) with
  | Some (Some h) => exists prefix rest, r = Relayed h (hello_port dst) prefix rest /\
                       prefix ++ concat rest = buf ++ concat segs /\ length prefix <= sniff_size
  | _ => r = Dropped
  end.
Proof.
  revert buf failed segs. induction fuel as [|f IH]; intros buf failed segs Hl Hf Hfuel; [lia|]. cbn [hello_loop].
  destruct (parse_sni_total_aux buf) as [[h|] Hp]; rewrite Hp; cbn [mbind option_bind].
  { eexists. split; [reflexivity|]. rewrite take_app_ge by done. rewrite (parse_sni_app _ _ _ Hp). by exists buf, segs. }
  assert (Hend : take sniff_size (buf ++ concat segs) = buf ->
    exists r, Some Dropped = Some r /\
    match parse_sni (take sniff_size (buf ++ concat segs)) with
    | Some (Some h) => exists prefix rest, r = Relayed h (hello_port dst) prefix rest /\
                         prefix ++ concat rest = buf ++ concat segs /\ length prefix <= sniff_size
    | _ => r = Dropped
    end) by (intros ->; rewrite Hp; by eexists).
  destruct failed; cbn [orb].
  { apply Hend. rewrite Hf by done. cbn [concat]. rewrite app_nil_r, take_ge; [done | lia]. }
  destruct (length buf =? sniff_size) eqn:Hfull; breflect.
  { apply Hend. by rewrite <- Hfull, take_app_length. }
  destruct (read (sniff_size - length buf) segs) as [[b failed] rest] eqn:Hr.
  apply read_concat in Hr as (Hc & Hlb & Hfail & Hdone). rewrite <- Hc, app_assoc. apply IH.
  - rewrite length_app. lia.
  - exact Hfail.
  - destruct failed; [right; split; [by left | lia]|]. destruct (Hdone eq_refl) as [Hb|Hb]; [|left; lia].
    right. split; [right; rewrite length_app; lia | lia].
Qed.
(** The rules in the text are the rules. *)
Definition rule_text (r : nat_rule) : gostring :=
  match r with ReturnLoopback => return_text | RedirectDNS => dns_text | RedirectTCP port => tcp_text (itoa port) end.
Lemma ruleset_text_rules ports :
  ruleset_text ports = ruleset_head ++ concat (map rule_text (nat_rules ports)) ++ ruleset_tail.
Proof.
  unfold ruleset_text, nat_rules. rewrite !map_app, map_map. cbn [map app concat rule_text]. rewrite concat_app, <- !app_assoc.
  do 4 f_equal. by destruct (existsb (Z.eqb 443) ports).
Qed.
Lemma nat_chain_tcp rules pk :
  pk_protocol pk = TCP ->
  nat_chain (map RedirectTCP rules) pk = if existsb (Z.eqb (pk_dport pk)) rules then redirected relay_port pk else pk.
Proof.
  intros Hp. induction rules as [|r rules IH]; cbn; [done|]. rewrite Hp. destruct (pk_dport pk =? r)%Z; cbn; [done | apply IH].
Qed.
Lemma nat_chain_other rules pk : pk_protocol pk <> TCP -> nat_chain (map RedirectTCP rules) pk = pk.
Proof. intros Hp. induction rules as [|r rules IH]; cbn; [done|]. by destruct (pk_protocol pk). Qed.
Lemma nat_rules_tcp ports :
  exists tcp, nat_rules ports = [ReturnLoopback; RedirectDNS] ++ map RedirectTCP tcp /\
    forall p, existsb (Z.eqb p) tcp = true <-> p = 443%Z \/ p ∈ ports.
Proof.
  unfold nat_rules. destruct (existsb (Z.eqb 443) ports) eqn:H443.
  - exists ports. rewrite app_nil_r. split; [done|]. intros p. rewrite existsb_exists. setoid_rewrite <- list_elem_of_In. split.
    + intros (x & Hx & ->%Z.eqb_eq). by right.
    + intros [->|Hp]; [|by exists p; rewrite Z.eqb_refl]. apply existsb_exists in H443 as (x & Hx & ->%Z.eqb_eq).
      exists x. by rewrite list_elem_of_In, Z.eqb_refl.
  - exists (ports ++ [443%Z]). rewrite map_app. split; [done|]. intros p. rewrite existsb_exists. setoid_rewrite <- list_elem_of_In. split.
    + intros (x & [Hx| ->%list_elem_of_singleton]%elem_of_app & ->%Z.eqb_eq); tauto.
    + intros Hp. exists p. rewrite Z.eqb_refl, elem_of_app, list_elem_of_singleton. tauto.
Qed.

(** * Properties *)

(** C22: where a new IPv4 flow of the sandbox can go in transparent mode.  The
    text given to nft is that of the rules; they deliver the first packet of an
    IPv4 flow only to the loopback: unchanged if that is where it was sent, to
    the resolver if it was UDP to port 53, to the relay if it was TCP to port
    443 or to a port of a TCP endpoint; every other IPv4 packet to another host
    is dropped.  The table is of the family ip, so it leaves IPv6 packets as
    they are, whatever their destination and port. *)
Theorem new_flows_confined (ports : list Z) (pk : packet) (Hnew : pk_established pk = false) :
  ruleset_text ports = ruleset_head ++ concat (map rule_text (nat_rules ports)) ++ ruleset_tail /\
  (length (pk_daddr pk) = 4 ->
     delivered ports pk =
       (if is_loopback4 (pk_daddr pk) then Some pk
        else match pk_protocol pk with
             | UDP => if (pk_dport pk =? 53)%Z then Some (redirected 53 pk) else None
             | TCP => if bool_decide (pk_dport pk = 443%Z \/ pk_dport pk ∈ ports) then Some (redirected relay_port pk) else None
             | OtherProtocol => None
             end) /\
     forall pk', delivered ports pk = Some pk' -> is_loopback4 (pk_daddr pk') = true) /\
  (length (pk_daddr pk) = 16 -> delivered ports pk = Some pk).
Proof.
  split; [apply ruleset_text_rules|]. split.
  2: { intros H6. assert (Ht : in_table pk = false) by (unfold in_table; by rewrite H6).
       unfold delivered, nat_out, postrouting. by rewrite !Ht. }
  intros H4. assert (Ht : in_table pk = true) by (unfold in_table; by rewrite H4).
  assert (Hd : delivered ports pk =
       (if is_loopback4 (pk_daddr pk) then Some pk
        else match pk_protocol pk with
             | UDP => if (pk_dport pk =? 53)%Z then Some (redirected 53 pk) else None
             | TCP => if bool_decide (pk_dport pk = 443%Z \/ pk_dport pk ∈ ports) then Some (redirected relay_port pk) else None
             | OtherProtocol => None
             end)).
  { unfold delivered, postrouting, nat_out. rewrite !Ht. destruct (nat_rules_tcp ports) as (tcp & -> & Htcp). cbn [app nat_chain].
    destruct (is_loopback4 (pk_daddr pk)) eqn:Hlo; [by rewrite Ht, Hlo|]. destruct (pk_protocol pk) eqn:Hp.
    + rewrite (nat_chain_tcp _ _ Hp). destruct (existsb (Z.eqb (pk_dport pk)) tcp) eqn:He.
      * rewrite bool_decide_true by (by apply Htcp). reflexivity.
      * rewrite bool_decide_false by (rewrite <- Htcp; by rewrite He). by rewrite Ht, Hlo, Hnew.
    + destruct (pk_dport pk =? 53)%Z; [reflexivity|]. rewrite nat_chain_other by (by rewrite Hp). by rewrite Ht, Hlo, Hnew.
    + rewrite nat_chain_other by (by rewrite Hp). by rewrite Ht, Hlo, Hnew. }
  split; [exact Hd|]. intros pk'. rewrite Hd. destruct (is_loopback4 (pk_daddr pk)) eqn:Hlo; [by intros [= <-]|].
  repeat case_match; try done; by intros [= <-].
Qed.

(** the dispatch of a redirected connection.  It always ends, and what it
    does depends only on the bytes and not on how they are segmented: a stream
    that starts like TLS is relayed to the name in the ClientHello of its
    first 16 KiB, at the original port, and dropped if there is none, never
    relayed raw; any other stream is relayed to its original destination, and
    dropped if that is unknown.  The bytes read and those still to come are
    those of the connection. *)
Theorem dispatch_by_content (dst : option (ip * Z)) (segs : list gostring) (Hsegs : Forall (fun s => s <> []) segs) :
  let bytes := concat segs in
  handle_transparent dst true segs = Some Dropped /\
  exists r, handle_transparent dst false segs = Some r /\
  match bytes with
  | [] => r = Dropped
  | b0 :: _ =>
      let relayed_to h port := exists prefix rest, r = Relayed h port prefix rest /\ prefix ++ concat rest = bytes /\
                                 length prefix <= sniff_size in
      if (byteZ b0 =? 22)%Z
      then match parse_sni (take sniff_size bytes) with
           | Some (Some h) => relayed_to h (hello_port dst)
           | _ => r = Dropped
           end
      else match dst with Some (a, port) => relayed_to (ip_string a) port | None => r = Dropped end
  end.
Proof.
  cbv zeta. split; [done|]. unfold handle_transparent. destruct (read sniff_size segs) as [[buf failed] rest] eqn:Hr.
  pose proof (read_concat _ _ _ _ _ Hr) as (Hc & Hl & Hf & _). rewrite <- Hc. destruct buf as [|b0 buf].
  { exists Dropped. split; [done|]. destruct segs as [|s segs]; cbn [read] in Hr; [by injection Hr as _ <-|].
    inversion Hsegs as [|? ? Hs _]; subst. destruct s as [|x s]; [done|].
    destruct (sniff_size <? length (x :: s)); [|discriminate Hr].
    change sniff_size with (S 16383) in Hr. cbn [take] in Hr. discriminate Hr. }
  cbn [app]. destruct (byteZ b0 =? 22)%Z.
  - destruct (hello_loop_spec (2 + length rest) dst (b0 :: buf) failed rest Hl Hf) as (r & -> & Hx); [left; lia|].
    exists r. split; [done|]. exact Hx.
  - destruct dst as [[a port]|]; [|by exists Dropped]. eexists. split; [reflexivity|]. by exists (b0 :: buf), rest.
Qed.

(** no byte of the workload reaches the channel before the host agreed.
    The stream starts with the CONNECT; if the first reply is not a 2xx status
    line nothing else is sent and the connection gets nothing; otherwise the
    bytes that were read and all later ones follow in order.  What the
    connection gets is what comes after the first reply was read, so nothing
    is lost if that reply ends with its header. *)
Theorem relay_after_accept (host : gostring) (port : Z) (prefix : gostring) (rest replies : list gostring) :
  let r := relay_connect host port prefix rest replies in
  match replies with
  | first :: later =>
      if accepted (take 512 first)
      then to_stream r = relay_request host port ++ prefix ++ concat rest /\
           to_client r = drop 512 first ++ concat later /\
           (length first <= 512 -> first ++ to_client r = concat replies)
      else r = RelayedBytes (relay_request host port) []
  | [] => r = RelayedBytes (relay_request host port) []
  end.
Proof.
  cbv zeta. unfold relay_connect, read. destruct replies as [|first later]; [done|].
  destruct (512 <? length first) eqn:Hl; breflect.
  - cbn [orb]. destruct (accepted (take 512 first)); cbn [negb to_stream to_client concat]; [|done]. split_and!; [done..|lia].
  - cbn [orb]. rewrite take_ge, drop_ge by lia. destruct (accepted first); cbn [negb to_stream to_client concat]; done.
Qed.

(** ** With the proxy at the other end of the channel *)
Lemma relay_request_connect host port : relay_request host port = connect_request (relay_target host port).
Proof. reflexivity. Qed.
Definition plain_host (host : gostring) : Prop :=
  Forall (fun c => c <> ":"%char /\ c <> "%"%char /\ c <> "["%char /\ c <> "]"%char) host.
Lemma plain_host_target host port :
  plain_host host -> (0 <= port)%Z -> host_only (relay_target host port) = host.
Proof.
  intros Hh Hp. unfold plain_host in Hh. rewrite Forall_forall in Hh.
  assert (Hfree : ":"%char ∉ host /\ "%"%char ∉ host /\ "["%char ∉ host /\ "]"%char ∉ host)
    by (split_and!; intros Hin%Hh; naive_solver).
  destruct Hfree as (Hc & Hz & Hl & Hr). unfold host_only, relay_target.
  replace (host ++ $":" ++ itoa port) with (join_host_port host (itoa port)).
  - rewrite split_join_host_port; [done|..]; try done; by apply itoa_free.
  - unfold join_host_port. by rewrite (proj2 (contains_byte_false _ _) Hc), (proj2 (contains_byte_false _ _) Hz).
Qed.

(** C12: a transparent connection gets what a CONNECT gets, and no more.  If
    the proxy at the other end, which reads the relay's request as what it
    says, opens a connection for it, then either the workload sent a
    ClientHello with the relayed name in it, or its original destination was
    the relayed address; the whitelist allows the host part of the request's
    target, or the raw hook accepts that target and its host part is an
    address; the host part is the relayed name or address itself (the port
    being no negative number), unless that has a colon, a percent sign or a
    bracket, which a name in a ClientHello may have ([ok.org] is decided on as
    ok.org); and the connection leads where the
    target leads: by the upstream, or to the target itself, or to an address of
    its name that passes the network policy; a target that is an address has
    passed the policy, and a name that can be looked up is only reached at an
    address that has if there is a policy and no upstream. *)
Theorem transparent_connection_decided `{UnicodeCase} (tr : transport) (net : network) (env : gostring -> gostring) (cfg : server)
    (read_request : gostring -> option request) (req : request) (dst : option (ip * Z)) (segs : list gostring)
    (host : gostring) (port : Z) (prefix : gostring) (rest : list gostring) (c : conn) (evs : list audit_event)
    (Hrelay : handle_transparent dst false segs = Some (Relayed host port prefix rest))
    (Hread : read_request (relay_request host port) = Some req)
    (Hreq : req_method req = $"CONNECT" /\ request_uri req = relay_target host port)
    (Hrun : ProxyServer.handle_stream tr net env cfg (read_request (relay_request host port)) = Some (Tunneled c, evs)) :
  let target := relay_target host port in
  (names_at prefix host \/ exists a, dst = Some (a, port) /\ host = ip_string a) /\
  (Match (host_only target) (sni_domains cfg) = Allow \/
   exists check a, raw_target_check cfg = Some check /\ parse_ip (host_only target) = Some a /\ check target = true) /\
  (plain_host host -> (0 <= port)%Z -> host_only target = host) /\
  (forall a, parse_ip (host_only target) = Some a -> policy_allows cfg a = true) /\
  match c with
  | ProxyServer.Tunnel up t => up = upstream_proxy cfg /\ t = target /\ up <> []
  | Direct addr =>
      addr = target \/
      exists a p, a ∈ lookup_ip net (host_only target) /\ policy_allows cfg a = true /\ addr = join_host_port (ip_string a) p
  end /\
  (upstream_proxy cfg = [] -> custom_dial cfg = false -> is_some (net_policy cfg) = true ->
   parse_ip (host_only target) = None -> lookup_ip net (host_only target) <> [] ->
   exists a p, a ∈ lookup_ip net (host_only target) /\ policy_allows cfg a = true /\
     c = Direct (join_host_port (ip_string a) p)).
Proof.
  cbv zeta. split.
  - revert Hrelay. unfold handle_transparent. destruct (read sniff_size segs) as [[buf failed] more].
    destruct buf as [|b0 buf]; [done|]. destruct (byteZ b0 =? 22)%Z.
    + intros Hl. left. assert (Hname : exists n, hello_loop n dst (b0 :: buf) failed more = Some (Relayed host port prefix rest))
        by (by eexists). clear Hl. destruct Hname as [n Hl]. revert Hl. generalize (b0 :: buf) as b. revert failed more.
      induction n as [|n IH]; intros failed more b; cbn [hello_loop]; [done|].
      destruct (parse_sni b) as [[h|]|] eqn:Hp; cbn [mbind option_bind]; [|destruct (_ || _); [done|]|done].
      * intros [= -> _ -> _]. by apply parse_sni_found.
      * destruct (read _ more) as [[b1 f1] more1]. apply IH.
    + destruct dst as [[a p]|]; [|done]. intros [= <- <- _ _]. right. by exists a.
  - rewrite Hread in Hrun. destruct Hreq as [Hm Hu].
    apply (stream_opened _ _ _ _ _ _ _ c) in Hrun as [Hd Hip]; [|done]. apply decide_verdict in Hd as [Hd _].
    unfold dial_name, asked in *. rewrite Hm, seqb_refl, Hu in *. split; [exact Hd|].
    split; [apply plain_host_target|]. exact Hip.
Qed.

(** * Concrete connections *)
Module Example_.
Definition hello : gostring :=
  hello_record $"xx" (hello_body (repeat "r"%char 34) $"s" $"ci" $"c" (server_name $"api.github.com")).
(** A ClientHello in three segments, with application data behind it. *)
Definition segs1 : list gostring := [take 3 hello; drop 3 hello; $"data"].
Definition dst1 : option (ip * Z) := Some ([140; 82; 112; 3]%Z, 8443%Z).
Lemma dispatch_by_content_witness :
  Forall (fun s => s <> []) segs1 /\
  exists prefix rest, handle_transparent dst1 false segs1 = Some (Relayed $"api.github.com" 8443 prefix rest) /\
    prefix ++ concat rest = concat segs1.
Proof.
  assert (Hs : Forall (fun s => s <> []) segs1).
  { apply Forall_cons_2; [discriminate|]. apply Forall_cons_2; [discriminate|]. apply Forall_cons_2; [discriminate|]. apply Forall_nil_2. }
  split; [exact Hs|]. destruct (dispatch_by_content dst1 segs1 Hs) as (_ & r & Hr & Hx). rewrite Hr. clear Hr.
  assert (Hb : exists t, concat segs1 = "022"%char :: t) by (eexists; vm_compute; reflexivity). destruct Hb as [t Ht]. rewrite Ht in *.
  cbv zeta in Hx. change ((byteZ "022" =? 22)%Z) with true in Hx. cbv iota in Hx. rewrite <- Ht in Hx.
  assert (Hp : parse_sni (take sniff_size (concat segs1)) = Some (Some $"api.github.com")) by (vm_compute; reflexivity).
  rewrite Hp in Hx. destruct Hx as (prefix & rest & -> & Hc & _). exists prefix, rest. split; [reflexivity|]. rewrite <- Ht. exact Hc.
Defined.
Lemma new_flows_confined_witness :
  delivered [5432%Z] (Packet TCP [10; 0; 0; 7]%Z 5432 false) = Some (Packet TCP [127; 0; 0; 1]%Z 7443 false) /\
  delivered [5432%Z] (Packet TCP [10; 0; 0; 7]%Z 22 false) = None.
Proof.
  destruct (new_flows_confined [5432%Z] (Packet TCP [10; 0; 0; 7]%Z 5432 false) eq_refl) as (_ & Hx1 & _).
  destruct (new_flows_confined [5432%Z] (Packet TCP [10; 0; 0; 7]%Z 22 false) eq_refl) as (_ & Hx2 & _).
  destruct (Hx1 eq_refl) as [H1 _]. destruct (Hx2 eq_refl) as [H2 _].
  split; [rewrite H1 | rewrite H2]; vm_compute; reflexivity.
Defined.
Lemma transparent_connection_decided_witness :
  let UC : UnicodeCase := fun s => s in
  let pol := NetworkPolicy [CIDRRule (IPNet [10; 0; 0; 0]%Z 8 4) ActionBlock 8] false false in
  let cfg := Server [$"api.github.com"] [] 0 true false None None (Some pol) in
  let net := Network (fun _ => [[10; 0; 0; 1]; [140; 82; 112; 3]]%Z) (fun _ => true) (fun _ _ => None) in
  let tr := Transport (fun _ => None) (fun _ => false) (fun _ _ => true) in
  let reads := fun s => if has_prefix s $"CONNECT " then
    Some (Request $"CONNECT" $"api.github.com:8443" $"api.github.com:8443" []) else None in
  exists c evs, handle_stream tr net (fun _ => []) cfg (reads (relay_request $"api.github.com" 8443)) = Some (Tunneled c, evs) /\
    Match $"api.github.com" (sni_domains cfg) = Allow /\
    exists a p, policy_allows cfg a = true /\ c = Direct (join_host_port (ip_string a) p).
Proof.
  intros UC pol cfg net tr reads.
  assert (Hr : handle_transparent dst1 false segs1 = Some (Relayed $"api.github.com" 8443 hello [$"data"])) by (vm_compute; reflexivity).
  pose proof (transparent_connection_decided tr net (fun _ => []) cfg reads
    (Request $"CONNECT" $"api.github.com:8443" $"api.github.com:8443" []) dst1 segs1 $"api.github.com" 8443 hello [$"data"]
    (Direct $"140.82.112.3:8443") [AuditEvent true $"api.github.com:8443"] Hr) as Hx.
  assert (Hrun : handle_stream tr net (fun _ => []) cfg (reads (relay_request $"api.github.com" 8443))
    = Some (Tunneled (Direct $"140.82.112.3:8443"), [AuditEvent true $"api.github.com:8443"])) by (vm_compute; reflexivity).
  specialize (Hx ltac:(vm_compute; reflexivity) (conj eq_refl eq_refl) Hrun).
  exists (Direct $"140.82.112.3:8443"), [AuditEvent true $"api.github.com:8443"]. split; [exact Hrun|].
  destruct Hx as (_ & Hw & _ & _ & _ & Hpin). split.
  - destruct Hw as [Hm|(check & a & Hc & _)]; [exact Hm | discriminate Hc].
  - destruct (Hpin eq_refl eq_refl eq_refl eq_refl ltac:(discriminate)) as (a & p & _ & Ha & Hc). by exists a, p.
Defined.
(** The host part of the target is not always the name in the ClientHello. *)
Example bracketed_names :
  map (fun h => host_only (relay_target h 443)) [$"ok.org"; $"[ok.org]"; $"::1"] = [$"ok.org"; $"ok.org"; $"::1:443"].
Proof. vm_compute. reflexivity. Qed.
Example ipv6_not_in_table :
  delivered [] (Packet TCP (replicate 15 0 ++ [1])%Z 443 false) = Some (Packet TCP (replicate 15 0 ++ [1])%Z 443 false).
Proof. vm_compute. reflexivity. Qed.
(** TLS without a server name, and TLS that never ends, are dropped. *)
Example no_name_dropped :
  handle_transparent dst1 false [hello_record $"xx" (hello_body (repeat "r"%char 34) $"s" $"ci" $"c" [])] = Some Dropped /\
  handle_transparent dst1 false [take 20 hello] = Some Dropped.
Proof. vm_compute. by split. Qed.
Example raw_needs_destination :
  handle_transparent None false [$"PING"] = Some Dropped /\
  handle_transparent dst1 false [$"PING"] = Some (Relayed $"140.82.112.3" 8443 $"PING" []).
Proof. vm_compute. by split. Qed.
(** A server that speaks first: its greeting arrives with the reply of the
    proxy in one read, and is lost. *)
Example greeting_lost :
  to_client (relay_connect $"10.0.0.7" 25 $"EHLO" [] [established ++ $"220 ready"; $"250 ok"]) = $"250 ok".
Proof. vm_compute. reflexivity. Qed.
Example outbound_addresses :
  map outbound_ipv4 [Some [10; 1; 2; 3]; Some (replicate 10 0 ++ [255; 255; 10; 1; 2; 3]); Some (replicate 16 0); Some [0; 0; 0; 0]; None]%Z =
  [Some $"10.1.2.3"; Some $"10.1.2.3"; None; None; None].
Proof. vm_compute. reflexivity. Qed.
Example destinations :
  parse_original_dest true [Zbyte 2; Zbyte 0; Zbyte 1; Zbyte 187; Zbyte 10; Zbyte 0; Zbyte 0; Zbyte 7] = Some ([10; 0; 0; 7]%Z, 443%Z) /\
  parse_original_dest true [Zbyte 2; Zbyte 0; Zbyte 0; Zbyte 0; Zbyte 10; Zbyte 0; Zbyte 0; Zbyte 7] = None /\
  parse_original_dest true [Zbyte 10; Zbyte 0; Zbyte 1; Zbyte 187; Zbyte 10; Zbyte 0; Zbyte 0; Zbyte 7] = None.
Proof. vm_compute. by split_and!. Qed.
End Example_.
