(* ===== verification/Stage.v ===== *)
(** The network stage: [netns.go] of [internal/orchestrator].

    [stage_main] is [netnsStageMain]: what it does to the system, in order, and
    its exit code.  The system's answers are a record. *)
From S2P Require Import GoStrings ConfigTypes GoNet PlanBuilder Services Transparent GuestEnv.
Local Open Scope go_scope.

(** * Starting the stage *)
Definition NetnsStageCommandName : gostring := $"netns-stage".
Record stage_config := StageConfig {
  sg_bwrap_path : gostring; sg_args : list gostring; sg_dns : option dns_config; sg_transparent : bool;
  sg_outbound_ip : gostring; sg_transparent_ports : list Z }.
Definition unshare_stage_argv (unshare_bin self_exe : gostring) (uid gid : Z) : list gostring :=
  [unshare_bin; $"-U"; $"--map-user=" ++ itoa uid; $"--map-group=" ++ itoa gid; $"-n"; $"-m"; $"-p"; $"--fork";
   $"--keep-caps"; self_exe; NetnsStageCommandName].

(** * What the stage does *)
Inductive stage_step :=
  | MountProc
  | SetLoopbackFlags (flags : Z)
  | LowerPortFloor
  | RunTool (argv : list gostring)
  | LoadRuleset (text : gostring)
  | StartRelay (fd : nat)
  | StartDNSRelay (fd : nat)
  | DropCapabilities
  | ExecBwrap (path : gostring) (args : list gostring) (fds : list nat).
Inductive sysctl_err := EROFS | EPERM | EACCES | ENOENT | OtherError.
(** How [cmd.Run] ended. *)
Inductive run_outcome :=
  | RunOk
  | RunExited (code : Z)                     (* an exit code *)
  | RunSignaled (signum : Z)
  | RunStatusUnknown                         (* neither *)
  | RunNotStarted.
Record stage_world := StageWorld {
  sw_socket : bool; sw_get_flags : option Z; sw_set_flags : bool;
  sw_floor : option sysctl_err;              (* the error of the write *)
  sw_tool : list gostring -> bool;
  sw_ruleset_file : bool; sw_nft : bool;
  sw_listen_tcp : gostring -> bool; sw_listen_udp : gostring -> bool;
  sw_capset : bool; sw_run : run_outcome }.
Definition IFF_UP : Z := 1.

(** A computation records its steps; [None] ends the process with code 125. *)
Definition stage (A : Type) : Type := list stage_step * option A.
#[export] Instance stage_ret : MRet stage := fun _ a => ([], Some a).
#[export] Instance stage_bind : MBind stage := fun _ _ f m =>
  match m with
  | (t, Some a) => let '(t', r) := f a in (t ++ t', r)
  | (t, None) => (t, None)
  end.
Definition does (s : stage_step) : stage unit := ([s], Some tt).
Definition needs (b : bool) : stage unit := ([], if b then Some tt else None).
Definition when_stage (b : bool) (m : stage unit) : stage unit := if b then m else mret tt.

Section stage.
Context (w : stage_world).
Definition bring_loopback_up : stage unit :=
  _ ← needs (sw_socket w);
  match sw_get_flags w with
  | None => needs false
  | Some flags => _ ← needs (sw_set_flags w); does (SetLoopbackFlags (Z.lor flags IFF_UP))
  end.
Definition allow_low_ports : stage unit :=
  match sw_floor w with
  | None => does LowerPortFloor
  | Some (EROFS | EPERM | EACCES | ENOENT) => mret tt
  | Some OtherError => needs false
  end.
Definition run_tool (argv : list gostring) : stage unit := _ ← needs (sw_tool w argv); does (RunTool argv).
Definition setup_transparent_net (outbound_ip : gostring) (ports : list Z) : stage unit :=
  _ ← run_tool [$"ip"; $"route"; $"replace"; $"default"; $"dev"; $"lo"];
  _ ← when_stage (negb (is_empty outbound_ip)) (run_tool [$"ip"; $"addr"; $"add"; outbound_ip ++ $"/32"; $"dev"; $"lo"]);
  _ ← needs (sw_ruleset_file w);
  _ ← needs (sw_nft w);
  does (LoadRuleset (ruleset_text ports)).
Definition transparentListenAddr : gostring := $"127.0.0.1:7443".
Definition start_transparent_relay (fd : nat) : stage unit :=
  _ ← needs (sw_listen_tcp w transparentListenAddr);
  does (StartRelay fd).
Definition start_dns_relay (fd : nat) : stage unit :=
  _ ← needs (sw_listen_udp w $"127.0.0.1:53");
  _ ← needs (sw_listen_tcp w $"127.0.0.1:53");
  does (StartDNSRelay fd).
Definition drop_capabilities : stage unit := _ ← needs (sw_capset w); does DropCapabilities.
Definition exit_code_of (r : run_outcome) : Z :=
  match r with
  | RunOk => 0
  | RunExited code => if (0 <=? code)%Z then code else 127
  | RunSignaled signum => 128 + signum
  | RunStatusUnknown | RunNotStarted => 127
  end.
Definition channel_fds : list nat := [FDProxy; FDDNS; FDRunner; FDPorts; FDHostForward].
Definition stage_setup (cfg : stage_config) : stage unit :=
  _ ← does MountProc;
  _ ← bring_loopback_up;
  _ ← allow_low_ports;
  _ ← when_stage (sg_transparent cfg)
        (_ ← setup_transparent_net (sg_outbound_ip cfg) (sg_transparent_ports cfg); start_transparent_relay FDProxy);
  _ ← when_stage (is_some (sg_dns cfg)) (start_dns_relay FDDNS);
  drop_capabilities.
Definition stage_body (cfg : stage_config) : stage unit :=
  _ ← stage_setup cfg;
  does (ExecBwrap (sg_bwrap_path cfg) (sg_args cfg) channel_fds).
(** [cfg]: what the variable decodes to. *)
Definition stage_main (cfg : option stage_config) : list stage_step * Z :=
  match cfg with
  | None => ([], 125%Z)
  | Some cfg =>
      if length (sg_args cfg) =? 0 then ([], 125%Z)
      else match stage_body cfg with
           | (trace, Some _) => (trace, exit_code_of (sw_run w))
           | (trace, None) => (trace, 125%Z)
           end
  end.
End stage.
(** What [start] puts into the configuration. *)
Definition stage_config_for (p : full_plan) (bin : gostring) (args : list gostring) (outbound_ip : gostring) : stage_config :=
  StageConfig bin args (fp_dns p) (fp_transparent p) (if fp_transparent p then outbound_ip else [])
    (concat (map ConfigTypes.te_ports (fp_tcp p))).

(** * Lemmas *)
(** [m] either fails having done a prefix of [steps], or does [steps]. *)
Definition performs {A} (m : stage A) (steps : list stage_step) : Prop :=
  match m with (t, Some _) => t = steps | (t, None) => t `prefix_of` steps end.
Lemma performs_bind {A B} (m : stage A) (f : A -> stage B) s1 s2 :
  performs m s1 -> (forall a, snd m = Some a -> performs (f a) s2) -> performs (m ≫= f) (s1 ++ s2).
Proof.
  intros Hm Hf. destruct m as [t [a|]]; cbn in *.
  - subst t. specialize (Hf a eq_refl). destruct (f a) as [t' [b|]]; cbn in *; [by subst | by apply prefix_app].
  - by apply prefix_app_r.
Qed.
Lemma performs_needs b : performs (needs b) [].
Proof. destruct b; [reflexivity | apply prefix_nil]. Qed.
Lemma performs_fails {A} (s : list stage_step) : performs (([], None) : stage A) s.
Proof. apply prefix_nil. Qed.
Lemma performs_does s : performs (does s) [s].
Proof. done. Qed.
Lemma performs_when b m s : (b = true -> performs m s) -> performs (when_stage b m) (if b then s else []).
Proof. intros Hm. destruct b; [by apply Hm | reflexivity]. Qed.
Lemma performs_needs_bind {A} b (f : unit -> stage A) s : performs (f tt) s -> performs (needs b ≫= f) s.
Proof. intros Hf. apply (performs_bind _ _ [] s); [apply performs_needs | by intros []]. Qed.
Create HintDb stage.
#[export] Hint Resolve performs_needs performs_fails performs_does performs_needs_bind : stage.

(** The steps of a stage whose every call succeeds. *)
Definition transparent_steps (ip : gostring) (ports : list Z) : list stage_step :=
  [RunTool [$"ip"; $"route"; $"replace"; $"default"; $"dev"; $"lo"]]
  ++ (if negb (is_empty ip) then [RunTool [$"ip"; $"addr"; $"add"; ip ++ $"/32"; $"dev"; $"lo"]] else [])
  ++ [LoadRuleset (ruleset_text ports); StartRelay FDProxy].
Definition setup_steps (w : stage_world) (cfg : stage_config) (flags : Z) : list stage_step :=
  [MountProc; SetLoopbackFlags (Z.lor flags IFF_UP)] ++ (if is_some (sw_floor w) then [] else [LowerPortFloor])
  ++ (if sg_transparent cfg then transparent_steps (sg_outbound_ip cfg) (sg_transparent_ports cfg) else [])
  ++ (if is_some (sg_dns cfg) then [StartDNSRelay FDDNS] else []) ++ [DropCapabilities].
Lemma transparent_performs w ip ports :
  performs (_ ← setup_transparent_net w ip ports; start_transparent_relay w FDProxy) (transparent_steps ip ports).
Proof.
  unfold transparent_steps. change [LoadRuleset ?t; StartRelay ?f] with ([LoadRuleset t] ++ [StartRelay f]).
  rewrite !app_assoc. apply performs_bind; [|intros _ _; unfold start_transparent_relay; auto with stage].
  rewrite <- !app_assoc. unfold setup_transparent_net, run_tool. apply performs_bind; [auto with stage|]. intros _ _.
  apply performs_bind; [apply performs_when; auto with stage|]. intros _ _. auto with stage.
Qed.
Lemma setup_performs w cfg flags : sw_get_flags w = Some flags -> performs (stage_setup w cfg) (setup_steps w cfg flags).
Proof.
  intros Hfl. unfold stage_setup, setup_steps.
  change ([MountProc; ?s] ++ ?l) with ([MountProc] ++ [s] ++ l).
  apply performs_bind; [auto with stage|]. intros _ _. apply performs_bind.
  { unfold bring_loopback_up. rewrite Hfl. auto with stage. }
  intros _ _. apply performs_bind.
  { unfold allow_low_ports. destruct (sw_floor w) as [[]|]; cbn; auto with stage. }
  intros _ _. apply performs_bind; [apply performs_when; intros _; apply transparent_performs|]. intros _ _.
  apply performs_bind; [apply performs_when; intros _; unfold start_dns_relay; auto with stage|]. intros _ _.
  unfold drop_capabilities. auto with stage.
Qed.
Definition is_exec (s : stage_step) : bool := match s with ExecBwrap _ _ _ => true | _ => false end.
Lemma setup_no_exec w cfg flags : Forall (fun s => is_exec s = false) (setup_steps w cfg flags).
Proof.
  unfold setup_steps, transparent_steps. repeat (apply Forall_app; split); repeat case_match; repeat constructor.
Qed.
(** Without the flags of the loopback nothing but the mount is done. *)
Lemma setup_no_flags w cfg : sw_get_flags w = None -> stage_setup w cfg = ([MountProc], None).
Proof. intros Hfl. unfold stage_setup, bring_loopback_up. rewrite Hfl. by destruct (sw_socket w). Qed.

(** * Properties *)

(** C24: bwrap only runs in a stage that is complete.  Either every step
    succeeded: the loopback was brought up, in transparent mode the rules were
    loaded and the relay started, the resolver was started if the plan has
    one, then the capabilities were dropped, and then bwrap was run, once,
    with the five channels, and the code of the stage is the exit code of
    bwrap, 128 plus the number of the signal that killed it, or 127 if its
    status says neither or it could not be started; or some step failed, bwrap
    was never run, and the code is 125. *)
Theorem stage_complete_or_nothing (w : stage_world) (cfg : stage_config) :
  let '(trace, code) := stage_main w (Some cfg) in
  (exists flags, sw_get_flags w = Some flags /\ sg_args cfg <> [] /\
     trace = setup_steps w cfg flags ++ [ExecBwrap (sg_bwrap_path cfg) (sg_args cfg) [3; 4; 5; 6; 7]] /\
     Z.testbit (Z.lor flags IFF_UP) 0 = true /\
     match sw_run w with
     | RunOk => code = 0%Z
     | RunExited c => code = if (0 <=? c)%Z then c else 127%Z
     | RunSignaled n => code = (128 + n)%Z
     | RunStatusUnknown | RunNotStarted => code = 127%Z
     end) \/
  (code = 125%Z /\ Forall (fun s => is_exec s = false) trace /\
   forall flags, sw_get_flags w = Some flags -> trace `prefix_of` setup_steps w cfg flags).
Proof.
  unfold stage_main, stage_body. destruct (sg_args cfg) as [|a args] eqn:Ha; cbn [length Nat.eqb].
  { right. split_and!; [done | constructor | intros; apply prefix_nil]. }
  destruct (sw_get_flags w) as [flags|] eqn:Hfl.
  - pose proof (setup_performs w cfg flags Hfl) as Hs. pose proof (setup_no_exec w cfg flags) as Hn.
    assert (Hbit : Z.testbit (Z.lor flags IFF_UP) 0 = true) by (rewrite Z.lor_spec; apply orb_true_r).
    destruct (stage_setup w cfg) as [t [[]|]].
    + cbn in Hs. subst t. left. exists flags. split_and!; try done. by destruct (sw_run w).
    + right. split_and!; [done | | by intros ? [= <-]]. destruct Hs as [k Hk]. rewrite Hk in Hn. by apply Forall_app in Hn as [? _].
  - rewrite (setup_no_flags w cfg Hfl). cbn. right. split_and!; [done | repeat constructor | done].
Qed.

(** * Concrete stages *)
Module Example_.
Definition ready : stage_world :=
  StageWorld true (Some 8%Z) true None (fun _ => true) true true (fun _ => true) (fun _ => true) true (RunSignaled 15).
Definition transparent : stage_config :=
  StageConfig $"/usr/bin/bwrap" [$"--unshare-all"] None true $"192.0.2.7" [5432%Z].
Example runs :
  stage_main ready (Some transparent) =
  ([MountProc; SetLoopbackFlags 9; LowerPortFloor; RunTool [$"ip"; $"route"; $"replace"; $"default"; $"dev"; $"lo"];
    RunTool [$"ip"; $"addr"; $"add"; $"192.0.2.7/32"; $"dev"; $"lo"]; LoadRuleset (ruleset_text [5432%Z]); StartRelay 3;
    DropCapabilities; ExecBwrap $"/usr/bin/bwrap" [$"--unshare-all"] [3; 4; 5; 6; 7]], 143%Z).
Proof. vm_compute. reflexivity. Qed.
(** In mode [both] the relay of the stage and the proxy bridge of the guest
    are clients on the same descriptor. *)
Example both_share_the_channel :
  fst (stage_main ready (Some transparent)) !! 6 = Some (StartRelay FDProxy) /\
  configured_bridges (proxy_env [$"github.com"]) = [ProxyBridge default_bridge_addr] /\ head channel_fds = Some FDProxy.
Proof. vm_compute. by split_and!. Qed.
(** A workload that is killed, one that fails, and a stage whose rules cannot
    be loaded. *)
Definition world_with (tool : list gostring -> bool) (r : run_outcome) : stage_world :=
  StageWorld true (Some 8%Z) true None tool true true (fun _ => true) (fun _ => true) true r.
Lemma stage_complete_or_nothing_witness :
  snd (stage_main ready (Some transparent)) = 143%Z /\
  snd (stage_main (world_with (fun _ => true) (RunExited 3)) (Some transparent)) = 3%Z /\
  Forall (fun s => is_exec s = false) (fst (stage_main (world_with (fun _ => false) RunOk) (Some transparent))).
Proof.
  pose proof (stage_complete_or_nothing ready transparent) as H1.
  pose proof (stage_complete_or_nothing (world_with (fun _ => true) (RunExited 3)) transparent) as H2.
  pose proof (stage_complete_or_nothing (world_with (fun _ => false) RunOk) transparent) as H3.
  destruct (stage_main ready _) as [t1 c1] eqn:E1. destruct (stage_main (world_with (fun _ => true) _) _) as [t2 c2] eqn:E2.
  destruct (stage_main (world_with (fun _ => false) _) _) as [t3 c3] eqn:E3.
  split_and!.
  - destruct H1 as [(fl & _ & _ & _ & _ & H)|[H _]]; [exact H | subst; vm_compute in E1; discriminate].
  - destruct H2 as [(fl & _ & _ & _ & _ & H)|[H _]]; [exact H | subst; vm_compute in E2; discriminate].
  - destruct H3 as [(fl & _ & _ & _ & _ & H)|(_ & H & _)]; [|exact H]. cbn in H. subst. vm_compute in E3. discriminate.
Defined.
End Example_.
