(* ===== verification/Terminal.v ===== *)
(** The guest's terminal, [internal/orchestrator/pty.go]: raw mode, the pair of
    a pseudo-terminal, and a workload run on it or on plain stdio.

    [run_guest_command] is the sequential part, on the answers of the kernel;
    once the workload runs on a pseudo-terminal, [session_step] interleaves the
    goroutines, the workload, the processes it leaves behind, the real terminal
    and the signals. *)
From S2P Require Import GoStrings Stage.
Local Open Scope go_scope.
Local Open Scope Z_scope.

(** * Raw mode *)
Definition IGNBRK := 1.
Definition BRKINT := 2.
Definition PARMRK := 8.
Definition ISTRIP := 32.
Definition INLCR := 64.
Definition IGNCR := 128.
Definition ICRNL := 256.
Definition IXON := 1024.
Definition OPOST := 1.
Definition ISIG := 1.
Definition ICANON := 2.
Definition ECHO := 8.
Definition ECHONL := 64.
Definition IEXTEN := 32768.
Definition CSIZE := 48.
Definition CS8 := 48.
Definition PARENB := 256.
Definition VTIME : nat := 5.
Definition VMIN : nat := 6.
Record termios := Termios { t_iflag : Z; t_oflag : Z; t_cflag : Z; t_lflag : Z; t_line : Z; t_cc : list Z }.
Definition ors (l : list Z) : Z := foldr Z.lor 0 l.
Definition iflag_off : Z := ors [IGNBRK; BRKINT; PARMRK; ISTRIP; INLCR; IGNCR; ICRNL; IXON].
Definition lflag_off : Z := ors [ECHO; ECHONL; ICANON; ISIG; IEXTEN].
(** What [makeRaw] sets. *)
Definition raw_of (t : termios) : termios :=
  Termios (Z.ldiff (t_iflag t) iflag_off) (Z.ldiff (t_oflag t) OPOST)
    (Z.lor (Z.ldiff (t_cflag t) (Z.lor CSIZE PARENB)) CS8) (Z.ldiff (t_lflag t) lflag_off)
    (t_line t) (<[VTIME := 0]> (<[VMIN := 1]> (t_cc t))).

(** * The kernel's answers *)
(** The real terminal: its attributes and its size. *)
Record tty := Tty { tt_termios : termios; tt_size : Z * Z }.
Record pty_kernel := PtyKernel {
  pk_isatty : bool;                                 (* stdin has a window size *)
  pk_tcgets : bool; pk_tcsets : bool; pk_restore : bool; (* on the real terminal *)
  pk_ptmx : option nat;                             (* open("/dev/ptmx") *)
  pk_ioctl : Z -> option Z;                         (* on the master: the value returned or stored *)
  pk_open : gostring -> option nat;                 (* open of a slave by its path *)
  pk_start : bool;                                  (* starting the workload *)
  (* the real terminal is resized before the handler of resizes is registered *)
  pk_resized : option (Z * Z) }.
Definition TIOCSPTLCK := 1074025521.
Definition TIOCGPTN := 2147767344.
Definition TIOCGPTPEER := 21569.
Definition O_RDWR := 2.
Definition O_NOCTTY := 256.
Definition O_CLOEXEC := 524288.
Definition make_raw (k : pty_kernel) (t : termios) : termios * option termios :=
  if pk_tcgets k && pk_tcsets k then (raw_of t, Some t) else (t, None).
Definition restore_termios (k : pty_kernel) (saved : option termios) (t : termios) : termios :=
  match saved with Some s => if pk_restore k then s else t | None => t end.

(** The descriptors that stay open, and the pair or the call that failed. *)
Inductive pty_err := OpenPtmx | Unlockpt | GetNumber | OpenSlave (path : gostring).
Definition open_pty (k : pty_kernel) (fds : list nat) : list nat * result pty_err (nat * nat) :=
  match pk_ptmx k with
  | None => (fds, Err OpenPtmx)
  | Some master =>
      match pk_ioctl k TIOCSPTLCK with
      | None => (fds, Err Unlockpt)
      | Some _ =>
          match pk_ioctl k (ors [TIOCGPTPEER; O_RDWR; O_NOCTTY; O_CLOEXEC]) with
          | Some slave => (fds ++ [master; Z.to_nat slave], Ok (master, Z.to_nat slave))
          | None =>
              match pk_ioctl k TIOCGPTN with
              | None => (fds, Err GetNumber)
              | Some n =>
                  let path := $"/dev/pts/" ++ itoa n in
                  match pk_open k path with
                  | None => (fds, Err (OpenSlave path))
                  | Some slave => (fds ++ [master; slave], Ok (master, slave))
                  end
              end
          end
      end
  end.
(** [guestExitCode]. *)
Definition guest_exit_code (r : run_outcome) : Z :=
  match r with
  | RunOk => 0
  | RunExited code => if 0 <=? code then code else 127
  | RunSignaled signum => 128 + signum
  | RunStatusUnknown | RunNotStarted => 127
  end.
Definition SIGCHLD := 17.
Definition SIGWINCH := 28.

(** * A workload on a pseudo-terminal *)
(** [io.Copy] from the master to stdout, between two operations. *)
Inductive relay := Reading | Writing (chunk : gostring) | Stopped.
(** The goroutine that follows the size of the real terminal: its channel
    holds one signal. *)
Inductive winch := Listening (pending : bool) | NotListening.
Inductive progress := Running | Exited (code : Z) | Returned (code : Z).
(** [se_holders] counts the processes that have the slave open: the workload and
    those it started.  [se_buffered] was written to the slave and not read from
    the master; [se_written] is all that was ever written.  [se_typed] is what the
    user typed, [se_input] what was copied to the master. *)
Record session := Session {
  se_tty : tty; se_saved : option termios; se_size : Z * Z; se_fds : list nat;
  se_child : option run_outcome; se_holders : nat;
  se_written : gostring; se_buffered : gostring; se_stdout : gostring; se_relay : relay; se_failed : bool;
  se_winch : winch; se_queue : list Z; se_notified : bool; se_sent : list Z;
  se_typed : gostring; se_input : gostring; se_progress : progress }.
Inductive session_event :=
  | Resized (size : Z * Z) | SizeFollowed | WinchStops
  | SignalArrives (sig : Z) | SignalForwarded
  | SlaveWrites (bytes : gostring) | SlaveOpened | SlaveClosed
  | ChildExits (r : run_outcome) | WaitReturns
  | RelayReads (n : nat) | RelayWrites | RelayWriteFails (n : nat) | RelayEnds
  | Types (bytes : gostring) | KeysCopied (n : nat)
  | CommandReturns.
Definition with_size (t : tty) (size : Z * Z) (w : winch) (s : session) : session :=
  Session t (se_saved s) size (se_fds s) (se_child s) (se_holders s) (se_written s) (se_buffered s) (se_stdout s) (se_relay s)
    (se_failed s) w (se_queue s) (se_notified s) (se_sent s) (se_typed s) (se_input s) (se_progress s).
Definition with_signals (queue sent : list Z) (s : session) : session :=
  Session (se_tty s) (se_saved s) (se_size s) (se_fds s) (se_child s) (se_holders s) (se_written s) (se_buffered s) (se_stdout s)
    (se_relay s) (se_failed s) (se_winch s) queue (se_notified s) sent (se_typed s) (se_input s) (se_progress s).
Definition with_slave (child : option run_outcome) (holders : nat) (written buffered : gostring) (s : session) : session :=
  Session (se_tty s) (se_saved s) (se_size s) (se_fds s) child holders written buffered (se_stdout s)
    (se_relay s) (se_failed s) (se_winch s) (se_queue s) (se_notified s) (se_sent s) (se_typed s) (se_input s) (se_progress s).
Definition with_relay (buffered stdout : gostring) (r : relay) (failed : bool) (s : session) : session :=
  Session (se_tty s) (se_saved s) (se_size s) (se_fds s) (se_child s) (se_holders s) (se_written s) buffered stdout
    r failed (se_winch s) (se_queue s) (se_notified s) (se_sent s) (se_typed s) (se_input s) (se_progress s).
Definition with_progress (p : progress) (s : session) : session :=
  Session (se_tty s) (se_saved s) (se_size s) (se_fds s) (se_child s) (se_holders s) (se_written s) (se_buffered s) (se_stdout s)
    (se_relay s) (se_failed s) (se_winch s) (se_queue s) (se_notified s) (se_sent s) (se_typed s) (se_input s) p.
Definition with_input (typed input : gostring) (s : session) : session :=
  Session (se_tty s) (se_saved s) (se_size s) (se_fds s) (se_child s) (se_holders s) (se_written s) (se_buffered s) (se_stdout s)
    (se_relay s) (se_failed s) (se_winch s) (se_queue s) (se_notified s) (se_sent s) typed input (se_progress s).
(** The deferred calls: the handler of all signals is removed, the real terminal
    restored, the master closed. *)
Definition deferred (k : pty_kernel) (fds : list nat) (code : Z) (s : session) : session :=
  Session (Tty (restore_termios k (se_saved s) (tt_termios (se_tty s))) (tt_size (se_tty s))) (se_saved s) (se_size s) fds
    (se_child s) (se_holders s) (se_written s) (se_buffered s) (se_stdout s)
    (se_relay s) (se_failed s) (se_winch s) (se_queue s) false (se_sent s) (se_typed s) (se_input s) (Returned code).
(** The capacity of [sigCh]. *)
Definition signal_capacity : nat := 8.
(** What the goroutine of the signals does with one; [skipped] are not passed on. *)
Definition forwarded (skipped : list Z) (child : option run_outcome) (sig : Z) : list Z :=
  if bool_decide (sig ∈ skipped) then [] else match child with Some _ => [] | None => [sig] end.

Definition step_size (e : session_event) (s : session) : option session :=
  match e, se_winch s with
  | Resized size, Listening _ => Some (with_size (Tty (tt_termios (se_tty s)) size) (se_size s) (Listening true) s)
  | Resized size, NotListening => Some (with_size (Tty (tt_termios (se_tty s)) size) (se_size s) NotListening s)
  | SizeFollowed, Listening true => Some (with_size (se_tty s) (tt_size (se_tty s)) (Listening false) s)
  | WinchStops, Listening _ =>
      match se_progress s with Running => None | _ => Some (with_size (se_tty s) (se_size s) NotListening s) end
  | _, _ => None
  end.
Definition step_signal (e : session_event) (s : session) : option session :=
  match e, se_queue s with
  | SignalArrives sig, q =>
      if se_notified s && (length q <? signal_capacity)%nat then Some (with_signals (q ++ [sig]) (se_sent s) s)
      else Some s
  | SignalForwarded, sig :: q => Some (with_signals q (se_sent s ++ forwarded [SIGCHLD; SIGWINCH] (se_child s) sig) s)
  | _, _ => None
  end.
Definition step_slave (e : session_event) (s : session) : option session :=
  match e with
  | SlaveWrites bytes =>
      if (0 <? se_holders s)%nat
      then Some (with_slave (se_child s) (se_holders s) (se_written s ++ bytes) (se_buffered s ++ bytes) s) else None
  | SlaveOpened =>
      if (0 <? se_holders s)%nat then Some (with_slave (se_child s) (S (se_holders s)) (se_written s) (se_buffered s) s) else None
  | SlaveClosed =>
      match se_holders s with S n => Some (with_slave (se_child s) n (se_written s) (se_buffered s) s) | O => None end
  | ChildExits r =>
      match se_child s with None => Some (with_slave (Some r) (se_holders s) (se_written s) (se_buffered s) s) | Some _ => None end
  | _ => None
  end.
(** The master reports an error once nobody has the slave open and everything
    was read. *)
Definition step_relay (e : session_event) (s : session) : option session :=
  match e, se_relay s with
  | RelayReads n, Reading =>
      if (0 <? n)%nat && (n <=? length (se_buffered s))%nat
      then Some (with_relay (drop n (se_buffered s)) (se_stdout s) (Writing (take n (se_buffered s))) (se_failed s) s) else None
  | RelayWrites, Writing chunk => Some (with_relay (se_buffered s) (se_stdout s ++ chunk) Reading (se_failed s) s)
  | RelayWriteFails n, Writing chunk => Some (with_relay (se_buffered s) (se_stdout s ++ take n chunk) Stopped true s)
  | RelayEnds, Reading =>
      if (se_holders s =? 0)%nat && is_empty (se_buffered s)
      then Some (with_relay (se_buffered s) (se_stdout s) Stopped (se_failed s) s) else None
  | _, _ => None
  end.
(** [cmd.Wait], and the end of [runGuestCommandPTY], which waits for the relay. *)
Definition step_command (k : pty_kernel) (fds : list nat) (e : session_event) (s : session) : option session :=
  match e, se_progress s with
  | WaitReturns, Running => r ← se_child s; Some (with_progress (Exited (guest_exit_code r)) s)
  | CommandReturns, Exited code => match se_relay s with Stopped => Some (deferred k fds code s) | _ => None end
  | _, _ => None
  end.
Definition step_keys (e : session_event) (s : session) : option session :=
  match e with
  | Types bytes => Some (with_input (se_typed s ++ bytes) (se_input s) s)
  | KeysCopied n =>
      match se_progress s with
      | Returned _ => None
      | _ =>
          let unread := drop (length (se_input s)) (se_typed s) in
          if (0 <? n)%nat && (n <=? length unread)%nat then Some (with_input (se_typed s) (se_input s ++ take n unread) s) else None
      end
  | _ => None
  end.
Definition session_step (k : pty_kernel) (fds : list nat) (e : session_event) (s : session) : option session :=
  match e with
  | Resized _ | SizeFollowed | WinchStops => step_size e s
  | SignalArrives _ | SignalForwarded => step_signal e s
  | SlaveWrites _ | SlaveOpened | SlaveClosed | ChildExits _ => step_slave e s
  | RelayReads _ | RelayWrites | RelayWriteFails _ | RelayEnds => step_relay e s
  | Types _ | KeysCopied _ => step_keys e s
  | WaitReturns | CommandReturns => step_command k fds e s
  end.
Fixpoint run_session (k : pty_kernel) (fds : list nat) (s : session) (es : list session_event) : option session :=
  match es with [] => Some s | e :: es => s' ← session_step k fds e s; run_session k fds s' es end.

(** * The command *)
(** Where the workload runs: it was not started, it runs on plain stdio, or in
    a session, with the descriptors that are open when the session is over. *)
Inductive guest_run :=
  | NotStarted (code : Z) (t : tty) (fds : list nat)
  | OnStdio
  | OnTerminal (s : session) (after : list nat).
Definition run_with_stdio (k : pty_kernel) (argv : list gostring) (t : tty) (fds : list nat) : guest_run :=
  match argv with
  | [] => NotStarted 127 t fds
  | _ => if pk_start k then OnStdio else NotStarted 127 t fds
  end.
(** [runGuestCommandPTY] up to the goroutines.  The slave stays open when the
    workload cannot be started. *)
Definition run_on_pty (k : pty_kernel) (argv : list gostring) (t : tty) (fds : list nat) : guest_run :=
  match open_pty k fds with
  | (fds', Err _) => run_with_stdio k argv t fds'
  | (fds', Ok (master, slave)) =>
      let '(raw, saved) := make_raw k (tt_termios t) in
      if negb (pk_start k)
      then NotStarted 127 (Tty (restore_termios k saved raw) (tt_size t)) (fds ++ [slave])
      else OnTerminal
             (Session (Tty raw (default (tt_size t) (pk_resized k))) saved (tt_size t) (fds ++ [master]) None 1 [] [] [] Reading false
                (Listening false) [] true [] [] [] Running) fds
  end.
(** [runGuestCommand] and [runGuestCommandMaybePTY]. *)
Definition run_guest_command (k : pty_kernel) (argv : list gostring) (t : tty) (fds : list nat) : guest_run :=
  match argv with
  | [] => NotStarted 127 t fds
  | _ => if pk_isatty k then run_on_pty k argv t fds else run_with_stdio k argv t fds
  end.
(** A workload on plain stdio: the signals passed on to it, while it runs, and
    its exit code. *)
Inductive stdio_event := Arrives (sig : Z) | Forwarded | Exits (r : run_outcome).
Definition stdio_step (st : list Z * list Z * option run_outcome) (e : stdio_event) : list Z * list Z * option run_outcome :=
  let '(q, sent, child) := st in
  match e with
  | Arrives sig => if (length q <? signal_capacity)%nat then (q ++ [sig], sent, child) else st
  | Forwarded => match q with sig :: q => (q, sent ++ forwarded [SIGCHLD] child sig, child) | [] => st end
  | Exits r => match child with None => (q, sent, Some r) | Some _ => st end
  end.
Definition stdio_run (es : list stdio_event) : list Z * option Z :=
  let '(_, sent, child) := fold_left stdio_step es ([], [], None) in (sent, option_map guest_exit_code child).

(** * Lemmas: raw mode *)
Lemma ldiff_twice a m : Z.ldiff (Z.ldiff a m) m = Z.ldiff a m.
Proof. apply Z.bits_inj. intros n. rewrite !Z.ldiff_spec. destruct (Z.testbit a n), (Z.testbit m n); done. Qed.
Lemma raw_idempotent t : raw_of (raw_of t) = raw_of t.
Proof.
  destruct t as [i o c l ln cc]. unfold raw_of. cbn [t_iflag t_oflag t_cflag t_lflag t_line t_cc]. f_equal; try apply ldiff_twice.
  - apply Z.bits_inj. intros n. change CS8 with CSIZE. rewrite !Z.lor_spec, !Z.ldiff_spec, !Z.lor_spec, Z.ldiff_spec, Z.lor_spec.
    destruct (Z.testbit c n), (Z.testbit CSIZE n), (Z.testbit PARENB n); done.
  - apply list_eq. intros n. unfold VTIME, VMIN.
    destruct (decide (n = 5%nat)) as [->|H5].
    { destruct (decide (5 < length cc)%nat).
      - rewrite !list_lookup_insert_eq; rewrite ?length_insert; done.
      - rewrite !lookup_ge_None_2; rewrite ?length_insert; lia || done. }
    rewrite !(list_lookup_insert_ne _ 5) by done. destruct (decide (n = 6%nat)) as [->|H6].
    { destruct (decide (6 < length cc)%nat).
      - rewrite !list_lookup_insert_eq; rewrite ?length_insert; done.
      - rewrite !lookup_ge_None_2; rewrite ?length_insert; lia || done. }
    by rewrite !(list_lookup_insert_ne _ 6), !(list_lookup_insert_ne _ 5), !(list_lookup_insert_ne _ 6) by done.
Qed.
(** * Lemmas: sessions *)
Definition written_by (es : list session_event) : gostring :=
  concat (map (fun e => match e with SlaveWrites bytes => bytes | _ => [] end) es).
Lemma written_snoc es e : written_by (es ++ [e]) = written_by es ++ written_by [e].
Proof. unfold written_by. by rewrite map_app, concat_app. Qed.
(** What reaches stdout. *)
Record output_inv (es : list session_event) (s : session) : Prop := OutputInv {
  ou_written : se_written s = written_by es;
  ou_stdout : match se_relay s with
              | Reading => se_written s = se_stdout s ++ se_buffered s
              | Writing chunk => se_written s = se_stdout s ++ chunk ++ se_buffered s
              | Stopped => if se_failed s then se_stdout s `prefix_of` se_written s
                           else se_stdout s = se_written s /\ se_holders s = 0%nat
              end;
  ou_failed : se_failed s = true -> se_relay s = Stopped }.
(** The real terminal, the exit code and the descriptors; [t], [fds], what they
    were before the command. *)
Record command_inv (k : pty_kernel) (t : termios) (fds : list nat) (es : list session_event) (s : session) : Prop := CommandInv {
  co_saved : restore_termios k (se_saved s) (tt_termios (se_tty s)) = t \/ exists code, se_progress s = Returned code;
  co_child : forall r, se_child s = Some r -> ChildExits r ∈ es;
  co_progress : match se_progress s with
                | Running => se_notified s = true
                | Exited code => se_notified s = true /\ exists r, se_child s = Some r /\ code = guest_exit_code r
                | Returned code => se_notified s = false /\ se_relay s = Stopped /\ tt_termios (se_tty s) = t /\
                    se_fds s = fds /\
                    exists r, se_child s = Some r /\ code = guest_exit_code r
                end }.
(** The other parts of the state. *)
Definition about_output (e : session_event) : bool :=
  match e with
  | SlaveWrites _ | SlaveOpened | SlaveClosed | ChildExits _ | RelayReads _ | RelayWrites | RelayWriteFails _ | RelayEnds => true
  | _ => false
  end.
Lemma output_kept k fds e s s' : about_output e = false -> session_step k fds e s = Some s' ->
  se_written s' = se_written s /\ se_buffered s' = se_buffered s /\ se_stdout s' = se_stdout s /\ se_relay s' = se_relay s /\
  se_failed s' = se_failed s /\ se_holders s' = se_holders s.
Proof.
  intros He Hs. destruct e; try done; cbn -[Nat.ltb Nat.leb drop take] in Hs; repeat case_match; simplify_eq; try done.
  apply bind_Some in Hs as (r & _ & [= <-]). done.
Qed.
Lemma command_kept k fds e s s' : about_output e = true -> session_step k fds e s = Some s' ->
  se_tty s' = se_tty s /\ se_saved s' = se_saved s /\ se_fds s' = se_fds s /\ se_notified s' = se_notified s /\
  se_progress s' = se_progress s /\ (se_relay s = Stopped -> se_relay s' = Stopped) /\
  (se_child s' = se_child s \/ exists r, e = ChildExits r /\ se_child s = None /\ se_child s' = Some r).
Proof.
  intros He Hs. destruct e; try done; cbn -[Nat.ltb Nat.leb Nat.eqb drop take] in Hs; repeat case_match; simplify_eq; split_and!;
    cbn; try done; try (by left); right; eauto.
Qed.
Lemma relay_cases e s s' : step_relay e s = Some s' ->
  (exists n, e = RelayReads n /\ se_relay s = Reading /\ (0 < n <= length (se_buffered s))%nat /\
     s' = with_relay (drop n (se_buffered s)) (se_stdout s) (Writing (take n (se_buffered s))) (se_failed s) s) \/
  (exists chunk, e = RelayWrites /\ se_relay s = Writing chunk /\
     s' = with_relay (se_buffered s) (se_stdout s ++ chunk) Reading (se_failed s) s) \/
  (exists n chunk, e = RelayWriteFails n /\ se_relay s = Writing chunk /\
     s' = with_relay (se_buffered s) (se_stdout s ++ take n chunk) Stopped true s) \/
  (e = RelayEnds /\ se_relay s = Reading /\ se_holders s = 0%nat /\ se_buffered s = [] /\
     s' = with_relay (se_buffered s) (se_stdout s) Stopped (se_failed s) s).
Proof.
  unfold step_relay. intros Hs. destruct e; try done; destruct (se_relay s) eqn:Hr; try done.
  - destruct (_ && _) eqn:Hn; simplify_eq. apply andb_true_iff in Hn as [H1%Nat.ltb_lt H2%Nat.leb_le]. left. eauto 10.
  - simplify_eq. right; left. eauto.
  - simplify_eq. right; right; left. eauto.
  - destruct (_ && _) eqn:Hn; simplify_eq. apply andb_true_iff in Hn as [H1%Nat.eqb_eq H2%is_empty_true]. right; right; right. done.
Qed.
Lemma relay_output e es s s' : output_inv es s -> step_relay e s = Some s' -> output_inv es s'.
Proof.
  intros [Hw Ho Hf] [(n & -> & Hr & _ & ->)|[(c & -> & Hr & ->)|[(n & c & -> & Hr & ->)|(-> & Hr & Hh & Hb & ->)]]]%relay_cases;
    rewrite Hr in *; (split; cbn -[drop take]; [done| |]).
  - by rewrite take_drop.
  - by intros ?%Hf.
  - by rewrite <- app_assoc.
  - by intros ?%Hf.
  - rewrite Ho, app_assoc. apply prefix_app_r, prefix_app, prefix_take.
  - done.
  - rewrite Hb, app_nil_r in Ho. rewrite Ho. destruct (se_failed s); [by specialize (Hf eq_refl) | done].
  - done.
Qed.
Lemma slave_cases e s s' : step_slave e s = Some s' ->
  exists child holders, s' = with_slave child holders (se_written s ++ written_by [e]) (se_buffered s ++ written_by [e]) s /\
    (se_holders s = 0%nat -> holders = 0%nat /\ written_by [e] = []).
Proof.
  intros Hs. destruct e as [| | | | |bytes| | |r| | | | | | | |]; try done; cbn -[Nat.ltb] in Hs.
  - destruct (Nat.ltb_spec 0 (se_holders s)); simplify_eq. cbn. rewrite app_nil_r. eexists _, _. split; [done | lia].
  - destruct (Nat.ltb_spec 0 (se_holders s)); simplify_eq. cbn. rewrite !app_nil_r. eexists _, _. split; [done | lia].
  - destruct (se_holders s) eqn:Hh; simplify_eq. cbn. rewrite !app_nil_r. eexists _, _. split; [done | lia].
  - destruct (se_child s); simplify_eq. cbn. rewrite !app_nil_r. eexists _, _. done.
Qed.
Lemma slave_output e es s s' : output_inv es s -> step_slave e s = Some s' -> output_inv (es ++ [e]) s'.
Proof.
  intros [Hw Ho Hf] (child & holders & -> & Hh)%slave_cases. split; cbn -[written_by]; [by rewrite written_snoc, Hw| |done].
  destruct (se_relay s); [by rewrite Ho, app_assoc | by rewrite Ho, <- !app_assoc |].
  destruct (se_failed s); [by apply prefix_app_r|]. destruct Ho as [Ho H0]. destruct (Hh H0) as [-> ->]. by rewrite app_nil_r.
Qed.
Lemma output_step k fds es e s s' : output_inv es s -> session_step k fds e s = Some s' -> output_inv (es ++ [e]) s'.
Proof.
  intros Hinv Hs. destruct (about_output e) eqn:He.
  - assert (Hcase : step_slave e s = Some s' \/ step_relay e s = Some s' /\ written_by [e] = []) by (destruct e; try done; auto).
    destruct Hcase as [Hc|[Hc Hn]]; [by eapply slave_output|].
    destruct (relay_output _ _ _ _ Hinv Hc) as [Hw Ho Hf]. split; [|done..]. by rewrite written_snoc, Hn, app_nil_r.
  - destruct Hinv as [Hw Ho Hf]. destruct (output_kept _ _ _ _ _ He Hs) as (H1 & H2 & H3 & H4 & H5 & H6).
    split; rewrite ?H1, ?H2, ?H3, ?H4, ?H5, ?H6; try done. rewrite written_snoc, Hw.
    destruct e; try done; cbn; by rewrite app_nil_r.
Qed.
(** What the steps of the command itself do. *)
Lemma command_cases k fds e s s' : step_command k fds e s = Some s' ->
  (exists r, e = WaitReturns /\ se_progress s = Running /\ se_child s = Some r /\ s' = with_progress (Exited (guest_exit_code r)) s) \/
  (exists code, e = CommandReturns /\ se_progress s = Exited code /\ se_relay s = Stopped /\ s' = deferred k fds code s).
Proof.
  unfold step_command. intros Hs. destruct e; try done; destruct (se_progress s) eqn:Hp; try done.
  - apply bind_Some in Hs as (r & Hr & [= <-]). left. eauto.
  - destruct (se_relay s) eqn:Hr; simplify_eq. right. eauto.
Qed.
(** The steps of the handlers. *)
Lemma handler_kept k fds e s s' : about_output e = false -> step_command k fds e s = None -> session_step k fds e s = Some s' ->
  tt_termios (se_tty s') = tt_termios (se_tty s) /\ se_saved s' = se_saved s /\ se_fds s' = se_fds s /\ se_notified s' = se_notified s /\
  se_progress s' = se_progress s /\ se_relay s' = se_relay s /\ se_child s' = se_child s.
Proof.
  intros He Hc Hs. destruct e; try done; unfold session_step in Hs; try congruence; cbn -[Nat.ltb Nat.leb drop take] in Hs;
    repeat case_match; simplify_eq; done.
Qed.
Lemma command_step k t fds es e s s' :
  pk_restore k = true -> command_inv k t fds es s -> session_step k fds e s = Some s' -> command_inv k t fds (es ++ [e]) s'.
Proof.
  intros Hk [Hs Hc Hp] Hstep. destruct (about_output e) eqn:He.
  - destruct (command_kept _ _ _ _ _ He Hstep) as (H1 & H2 & H3 & H4 & H5 & H6 & H7).
    split; rewrite ?H1, ?H2, ?H3, ?H4, ?H5; [done| |].
    + destruct H7 as [->|(r & -> & _ & ->)]; [intros r Hr; apply elem_of_app; left; by apply Hc|].
      intros ? [= ->]. apply elem_of_app. right. by left.
    + destruct H7 as [->|(r & _ & Hn & ->)]; destruct (se_progress s) as [|code|code]; try done.
      * destruct Hp as (? & ? & ? & ? & ?). split_and!; try done. by apply H6.
      * destruct Hp as (? & ? & ? & ?). congruence.
      * destruct Hp as (? & ? & ? & ? & ? & ? & ?). congruence.
  - destruct (step_command k fds e s) as [s1|] eqn:Hsc.
    + assert (s1 = s') as -> by (destruct e; try done; unfold session_step in Hstep; congruence).
      apply command_cases in Hsc as [(r & -> & Hpr & Hr & ->)|(code & -> & Hpr & Hre & ->)]; rewrite Hpr in Hp; split; cbn.
      * destruct Hs as [?|[? ?]]; [by left | congruence].
      * intros r' Hr'. apply elem_of_app. left. by apply Hc.
      * split; [done|]. by exists r.
      * right. by exists code.
      * intros r' Hr'. apply elem_of_app. left. by apply Hc.
      * destruct Hp as (_ & r & Hr & ->). split_and!; try done; [|by exists r]. destruct Hs as [?|[? ?]]; [done | congruence].
    + destruct (handler_kept _ _ _ _ _ He Hsc Hstep) as (H1 & H2 & H3 & H4 & H5 & H6 & H7).
      split; rewrite ?H1, ?H2, ?H3, ?H4, ?H5, ?H6, ?H7; try done. intros r Hr. apply elem_of_app. left. by apply Hc.
Qed.
(** * Lemmas: the end of a session *)
(** What the process does by itself, as opposed to the workload, the user and
    the terminal. *)
Definition own (e : session_event) : bool :=
  match e with
  | SizeFollowed | WinchStops | SignalForwarded | WaitReturns | RelayReads _ | RelayWrites | RelayWriteFails _ | RelayEnds
  | KeysCopied _ | CommandReturns => true
  | _ => false
  end.
Definition relay_weight (r : relay) : nat := match r with Reading => 1 | Writing _ => 2 | Stopped => 0 end.
Definition winch_weight (w : winch) : nat := match w with Listening true => 2 | Listening false => 1 | NotListening => 0 end.
Definition progress_weight (p : progress) : nat := match p with Running => 2 | Exited _ => 1 | Returned _ => 0 end.
Definition steps_left (s : session) : nat :=
  2 * length (se_buffered s) + relay_weight (se_relay s) + winch_weight (se_winch s) + progress_weight (se_progress s)
  + length (se_queue s) + (length (se_typed s) - length (se_input s)).
Definition command_over (s : session) : bool := match se_progress s with Returned _ => true | _ => false end.
Lemma session_own_measure k fds e s s' : own e = true -> session_step k fds e s = Some s' ->
  (steps_left s' < steps_left s)%nat /\ se_child s' = se_child s /\ se_holders s' = se_holders s.
Proof.
  intros He Hs. unfold steps_left.
  destruct e; try done; unfold session_step in Hs.
  1-2: unfold step_size in Hs; destruct (se_winch s) as [[]|] eqn:Hw; repeat case_match; simplify_eq; cbn -[Nat.mul];
    repeat match goal with Hp : se_progress ?x = _ |- _ => rewrite Hp; clear Hp end; (split; [cbn -[Nat.mul]; lia | done]).
  1: unfold step_signal in Hs; destruct (se_queue s) eqn:Hq; simplify_eq; cbn -[Nat.mul]; (split; [lia | done]).
  1: apply command_cases in Hs as [(r & _ & Hp & _ & ->)|(? & ? & _)]; [|done]; csimpl; rewrite Hp; (split; [cbn; lia | done]).
  1-4: apply relay_cases in Hs as [(n0 & _ & Hr & Hn & ->)|[(c & _ & Hr & ->)|[(n0 & c & _ & Hr & ->)|(_ & Hr & Hh & Hb & ->)]]];
    cbn -[drop take Nat.mul]; rewrite Hr, ?length_drop; (split; [cbn -[Nat.mul]; lia | done]).
  1: cbn -[drop take Nat.ltb Nat.leb] in Hs; destruct (se_progress s) eqn:Hp; simplify_eq;
     (destruct (_ && _) eqn:Hn; simplify_eq; apply andb_true_iff in Hn as [H1%Nat.ltb_lt H2%Nat.leb_le];
      cbn -[drop take Nat.mul]; rewrite Hp; rewrite length_drop in H2; rewrite length_app, length_take, length_drop; (split; [cbn -[Nat.mul]; lia | done])).
  apply command_cases in Hs as [(? & ? & _)|(c & _ & Hp & _ & ->)]; [done|]; csimpl; rewrite Hp; (split; [cbn; lia | done]).
Qed.
#[local] Arguments steps_left : simpl never.
Lemma session_own_run k fds es s s' : forallb own es = true -> run_session k fds s es = Some s' ->
  (length es + steps_left s' <= steps_left s)%nat /\ se_child s' = se_child s /\ se_holders s' = se_holders s.
Proof.
  revert s. induction es as [|e es IH]; intros s Ho Hr; cbn -[session_step] in *; [by simplify_eq|].
  apply andb_true_iff in Ho as [He Ho]. apply bind_Some in Hr as (s1 & Hs & Hr).
  destruct (session_own_measure _ _ _ _ _ He Hs) as (Hm & <- & <-). destruct (IH s1 Ho Hr) as (Hl & -> & ->). split; [lia | done].
Qed.
Lemma own_step_enabled k fds s r : se_child s = Some r -> se_holders s = 0%nat -> command_over s = false ->
  exists e s', own e = true /\ session_step k fds e s = Some s'.
Proof.
  intros Hc Hh Ho. unfold command_over in Ho. destruct (se_progress s) as [|code|code] eqn:Hp; [| |done].
  - exists WaitReturns. eexists. split; [done|]. cbn. by rewrite Hp, Hc.
  - destruct (se_relay s) as [|chunk|] eqn:Hr.
    + destruct (se_buffered s) as [|x l] eqn:Hb.
      * exists RelayEnds. eexists. split; [done|]. cbn. by rewrite Hr, Hh, Hb.
      * exists (RelayReads 1). eexists. split; [done|]. cbn -[Nat.ltb Nat.leb]. rewrite Hr, Hb. cbn. reflexivity.
    + exists RelayWrites. eexists. split; [done|]. cbn. by rewrite Hr.
    + exists CommandReturns. eexists. split; [done|]. cbn. by rewrite Hp, Hr.
Qed.
Lemma session_completes n k fds s r : (steps_left s <= n)%nat -> se_child s = Some r -> se_holders s = 0%nat ->
  exists es s', forallb own es = true /\ run_session k fds s es = Some s' /\ command_over s' = true.
Proof.
  revert s. induction n as [n IH] using lt_wf_ind. intros s Hn Hc Hh.
  destruct (command_over s) eqn:Ho; [by exists [], s|].
  destruct (own_step_enabled k fds s r Hc Hh Ho) as (e & s1 & He & Hs).
  destruct (session_own_measure _ _ _ _ _ He Hs) as (Hm & Hc1 & Hh1).
  destruct (IH (steps_left s1) ltac:(lia) s1 (le_n _)) as (es & s' & H1 & H2 & H3); [congruence..|].
  exists (e :: es), s'. split_and!; [cbn; by rewrite He | cbn -[session_step]; by rewrite Hs | done].
Qed.
(** A session that has just begun. *)
Lemma on_pty_session k argv t fds s after : run_guest_command k argv t fds = OnTerminal s after ->
  pk_start k = true /\ after = fds /\ se_relay s = Reading /\ se_failed s = false /\
  se_written s = [] /\ se_stdout s = [] /\ se_buffered s = [] /\ se_child s = None /\ se_progress s = Running /\ se_notified s = true /\
  (make_raw k (tt_termios t) = (tt_termios (se_tty s), se_saved s)) /\ se_size s = tt_size t /\ se_winch s = Listening false /\
  tt_size (se_tty s) = default (tt_size t) (pk_resized k) /\ se_queue s = [] /\ se_sent s = [].
Proof.
  unfold run_guest_command, run_on_pty, run_with_stdio. intros H. destruct argv as [|a argv]; [done|].
  destruct (pk_isatty k); [|by destruct (pk_start k)]. destruct (open_pty k fds) as [fds' [[m sl]|]]; [|by destruct (pk_start k)].
  destruct (make_raw k (tt_termios t)) as [raw saved]. destruct (pk_start k); [|done]. injection H as <- <-. done.
Qed.
Lemma make_raw_restored k t raw saved : pk_restore k = true -> make_raw k t = (raw, saved) -> restore_termios k saved raw = t.
Proof. unfold make_raw, restore_termios. intros Hk. destruct (_ && _); intros [= <- <-]; by rewrite ?Hk. Qed.
Lemma session_run_inv k argv t fds s after es s' :
  pk_restore k = true -> run_guest_command k argv t fds = OnTerminal s after -> run_session k after s es = Some s' ->
  output_inv es s' /\ command_inv k (tt_termios t) fds es s'.
Proof.
  intros Hk H. destruct (on_pty_session _ _ _ _ _ _ H) as (_ & -> & Hr & Hf & Hw & Ho & Hb & Hc & Hp & Hn & Hraw & _).
  assert (H0 : output_inv [] s /\ command_inv k (tt_termios t) fds [] s).
  { split; split; rewrite ?Hr, ?Hw, ?Ho, ?Hb, ?Hf, ?Hc, ?Hp, ?Hn; try done. left. by apply make_raw_restored. }
  clear - H0 Hk. change es with ([] ++ es) at 2 3. revert s H0. generalize (@nil session_event).
  induction es as [|e es IH]; intros es0 s H0 Hrun; cbn -[session_step] in Hrun; [simplify_eq; by rewrite app_nil_r|].
  apply bind_Some in Hrun as (s1 & Hs & Hrun). rewrite cons_middle, app_assoc. apply (IH _ s1); [|done].
  destruct H0 as [H1 H2]. split; [by eapply output_step | by eapply command_step].
Qed.
(** * Lemmas: sizes and signals *)
Definition resized_in (es : list session_event) : bool := existsb (fun e => match e with Resized _ => true | _ => false end) es.
Definition size_inv (k : pty_kernel) (es : list session_event) (s : session) : Prop :=
  se_winch s = Listening false -> se_size s = tt_size (se_tty s) \/ (resized_in es = false /\ exists size, pk_resized k = Some size).
Lemma size_step k fds es e s s' : size_inv k es s -> session_step k fds e s = Some s' -> size_inv k (es ++ [e]) s'.
Proof.
  unfold size_inv, resized_in. intros Hinv Hs Hw. rewrite existsb_app.
  assert (Hkeep : (exists size, e = Resized size) \/ e = SizeFollowed \/
                  (se_size s' = se_size s /\ tt_size (se_tty s') = tt_size (se_tty s) /\ se_winch s = Listening false)).
  { destruct e; eauto; right; right; unfold session_step in Hs.
    2-3: unfold step_signal in Hs.
    4-7: unfold step_slave in Hs.
    9-12: unfold step_relay in Hs.
    1: unfold step_size in Hs.
    all: try (unfold step_command in Hs; destruct (se_progress s); try done).
    all: try (unfold step_keys in Hs).
    all: try (apply bind_Some in Hs as (r & _ & [= <-]); done).
    all: repeat case_match; simplify_eq; done. }
  destruct Hkeep as [[size ->]|[->|(H1 & H2 & H3)]].
  - cbn in Hs. repeat case_match; simplify_eq; congruence.
  - left. cbn in Hs. repeat case_match; simplify_eq. done.
  - rewrite H1, H2. destruct (Hinv H3) as [?|[Hr ?]]; [by left|]. 
    destruct e; try (right; cbn; by rewrite Hr, ?orb_false_r). 
    cbn in Hs. rewrite H3 in Hs. by simplify_eq.
Qed.
Definition arrivals (es : list session_event) : list Z :=
  concat (map (fun e => match e with SignalArrives sig => [sig] | _ => [] end) es).
Lemma arrivals_snoc es e : arrivals (es ++ [e]) = arrivals es ++ arrivals [e].
Proof. unfold arrivals. by rewrite map_app, concat_app. Qed.
Definition passes (sig : Z) : bool := negb (bool_decide (sig ∈ [SIGCHLD; SIGWINCH])).
Definition passed_on (l : list Z) : list Z := filter passes l.
Record signal_inv (es : list session_event) (s : session) : Prop := SignalInv {
  si_subset : se_sent s ++ passed_on (se_queue s) `sublist_of` passed_on (arrivals es);
  si_length : (length (se_queue s) <= length (arrivals es))%nat;
  si_running : se_child s = None -> se_notified s = true /\ se_progress s = Running;
  si_all : (length (arrivals es) <= signal_capacity)%nat -> se_child s = None ->
           se_sent s ++ passed_on (se_queue s) = passed_on (arrivals es) }.
Lemma passed_on_app l1 l2 : passed_on (l1 ++ l2) = passed_on l1 ++ passed_on l2.
Proof. apply filter_app. Qed.
Lemma signals_kept k fds e s s' : (forall sig, e <> SignalArrives sig) -> e <> SignalForwarded -> session_step k fds e s = Some s' ->
  (se_child s = None -> se_notified s = true /\ se_progress s = Running) ->
  se_queue s' = se_queue s /\ se_sent s' = se_sent s /\
  (se_child s' = None -> se_child s = None /\ se_notified s' = true /\ se_progress s' = Running).
Proof.
  intros H1 H2 Hs Hr. destruct e; try (by destruct (H1 sig)); try done; unfold session_step in Hs.
  all: try (apply command_cases in Hs as [(r & _ & Hp & Hc & ->)|(code & _ & Hp & Hre & ->)]; cbn; split_and!; try done; intros Hx;
            destruct (Hr Hx) as [? ?]; congruence).
  all: unfold step_size, step_slave, step_relay, step_keys in Hs; repeat case_match; simplify_eq; split_and!; try done;
    cbn; intros Hx; try done; destruct (Hr Hx); split_and!; congruence.
Qed.
Lemma signal_step k fds es e s s' : signal_inv es s -> session_step k fds e s = Some s' -> signal_inv (es ++ [e]) s'.
Proof.
  intros [Hsub Hlen Hrun Hall] Hs.
  assert (Hcase : (exists sig, e = SignalArrives sig) \/ e = SignalForwarded \/ ((forall sig, e <> SignalArrives sig) /\ e <> SignalForwarded))
    by (destruct e; eauto; right; right; done).
  destruct Hcase as [[sig ->]|[->|[H1 H2]]].
  - assert (Hsnoc : passed_on (arrivals (es ++ [SignalArrives sig])) = passed_on (arrivals es) ++ passed_on [sig])
      by (rewrite arrivals_snoc, passed_on_app; done).
    assert (Hl : length (arrivals (es ++ [SignalArrives sig])) = S (length (arrivals es)))
      by (rewrite arrivals_snoc, length_app; cbn; lia).
    unfold session_step, step_signal in Hs. destruct (se_notified s && _) eqn:Hn; simplify_eq.
    + split; cbn [se_queue se_sent se_child se_notified se_progress with_signals]; rewrite ?Hsnoc, ?Hl, ?passed_on_app, ?app_assoc;
        [by apply sublist_app| rewrite length_app; cbn; lia | done | intros ? ?; rewrite Hall; [done | lia | done]].
    + split; rewrite ?Hsnoc, ?Hl; [by apply sublist_inserts_r | lia | done |].
      intros Hc Hx. exfalso. destruct (Hrun Hx) as [Hno _]. rewrite Hno in Hn. apply Nat.ltb_ge in Hn. unfold signal_capacity in *. lia.
  - assert (Hsnoc : arrivals (es ++ [SignalForwarded]) = arrivals es) by (rewrite arrivals_snoc; apply app_nil_r).
    unfold session_step, step_signal in Hs. destruct (se_queue s) as [|sig q] eqn:Hq; simplify_eq.
    assert (Hf : forwarded [SIGCHLD; SIGWINCH] (se_child s) sig `sublist_of` passed_on [sig] /\
                 (se_child s = None -> forwarded [SIGCHLD; SIGWINCH] (se_child s) sig = passed_on [sig])).
    { unfold forwarded, passed_on, passes. cbn [filter list_filter]. destruct (bool_decide _) eqn:Hb; cbn.
      - by destruct (decide _).
      - destruct (decide _) as [|Hd]; [|done]. destruct (se_child s); split; try done; apply sublist_nil_l. }
    change (sig :: q) with ([sig] ++ q) in *. rewrite passed_on_app in *.
    split; cbn [se_queue se_sent se_child se_notified se_progress with_signals]; rewrite ?Hsnoc, <- ?app_assoc;
      [|cbn in *; lia|done|].
    + etrans; [|exact Hsub]. apply sublist_app; [done|]. apply sublist_app; [apply Hf | done].
    + intros Hl Hx. rewrite (proj2 Hf Hx). by apply Hall.
  - destruct (signals_kept _ _ _ _ _ H1 H2 Hs Hrun) as (Hq & Hse & Hc).
    assert (Hsnoc : arrivals (es ++ [e]) = arrivals es) by (rewrite arrivals_snoc; destruct e; try apply app_nil_r; by destruct (H1 sig)).
    split; rewrite ?Hq, ?Hse, ?Hsnoc; try done; [intros Hx; apply (Hc Hx)|]. intros Hl Hx. apply Hall; [done | by apply Hc].
Qed.
Lemma open_pty_descriptors k fds :
  match open_pty k fds with
  | (fds', Ok (master, slave)) => fds' = fds ++ [master; slave]
  | (fds', Err _) => fds' = fds
  end.
Proof. unfold open_pty. repeat case_match; by simplify_eq. Qed.
Lemma not_started_restored k argv t fds code t' fds' :
  pk_restore k = true -> run_guest_command k argv t fds = NotStarted code t' fds' ->
  code = 127 /\ t' = t /\ (fds' = fds \/ exists slave, fds' = fds ++ [slave]).
Proof.
  intros Hk. unfold run_guest_command, run_on_pty, run_with_stdio. pose proof (open_pty_descriptors k fds) as Ho.
  destruct argv as [|a argv]; [intros [= <- <- <-]; auto|]. destruct (pk_isatty k).
  - destruct (open_pty k fds) as [fs [[m sl]|]].
    + destruct (make_raw k (tt_termios t)) as [raw saved] eqn:Hraw. destruct (pk_start k); [done|]. intros [= <- <- <-].
      rewrite (make_raw_restored _ _ _ _ Hk Hraw). destruct t. eauto.
    + destruct (pk_start k); [done|]. intros [= <- <- <-]. auto.
  - destruct (pk_start k); [done|]. intros [= <- <- <-]. auto.
Qed.

(** The pseudo-terminal follows the real one: as long as resizes are
    watched and none is waiting to be handled, both have the same size, unless
    the only resize so far came before the handler was registered.  And the
    workload gets the signals the process gets, in order, without those of
    children and resizes; while at most eight signals have come, it gets all of
    them. *)
Theorem terminal_follows k argv t fds s after es s1 :
  run_guest_command k argv t fds = OnTerminal s after -> run_session k after s es = Some s1 ->
  (se_winch s1 = Listening false -> (pk_resized k = None \/ resized_in es = true) -> se_size s1 = tt_size (se_tty s1)) /\
  se_sent s1 `sublist_of` passed_on (arrivals es) /\
  ((length (arrivals es) <= signal_capacity)%nat -> se_child s1 = None ->
   se_sent s1 ++ passed_on (se_queue s1) = passed_on (arrivals es)).
Proof.
  intros Hr Hrun. destruct (on_pty_session _ _ _ _ _ _ Hr) as (_ & _ & _ & _ & _ & _ & _ & Hc & Hp & Hn & _ & Hsz & Hw & Htt & Hq & Hse).
  assert (Hinv : size_inv k [] s /\ signal_inv [] s).
  { split; [|split; by rewrite ?Hq, ?Hse].
    intros _. rewrite Hsz, Htt. destruct (pk_resized k) as [z|]; [right; eauto | by left]. }
  assert (Hall : size_inv k es s1 /\ signal_inv es s1).
  { clear - Hinv Hrun. change es with ([] ++ es). revert s Hinv Hrun. generalize (@nil session_event).
    induction es as [|e es IH]; intros es0 s Hinv Hrun; cbn -[session_step] in Hrun; [simplify_eq; by rewrite app_nil_r|].
    apply bind_Some in Hrun as (s2 & Hs & Hrun). rewrite cons_middle, app_assoc. apply (IH _ s2); [|done].
    destruct Hinv as [H1 H2]. split; [by eapply size_step | by eapply signal_step]. }
  destruct Hall as [Hz [Hsub _ _ Hsig]]. split_and!; [|by etrans; [apply sublist_inserts_r|exact Hsub]|done].
  intros H1 H2. destruct (Hz H1) as [?|[H3 [z H4]]]; [done|]. destruct H2; congruence.
Qed.

(** * Witnesses *)
Module Example_.
Definition cooked : termios := Termios 17664 5 191 35387 0 [3; 28; 127; 21; 4; 0; 1; 0; 17; 19; 26; 0; 18; 15; 23; 22; 0; 0; 0].
Definition screen : tty := Tty cooked (80, 24).
(** A kernel that answers the documented requests. *)
Definition linux (request : Z) : option Z :=
  if request =? TIOCSPTLCK then Some 0 else if request =? TIOCGPTN then Some 3 else if request =? TIOCGPTPEER then Some 9 else None.
Definition kernel : pty_kernel :=
  PtyKernel true true true true (Some 5%nat) linux (fun path => if seqb path $"/dev/pts/3" then Some 6%nat else None) true None.
Example raw_mode : raw_of cooked = Termios 16384 4 191 2608 0 [3; 28; 127; 21; 4; 0; 1; 0; 17; 19; 26; 0; 18; 15; 23; 22; 0; 0; 0].
Proof. vm_compute. reflexivity. Qed.
(** The open flags are part of the request number, which no kernel knows: the
    slave is always opened by its path. *)
Example peer_never_asked :
  ors [TIOCGPTPEER; O_RDWR; O_NOCTTY; O_CLOEXEC] <> TIOCGPTPEER /\ open_pty kernel [] = ([5%nat; 6%nat], Ok (5%nat, 6%nat)) /\
  open_pty (PtyKernel true true true true (Some 5%nat) linux (fun _ => None) true None) [] = ([], Err (OpenSlave ($"/dev/pts/3"))).
Proof. vm_compute. done. Qed.
Definition argv : list gostring := [$"sh"].
Definition begun : session :=
  Session (Tty (raw_of cooked) (80, 24)) (Some cooked) (80, 24) [5%nat] None 1 [] [] [] Reading false (Listening false) [] true [] [] [] Running.
Lemma begins : run_guest_command kernel argv screen [] = OnTerminal begun [].
Proof. vm_compute. reflexivity. Defined.
(** A resize, an interrupt, output, and the end. *)
Definition story : list session_event :=
  [SlaveWrites ($"hello"); Resized (100, 30); SignalArrives SIGWINCH; SizeFollowed; RelayReads 5; SignalArrives 2; SignalForwarded; SignalForwarded;
   RelayWrites; ChildExits (RunSignaled 2); SlaveClosed; WaitReturns; RelayEnds; CommandReturns].
Definition over : session := default begun (run_session kernel [] begun story).
Lemma story_runs : run_session kernel [] begun story = Some over.
Proof. vm_compute. reflexivity. Defined.
(** A process in the background keeps the guest from returning. *)
Definition background : list session_event := [SlaveOpened; ChildExits RunOk; SlaveClosed; WaitReturns].
Definition waiting : session := default begun (run_session kernel [] begun background).
Lemma terminal_follows_witness : se_size over = (100, 30) /\ se_sent over = [2].
Proof.
  pose proof (terminal_follows kernel argv screen [] begun []) as H. specialize (H (take 8 story) (default begun (run_session kernel [] begun (take 8 story)))).
  specialize (H begins ltac:(vm_compute; reflexivity)). destruct H as [H _].
  assert (Hs := H ltac:(vm_compute; reflexivity) ltac:(by left)). vm_compute in Hs. split; vm_compute; reflexivity.
Defined.
(** The size is read before resizes are watched. *)
Example early_resize_lost :
  let k := PtyKernel true true true true (Some 5%nat) linux (fun _ => Some 6%nat) true (Some (120, 40)) in
  match run_guest_command k argv screen [] with
  | OnTerminal s _ => se_size s = (80, 24) /\ tt_size (se_tty s) = (120, 40) /\ se_winch s = Listening false
  | _ => False
  end.
Proof. vm_compute. done. Qed.
Example workload_not_found :
  run_guest_command (PtyKernel true true true true (Some 5%nat) linux (fun _ => Some 6%nat) false None) argv screen [0%nat] =
  NotStarted 127 screen [0%nat; 6%nat].
Proof. vm_compute. reflexivity. Qed.
Example plain_signals :
  stdio_run [Arrives SIGWINCH; Arrives SIGCHLD; Arrives 15; Forwarded; Forwarded; Forwarded; Exits (RunSignaled 15)] = ([SIGWINCH; 15], Some 143).
Proof. vm_compute. reflexivity. Qed.
End Example_.
