(* ===== verification/GuestMain.v ===== *)
(** The resident process of the sandbox, [guestMain] and what it starts, in
    [internal/orchestrator/guest.go]: from the arguments and the environment
    bwrap gives it to the channels it serves and the workload it runs.

    [GuestEnv] has the parts that only compute; here they meet the kernel's
    answers to the binds, the terminal ([Terminal]) and, in the theorems, the
    plan that the host built. *)
From S2P Require Import GoStrings GoPath GoNet ConfigTypes ConfigMerge Templates BwrapArgs GuestEnv Ports Tunnel PlanBuilder Services Stage Terminal.
Local Open Scope go_scope.

(** * Dispatch *)
Inductive dispatched := ToStage | ToGuest | ToReexec | ToCommandLine.
(** [reexec] is [reexec.Init] of the library. *)
Definition init_guest_dispatch (reexec : list gostring -> bool) (argv : list gostring) : dispatched :=
  let fallback := if reexec argv then ToReexec else ToCommandLine in
  match argv with
  | _ :: a1 :: _ => if seqb a1 NetnsStageCommandName then ToStage else if seqb a1 GuestCommandName then ToGuest else fallback
  | _ => fallback
  end.

(** * Bridges *)
Definition SocketPath : gostring := $"/run/keg/runner.sock".
(** Which TCP addresses are free, and whether the socket of the runner can be
    made; the bridges bind different addresses unless the markers say otherwise. *)
Record guest_os := GuestOS { go_free : gostring -> bool; go_mkdir : gostring -> bool; go_bind_unix : gostring -> bool }.
(** A channel that is served, on its descriptor. *)
Inductive served :=
  | ServesProxy (fd : nat) (addr : gostring)
  | ServesPorts (fd : nat) (allowed : gmap Z bool)
  | ServesHosts (fd : nat) (ports : list Z)
  | ServesRunner (fd : nat) (path : gostring).
Definition loopback_addr (port : Z) : gostring := join_host_port loopback (itoa port).
(** The four start functions; [None] when the channel is not served. *)
Definition start_bridge (os : guest_os) (b : bridge) : option served :=
  match b with
  | ProxyBridge addr => if go_free os addr then Some (ServesProxy FDProxy addr) else None
  | PortForwarder marker =>
      match parse_allowed marker with Ok allowed => Some (ServesPorts FDPorts allowed) | Err _ => None end
  | HostForwarder marker =>
      match parse_forward_hosts_env marker with
      | Err _ => None
      | Ok specs =>
          match guest_listeners (fun open p => go_free os (loopback_addr p) && negb (bool_decide (p ∈ open))) [] (map fh_guest specs) with
          | Ok ports => Some (ServesHosts FDHostForward ports)
          | Err _ => None
          end
      end
  | RunnerBridge => if go_mkdir os (path_dir SocketPath) && go_bind_unix os SocketPath then Some (ServesRunner FDRunner SocketPath) else None
  end.
Definition start_configured_bridges (os : guest_os) (env : strmap) : list served := omap (start_bridge os) (configured_bridges env).

(** * The guest *)
(** The environment after the preparation, the Landlock rule set that was asked
    for, what is served, and the workload. *)
Record guest_process := GuestProcess {
  gp_env : strmap; gp_landlock : option ruleset_config; gp_served : list served; gp_run : guest_run }.
Definition guest_main (os : guest_os) (k : pty_kernel) (argv : list gostring) (env : strmap) (cwd : gostring) (t : tty)
  : guest_process :=
  let '(env, landlock) := prepare_guest_process env cwd in
  GuestProcess env landlock (start_configured_bridges os env)
    (match guest_args argv with
     | None => NotStarted 127 t []
     | Some workload => run_guest_command k workload t []
     end).

(** * Lemmas: markers *)
(** The markers that the guest reads; Landlock's two are taken away. *)
Definition channel_markers : list gostring := [EnvProxyBridge; EnvPortsForward; EnvForwardHosts; EnvDelegation].
Lemma channel_marker_cases k : k ∈ channel_markers ->
  k = EnvProxyBridge \/ k = EnvPortsForward \/ k = EnvForwardHosts \/ k = EnvDelegation.
Proof. unfold channel_markers. rewrite !elem_of_cons, elem_of_nil. tauto. Qed.
Lemma prepared_marker genv cwd k : k ∈ channel_markers -> fst (prepare_guest_process genv cwd) !! k = genv !! k.
Proof.
  intros [->|[->|[->| ->]]]%channel_marker_cases; rewrite prepare_lookup by done; cbv zeta; by rewrite !andb_false_r.
Qed.
Lemma marker_boundary marshal b host k : k ∈ channel_markers -> host k = None ->
  boundary_value marshal b host k = env_set_vars b !! k.
Proof.
  intros Hk Hh. unfold boundary_value. rewrite Hh.
  apply channel_marker_cases in Hk as [->|[->|[->| ->]]]; cbn -[lookup]; destruct (env_set_vars b !! _); try done; by repeat case_match.
Qed.
Lemma configured_bridges_ext env env' : (forall k, k ∈ channel_markers -> env !! k = env' !! k) -> configured_bridges env = configured_bridges env'.
Proof.
  intros H. unfold configured_bridges, getenv. rewrite !H; [done| | | |]; unfold channel_markers; rewrite !elem_of_cons; tauto.
Qed.
Lemma bridge_configured env br :
  br ∈ configured_bridges env <->
  match br with
  | ProxyBridge addr => getenv env EnvProxyBridge = addr /\ proxy_on addr = true
  | PortForwarder m => getenv env EnvPortsForward = m /\ m <> []
  | HostForwarder m => getenv env EnvForwardHosts = m /\ m <> []
  | RunnerBridge => getenv env EnvDelegation = $"1"
  end.
Proof.
  unfold configured_bridges. cbv zeta. rewrite !elem_of_app.
  assert (Hif : forall (c : bool) (x y : bridge), y ∈ (if c then [x] else []) <-> c = true /\ y = x)
    by (intros [] x y; rewrite ?list_elem_of_singleton, ?elem_of_nil; naive_solver).
  rewrite !Hif, !negb_true_iff, !is_empty_false, seqb_eq. destruct br; naive_solver.
Qed.
Lemma bridge_served os env br x : br ∈ configured_bridges env -> start_bridge os br = Some x -> x ∈ start_configured_bridges os env.
Proof. intros. apply list_elem_of_omap. eauto. Qed.
Lemma marker_nonempty specs : specs <> [] -> Forall forward_wf specs -> format_forward_hosts specs <> [].
Proof. intros Hne Hwf. destruct specs as [|s specs]; [done|]. by apply digit_ends_trim, join_forward_ends. Qed.
Lemma allowed_nonempty ports : ports <> [] -> Forall (fun x => valid_port (rp_guest x)) ports -> format_allowed ports <> [].
Proof.
  intros Hne Hv. destruct ports as [|p ports]; [done|]. apply Forall_cons in Hv as [Hv _].
  apply (join_nonempty $"," (itoa (rp_guest p))). by apply valid_port_itoa.
Qed.
(** The environment that bwrap makes out of a finite one. *)
Definition apply_ops (env : strmap) (ops : list bwrap_op) : strmap :=
  fold_left (fun env o => match o with Setenv k v => <[k := v]> env | Unsetenv k => delete k env | _ => env end) ops env.
Lemma apply_ops_lookup env ops host x : (forall y, env !! y = host y) -> apply_ops env ops !! x = env_after host ops x.
Proof.
  revert env host. induction ops as [|o ops IH]; intros env host Hh; [apply Hh|]. unfold apply_ops, env_after. cbn [fold_left].
  apply IH. intros y. destruct o as [|k v|k| |]; cbn [env_op]; try apply Hh; destruct (seqb_spec y k) as [->|Hne];
    rewrite ?lookup_insert_eq, ?lookup_insert_ne, ?lookup_delete_eq, ?lookup_delete_ne by congruence; try done; apply Hh.
Qed.

Section plans.
Context `{TemplateLib, UnicodeCase, MapRangeLaws gostring, MapRangeLaws secret_source, MapRangeLaws exec_source}.
Context (order1 order2 : MapRange repo_override) {L1 : @MapRangeLaws _ order1} {L2 : @MapRangeLaws _ order2}.
Context (h : PlanBuilder.host).
(** The markers that a plan sets. *)
Lemma plan_markers q t p u : build_plan order1 order2 h q = (t, Ok (p, u)) ->
  let env := env_set_vars (fp_bwrap p) in
  (fp_transparent p = false -> fp_sni p <> [] -> env !! EnvProxyBridge = Some default_bridge_addr) /\
  (fp_ports p <> [] -> env !! EnvPortsForward = Some (format_allowed (fp_ports p))) /\
  (fp_forward p <> [] -> env !! EnvForwardHosts = Some (format_forward_hosts (fp_forward p))) /\
  (enable_runner (fp_bwrap p) = true -> env !! EnvDelegation = Some $"1").
Proof.
  intros Hplan. apply build_plan_ok in Hplan as (c & r0 & env & tr & t0 & t1 & t2 & t3 & t4 & t5 & t6 & t7 & t8 & t9 & -> & _ & Hr0 &
    _ & Hr & _ & _ & _ & Hlang & _ & Hports & _).
  apply language_templates_ok in Hlang as (tm & te & Htpl & ->). apply add_ports_ok in Hports as [Hnone Hports].
  cbv zeta. unfold assemble. cbn [env_set_vars fp_bwrap enable_runner fp_forward fp_ports fp_sni fp_transparent].
  set (eff := effective _ _ _ _) in *.
  rewrite !final_env_lookup, !Hports, !base_env_lookup. split_and!.
  - intros [Hmode _]%orb_false_iff Hsni. rewrite Hmode. cbn [first_of only_for seqb andb].
    destruct (port_env (pc_ports c) !! EnvProxyBridge) eqn:Hp; [apply port_env_names in Hp; done|].
    unfold proxy_env. destruct (plan_sni (pc_repo c) eff) as [|d l] eqn:Hd; [done|]. cbn [length Nat.eqb].
    rewrite !lookup_insert_ne by done. by rewrite lookup_singleton_eq.
  - intros Hp. destruct (length (r_ports (pc_repo c)) =? 0) eqn:Hl; [by rewrite Hnone in Hp|].
    assert (Hlt : (0 <? length (r_ports (pc_repo c))) = true) by (apply Nat.ltb_lt; apply Nat.eqb_neq in Hl; lia). by rewrite Hlt.
  - intros Hf. destruct (r_forward (pc_repo c)); done.
  - intros ->. done.
Qed.

(** * Properties *)
(** C16: The guest serves what was planned.  Take the plan of a configuration
    and any bubblewrap plan with its environment, with the path of keg's own
    binary and without raw bwrap arguments, and run the command line that
    is built for it on a host without keg's markers.  The process in the sandbox
    dispatches to the guest, which serves exactly the channels that the plan's
    environment asks for and the kernel lets it bind, and runs the plan's
    command whatever it could serve.  In a plan with domains that is not
    transparent, the proxy's bridge has the address that the plan's proxy
    variables point at, if that is free.  If the guest ports of the plan are
    valid, the port back-channel reaches exactly the declared ones, whatever a
    stream carries.  The declared forwards have their listeners if all of them
    are well formed (valid ports, and a target that is not empty and has no
    colon, comma or bracket, so no IPv6 address), their guest ports differ and
    are free; otherwise there may be none at all.  The runner's socket is there
    when delegation is enabled and its directory and socket can be made. *)
Theorem guest_serves_the_plan (q : request) (t : list effect) (p : full_plan) (u : user) (b : plan)
    (marshal : env_keep_marker -> option gostring) (args : list gostring) (ops : list bwrap_op) (cmd : list gostring)
    (host : gostring -> option gostring) (genv : strmap) (os : guest_os) (k : pty_kernel) (cwd : gostring) (term : tty)
    (reexec : list gostring -> bool)
    (Hplan : build_plan order1 order2 h q = (t, Ok (p, u)))
    (Henv : env_set_vars b = env_set_vars (fp_bwrap p)) (Hself : self_exe b <> []) (Hraw : bwrap_args b = [])
    (Hbuild : build_args marshal b = Ok args) (Hparse : parse_ops args = Some (ops, cmd))
    (Hgenv : forall x, genv !! x = env_after host ops x) (Hhost : forall x, x ∈ channel_markers -> host x = None) :
  let g := guest_main os k cmd genv cwd term in
  init_guest_dispatch reexec cmd = ToGuest /\
  gp_run g = run_guest_command k (p_command b) term [] /\
  gp_served g = start_configured_bridges os (env_set_vars (fp_bwrap p)) /\
  (fp_transparent p = false -> fp_sni p <> [] -> go_free os default_bridge_addr = true ->
     ServesProxy FDProxy default_bridge_addr ∈ gp_served g) /\
  (fp_ports p <> [] -> Forall (fun x => valid_port (rp_guest x)) (fp_ports p) ->
     exists allowed, ServesPorts FDPorts allowed ∈ gp_served g /\
       (forall x, x ∈ fp_ports p -> exists hdr, encode_target (rp_guest x) = Some hdr /\
          forall rest, handle_guest_stream allowed (hdr ++ rest) = Some (loopback_addr (rp_guest x))) /\
       (forall stream addr, handle_guest_stream allowed stream = Some addr ->
          exists x, x ∈ fp_ports p /\ addr = loopback_addr (rp_guest x))) /\
  (fp_forward p <> [] -> Forall forward_wf (fp_forward p) -> NoDup (map fh_guest (fp_forward p)) ->
     (forall x, x ∈ fp_forward p -> go_free os (loopback_addr (fh_guest x)) = true) ->
     ServesHosts FDHostForward (map fh_guest (fp_forward p)) ∈ gp_served g) /\
  (enable_runner (fp_bwrap p) = true -> go_mkdir os (path_dir SocketPath) = true -> go_bind_unix os SocketPath = true ->
     ServesRunner FDRunner SocketPath ∈ gp_served g).
Proof.
  intros g. destruct (build_args_parses _ _ _ Hbuild Hraw) as (marker & _ & Hp). rewrite Hp in Hparse. injection Hparse as <- <-.
  assert (Hcmd : command_args b = $"/.keg/keg" :: GuestCommandName :: p_command b)
    by (unfold command_args; by rewrite (proj2 (is_empty_false _) Hself)).
  assert (Hserved : gp_served g = start_configured_bridges os (env_set_vars (fp_bwrap p))).
  { assert (Hg : gp_served g = start_configured_bridges os (fst (prepare_guest_process genv cwd)))
      by (unfold g, guest_main; by destruct (prepare_guest_process genv cwd)).
    rewrite Hg. unfold start_configured_bridges. f_equal. apply configured_bridges_ext. intros x Hx.
    rewrite (prepared_marker _ _ _ Hx), Hgenv, (env_after_boundary marshal b args _ _ host x Hraw Hbuild Hp), <- Henv.
    apply marker_boundary; auto. }
  destruct (plan_markers _ _ _ _ Hplan) as (Hproxy & Hports & Hfw & Hrun). rewrite Hserved.
  split_and!.
  - by rewrite Hcmd.
  - unfold g, guest_main. destruct (prepare_guest_process genv cwd). cbn [gp_run]. rewrite Hcmd. by destruct (p_command b).
  - done.
  - intros Hm Hs Hfree. apply (bridge_served os _ (ProxyBridge default_bridge_addr)); [|unfold start_bridge; by rewrite Hfree].
    apply bridge_configured. unfold getenv. by rewrite (Hproxy Hm Hs).
  - intros Hne Hv. destruct (parse_format_allowed _ Hv) as (allowed & Ha & Hiff). exists allowed.
    split; [|by apply guest_stream_reaches]. apply (bridge_served os _ (PortForwarder (format_allowed (fp_ports p)))); [|cbn; by rewrite Ha].
    apply bridge_configured. unfold getenv. rewrite (Hports Hne). split; [done | by apply allowed_nonempty].
  - intros Hne Hwf Hnd Hfree. apply (bridge_served os _ (HostForwarder (format_forward_hosts (fp_forward p)))).
    + apply bridge_configured. unfold getenv. rewrite (Hfw Hne). split; [done | by apply marker_nonempty].
    + unfold start_bridge. destruct (forward_hosts_roundtrip _ Hwf) as [-> _]. 
      rewrite (guest_listeners_all (fun x => go_free os (loopback_addr x))); [done | done |].
      apply forallb_forall. intros x Hx. apply list_elem_of_In, list_elem_of_fmap in Hx as (y & -> & Hy). by apply Hfree.
  - intros Hen Hmk Hun. apply (bridge_served os _ RunnerBridge).
    + apply bridge_configured. unfold getenv. by rewrite (Hrun Hen).
    + unfold start_bridge. by rewrite Hmk, Hun.
Qed.
End plans.

(** * Witnesses *)
Module Example_.
#[local] Existing Instance PlanBuilder.Example_.lower.
#[local] Existing Instance PlanBuilder.Example_.lib.
#[local] Existing Instance PlanBuilder.Example_.ranges.
#[local] Existing Instance PlanBuilder.Example_.ranges_laws.

Definition b1 : plan :=
  let b := fp_bwrap PlanBuilder.Example_.plan1 in
  Plan (repo_root b) (sandbox_home b) (resolv_conf b) (hosts_file b) (secret_dir b) (secret_path_binds b) (mounts b)
    (env_unset_vars b) (env_set_vars b) (env_inherit_vars b) (inherit_all b) [] false (p_overlay b) [] [] $"/usr/bin/keg"
    (enable_runner b) (extra_dirs b) (prepend_dirs b) (append_dirs b) 0 [$"make"].
Definition marshal1 : env_keep_marker -> option gostring := fun _ => Some $"m".
Definition ops1 : list bwrap_op := plan_ops b1 $"m".
Definition genv1 : strmap := apply_ops ∅ ops1.
Definition free_os : guest_os := GuestOS (fun _ => true) (fun _ => true) (fun _ => true).
Definition guest1 : guest_process := guest_main free_os Terminal.Example_.kernel (command_args b1) genv1 $"/w/app" Terminal.Example_.screen.
Lemma guest_serves_the_plan_witness :
  init_guest_dispatch (fun _ => false) (command_args b1) = ToGuest /\ ServesRunner FDRunner SocketPath ∈ gp_served guest1.
Proof.
  assert (Hb : exists args, build_args marshal1 b1 = Ok args /\ parse_ops args = Some (ops1, command_args b1)).
  { assert (Hb : exists args, build_args marshal1 b1 = Ok args) by (eexists; reflexivity). destruct Hb as [args Hb].
    destruct (build_args_parses _ _ _ Hb eq_refl) as (m & Hm & Hp). injection Hm as <-. eauto. }
  destruct Hb as (args & Hb & Hp).
  pose proof (guest_serves_the_plan PlanBuilder.Example_.ranges PlanBuilder.Example_.ranges PlanBuilder.Example_.host1
    PlanBuilder.Example_.request1 (fst PlanBuilder.Example_.run1) PlanBuilder.Example_.plan1 PlanBuilder.Example_.user1 b1 marshal1 args ops1
    (command_args b1) (fun _ => None) genv1 free_os Terminal.Example_.kernel $"/w/app" Terminal.Example_.screen (fun _ => false)) as H.
  specialize (H PlanBuilder.Example_.run1_ok eq_refl ltac:(done) eq_refl Hb Hp).
  specialize (H (fun x => apply_ops_lookup ∅ ops1 (fun _ => None) x (fun y => lookup_empty y)) (fun _ _ => eq_refl)).
  destruct H as (Hd & _ & _ & _ & _ & _ & Hr). split; [exact Hd|]. apply Hr; vm_compute; reflexivity.
Defined.
(** What is served for the plan, and on a kernel that refuses every bind: the
    workload runs all the same. *)
Example served_all :
  gp_served guest1 = [ServesProxy 3 default_bridge_addr; ServesPorts 6 {[3000%Z := true]}; ServesRunner 5 SocketPath] /\
  gp_served (guest_main (GuestOS (fun _ => false) (fun _ => false) (fun _ => false)) Terminal.Example_.kernel (command_args b1) genv1
               $"/w/app" Terminal.Example_.screen) = [ServesPorts 6 {[3000%Z := true]}].
Proof. vm_compute. split; reflexivity. Qed.
Example dispatch_ex :
  map (init_guest_dispatch (fun argv => match argv with a :: _ => seqb a $"guest" | [] => false end))
    [[$"keg"; $"netns-stage"]; [$"/.keg/keg"; $"guest"; $"sh"]; [$"guest"; $"sh"]; [$"keg"; $"run"]; [$"keg"]]
  = [ToStage; ToGuest; ToReexec; ToCommandLine; ToCommandLine].
Proof. vm_compute. reflexivity. Qed.
(** Two forwards for the same port: none is served. *)
Example duplicate_forward :
  start_bridge free_os (HostForwarder (format_forward_hosts [ForwardHostSpec 5432 $"db.lan" 5432; ForwardHostSpec 5432 $"db2.lan" 5432])) = None.
Proof. vm_compute. reflexivity. Qed.
End Example_.
