(* ===== verification/Landlock.v ===== *)
(** The Landlock restriction of the guest: [internal/landlock/landlock.go], and
    its use in [applyLandlock] of [guest.go].

    [restrict] is [Restrict] on the credentials of the calling thread; the
    kernel answers every system call.  [permits] is what the kernel then lets
    the thread do. *)
From S2P Require Import GoStrings ConfigTypes GuestEnv.
Local Open Scope go_scope.
Local Open Scope Z_scope.

(** * Rights *)
Definition ACCESS_FS_EXECUTE : Z := 1.
Definition ACCESS_FS_WRITE_FILE : Z := 2.
Definition ACCESS_FS_READ_FILE : Z := 4.
Definition ACCESS_FS_READ_DIR : Z := 8.
Definition ACCESS_FS_REMOVE_DIR : Z := 16.
Definition ACCESS_FS_REMOVE_FILE : Z := 32.
Definition ACCESS_FS_MAKE_CHAR : Z := 64.
Definition ACCESS_FS_MAKE_DIR : Z := 128.
Definition ACCESS_FS_MAKE_REG : Z := 256.
Definition ACCESS_FS_MAKE_SOCK : Z := 512.
Definition ACCESS_FS_MAKE_FIFO : Z := 1024.
Definition ACCESS_FS_MAKE_BLOCK : Z := 2048.
Definition ACCESS_FS_MAKE_SYM : Z := 4096.
Definition ACCESS_FS_REFER : Z := 8192.
Definition ACCESS_FS_TRUNCATE : Z := 16384.
Definition lors (l : list Z) : Z := fold_left Z.lor l 0.
Definition read_mask : Z := lors [ACCESS_FS_EXECUTE; ACCESS_FS_READ_FILE; ACCESS_FS_READ_DIR].
Definition write_mask : Z :=
  lors [read_mask; ACCESS_FS_WRITE_FILE; ACCESS_FS_REMOVE_DIR; ACCESS_FS_REMOVE_FILE; ACCESS_FS_MAKE_CHAR; ACCESS_FS_MAKE_DIR;
        ACCESS_FS_MAKE_REG; ACCESS_FS_MAKE_SOCK; ACCESS_FS_MAKE_FIFO; ACCESS_FS_MAKE_BLOCK; ACCESS_FS_MAKE_SYM; ACCESS_FS_REFER;
        ACCESS_FS_TRUNCATE].

(** * Credentials *)
Record ruleset := Ruleset { rl_handled : Z; rl_rules : list (gostring * Z) }.
Record thread := Thread { no_new_privs : bool; domains : list ruleset }.
(** What a right on a path needs in every domain: that it is not handled, or
    that a rule beneath whose directory the path is gives it. *)
Definition beneath (dir path : gostring) : bool :=
  seqb dir $"/" || seqb path dir || has_prefix path (dir ++ $"/").
Definition domain_permits (r : ruleset) (path : gostring) (right : Z) : bool :=
  negb (Z.testbit (rl_handled r) right) ||
  existsb (fun rule => Z.testbit (snd rule) right && beneath (fst rule) path) (rl_rules r).
Definition permits (t : thread) (path : gostring) (right : Z) : bool :=
  forallb (fun r => domain_permits r path right) (domains t).

(** * Restrict *)
Definition ModeAuto : gostring := $"auto".
Definition ModeOn : gostring := $"on".
Definition ModeOff : gostring := $"off".
Inductive landlock_err := NotSupported | PrctlFailed | CreateFailed | RestrictFailed.
(** The kernel's answers; [k_abi] is [None] where the version cannot be asked. *)
Record kernel := Kernel {
  k_abi : option Z; k_prctl : bool; k_create : Z -> bool; k_open : gostring -> bool; k_add : gostring -> Z -> bool;
  k_restrict : bool }.
Definition available (k : kernel) : bool := match k_abi k with Some abi => 0 <? abi | None => false end.
(** One [for] loop over directories; every failure is skipped. *)
Definition add_rules (k : kernel) (mask : Z) (dirs : list gostring) (rules : list (gostring * Z)) : list (gostring * Z) :=
  fold_left (fun rules dir =>
    if is_empty dir then rules
    else if negb (k_open k dir) then rules
    else if k_add k dir mask then rules ++ [(dir, mask)] else rules) dirs rules.
Definition restrict (k : kernel) (cfg : ruleset_config) (t : thread) : thread * result landlock_err unit :=
  let on := seqb (ll_mode cfg) ModeOn in
  let refuse (t : thread) (e : landlock_err) := (t, if on then Err e else Ok tt) in
  if seqb (ll_mode cfg) ModeOff then (t, Ok tt)
  else if negb (available k) then refuse t NotSupported
  else if negb (k_prctl k) then refuse t PrctlFailed
  else
    let t := Thread true (domains t) in
    if negb (k_create k write_mask) then refuse t CreateFailed
    else
      let rules := add_rules k write_mask (writable_dirs cfg) (add_rules k read_mask (read_only_dirs cfg) []) in
      if k_restrict k then (Thread true (domains t ++ [Ruleset write_mask rules]), Ok tt)
      else refuse t RestrictFailed.
(** [applyLandlock]: the error is only printed. *)
Definition restrict_guest (k : kernel) (env : strmap) (cwd : gostring) (t : thread) : thread * bool :=
  match snd (apply_landlock env cwd) with
  | None => (t, false)
  | Some cfg => let '(t, r) := restrict k cfg t in (t, negb (is_ok r))
  end.

(** * Lemmas *)
Lemma add_rules_elem k mask dirs rules dir m :
  (dir, m) ∈ add_rules k mask dirs rules <->
  (dir, m) ∈ rules \/ (m = mask /\ dir ∈ dirs /\ dir <> [] /\ k_open k dir = true /\ k_add k dir mask = true).
Proof.
  unfold add_rules. revert rules. induction dirs as [|d dirs IH]; intros rules; cbn [fold_left].
  { split; [by left | intros [|(_ & ?%not_elem_of_nil & _)]; done]. }
  rewrite IH, elem_of_cons. clear IH. destruct (is_empty d) eqn:He.
  { apply is_empty_true in He as ->. intuition congruence. }
  destruct (k_open k d) eqn:Ho; cbn [negb]; [|intuition congruence].
  apply is_empty_false in He. destruct (k_add k d mask) eqn:Ha; [|intuition congruence].
  rewrite elem_of_app, list_elem_of_singleton. split.
  - intros [[Hr|[= -> ->]]|(-> & ?)]; [by left | right; auto | right; tauto].
  - intros [Hr|(-> & [->|Hd] & ?)]; [by left; left | by left; right | right; tauto].
Qed.
(** The rights that only a writable directory gives. *)
Definition write_rights : list Z := [1; 4; 5; 6; 7; 8; 9; 10; 11; 12; 13; 14].
Lemma write_rights_masks right :
  right ∈ write_rights -> Z.testbit write_mask right = true /\ Z.testbit read_mask right = false.
Proof.
  intros Hr. unfold write_rights in Hr. rewrite !elem_of_cons, elem_of_nil in Hr.
  repeat (destruct Hr as [->|Hr]; [split; reflexivity|]). done.
Qed.
Lemma permits_snoc t r path right :
  permits (Thread true (domains t ++ [r])) path right = permits t path right && domain_permits r path right.
Proof. unfold permits. cbn [domains]. rewrite forallb_app. cbn. by rewrite andb_true_r. Qed.

(** * Properties *)

Lemma refused cfg (t t' : thread) (e : landlock_err) :
  domains t' = domains t ->
  domains t' = domains t /\ is_ok (if seqb (ll_mode cfg) ModeOn then Err e else Ok tt) = negb (seqb (ll_mode cfg) ModeOn).
Proof. intros Ht. split; [done | by destruct (seqb (ll_mode cfg) ModeOn)]. Qed.
(** What [Restrict] leaves the thread with, for every answer of the kernel. *)
Definition restricted (k : kernel) (cfg : ruleset_config) (t : thread) : thread :=
  Thread true (domains t ++
    [Ruleset write_mask (add_rules k write_mask (writable_dirs cfg) (add_rules k read_mask (read_only_dirs cfg) []))]).
Definition enforceable (k : kernel) : bool := available k && k_prctl k && k_create k write_mask && k_restrict k.
(** [Restrict] adds exactly one domain or none.  It adds one when the mode is
    not off and the kernel takes part in every step; otherwise the domains stay
    as they are, which is an error in the mode on and silence in every other
    mode, a misspelled one included. *)
Theorem restrict_outcome (k : kernel) (cfg : ruleset_config) (t : thread) :
  let '(t', r) := restrict k cfg t in
  if negb (seqb (ll_mode cfg) ModeOff) && enforceable k then t' = restricted k cfg t /\ r = Ok tt
  else domains t' = domains t /\ is_ok r = negb (seqb (ll_mode cfg) ModeOn).
Proof.
  unfold restrict, enforceable, restricted. destruct (seqb (ll_mode cfg) ModeOff) eqn:Hoff; cbn [negb andb].
  { apply seqb_eq in Hoff as ->. done. }
  destruct (available k); [|by apply refused]. destruct (k_prctl k); [|by apply refused].
  cbn [negb andb]. destruct (k_create k write_mask); [|by apply refused].
  destruct (k_restrict k); [done | by apply refused].
Qed.

(** The domain of [restricted] on a right that changes the file system. *)
Lemma restricted_permits k cfg t path right :
  right ∈ write_rights ->
  permits (restricted k cfg t) path right = true <->
  permits t path right = true /\
  exists dir, dir ∈ writable_dirs cfg /\ dir <> [] /\ k_open k dir = true /\ k_add k dir write_mask = true /\
    beneath dir path = true.
Proof.
  intros [Hw Hr]%write_rights_masks. unfold restricted. rewrite permits_snoc, andb_true_iff.
  apply and_iff_compat_l. unfold domain_permits. cbn [rl_handled rl_rules]. rewrite Hw, orb_false_l, existsb_exists.
  split.
  - intros ([dir m] & Hin & [Hm Hb]%andb_true_iff). apply list_elem_of_In, add_rules_elem in Hin.
    destruct Hin as [Hin|(-> & ? & ? & ? & ?)]; [|by exists dir].
    apply add_rules_elem in Hin as [Hin%not_elem_of_nil|(-> & _)]; [done | cbn [snd] in Hm; by rewrite Hr in Hm].
  - intros (dir & ? & ? & ? & ? & ?). exists (dir, write_mask). split; [|by apply andb_true_iff].
    apply list_elem_of_In, add_rules_elem. by right.
Qed.
Lemma add_writable_elem writable extra dir :
  dir ∈ fold_left add_writable extra writable ->
  dir ∈ writable \/ exists x, x ∈ extra /\ dir = trim_space x.
Proof.
  revert writable. induction extra as [|x extra IH]; intros writable Hd; [by left|].
  apply IH in Hd as [Hd|(y & Hy & ->)]; [|right; exists y; split; [by apply elem_of_cons; right | done]].
  unfold add_writable in Hd. destruct (_ && _); [|by left].
  apply elem_of_app in Hd as [Hd|Hd%list_elem_of_singleton]; [by left|].
  right. exists x. split; [by apply elem_of_cons; left | done].
Qed.
Lemma guest_writable_dirs mode home cwd extra dir :
  dir ∈ writable_dirs (build_guest_landlock_config mode home cwd extra) ->
  dir ∈ [$"/tmp"; $"/dev"; home; cwd] \/ exists x, x ∈ extra /\ dir = trim_space x.
Proof.
  intros Hd%add_writable_elem. destruct Hd as [Hd|Hd]; [left|by right]. revert Hd.
  rewrite !elem_of_app, !elem_of_cons, elem_of_nil.
  destruct (negb (is_empty home)), (negb (is_empty cwd)); rewrite ?list_elem_of_singleton, ?elem_of_nil; tauto.
Qed.

(** C23: Once the guest's Restrict has succeeded with the mode on, the thread
    can use a right that changes the file system (write, remove, make, refer,
    truncate) on a path exactly if it could before and the path is, or is
    below, a writable directory that the kernel accepted; and the writable
    directories are among /tmp, /dev, the home, the working directory and the
    directories of the host's marker. *)
Theorem landlock_confines (k : kernel) (home cwd : gostring) (extra : list gostring) (t t' : thread)
    (path : gostring) (right : Z) :
  let cfg := build_guest_landlock_config ModeOn home cwd extra in
  restrict k cfg t = (t', Ok tt) -> right ∈ write_rights ->
  no_new_privs t' = true /\
  (permits t' path right = true <->
   permits t path right = true /\
   exists dir, dir ∈ writable_dirs cfg /\ dir <> [] /\ k_open k dir = true /\ k_add k dir write_mask = true /\
     beneath dir path = true) /\
  (forall dir, dir ∈ writable_dirs cfg ->
     dir ∈ [$"/tmp"; $"/dev"; home; cwd] \/ exists x, x ∈ extra /\ dir = trim_space x).
Proof.
  intros cfg Hr Hw. pose proof (restrict_outcome k cfg t) as Ho. rewrite Hr in Ho.
  assert (Hon : ll_mode cfg = ModeOn) by done. rewrite Hon in Ho.
  destruct (_ && _).
  - destruct Ho as [-> _]. split; [done|]. split; [by apply restricted_permits | apply guest_writable_dirs].
  - destruct Ho as [_ Ho]. vm_compute in Ho. done.
Qed.

(** * Examples *)
Module Example_.
Definition full_kernel : kernel := Kernel (Some 4) true (fun _ => true) (fun _ => true) (fun _ _ => true) true.
(** A kernel of ABI 1 knows the rights up to [MAKE_SYM]. *)
Definition old_kernel : kernel :=
  Kernel (Some 1) true (fun m => Z.land m (ACCESS_FS_REFER - 1) =? m) (fun _ => true) (fun _ _ => true) true.
Definition free : thread := Thread false [].
Definition guest_env : strmap := {[ EnvLandlock := ModeOn; EnvLandlockWritable := $"/cache" ]}.
Lemma landlock_confines_witness :
  permits (fst (restrict full_kernel (build_guest_landlock_config ModeOn $"/home/u" $"/work" [$" /cache "]) free)) $"/etc/passwd" 1
    = false /\
  (permits (fst (restrict full_kernel (build_guest_landlock_config ModeOn $"/home/u" $"/work" [$" /cache "]) free)) $"/work/a" 1
    = true <->
   permits free $"/work/a" 1 = true /\
   exists dir, dir ∈ writable_dirs (build_guest_landlock_config ModeOn $"/home/u" $"/work" [$" /cache "]) /\ dir <> [] /\
     true = true /\ true = true /\ beneath dir $"/work/a" = true).
Proof.
  split; [vm_compute; reflexivity|].
  pose proof (landlock_confines full_kernel $"/home/u" $"/work" [$" /cache "] free
    (fst (restrict full_kernel (build_guest_landlock_config ModeOn $"/home/u" $"/work" [$" /cache "]) free)) $"/work/a" 1) as H.
  specialize (H ltac:(vm_compute; reflexivity) ltac:(apply elem_of_cons; left; reflexivity)).
  exact (proj1 (proj2 H)).
Defined.
(** The mode on, and no support: the guest prints the error and goes on. *)
Example required_but_unrestricted :
  restrict_guest (Kernel None true (fun _ => true) (fun _ => true) (fun _ _ => true) true) guest_env $"/work" free = (free, true).
Proof. vm_compute. reflexivity. Qed.
(** The mode auto on a kernel that has Landlock but not [REFER] and
    [TRUNCATE]: no domain and no error. *)
Example auto_on_old_kernel :
  available old_kernel = true /\
  restrict old_kernel (build_guest_landlock_config ModeAuto $"/home/u" $"/work" []) free = (Thread true [], Ok tt).
Proof. vm_compute. split; reflexivity. Qed.
(** The system calls act on one thread: another thread of the process, started
    before, keeps its credentials. *)
Example other_threads_keep_theirs :
  map (fun t => permits t $"/etc/passwd" 1)
    [fst (restrict full_kernel (build_guest_landlock_config ModeOn $"/home/u" $"/work" []) free); free] = [false; true].
Proof. vm_compute. reflexivity. Qed.
(** The socket of the runner, [/run/keg/runner.sock], is made after [Restrict],
    where a restricted thread may make neither the directory nor the socket. *)
Example runner_socket_refused :
  let t := fst (restrict full_kernel (build_guest_landlock_config ModeAuto $"/home/u" $"/work" []) free) in
  map (fun right => permits t $"/run" (Z.log2 right)) [ACCESS_FS_MAKE_DIR; ACCESS_FS_MAKE_SOCK] = [false; false].
Proof. vm_compute. reflexivity. Qed.
End Example_.
