(* ===== verification/Storage.v ===== *)
(** Persistent layers: [internal/storage/storage.go].

    The file system is a map from component lists to nodes, and the system
    calls used are those of one unprivileged user on it: paths are resolved
    through symbolic links with search permission on the way.  [walk_tree] is
    [filepath.WalkDir] and [remove_all] [os.RemoveAll].  A tree walk runs on
    fuel: one unit per level, and there are fewer levels than nodes. *)
From S2P Require Import GoStrings GoPath GoNet.
Local Open Scope go_scope.
Local Open Scope nat_scope.

(** * File system *)
Abbreviation path := (list gostring).
Inductive kind := File (size : Z) | Dir | Link (target : gostring).
Record node := Node { nd_kind : kind; nd_mode : Z; nd_owner : Z; nd_group : Z; nd_mtime : Z }.
Definition is_dir (n : node) : bool := match nd_kind n with Dir => true | _ => false end.
Definition set_mode (m : Z) (n : node) : node := Node (nd_kind n) m (nd_owner n) (nd_group n) (nd_mtime n).
Abbreviation fs := (gmap path node).
Inductive errno := ENOENT | EACCES | EPERM | ENOTDIR | EISDIR | ENOTEMPTY | ELOOP.
Definition is_not_exist (e : errno) : bool := match e with ENOENT => true | _ => false end.
Definition max_links : nat := 40.
Definition under (p q : path) : Prop := p `prefix_of` q.
Definition child_name (p q : path) : option gostring :=
  match reverse q with c :: r => if decide (reverse r = p) then Some c else None | [] => None end.
Definition children (s : fs) (p : path) : list gostring :=
  sort_strings (omap (child_name p) (map fst (map_to_list s))).

(** * System calls *)
Section calls.
Context (uid : Z) (in_group : Z -> bool).
Inductive access := Search | Write | Read.
Definition may (a : access) (n : node) : bool :=
  let bit := match a with Search => 0 | Write => 1 | Read => 2 end%Z in
  Z.testbit (nd_mode n) (bit + if (nd_owner n =? uid)%Z then 6 else if in_group (nd_group n) then 3 else 0)%Z.
(** [go cur todo]: where [todo] leads from the directory [cur]. *)
Fixpoint resolve_from (links : nat) (s : fs) (follow : bool) {struct links} : path -> list gostring -> result errno path :=
  fix go (cur : path) (todo : list gostring) {struct todo} : result errno path :=
    match todo with
    | [] => Ok cur
    | c :: rest =>
        match s !! cur with
        | None => Err ENOENT
        | Some d =>
            if negb (is_dir d) then Err ENOTDIR
            else if negb (may Search d) then Err EACCES
            else if is_empty c || seqb c $"." then go cur rest
            else if seqb c dotdot then go (removelast cur) rest
            else match s !! (cur ++ [c]) with
                 | None => Err ENOENT
                 | Some n =>
                     match nd_kind n with
                     | Link t =>
                         match rest, follow with
                         | [], false => Ok (cur ++ [c])
                         | _, _ =>
                             match links with
                             | O => Err ELOOP
                             | S l => resolve_from l s follow (if is_abs t then [] else cur) (split slash t ++ rest)
                             end
                         end
                     | _ => go (cur ++ [c]) rest
                     end
                 end
        end
    end.
Definition resolve (s : fs) (follow : bool) (p : path) : result errno path := resolve_from max_links s follow [] p.
Definition node_at (s : fs) (m : result errno path) : result errno node :=
  q ← m; from_option_err ENOENT (s !! q).
Definition stat (s : fs) (p : path) : result errno node := node_at s (resolve s true p).
Definition lstat (s : fs) (p : path) : result errno node := node_at s (resolve s false p).
Definition chmod (s : fs) (p : path) (mode : Z) : fs :=
  match resolve s true p with
  | Ok q => match s !! q with
            | Some n => if (nd_owner n =? uid)%Z then <[q := set_mode mode n]> s else s
            | None => s
            end
  | Err _ => s
  end.
(** The entries with what the kernel says of their kind, sorted. *)
Definition read_dir (s : fs) (p : path) : result errno (list (gostring * node)) :=
  q ← resolve s true p;
  d ← from_option_err ENOENT (s !! q);
  if negb (is_dir d) then Err ENOTDIR
  else if negb (may Read d) then Err EACCES
  else Ok (omap (fun c => n ← s !! (q ++ [c]); Some (c, n)) (children s q)).

(** * [filepath.WalkDir] *)
(** The callback sees the path, the entry and the error of reading it, and
    answers whether the walk goes on.  The result is [None] without fuel. *)
Section walk.
Context {A : Type} (visit : A -> path -> node -> option errno -> A * bool) (fs_of : A -> fs).
Fixpoint walk_entries (walk : A -> gostring -> node -> option (A * bool)) (a : A) (l : list (gostring * node)) : option (A * bool) :=
  match l with
  | [] => Some (a, true)
  | (c, n) :: l =>
      r ← walk a c n;
      match r with (a, true) => walk_entries walk a l | (a, false) => Some (a, false) end
  end.
Fixpoint walk_dir (fuel : nat) (a : A) (p : path) (n : node) : option (A * bool) :=
  match fuel with
  | O => None
  | S f =>
      match visit a p n None with
      | (a, false) => Some (a, false)
      | (a, true) =>
          if negb (is_dir n) then Some (a, true)
          else match read_dir (fs_of a) p with
               | Err e => Some (visit a p n (Some e))
               | Ok entries => walk_entries (fun a c n => walk_dir f a (p ++ [c]) n) a entries
               end
      end
  end.
(** The error of the root's [Lstat] is given to the callback; every callback
    of the package returns it. *)
Definition walk_tree (fuel : nat) (a : A) (p : path) : option (A * bool) :=
  match lstat (fs_of a) p with
  | Err _ => Some (a, false)
  | Ok n => walk_dir fuel a p n
  end.
End walk.
Definition levels (s : fs) : nat := S (size s).

(** * [os.RemoveAll] *)
(** [unlinkat] and what follows it, for the entry [c] of the directory [q];
    the entries of a directory are read in one go. *)
Fixpoint rm_entries (rm : fs -> gostring -> option (fs * option errno)) (s : fs) (err : option errno) (l : list gostring)
  : option (fs * option errno) :=
  match l with
  | [] => Some (s, err)
  | c :: l => r ← rm s c; let '(s, e) := r in rm_entries rm s (match e with Some e => Some e | None => err end) l
  end.
Fixpoint rm_at (fuel : nat) (s : fs) (q : path) (c : gostring) : option (fs * option errno) :=
  match fuel with
  | O => None
  | S f =>
      match s !! q with
      | None => Some (s, None)
      | Some d =>
          if negb (may Search d) then Some (s, Some EACCES)
          else match s !! (q ++ [c]) with
               | None => Some (s, None)
               | Some n =>
                   if negb (is_dir n) then
                     if may Write d then Some (delete (q ++ [c]) s, None) else Some (s, Some EACCES)
                   else
                     r ← (if may Read n then rm_entries (fun s c' => rm_at f s (q ++ [c]) c') s None (children s (q ++ [c]))
                          else Some (s, Some EACCES));
                     let '(s, err) := r in
                     let rmdir := if negb (may Write d) then Some EACCES
                                  else match children s (q ++ [c]) with [] => None | _ => Some ENOTEMPTY end in
                     match rmdir with
                     | None => Some (delete (q ++ [c]) s, None)
                     | Some e => Some (s, Some (default e err))
                     end
               end
      end
  end.
(** [os.Remove]. *)
Definition remove_one (s : fs) (q : path) (c : gostring) : result errno fs :=
  d ← from_option_err ENOENT (s !! q);
  if negb (may Search d) then Err EACCES
  else match s !! (q ++ [c]) with
       | None => Err ENOENT
       | Some n =>
           if negb (may Write d) then Err EACCES
           else if is_dir n && negb (bool_decide (children s (q ++ [c]) = [])) then Err ENOTEMPTY
           else Ok (delete (q ++ [c]) s)
       end.
Definition remove_all (s : fs) (p : path) : option (fs * option errno) :=
  match last p with
  | None => r ← rm_entries (fun s c => rm_at (levels s) s [] c) s None (children s []); Some (fst r, Some EPERM)
  | Some c =>
      match resolve s true (removelast p) with
      | Err e => Some (s, if is_not_exist e then None else Some e)
      | Ok q =>
          match remove_one s q c with
          | Ok s => Some (s, None)
          | Err e =>
              if is_not_exist e then Some (s, None)
              else if match s !! q with Some d => negb (may Read d) | None => true end then Some (s, Some EACCES)
              else rm_at (levels s) s q c
          end
      end
  end.

(** * The package *)
(** [Remove]; [unshare] and [sudo] are what the two commands do, if they are
    found. *)
Definition gone (s : fs) (p : path) : bool := match stat s p with Err e => is_not_exist e | Ok _ => false end.
Definition repair_entry (s : fs) (p : path) (n : node) (err : option errno) : fs * bool :=
  match err with
  | Some _ => (s, false)
  | None => (chmod s p (if is_dir n then 448 else 384)%Z, true)
  end.
Definition tier (tool : option (fs -> fs)) (s : fs) : fs := match tool with Some f => f s | None => s end.
Definition remove (unshare sudo : option (fs -> fs)) (s : fs) (p : path) : option (fs * option errno) :=
  if gone s p then Some (s, None)
  else
    w ← walk_tree repair_entry id (levels s) s p;
    r ← remove_all (fst w) p;
    let '(s, err) := r in
    if negb (is_some err) && gone s p then Some (s, None)
    else
      let s := tier unshare s in
      if is_some unshare && gone s p then Some (s, None)
      else
        let s := tier sudo s in
        if gone s p then Some (s, None) else remove_all s p.

Abbreviation remover := (fs -> path -> option (fs * option errno)).
(** The loops of the three functions that clean several layers; the entries
    are read once. *)
Fixpoint clean_entries (rm : remover) (sel : gostring -> bool) (base : path) (s : fs)
    (l : list (gostring * node)) : option (fs * option errno) :=
  match l with
  | [] => Some (s, None)
  | (c, n) :: l =>
      if is_dir n && sel c then
        r ← rm s (base ++ [c]);
        match r with
        | (s, None) => clean_entries rm sel base s l
        | (s, Some e) => Some (s, Some e)
        end
      else clean_entries rm sel base s l
  end.
Definition clean_selected (rm : remover) (sel : gostring -> bool) (s : fs) (base : gostring)
  : option (fs * option errno) :=
  if gone s (comps base) then Some (s, None)
  else match read_dir s (comps base) with
       | Err e => Some (s, Some e)
       | Ok entries => clean_entries rm sel (comps base) s entries
       end.
Definition is_cache (name : gostring) : bool := has_prefix name $"cache-".
Definition is_hidden (name : gostring) : bool := has_prefix name $".".
Definition CleanAllCaches (rm : remover) (s : fs) (base : gostring) := clean_selected rm is_cache s base.
Definition CleanAllRepos (rm : remover) (s : fs) (base : gostring) :=
  clean_selected rm (fun c => negb (is_cache c) && negb (is_hidden c)) s base.
Definition CleanAll (rm : remover) (s : fs) (base : gostring) := clean_selected rm (fun c => negb (is_hidden c)) s base.

Inductive clean_err := NameRequired | LayerNotFound | RemoveFailed (e : errno).
Definition cleaned_by (r : option (fs * option errno)) : option (fs * result clean_err unit) :=
  '(s, e) ← r; Some (s, match e with Some e => Err (RemoveFailed e) | None => Ok tt end).
Definition clean_target (rm : remover) (s : fs) (base name : gostring) : option (fs * result clean_err unit) :=
  let target := comps (path_join base name) in
  if gone s target then Some (s, Err LayerNotFound) else cleaned_by (rm s target).
Definition CleanRepo (rm : remover) (s : fs) (base name : gostring) : option (fs * result clean_err unit) :=
  if is_empty name then Some (s, Err NameRequired) else clean_target rm s base name.
Definition CleanCache (rm : remover) (s : fs) (base name : gostring) : option (fs * result clean_err unit) :=
  if is_empty name then cleaned_by (CleanAllCaches rm s base) else clean_target rm s base ($"cache-" ++ name).

(** [scanTree]: the sum, the latest time, and whether there was no error. *)
Definition add64 (a b : Z) : Z := ((a + b + 2 ^ 63) mod 2 ^ 64 - 2 ^ 63)%Z.
Definition size_of (n : node) : Z := match nd_kind n with File size => size | Link t => Z.of_nat (length t) | Dir => 4096 end.
Definition scan_entry (s : fs) (st : Z * Z) (p : path) (n : node) (err : option errno) : (Z * Z) * bool :=
  match err with
  | Some _ => (st, false)
  | None =>
      match lstat s p with
      | Err _ => (st, false)
      | Ok info =>
          let '(total, latest) := st in
          ((if negb (is_dir n) then add64 total (size_of info) else total,
            if (latest <? nd_mtime info)%Z then nd_mtime info else latest), true)
      end
  end.
Definition scan_tree (s : fs) (root : path) : option ((Z * Z) * bool) :=
  walk_tree (scan_entry s) (fun _ => s) (levels s) (0, 0)%Z root.

Inductive layer_type := LayerRepo | LayerCache.
Record layer := Layer {
  ly_name : gostring; ly_raw : gostring; ly_type : layer_type; ly_path : path; ly_size : Z; ly_mtime : Z }.
Definition layer_of (s : fs) (base : path) (c : gostring) (n : node) : option layer :=
  match scan_tree s (base ++ [c]) with
  | None => None
  | Some ((size, mtime), ok) =>
      let mtime := if ok then mtime
                   else match lstat s (base ++ [c]) with Ok info => nd_mtime info | Err _ => mtime end in
      Some (Layer (if is_cache c then trim_prefix c $"cache-" else c) c (if is_cache c then LayerCache else LayerRepo)
                  (base ++ [c]) size mtime)
  end.
Definition layer_leb (a b : layer) : bool :=
  match ly_type a, ly_type b with
  | LayerRepo, LayerCache => true
  | LayerCache, LayerRepo => false
  | _, _ => sleb (ly_name a) (ly_name b)
  end.
Definition visible (e : gostring * node) : bool := is_dir (snd e) && negb (is_hidden (fst e)).
Fixpoint layers_of (s : fs) (base : path) (l : list (gostring * node)) : option (list layer) :=
  match l with
  | [] => Some []
  | (c, n) :: l =>
      if visible (c, n) then y ← layer_of s base c n; ys ← layers_of s base l; Some (y :: ys) else layers_of s base l
  end.
(** [List]. *)
Definition list_layers (s : fs) (base : gostring) : option (result errno (list layer)) :=
  if gone s (comps base) then Some (Ok [])
  else match read_dir s (comps base) with
       | Err e => Some (Err e)
       | Ok entries => ls ← layers_of s (comps base) entries; Some (Ok (sort_by layer_leb ls))
       end.
End calls.

(** * [FormatSize] *)
(** Ties to even, as the conversions of floating-point numbers do. *)
Definition round_even (n d : Z) : Z :=
  (let q := n / d in let r := n mod d in
   if 2 * r <? d then q else if d <? 2 * r then q + 1 else if Z.even q then q else q + 1)%Z.
Definition float64_of (n : Z) : Z :=
  (if n <? 2 ^ 53 then n else let e := Z.log2 n - 52 in round_even n (2 ^ e) * 2 ^ e)%Z.
(** ["%.1f"] of a quotient by a power of two, which is exact. *)
Definition one_decimal (bytes unit_ : Z) : gostring :=
  let t := round_even (10 * float64_of bytes) unit_ in itoa (t / 10) ++ $"." ++ itoa (t mod 10).
Definition kib : Z := 1024.
Definition mib : Z := 1024 * kib.
Definition gib : Z := 1024 * mib.
Definition FormatSize (bytes : Z) : gostring :=
  if (gib <=? bytes)%Z then one_decimal bytes gib ++ $" GiB"
  else if (mib <=? bytes)%Z then one_decimal bytes mib ++ $" MiB"
  else if (kib <=? bytes)%Z then one_decimal bytes kib ++ $" KiB"
  else itoa bytes ++ $" B".

(** * Lemmas *)
Definition below (p y : path) : bool := bool_decide (p `prefix_of` y).
Lemma below_spec p y : below p y = true <-> p `prefix_of` y.
Proof. apply bool_decide_eq_true. Qed.
Lemma below_false p y : below p y = false <-> ~ p `prefix_of` y.
Proof. apply bool_decide_eq_false. Qed.
Lemma below_refl p : below p p = true.
Proof. by apply below_spec. Qed.
(** Every node but the root is in a directory, under a plain name. *)
Definition wf (s : fs) : Prop :=
  forall p c n, s !! (p ++ [c]) = Some n -> plain c /\ exists d, s !! p = Some d /\ is_dir d = true.
#[export] Instance plain_dec c : Decision (plain c).
Proof. unfold plain. apply _. Defined.
(** Both can be computed. *)
Definition wf_check (s : fs) : bool :=
  forallb (fun e => match reverse (fst e) with
                    | [] => true
                    | c :: r => bool_decide (plain c) && match s !! reverse r with Some d => is_dir d | None => false end
                    end) (map_to_list s).
Lemma wf_checked s : wf_check s = true -> wf s.
Proof.
  intros Hc p c n Hn. unfold wf_check in Hc. rewrite forallb_forall in Hc. specialize (Hc (p ++ [c], n)). cbn [fst] in Hc.
  rewrite reverse_app, reverse_singleton in Hc. cbn [app] in Hc. rewrite reverse_involutive in Hc.
  apply elem_of_map_to_list, list_elem_of_In in Hn. apply Hc in Hn as [Hp%bool_decide_eq_true Hd]%andb_true_iff.
  split; [done|]. destruct (s !! p) as [d|]; [by exists d | done].
Qed.
Lemma wf_prefix s p y n : wf s -> s !! y = Some n -> p `prefix_of` y -> p <> y -> exists d, s !! p = Some d /\ is_dir d = true.
Proof.
  intros Hs Hy [k ->] Hne. revert n Hy. induction k as [|c k IH] using rev_ind; intros n Hy; [by rewrite app_nil_r in Hne|].
  rewrite app_assoc in Hy. apply Hs in Hy as (_ & d & Hd & Hdir).
  destruct k as [|c' k]; [rewrite app_nil_r in Hd; by exists d|]. eapply IH; [|exact Hd].
  intros He%(f_equal length). rewrite length_app in He. cbn in He. lia.
Qed.
(** The next component on the way from [p] to a node below it. *)
Lemma below_child s p y n :
  wf s -> s !! y = Some n -> p `prefix_of` y -> p <> y ->
  exists c m, s !! (p ++ [c]) = Some m /\ (p ++ [c]) `prefix_of` y.
Proof.
  intros Hs Hy [[|c k] ->] Hne; [by rewrite app_nil_r in Hne|]. exists c.
  assert (Hp : (p ++ [c]) `prefix_of` (p ++ c :: k)) by (exists k; by rewrite <- app_assoc).
  destruct (decide (p ++ [c] = p ++ c :: k)) as [He|He]; [rewrite He; by exists n|].
  destruct (wf_prefix s _ _ _ Hs Hy Hp He) as (d & Hd & _). by exists d.
Qed.
Lemma children_elem s p c : c ∈ children s p <-> is_Some (s !! (p ++ [c])).
Proof.
  unfold children. rewrite sort_strings_elem, list_elem_of_omap. split.
  - intros (q & Hq & Hc). unfold child_name in Hc. destruct (reverse q) as [|c' r] eqn:Hr; [done|].
    destruct (decide (reverse r = p)) as [He|]; [|done]. injection Hc as ->.
    apply list_elem_of_fmap in Hq as ([q' n] & -> & Hq%elem_of_map_to_list). cbn [fst] in Hr.
    rewrite <- (reverse_involutive q') in Hq. rewrite Hr, reverse_cons, He in Hq. by exists n.
  - intros [n Hn]. exists (p ++ [c]). split.
    + apply list_elem_of_fmap. exists (p ++ [c], n). split; [done|]. by apply elem_of_map_to_list.
    + unfold child_name. rewrite reverse_app, reverse_singleton. cbn [app]. rewrite reverse_involutive. by rewrite decide_True.
Qed.
Lemma children_nodup s p : NoDup (children s p).
Proof.
  unfold children. rewrite sort_strings_perm. pose proof (NoDup_fst_map_to_list s) as Hnd.
  change (map fst (map_to_list s)) with ((map_to_list s).*1). induction ((map_to_list s).*1) as [|q l IH]; cbn [omap list_omap]; [constructor|].
  inversion Hnd as [|? ? Hq Hnd']; subst. destruct (child_name p q) as [c|] eqn:Hc; [|by apply IH].
  constructor; [|by apply IH]. intros (q' & Hq' & Hc')%list_elem_of_omap. apply Hq.
  enough (Hi : forall z, child_name p z = Some c -> z = p ++ [c]) by (by rewrite (Hi q Hc), <- (Hi q' Hc')).
  intros z Hz. unfold child_name in Hz. destruct (reverse z) as [|c' r] eqn:Hr; [done|]. destruct (decide _) as [He|]; [|done].
  injection Hz as ->. rewrite <- (reverse_involutive z), Hr, reverse_cons. by rewrite He.
Qed.
(** The names of the entries that are read are the children. *)
Lemma entries_names (s : fs) (x : path) l :
  (forall c, c ∈ l -> is_Some (s !! (x ++ [c]))) ->
  map fst (omap (fun c => n ← s !! (x ++ [c]); Some (c, n)) l) = l.
Proof.
  induction l as [|c l IH]; intros Hl; [done|]. destruct (Hl c ltac:(by left)) as [n Hn]. cbn. rewrite Hn. cbn.
  f_equal. apply IH. intros c' Hc'. apply Hl. by right.
Qed.
Lemma depth_size s p n : wf s -> s !! p = Some n -> length p < size s.
Proof.
  intros Hs. assert (Hd : forall k, k ⊆ dom s -> size k <= size s).
  { intros k Hk. rewrite <- (size_dom s). by apply subseteq_size. }
  intros Hp. enough (exists k : gset path, k ⊆ dom s /\ size k = S (length p) /\ forall y, y ∈ k -> length y <= length p)
    as (k & Hk & Hsz & _) by (specialize (Hd k Hk); lia).
  revert n Hp. induction p as [|c p IH] using rev_ind; intros n Hp.
  - exists {[ [] ]}. split_and!; [|by rewrite size_singleton|].
    + intros y ->%elem_of_singleton. by apply elem_of_dom.
    + by intros y ->%elem_of_singleton.
  - pose proof Hp as (_ & d & Hdp & _)%Hs. apply IH in Hdp as (k & Hk & Hsz & Hle).
    exists ({[ p ++ [c] ]} ∪ k). rewrite length_app. cbn. split_and!.
    + intros y [->%elem_of_singleton|Hy]%elem_of_union; [by apply elem_of_dom | by apply Hk].
    + rewrite size_union, size_singleton; [lia|]. intros y ->%elem_of_singleton Hy%Hle. rewrite length_app in Hy. cbn in Hy. lia.
    + intros y [->%elem_of_singleton|Hy%Hle]%elem_of_union; [rewrite length_app; cbn; lia | lia].
Qed.
(** Enough fuel below [x]. *)
Definition enough (f : nat) (s : fs) (x : path) : Prop :=
  forall y n, s !! y = Some n -> x `prefix_of` y -> length y < length x + f.
Lemma enough_levels s x : wf s -> enough (levels s) s x.
Proof. intros Hs y n Hy%depth_size _; [|done]. unfold levels. lia. Qed.
Lemma enough_child f s x c : enough (S f) s x -> enough f s (x ++ [c]).
Proof.
  intros He y n Hy Hxy. assert (x `prefix_of` y) by (etransitivity; [by exists [c] | done]).
  specialize (He y n Hy ltac:(done)). rewrite length_app. cbn. lia.
Qed.
Lemma wf_plain s p n : wf s -> s !! p = Some n -> Forall plain p.
Proof.
  intros Hs. revert n. induction p as [|c p IH] using rev_ind; intros n Hp; [constructor|].
  apply Hs in Hp as (Hc & d & Hd & _). apply Forall_app. split; [by eapply IH | by constructor].
Qed.
Lemma prefix_snoc (a q : path) c : a `prefix_of` q ++ [c] -> a = q ++ [c] \/ a `prefix_of` q.
Proof.
  intros [k Hk]. destruct k as [|x k _] using rev_ind; [left; by rewrite app_nil_r in Hk|].
  right. rewrite app_assoc in Hk. apply app_inj_tail in Hk as [-> _]. by exists k.
Qed.
Definition is_link (n : node) : bool := match nd_kind n with Link _ => true | _ => false end.

Section user.
Context (uid : Z) (in_group : Z -> bool).
Local Abbreviation resolve_from := (resolve_from uid in_group).
Local Abbreviation resolve := (resolve uid in_group).
Local Abbreviation may := (may uid in_group).
Local Abbreviation chmod := (chmod uid in_group).
Local Abbreviation read_dir := (read_dir uid in_group).

Lemma resolve_step l s fo cur c rest :
  resolve_from l s fo cur (c :: rest) =
  match s !! cur with
  | None => Err ENOENT
  | Some d =>
      if negb (is_dir d) then Err ENOTDIR
      else if negb (may Search d) then Err EACCES
      else if is_empty c || seqb c $"." then resolve_from l s fo cur rest
      else if seqb c dotdot then resolve_from l s fo (removelast cur) rest
      else match s !! (cur ++ [c]) with
           | None => Err ENOENT
           | Some n =>
               match nd_kind n with
               | Link t =>
                   match rest, fo with
                   | [], false => Ok (cur ++ [c])
                   | _, _ => match l with
                             | O => Err ELOOP
                             | S l => resolve_from l s fo (if is_abs t then [] else cur) (split slash t ++ rest)
                             end
                   end
               | _ => resolve_from l s fo (cur ++ [c]) rest
               end
           end
  end.
Proof. by destruct l. Qed.
Lemma resolve_nil l s fo cur : resolve_from l s fo cur [] = Ok cur.
Proof. by destruct l. Qed.
Lemma plain_step c {A} (x y z : A) : plain c -> (if is_empty c || seqb c $"." then x else if seqb c dotdot then y else z) = z.
Proof.
  intros (? & ? & ? & ?). rewrite (proj2 (is_empty_false c)) by done.
  by rewrite !(proj2 (seqb_neq c _)) by done.
Qed.
(** A directory on the way. *)
Definition pass (s : fs) (a : path) : Prop := exists d, s !! a = Some d /\ is_dir d = true /\ may Search d = true.
Definition passable (s : fs) (q : path) : Prop := forall a, a `prefix_of` q -> pass s a.
Lemma passable_snoc s q c : passable s q -> pass s (q ++ [c]) -> passable s (q ++ [c]).
Proof. intros Hq Hc a Ha. apply prefix_snoc in Ha as [->|Ha]; [done | by apply Hq]. Qed.
Lemma resolve_pass l s fo cur todo rest :
  Forall plain todo -> (forall a, a `prefix_of` todo -> pass s (cur ++ a)) ->
  resolve_from l s fo cur (todo ++ rest) = resolve_from l s fo (cur ++ todo) rest.
Proof.
  revert cur. induction todo as [|c todo IH]; intros cur Hp Ha; [by rewrite app_nil_r|].
  inversion Hp as [|? ? Hc Hp']; subst. cbn [app]. rewrite resolve_step.
  destruct (Ha [] (prefix_nil _)) as (d & Hd & Hdir & Hmay). rewrite app_nil_r in Hd. rewrite Hd, Hdir, Hmay. cbn [negb].
  rewrite plain_step by done.
  destruct (Ha [c]) as (e & He & Hedir & _); [by exists todo|]. rewrite He.
  unfold is_dir in Hedir. destruct (nd_kind e); [done | | done]. rewrite IH; [by rewrite <- app_assoc | done |].
  intros a Hpre. rewrite <- app_assoc. apply Ha. by apply prefix_cons.
Qed.
Lemma resolve_dir s fo q : wf s -> passable s q -> resolve s fo q = Ok q.
Proof.
  intros Hs Hq. unfold Storage.resolve. destruct (Hq q) as (d & Hd & _); [done|].
  rewrite <- (app_nil_r q) at 1. rewrite resolve_pass; [apply resolve_nil | by eapply wf_plain | exact Hq].
Qed.
Lemma resolve_last s fo q c :
  wf s -> passable s q -> plain c -> (forall n, s !! (q ++ [c]) = Some n -> is_link n && fo = false) ->
  resolve s fo (q ++ [c]) = if s !! (q ++ [c]) is Some _ then Ok (q ++ [c]) else Err ENOENT.
Proof.
  intros Hs Hq Hc Hl. unfold Storage.resolve. destruct (Hq q) as (d & Hd & Hdir & Hmay); [done|].
  rewrite resolve_pass; [|by eapply wf_plain | exact Hq]. cbn [app]. rewrite resolve_step, Hd, Hdir, Hmay. cbn [negb].
  rewrite plain_step by done. destruct (s !! (q ++ [c])) as [n|] eqn:Hn; [|reflexivity].
  specialize (Hl n eq_refl). unfold is_link in Hl. destruct (nd_kind n); [apply resolve_nil | apply resolve_nil|].
  cbn in Hl. subst fo. reflexivity.
Qed.
Lemma resolve_no_links l s fo cur todo q :
  resolve_from l s fo cur todo = Ok q -> Forall plain todo ->
  (forall a n, a `prefix_of` todo -> fo = true \/ a <> todo -> s !! (cur ++ a) = Some n -> is_link n = false) ->
  q = cur ++ todo.
Proof.
  revert cur. induction todo as [|c todo IH]; intros cur Hr Hp Hl.
  { rewrite resolve_nil in Hr. injection Hr as <-. by rewrite app_nil_r. }
  inversion Hp as [|? ? Hc Hp']; subst. rewrite resolve_step in Hr. destruct (s !! cur) as [d|]; [|done].
  destruct (negb (is_dir _)); [done|]. destruct (negb (may _ _)); [done|]. rewrite plain_step in Hr by done.
  destruct (s !! (cur ++ [c])) as [n|] eqn:Hn; [|done].
  assert (Hlast : (todo = [] /\ fo = false) \/ is_link n = false).
  { destruct fo; [right; apply (Hl [c]); [by exists todo | by left | done]|].
    destruct todo as [|c' todo]; [by left | right; apply (Hl [c]); [by exists (c' :: todo) | by right | done]]. }
  destruct Hlast as [[-> ->]|Hk].
  { rewrite resolve_nil in Hr. destruct (nd_kind n); by injection Hr as <-. }
  unfold is_link in Hk. enough (Hq : q = (cur ++ [c]) ++ todo) by (by rewrite <- app_assoc in Hq).
  apply IH; [by destruct (nd_kind n) | done |]. intros a m Ha Hor. rewrite <- app_assoc. apply Hl; [by apply prefix_cons|].
  destruct Hor as [|Hne]; [by left | right; intros [= ->]; done].
Qed.
Lemma resolve_lstat s q c x : resolve s false (q ++ [c]) = Ok x -> Forall plain (q ++ [c]) ->
  (forall a n, a `prefix_of` q -> s !! a = Some n -> is_link n = false) -> x = q ++ [c].
Proof.
  unfold Storage.resolve. intros Hx Hpl Hl. apply (resolve_no_links _ _ _ [] (q ++ [c]) _ Hx Hpl).
  intros a n Ha [|Hne] Hn; [done|]. apply prefix_snoc in Ha as [->|Ha]; [done | by apply (Hl a)].
Qed.

(** The shape of a file system: everything but the modes. *)
Definition shape (s : fs) : fs := set_mode 0 <$> s.
Lemma shape_lookup s s' y n : shape s' = shape s -> s !! y = Some n -> exists m, s' !! y = Some (set_mode m n).
Proof.
  intros Hsh Hy. assert (Hs : shape s' !! y = shape s !! y) by (by rewrite Hsh). unfold shape in Hs.
  rewrite !lookup_fmap, Hy in Hs.
  destruct (s' !! y) as [n'|]; [|done]. injection Hs as Hk Ho Hg Hm. exists (nd_mode n').
  destruct n, n'; cbn in *. by subst.
Qed.
Lemma shape_wf s s' : shape s' = shape s -> wf s -> wf s'.
Proof.
  intros Hsh Hs p c n Hn. symmetry in Hsh. destruct (shape_lookup _ _ _ _ Hsh Hn) as (m & Hm).
  apply Hs in Hm as (Hc & d & Hd & Hdir). split; [done|]. symmetry in Hsh.
  destruct (shape_lookup _ _ _ _ Hsh Hd) as (m' & Hm'). by exists (set_mode m' d).
Qed.
Lemma shape_enough f s s' x : shape s' = shape s -> enough f s x -> enough f s' x.
Proof.
  intros Hsh He y n Hn. symmetry in Hsh. destruct (shape_lookup _ _ _ _ Hsh Hn) as (m & Hm). by eapply He.
Qed.
(** A tree that the user owns and that has no links. *)
Definition tree_ok (s : fs) (x : path) : Prop :=
  forall y n, x `prefix_of` y -> s !! y = Some n -> nd_owner n = uid /\ is_link n = false.
Definition tree_check (s : fs) (x : path) : bool :=
  forallb (fun e => negb (below x (fst e)) || ((nd_owner (snd e) =? uid)%Z && negb (is_link (snd e)))) (map_to_list s).
Lemma tree_checked s x : tree_check s x = true -> tree_ok s x.
Proof.
  intros Hc y n Hx Hn. unfold tree_check in Hc. rewrite forallb_forall in Hc. specialize (Hc (y, n)). cbn [fst snd] in Hc.
  rewrite (proj2 (below_spec x y) Hx) in Hc. apply elem_of_map_to_list, list_elem_of_In in Hn.
  apply Hc in Hn as [Ho%Z.eqb_eq Hl%negb_true_iff]%andb_true_iff. done.
Qed.
Lemma shape_tree_ok s s' x : shape s' = shape s -> tree_ok s x -> tree_ok s' x.
Proof.
  intros Hsh Ht y n Hx Hn. symmetry in Hsh. destruct (shape_lookup _ _ _ _ Hsh Hn) as (m & Hm).
  by apply (Ht y) in Hm.
Qed.
Lemma tree_ok_child s x c : tree_ok s x -> tree_ok s (x ++ [c]).
Proof. intros Ht y n Hx. apply Ht. etransitivity; [by exists [c] | exact Hx]. Qed.

(** The repair of the nodes that [P] selects. *)
Definition repaired (n : node) : node := set_mode (if is_dir n then 448 else 384) n.
Definition repair (P : path -> bool) (s : fs) : fs := map_imap (fun y n => Some (if P y then repaired n else n)) s.
Lemma lookup_repair P s y : repair P s !! y = (fun n => if P y then repaired n else n) <$> s !! y.
Proof. unfold repair. rewrite map_lookup_imap. by destruct (s !! y). Qed.
Lemma repair_shape P s : shape (repair P s) = shape s.
Proof.
  apply map_eq. intros y. unfold shape. rewrite !lookup_fmap, lookup_repair. destruct (s !! y); [|done]. cbn.
  by destruct (P y).
Qed.
Lemma repair_repair P Q s : repair P (repair Q s) = repair (fun y => Q y || P y) s.
Proof.
  apply map_eq. intros y. rewrite !lookup_repair. destruct (s !! y); [|done]. cbn. by destruct (Q y), (P y).
Qed.
Lemma repair_ext P Q s : (forall y n, s !! y = Some n -> P y = Q y) -> repair P s = repair Q s.
Proof.
  intros He. apply map_eq. intros y. rewrite !lookup_repair. destruct (s !! y) as [n|] eqn:Hy; [|done]. cbn.
  by rewrite (He _ _ Hy).
Qed.
Lemma repair_passable P s x : (forall a, a `prefix_of` x -> P a = false) -> passable s x -> passable (repair P s) x.
Proof.
  intros HP Hx a Ha. destruct (Hx a Ha) as (d & Hd & ?). exists d. by rewrite lookup_repair, Hd, HP.
Qed.
Lemma may_repaired a n : nd_owner n = uid -> is_dir n = true -> may a (repaired n) = true.
Proof. intros Ho Hd. unfold Storage.may, repaired. cbn. rewrite Hd, Ho, Z.eqb_refl. by destruct a. Qed.
Lemma chmod_entry s q c n mode :
  wf s -> passable s q -> s !! (q ++ [c]) = Some n -> nd_owner n = uid -> is_link n = false ->
  chmod s (q ++ [c]) mode = <[q ++ [c] := set_mode mode n]> s.
Proof.
  intros Hs Hq Hn Ho Hl. unfold Storage.chmod. rewrite resolve_last; [|done|done|by apply (Hs _ _ _ Hn)|].
  - by rewrite Hn, Hn, Ho, Z.eqb_refl.
  - intros m Hm. rewrite Hn in Hm. injection Hm as <-. by rewrite Hl.
Qed.
(** A node that is no directory is alone. *)
Lemma below_leaf s x n y m : wf s -> s !! x = Some n -> is_dir n = false -> s !! y = Some m -> below x y = bool_decide (x = y).
Proof.
  intros Hs Hx Hd Hy. unfold below. apply bool_decide_ext. split; [|by intros ->]. intros Hxy.
  destruct (decide (x = y)) as [|Hne]; [done|]. destruct (wf_prefix s x y m Hs Hy Hxy Hne) as (d & He & Hdir). congruence.
Qed.
(** A directory and the trees of its entries are the tree. *)
Lemma below_split s x y n l :
  wf s -> s !! y = Some n -> (forall c, is_Some (s !! (x ++ [c])) -> c ∈ l) ->
  bool_decide (x = y) || existsb (fun c => below (x ++ [c]) y) l = below x y.
Proof.
  intros Hs Hy Hl. apply eq_true_iff_eq.
  rewrite orb_true_iff, bool_decide_eq_true, existsb_exists, below_spec. split.
  - intros [->|(c & _ & Hc%below_spec)]; [done|]. etransitivity; [by exists [c] | exact Hc].
  - intros Hxy. destruct (decide (x = y)) as [|Hne]; [by left|right].
    destruct (below_child s x y n Hs Hy Hxy Hne) as (c & m & Hm & Hc). exists c. split; [|by apply below_spec].
    apply list_elem_of_In, Hl. by exists m.
Qed.

(** ** The repair walk *)
Local Abbreviation repair_entry := (repair_entry uid in_group).
Local Abbreviation walk_repair := (walk_dir uid in_group repair_entry id).
Lemma read_dir_ok s x n :
  wf s -> passable s x -> s !! x = Some n -> may Read n = true ->
  exists l, read_dir s x = Ok l /\ (forall c m, (c, m) ∈ l <-> s !! (x ++ [c]) = Some m) /\ map fst l = children s x.
Proof.
  intros Hs Hx Hn Hr. unfold Storage.read_dir. rewrite resolve_dir by done. cbn [mbind result_bind]. rewrite Hn. cbn.
  destruct (Hx x) as (d & Hd & Hdir & _); [done|]. rewrite Hn in Hd. injection Hd as <-. rewrite Hdir, Hr. cbn.
  eexists. split; [reflexivity|]. split; [|apply entries_names; by intros c Hc%children_elem].
  intros c m. rewrite list_elem_of_omap. split.
  - intros (c' & _ & Hc). destruct (s !! (x ++ [c'])) as [n'|] eqn:Hn'; [|done]. by injection Hc as <- <-.
  - intros Hc. exists c. rewrite children_elem, Hc. split; [by exists m | done].
Qed.
Definition entries_below (x : path) (l : list (gostring * node)) (y : path) : bool :=
  existsb (fun c => below (x ++ [c]) y) (map fst l).
Lemma walk_entries_repair f s x l :
  (forall s c n n0, wf s -> passable s x -> s !! (x ++ [c]) = Some n -> is_dir n0 = is_dir n -> tree_ok s (x ++ [c]) ->
     enough f s (x ++ [c]) -> walk_repair f s (x ++ [c]) n0 = Some (repair (below (x ++ [c])) s, true)) ->
  wf s -> passable s x -> tree_ok s x -> enough (S f) s x ->
  (forall c n0, (c, n0) ∈ l -> exists n, s !! (x ++ [c]) = Some n /\ is_dir n0 = is_dir n) ->
  walk_entries (fun a c n => walk_repair f a (x ++ [c]) n) s l = Some (repair (entries_below x l) s, true).
Proof.
  intros IH. revert s. induction l as [|[c n0] l IHl]; intros s Hs Hx Ht He Hl; cbn [walk_entries].
  { do 2 f_equal. apply map_eq. intros y. rewrite lookup_repair. by destruct (s !! y). }
  destruct (Hl c n0) as (n & Hn & Hd); [by left|]. erewrite IH; [|done|done|exact Hn|done|by apply tree_ok_child|by apply enough_child].
  cbn [mbind option_bind]. set (s1 := repair (below (x ++ [c])) s).
  assert (Hsh : shape s1 = shape s) by apply repair_shape. rewrite IHl.
  - unfold s1. rewrite repair_repair. reflexivity.
  - by eapply shape_wf.
  - apply repair_passable; [|done]. intros a Ha. apply below_false. intros [k ->]. apply prefix_length in Ha.
    rewrite !length_app in Ha. cbn in Ha. lia.
  - by eapply shape_tree_ok.
  - by eapply shape_enough.
  - intros c' n' Hc. destruct (Hl c' n') as (m & Hm & Hmd); [by right|]. symmetry in Hsh.
    destruct (shape_lookup _ _ _ _ (eq_sym Hsh) Hm) as (k & Hk). by exists (set_mode k m).
Qed.
Lemma walk_dir_repair f s q c n n0 :
  wf s -> passable s q -> s !! (q ++ [c]) = Some n -> is_dir n0 = is_dir n -> tree_ok s (q ++ [c]) ->
  enough f s (q ++ [c]) -> walk_repair f s (q ++ [c]) n0 = Some (repair (below (q ++ [c])) s, true).
Proof.
  revert s q c n n0. induction f as [|f IH]; intros s q c n n0 Hs Hq Hn Hd Ht He.
  { specialize (He _ _ Hn ltac:(done)). lia. }
  destruct (Ht _ _ ltac:(done) Hn) as [Ho Hlk]. cbn [walk_dir]. unfold Storage.repair_entry at 1.
  rewrite (chmod_entry s q c n) by done. set (x := q ++ [c]) in *.
  replace (<[x:=_]> s) with (repair (fun y => bool_decide (x = y)) s).
  2:{ apply map_eq. intros y. rewrite lookup_repair. destruct (decide (x = y)) as [<-|Hne].
      - rewrite lookup_insert_eq, Hn, Hd. cbn. by rewrite bool_decide_true.
      - rewrite lookup_insert_ne by done. rewrite bool_decide_false by done. by destruct (s !! y). }
  rewrite Hd. destruct (is_dir n) eqn:Hdir; cbn [negb].
  2:{ do 2 f_equal. apply repair_ext. intros y m Hy. symmetry. by eapply below_leaf. }
  set (s1 := repair _ s). assert (Hsh : shape s1 = shape s) by apply repair_shape.
  assert (Hs1 : s1 !! x = Some (repaired n)) by (unfold s1; rewrite lookup_repair, Hn; cbn; by rewrite bool_decide_true).
  assert (Hx1 : passable s1 x).
  { apply passable_snoc; [|exists (repaired n); split_and!; [done | done | by apply may_repaired]].
    apply repair_passable; [|done]. intros a Ha. apply bool_decide_eq_false. intros <-. apply prefix_length in Ha.
    unfold x in Ha. rewrite length_app in Ha. cbn in Ha. lia. }
  destruct (read_dir_ok s1 x (repaired n)) as (l & Hrd & Hl & _); [by eapply shape_wf | done | done | by apply may_repaired|].
  change (id s1) with s1. rewrite Hrd, (walk_entries_repair f s1 x l).
  - unfold s1. rewrite repair_repair. do 2 f_equal. apply repair_ext. intros y m Hy. eapply below_split; [done | exact Hy|].
    intros c' [m' Hm']. destruct (shape_lookup _ _ _ _ Hsh Hm') as (k & Hk). apply Hl in Hk.
    apply list_elem_of_fmap. by exists (c', set_mode k m').
  - intros. by eapply IH.
  - by eapply shape_wf.
  - done.
  - by eapply shape_tree_ok.
  - by eapply shape_enough.
  - intros c' n' Hc. apply Hl in Hc. by exists n'.
Qed.

(** ** The removal *)
Definition prune (P : path -> bool) (s : fs) : fs := filter (fun '(y, _) => P y = false) s.
Lemma lookup_prune P s y : prune P s !! y = if P y then None else s !! y.
Proof.
  unfold prune. destruct (P y) eqn:HP.
  - apply map_lookup_filter_None. right. intros n _. congruence.
  - destruct (s !! y) as [n|] eqn:Hy; [by apply map_lookup_filter_Some | apply map_lookup_filter_None; by left].
Qed.
Lemma prune_prune P Q s : prune P (prune Q s) = prune (fun y => Q y || P y) s.
Proof. apply map_eq. intros y. rewrite !lookup_prune. by destruct (P y), (Q y). Qed.
Lemma prune_ext P Q s : (forall y n, s !! y = Some n -> P y = Q y) -> prune P s = prune Q s.
Proof.
  intros He. apply map_eq. intros y. rewrite !lookup_prune. destruct (s !! y) as [n|] eqn:Hy; [by rewrite (He _ _ Hy)|].
  by destruct (P y), (Q y).
Qed.
Lemma prune_none s : prune (fun _ => false) s = s.
Proof. apply map_eq. intros y. by rewrite lookup_prune. Qed.
Definition closed (P : path -> bool) : Prop := forall y z, P y = true -> y `prefix_of` z -> P z = true.
Lemma below_closed x : closed (below x).
Proof. intros y z Hy%below_spec Hz. apply below_spec. by etransitivity. Qed.
Lemma prune_wf P s : closed P -> wf s -> wf (prune P s).
Proof.
  intros HP Hs p c n. rewrite lookup_prune. destruct (P (p ++ [c])) eqn:Hc; [done|]. intros (Hpl & d & Hd & Hdir)%Hs.
  split; [done|]. exists d. rewrite lookup_prune. destruct (P p) eqn:Hp; [|done].
  rewrite (HP p (p ++ [c])) in Hc; [done | done | by exists [c]].
Qed.
Lemma prune_some P s y n : prune P s !! y = Some n -> s !! y = Some n.
Proof. rewrite lookup_prune. by destruct (P y). Qed.
Lemma not_below_self x c y : y `prefix_of` x -> below (x ++ [c]) y = false.
Proof.
  intros Hy. apply below_false. intros Hx. assert (Hl : (x ++ [c]) `prefix_of` x) by (by etransitivity).
  apply prefix_length in Hl. rewrite length_app in Hl. cbn in Hl. lia.
Qed.
(** Every directory of the tree is accessible. *)
Definition free (s : fs) (x : path) : Prop :=
  forall y d, x `prefix_of` y -> s !! y = Some d -> is_dir d = true -> forall a, may a d = true.
Lemma free_child s x c : free s x -> free s (x ++ [c]).
Proof. intros Hf y d Hx. apply Hf. etransitivity; [by exists [c] | exact Hx]. Qed.
Definition open_dir (s : fs) (q : path) : Prop := exists d, s !! q = Some d /\ may Search d = true /\ may Write d = true.
Local Abbreviation rm_at := (rm_at uid in_group).
Lemma missing_below s x : wf s -> s !! x = None -> prune (below x) s = s.
Proof.
  intros Hs Hx. rewrite <- (prune_none s) at 2. apply prune_ext. intros y n Hy. apply below_false. intros Hxy.
  destruct (decide (x = y)) as [->|Hne]; [congruence|].
  destruct (wf_prefix s x y n Hs Hy Hxy Hne) as (d & Hd & _). congruence.
Qed.
Lemma rm_entries_prune f x l s :
  (forall s c, 0 < f -> wf s -> open_dir s x -> free s (x ++ [c]) -> enough f s (x ++ [c]) ->
     rm_at f s x c = Some (prune (below (x ++ [c])) s, None)) ->
  (l <> [] -> 0 < f) -> wf s -> open_dir s x -> free s x -> enough (S f) s x ->
  rm_entries (fun s c => rm_at f s x c) s None l = Some (prune (fun y => existsb (fun c => below (x ++ [c]) y) l) s, None).
Proof.
  intros IH. revert s. induction l as [|c l IHl]; intros s Hf Hs Hx Hfr He; cbn [rm_entries].
  { do 2 f_equal. by rewrite prune_none. }
  assert (Hf0 : 0 < f) by (by apply Hf). rewrite IH by auto using free_child, enough_child. cbn [mbind option_bind].
  rewrite IHl; [by rewrite prune_prune| | | | |].
  - done.
  - apply prune_wf; [apply below_closed | done].
  - destruct Hx as (d & Hd & ?). exists d. by rewrite lookup_prune, not_below_self.
  - intros y d Hy Hd%prune_some. exact (Hfr y d Hy Hd).
  - intros y n Hn%prune_some. by apply (He y n).
Qed.
Lemma rm_at_prune f s q c :
  0 < f -> wf s -> open_dir s q -> free s (q ++ [c]) -> enough f s (q ++ [c]) ->
  rm_at f s q c = Some (prune (below (q ++ [c])) s, None).
Proof.
  revert s q c. induction f as [|f IH]; intros s q c Hf Hs Hq Hfr He; [lia|]. cbn [Storage.rm_at].
  destruct Hq as (d & Hd & HS & HW). rewrite Hd, HS. cbn [negb]. set (x := q ++ [c]) in *.
  destruct (s !! x) as [n|] eqn:Hn; [|by rewrite missing_below].
  destruct (is_dir n) eqn:Hdir; cbn [negb].
  2:{ rewrite HW. do 2 f_equal. apply map_eq. intros y. rewrite lookup_prune. destruct (s !! y) as [m|] eqn:Hy.
      - rewrite (below_leaf s x n y m) by done. destruct (decide (x = y)) as [<-|Hne].
        + by rewrite lookup_delete_eq, bool_decide_true.
        + by rewrite lookup_delete_ne, bool_decide_false.
      - rewrite lookup_delete, Hy. by destruct (decide _), (below x y). }
  assert (Hall : forall a, may a n = true) by (by apply (Hfr x)). rewrite Hall.
  rewrite (rm_entries_prune f x (children s x) s); [|by intros; apply IH| |done| |done|done].
  2:{ intros Hne. destruct (children s x) as [|c' l] eqn:Hc; [done|].
      destruct (proj1 (children_elem s x c')) as [m Hm]; [rewrite Hc; by left|].
      specialize (He _ _ Hm ltac:(by exists [c'])). rewrite length_app in He. cbn in He. lia. }
  2:{ by exists n. }
  cbn [mbind option_bind]. rewrite HW. cbn [negb]. set (s1 := prune _ s).
  assert (Hgone : forall y, s1 !! y = if below x y && negb (bool_decide (x = y)) then None else s !! y).
  { intros y. unfold s1. rewrite lookup_prune. destruct (s !! y) as [m|] eqn:Hy; [|by destruct (existsb _ _), (_ && _)].
    rewrite <- (below_split s x y m (children s x) Hs Hy) by (intros c' Hc'; by apply children_elem).
    destruct (decide (x = y)) as [<-|Hne]; [rewrite !bool_decide_true by done|by rewrite !bool_decide_false, andb_true_r].
    replace (existsb _ _) with false; [done|]. symmetry. apply not_true_is_false. intros (c' & _ & Hc')%existsb_exists.
    by rewrite not_below_self in Hc'. }
  destruct (children s1 x) as [|c' l] eqn:Hc.
  - do 2 f_equal. apply map_eq. intros y. rewrite lookup_prune, lookup_delete, Hgone.
    destruct (decide (x = y)) as [<-|Hne]; [by rewrite below_refl|]. rewrite bool_decide_false by done.
    by destruct (below x y).
  - destruct (proj1 (children_elem s1 x c')) as [m Hm]; [rewrite Hc; by left|]. rewrite Hgone in Hm.
    rewrite (proj2 (below_spec x (x ++ [c'])) ltac:(by exists [c'])) in Hm. rewrite bool_decide_false in Hm; [done|].
    intros Hx%(f_equal length). rewrite length_app in Hx. cbn in Hx. lia.
Qed.

(** ** [Remove] on a tree of the user *)
Record removable (s : fs) (q : path) : Prop := Removable {
  rm_wf : wf s; rm_pass : passable s q;
  rm_open : exists d, s !! q = Some d /\ forall a, may a d = true }.
Lemma removable_open s q : removable s q -> open_dir s q.
Proof. intros [_ _ (d & Hd & Ha)]. by exists d. Qed.
Lemma stat_last s q c :
  wf s -> passable s q -> plain c -> (forall n, s !! (q ++ [c]) = Some n -> is_link n = false) ->
  stat uid in_group s (q ++ [c]) = from_option_err ENOENT (s !! (q ++ [c])).
Proof.
  intros Hs Hq Hc Hl. unfold stat. rewrite resolve_last; [|done|done|done|by intros n Hn; rewrite (Hl n)].
  destruct (s !! (q ++ [c])) as [n|] eqn:Hn; [|done]. cbn. by rewrite Hn.
Qed.
Lemma gone_last s q c :
  wf s -> passable s q -> plain c -> (forall n, s !! (q ++ [c]) = Some n -> is_link n = false) ->
  gone uid in_group s (q ++ [c]) = negb (is_some (s !! (q ++ [c]))).
Proof. intros. unfold gone. rewrite stat_last by done. by destruct (s !! (q ++ [c])). Qed.
Lemma remove_all_prune s q c n :
  removable s q -> s !! (q ++ [c]) = Some n -> free s (q ++ [c]) ->
  remove_all uid in_group s (q ++ [c]) = Some (prune (below (q ++ [c])) s, None).
Proof.
  intros Hr Hn Hfr. pose proof (removable_open _ _ Hr) as Hop. destruct Hr as [Hs Hq (d & Hd & Hall)].
  unfold remove_all. rewrite last_snoc, removelast_last, resolve_dir by done. set (x := q ++ [c]) in *.
  assert (Hrm : rm_at (levels s) s q c = Some (prune (below x) s, None))
    by (apply rm_at_prune; [unfold levels; lia | done | done | done | by apply enough_levels]).
  unfold remove_one. fold x. rewrite Hd. cbn [from_option_err mbind result_bind]. rewrite Hall, Hn, Hall. cbn [negb].
  destruct (is_dir n && _) eqn:Hne; cbn [is_not_exist]; [by rewrite ?Hall|].
  do 2 f_equal. apply map_eq. intros y. rewrite lookup_prune. destruct (decide (x = y)) as [<-|Hxy].
  { by rewrite lookup_delete_eq, below_refl. }
  rewrite lookup_delete_ne by done. destruct (s !! y) as [m|] eqn:Hy; [|by destruct (below x y)].
  replace (below x y) with false; [done|]. symmetry. apply below_false. intros Hpre.
  destruct (below_child s x y m Hs Hy Hpre Hxy) as (c' & m' & Hm' & _).
  destruct (Hs _ _ _ Hm') as (_ & e & He & Hedir). rewrite Hn in He. injection He as <-. rewrite Hedir in Hne. cbn in Hne.
  apply negb_false_iff, bool_decide_eq_true in Hne. assert (Hc' : c' ∈ children s x) by (apply children_elem; by exists m').
  rewrite Hne in Hc'. by apply not_elem_of_nil in Hc'.
Qed.
Lemma repair_free s x : tree_ok s x -> free (repair (below x) s) x.
Proof.
  intros Ht y d Hy Hd Hdir a. rewrite lookup_repair in Hd. destruct (s !! y) as [n|] eqn:Hn; [|done]. cbn in Hd.
  rewrite (proj2 (below_spec x y) Hy) in Hd. injection Hd as <-. apply may_repaired; [by apply (Ht y) | done].
Qed.
Lemma repair_removable s q c : removable s q -> removable (repair (below (q ++ [c])) s) q.
Proof.
  intros [Hs Hq (d & Hd & Hall)]. split.
  - eapply shape_wf; [apply repair_shape | done].
  - apply repair_passable; [|done]. intros a. apply not_below_self.
  - exists d. by rewrite lookup_repair, Hd, not_below_self.
Qed.
Lemma remove_prune unshare sudo s q c n :
  removable s q -> s !! (q ++ [c]) = Some n -> tree_ok s (q ++ [c]) ->
  remove uid in_group unshare sudo s (q ++ [c]) = Some (prune (below (q ++ [c])) s, None).
Proof.
  intros Hr Hn Ht. pose proof Hr as [Hs Hq _]. destruct (Hs _ _ _ Hn) as (Hc & _).
  assert (Hlk : forall m, s !! (q ++ [c]) = Some m -> is_link m = false) by (intros m; by apply (Ht (q ++ [c]))).
  unfold remove. rewrite gone_last, Hn by done. cbn [is_some negb].
  unfold walk_tree, lstat. change (id s) with s. rewrite resolve_last; [|done|done|done|by intros; rewrite andb_false_r].
  rewrite Hn. cbn [node_at mbind result_bind]. unfold node_at. cbn [mbind result_bind]. rewrite Hn. cbn [from_option_err].
  rewrite (walk_dir_repair _ s q c n n); [|done|done|done|done|done|by apply enough_levels]. cbn [mbind option_bind fst].
  rewrite (remove_all_prune _ q c (repaired n)); [|by apply repair_removable| |by apply repair_free].
  2:{ rewrite lookup_repair, Hn. cbn. by rewrite below_refl. }
  cbn [mbind option_bind]. replace (prune _ (repair _ s)) with (prune (below (q ++ [c])) s).
  2:{ apply map_eq. intros y. rewrite !lookup_prune, lookup_repair. destruct (below (q ++ [c]) y); [done|].
      by destruct (s !! y). }
  cbn [is_some negb andb]. rewrite gone_last.
  - rewrite lookup_prune, below_refl. reflexivity.
  - apply prune_wf; [apply below_closed | done].
  - intros a Ha. destruct (Hq a Ha) as (d & Hd & ?). exists d. by rewrite lookup_prune, not_below_self.
  - done.
  - intros m. by rewrite lookup_prune, below_refl.
Qed.

(** ** [Remove] on any tree *)
(** No link on the way to [x], [x] included. *)
Definition no_link_to (s : fs) (x : path) : Prop :=
  forall a n, a `prefix_of` x -> s !! a = Some n -> is_link n = false.
Lemma resolve_no_link_to s fo x q : resolve s fo x = Ok q -> Forall plain x -> no_link_to s x -> q = x.
Proof.
  unfold Storage.resolve. intros Hq Hpl Hl. apply (resolve_no_links _ _ _ [] x _ Hq Hpl). intros a n Ha _. by apply Hl.
Qed.
Definition no_links (s : fs) (p : path) : Prop :=
  forall x n, x `prefix_of` p \/ p `prefix_of` x -> s !! x = Some n -> is_link n = false.
Definition remoded (n n' : node) : Prop := nd_owner n = uid /\ (n' = set_mode 448 n \/ n' = set_mode 384 n).
(** What a walk over [p] may do. *)
Record touches (p : path) (s s' : fs) : Prop := Touches {
  tc_shape : shape s' = shape s;
  tc_mode : forall y, s' !! y = s !! y \/ exists n n', s !! y = Some n /\ s' !! y = Some n' /\ remoded n n';
  tc_inside : no_links s p -> forall y, below p y = false -> s' !! y = s !! y }.
Lemma shape_no_links s s' p : shape s' = shape s -> no_links s p -> no_links s' p.
Proof.
  intros Hsh Hl x n Hx Hn. symmetry in Hsh. destruct (shape_lookup _ _ _ _ Hsh Hn) as (m & Hm). by apply Hl in Hm.
Qed.
Lemma shape_no_link_to s s' x : shape s' = shape s -> no_link_to s x -> no_link_to s' x.
Proof.
  intros Hsh Hl a n Ha Hn. symmetry in Hsh. destruct (shape_lookup _ _ _ _ Hsh Hn) as (m & Hm). by apply Hl in Hm.
Qed.
#[export] Instance touches_preorder p : PreOrder (touches p).
Proof.
  split.
  - intros s. split; [done | by left | done].
  - intros s1 s2 s3 [Hs12 Hm12 Hi12] [Hs23 Hm23 Hi23]. split; [by rewrite Hs23| |].
    + intros y. destruct (Hm12 y) as [H12|(n & n' & Hn & Hn' & Ho & Hr)], (Hm23 y) as [H23|(k & k' & Hk & Hk' & Ho' & Hr')].
      * left. by rewrite H23.
      * right. exists k, k'. rewrite <- H12. by repeat split.
      * right. exists n, n'. rewrite H23. by repeat split.
      * right. exists n, k'. split; [done|]. split; [done|]. split; [done|]. rewrite Hn' in Hk. injection Hk as <-.
        destruct Hr as [->| ->], Hr' as [->| ->]; auto.
    + intros Hl y Hy. rewrite Hi23, Hi12; [done|done|done|by eapply shape_no_links|done].
Qed.
Lemma chmod_touches s p x mode :
  p `prefix_of` x -> Forall plain x -> mode = 448%Z \/ mode = 384%Z -> touches p s (chmod s x mode).
Proof.
  intros Hx Hpl Hmode. unfold Storage.chmod. destruct (resolve s true x) as [q|] eqn:Hq; [|reflexivity].
  destruct (s !! q) as [n|] eqn:Hn; [|reflexivity]. destruct (nd_owner n =? uid)%Z eqn:Ho; breflect; [|reflexivity].
  split.
  - unfold shape. rewrite fmap_insert. apply insert_id. by rewrite lookup_fmap, Hn.
  - intros y. destruct (decide (q = y)) as [<-|Hne]; [right|left; by rewrite lookup_insert_ne].
    exists n, (set_mode mode n). rewrite lookup_insert_eq. split; [done|]. split; [done|]. split; [done|].
    destruct Hmode as [->| ->]; auto.
  - intros Hl y Hy. rewrite lookup_insert_ne; [done|]. intros <-. apply below_false in Hy. apply Hy.
    apply resolve_no_link_to in Hq as ->; [done | done|]. intros a m Ha. apply Hl.
    destruct (prefix_weak_total a p x Ha Hx); auto.
Qed.
Lemma read_dir_inv s x l c n :
  read_dir s x = Ok l -> Forall plain x -> no_link_to s x -> (c, n) ∈ l -> s !! (x ++ [c]) = Some n.
Proof.
  unfold Storage.read_dir. intros Hrd Hpl Hl. destruct (resolve s true x) as [q|] eqn:Hq; [|done].
  apply resolve_no_link_to in Hq as ->; [|done|done]. cbn [mbind result_bind] in Hrd.
  destruct (s !! x) as [d|]; [|done]. cbn [mbind result_bind from_option_err] in Hrd.
  destruct (negb (is_dir d)); [done|]. destruct (negb (may _ d)); [done|]. injection Hrd as <-.
  rewrite list_elem_of_omap. intros (c' & _ & Hc). cbn in Hc.
  destruct (s !! (x ++ [c'])) as [n'|] eqn:Hn'; [|done]. by injection Hc as <- <-.
Qed.
Lemma lstat_inv s q c n :
  lstat uid in_group s (q ++ [c]) = Ok n -> wf s -> Forall plain (q ++ [c]) -> no_link_to s q -> s !! (q ++ [c]) = Some n.
Proof.
  unfold lstat, node_at. intros Hn Hs Hpl Hl. destruct (resolve s false (q ++ [c])) as [x|] eqn:Hx; [|done].
  cbn [mbind result_bind] in Hn. destruct (s !! x) as [m|] eqn:Hm; [|done]. injection Hn as ->.
  apply resolve_lstat in Hx; [by subst | done | done].
Qed.
(** A walk whose callback keeps the shape ends, and what relates the state
    before and after each call relates it before and after the walk. *)
Section walk_inv.
Context {A : Type} (visit : A -> path -> node -> option errno -> A * bool) (fs_of : A -> fs) (p : path).
Context (R : A -> A -> Prop) `{!PreOrder R}.
Context (Hvisit : forall a x n e, p `prefix_of` x -> Forall plain x -> R a (fst (visit a x n e))).
Context (Hshape : forall a a', R a a' -> shape (fs_of a') = shape (fs_of a)).
Local Abbreviation walk := (walk_dir uid in_group visit fs_of).
Lemma walk_entries_inv f x l a :
  (forall a c n0, 0 < f -> wf (fs_of a) -> Forall plain (x ++ [c]) -> enough f (fs_of a) (x ++ [c]) ->
     (is_dir n0 = true -> no_link_to (fs_of a) (x ++ [c])) ->
     exists a' b, walk f a (x ++ [c]) n0 = Some (a', b) /\ R a a') ->
  wf (fs_of a) -> Forall plain x -> no_link_to (fs_of a) x -> enough (S f) (fs_of a) x ->
  (forall c n0, (c, n0) ∈ l -> exists n, fs_of a !! (x ++ [c]) = Some n /\ is_dir n0 = is_dir n) ->
  exists a' b, walk_entries (fun a c n => walk f a (x ++ [c]) n) a l = Some (a', b) /\ R a a'.
Proof.
  intros IH. revert a. induction l as [|[c n0] l IHl]; intros a Hs Hpl Hx He Hl; cbn [walk_entries].
  { exists a, true. split; [done | reflexivity]. }
  destruct (Hl c n0) as (n & Hn & Hd); [by left|].
  assert (Hf : 0 < f).
  { specialize (He _ _ Hn ltac:(by exists [c])). rewrite length_app in He. cbn in He. lia. }
  destruct (IH a c n0) as (a1 & b & -> & Ht); [done|done| |by apply enough_child| |].
  { apply Forall_app. split; [done|]. constructor; [by apply (Hs _ _ _ Hn) | done]. }
  { intros Hdir y m Ha Hm. apply prefix_snoc in Ha as [->|Ha]; [|by apply (Hx y)]. rewrite Hn in Hm. injection Hm as <-.
    rewrite Hd in Hdir. unfold is_dir in Hdir. unfold is_link. by destruct (nd_kind n). }
  cbn [mbind option_bind]. destruct b; [|by exists a1, false]. pose proof (Hshape _ _ Ht) as Hsh.
  destruct (IHl a1) as (a2 & b & -> & Ht2).
  - by eapply shape_wf.
  - done.
  - by eapply shape_no_link_to.
  - by eapply shape_enough.
  - intros c' n' Hc. destruct (Hl c' n') as (m & Hm & Hmd); [by right|].
    destruct (shape_lookup _ _ _ _ Hsh Hm) as (k & Hk). by exists (set_mode k m).
  - exists a2, b. split; [done | by etransitivity].
Qed.
Lemma walk_dir_inv f a x n0 :
  0 < f -> wf (fs_of a) -> p `prefix_of` x -> Forall plain x -> enough f (fs_of a) x ->
  (is_dir n0 = true -> no_link_to (fs_of a) x) ->
  exists a' b, walk f a x n0 = Some (a', b) /\ R a a'.
Proof.
  revert a x n0. induction f as [|f IH]; intros a x n0 Hf Hs Hpx Hpl He Hnl; [lia|]. cbn [walk_dir].
  pose proof (Hvisit a x n0 None Hpx Hpl) as Ht. destruct (visit a x n0 None) as [a1 b]. cbn [fst] in Ht.
  destruct b; [|by exists a1, false]. pose proof (Hshape _ _ Ht) as Hsh.
  destruct (is_dir n0) eqn:Hd; cbn [negb]; [|by exists a1, true]. specialize (Hnl eq_refl).
  destruct (read_dir (fs_of a1) x) as [l|e] eqn:Hrd.
  2:{ pose proof (Hvisit a1 x n0 (Some e) Hpx Hpl) as Ht2. destruct (visit a1 x n0 (Some e)) as [a2 b2]. exists a2, b2.
      split; [done | by etransitivity]. }
  assert (Hl : forall c n, (c, n) ∈ l -> fs_of a1 !! (x ++ [c]) = Some n).
  { intros c n. apply (read_dir_inv (fs_of a1) x); [done | done | by eapply shape_no_link_to]. }
  destruct (walk_entries_inv f x l a1) as (a2 & b & -> & Ht2).
  - intros a0 c n1 Hf0 Hs0 Hpl0 He0. apply IH; [done|done| |done|done]. etransitivity; [exact Hpx | by exists [c]].
  - by eapply shape_wf.
  - done.
  - by eapply shape_no_link_to.
  - by eapply shape_enough.
  - intros c n1 Hc. exists n1. by split; [apply Hl|].
  - exists a2, b. split; [done | by etransitivity].
Qed.
End walk_inv.
Lemma walk_dir_touch f s p x n0 :
  0 < f -> wf s -> p `prefix_of` x -> Forall plain x -> enough f s x -> (is_dir n0 = true -> no_link_to s x) ->
  exists s' b, walk_repair f s x n0 = Some (s', b) /\ touches p s s'.
Proof.
  intros. apply (walk_dir_inv repair_entry id p (touches p)); try done; [|by intros a a' []].
  intros a y n [e|] Hy Hpl; cbn; [reflexivity|]. apply chmod_touches; [done | done | destruct (is_dir n); auto].
Qed.

(** What a removal below [x] may do. *)
Definition cuts (x : path) (s s' : fs) : Prop :=
  wf s' /\ forall y, s' !! y = s !! y \/ (below x y = true /\ s' !! y = None).
Lemma cuts_refl x s : wf s -> cuts x s s.
Proof. intros Hs. split; [done | by left]. Qed.
Lemma cuts_trans x s1 s2 s3 : cuts x s1 s2 -> cuts x s2 s3 -> cuts x s1 s3.
Proof.
  intros [_ H12] [Hs3 H23]. split; [done|]. intros y. destruct (H23 y) as [Hy|]; [|by right].
  rewrite Hy. apply H12.
Qed.
Lemma cuts_child x c s s' : cuts (x ++ [c]) s s' -> cuts x s s'.
Proof.
  intros [Hs Hc]. split; [done|]. intros y. destruct (Hc y) as [|[Hy%below_spec ?]]; [by left|right].
  split; [|done]. apply below_spec. etransitivity; [by exists [c] | exact Hy].
Qed.
Lemma cuts_enough f x s s' z : cuts x s s' -> enough f s z -> enough f s' z.
Proof. intros [_ Hc] He y n Hy. destruct (Hc y) as [H|[_ H]]; rewrite H in Hy; [by apply (He y n) | done]. Qed.
Lemma cuts_delete x s : wf s -> (forall c, s !! (x ++ [c]) = None) -> cuts x s (delete x s).
Proof.
  intros Hs Hx. split.
  - intros p c n [_ Hn]%lookup_delete_Some. apply Hs in Hn as Hp. destruct Hp as (Hc & d & Hd & Hdir).
    split; [done|]. exists d. rewrite lookup_delete_ne; [done|]. intros <-. by rewrite Hx in Hn.
  - intros y. destruct (decide (x = y)) as [<-|]; [right | left; by rewrite lookup_delete_ne].
    by rewrite below_refl, lookup_delete_eq.
Qed.
Lemma no_children s x : children s x = [] -> forall c, s !! (x ++ [c]) = None.
Proof.
  intros Hc c. apply eq_None_not_Some. intros Hs%children_elem. rewrite Hc in Hs. by apply not_elem_of_nil in Hs.
Qed.
Lemma leaf_children s x n : wf s -> s !! x = Some n -> is_dir n = false -> forall c, s !! (x ++ [c]) = None.
Proof.
  intros Hs Hn Hd c. apply eq_None_not_Some. intros [m Hm]. apply Hs in Hm as (_ & d & Hx & Hdir). congruence.
Qed.
Lemma rm_entries_cuts f x l s e :
  (forall s c, 0 < f -> wf s -> enough f s (x ++ [c]) ->
     exists s' e, rm_at f s x c = Some (s', e) /\ cuts (x ++ [c]) s s') ->
  (l <> [] -> 0 < f) -> wf s -> enough (S f) s x ->
  exists s' e', rm_entries (fun s c => rm_at f s x c) s e l = Some (s', e') /\ cuts x s s'.
Proof.
  intros IH. revert s e. induction l as [|c l IHl]; intros s e Hf Hs He; cbn [rm_entries].
  { exists s, e. split; [done | by apply cuts_refl]. }
  destruct (IH s c) as (s1 & e1 & -> & Hc%cuts_child); [by apply Hf | done | by apply enough_child|].
  cbn [mbind option_bind]. edestruct (IHl s1) as (s2 & e2 & -> & Hc2).
  - intros _. by apply Hf.
  - apply Hc.
  - by eapply cuts_enough.
  - exists s2, e2. split; [done | by eapply cuts_trans].
Qed.
Lemma rm_at_cuts f s q c :
  0 < f -> wf s -> enough f s (q ++ [c]) -> exists s' e, rm_at f s q c = Some (s', e) /\ cuts (q ++ [c]) s s'.
Proof.
  revert s q c. induction f as [|f IH]; intros s q c Hf Hs He; [lia|]. cbn [Storage.rm_at]. set (x := q ++ [c]) in *.
  assert (Hsame : forall e : option errno, exists s' e', Some (s, e) = Some (s', e') /\ cuts x s s')
    by (intros e; exists s, e; split; [done | by apply cuts_refl]).
  destruct (s !! q) as [d|]; [|apply Hsame]. destruct (negb (may Search d)); [apply Hsame|].
  destruct (s !! x) as [n|] eqn:Hn; [|apply Hsame]. destruct (is_dir n) eqn:Hd; cbn [negb].
  2:{ destruct (may Write d); [|apply Hsame]. exists (delete x s), None. split; [done|].
      apply cuts_delete; [done | by eapply leaf_children]. }
  assert (Hr : exists s1 e1, (if may Read n then rm_entries (fun s c' => rm_at f s x c') s None (children s x)
                              else Some (s, Some EACCES)) = Some (s1, e1) /\ cuts x s s1).
  { destruct (may Read n); [|apply Hsame]. apply rm_entries_cuts; [intros; by apply IH | | done | done].
    intros Hne. destruct (children s x) as [|c' l] eqn:Hc; [done|].
    destruct (proj1 (children_elem s x c')) as [m Hm]; [rewrite Hc; by left|].
    specialize (He _ _ Hm ltac:(by exists [c'])). rewrite length_app in He. cbn in He. lia. }
  destruct Hr as (s1 & e1 & -> & Hc). cbn [mbind option_bind]. destruct (may Write d); cbn [negb].
  2:{ exists s1, (Some (default EACCES e1)). by split. }
  destruct (children s1 x) eqn:Hch; [|by exists s1, (Some (default ENOTEMPTY e1))].
  exists (delete x s1), None. split; [done|]. eapply cuts_trans; [exact Hc|]. apply cuts_delete; [apply Hc | by apply no_children].
Qed.
Lemma remove_all_cuts s q c :
  wf s -> Forall plain q -> no_link_to s q ->
  exists s' e, remove_all uid in_group s (q ++ [c]) = Some (s', e) /\ cuts (q ++ [c]) s s'.
Proof.
  intros Hs Hpl Hl. unfold remove_all. rewrite last_snoc, removelast_last. set (x := q ++ [c]).
  assert (Hsame : forall e : option errno, exists s' e', Some (s, e) = Some (s', e') /\ cuts x s s')
    by (intros e; exists s, e; split; [done | by apply cuts_refl]).
  destruct (resolve s true q) as [q'|e] eqn:Hq; [|apply Hsame]. apply resolve_no_link_to in Hq as ->; [|done|done].
  destruct (remove_one uid in_group s q c) as [s1|e] eqn:Hr.
  - exists s1, None. split; [done|]. unfold remove_one in Hr. fold x in Hr. destruct (s !! q) as [d|]; [|done].
    cbn [from_option_err mbind result_bind] in Hr. destruct (negb (may Search d)); [done|].
    destruct (s !! x) as [n|] eqn:Hn; [|done]. destruct (negb (may Write d)); [done|].
    destruct (is_dir n) eqn:Hd; cbn [andb] in Hr.
    + destruct (bool_decide _) eqn:Hch in Hr; [|done]. injection Hr as <-. apply bool_decide_eq_true in Hch.
      apply cuts_delete; [done | by apply no_children].
    + injection Hr as <-. apply cuts_delete; [done | by eapply leaf_children].
  - destruct (is_not_exist e); [apply Hsame|]. destruct (match s !! q with Some _ => _ | None => _ end); [apply Hsame|].
    apply rm_at_cuts; [unfold levels; lia | done | by apply enough_levels].
Qed.

(** ** Cleaning several layers *)
Lemma prune_removable P s q : closed P -> P q = false -> removable s q -> removable (prune P s) q.
Proof.
  intros HP Hq [Hs Hp (d & Hd & Ha)].
  assert (Hup : forall a, a `prefix_of` q -> P a = false).
  { intros a Hpre. destruct (P a) eqn:HPa; [|done]. by rewrite (HP a q) in Hq. }
  split; [by apply prune_wf | |exists d; by rewrite lookup_prune, Hq].
  intros a Hpre. destruct (Hp a Hpre) as (e & He & ?). exists e. by rewrite lookup_prune, Hup.
Qed.
Lemma prune_tree_ok P s x : tree_ok s x -> tree_ok (prune P s) x.
Proof. intros Ht y n Hy Hn%prune_some. by apply (Ht y). Qed.
(** The loop of the functions that clean several layers. *)
Lemma clean_entries_prune unshare sudo sel base s l :
  removable s base ->
  (forall c n, (c, n) ∈ l -> s !! (base ++ [c]) = Some n) -> NoDup (map fst l) ->
  (forall c n, (c, n) ∈ l -> is_dir n = true -> sel c = true -> tree_ok s (base ++ [c])) ->
  clean_entries (remove uid in_group unshare sudo) sel base s l =
    Some (prune (fun y => existsb (fun e => is_dir (snd e) && sel (fst e) && below (base ++ [fst e]) y) l) s, None).
Proof.
  revert s. induction l as [|[c n] l IH]; intros s Hr Hl Hnd Ht; cbn [clean_entries].
  { do 2 f_equal. by rewrite prune_none. }
  inversion Hnd as [|? ? Hc Hnd']; subst. cbn [map fst] in Hc. destruct (is_dir n && sel c) eqn:Hsel; cbn [existsb fst snd].
  - apply andb_true_iff in Hsel as [Hd Hsel]. rewrite (remove_prune _ _ s base c n); [|done|apply Hl; by left|by apply (Ht c n); [left| |]].
    cbn [mbind option_bind]. rewrite IH.
    + rewrite prune_prune, Hd, Hsel. reflexivity.
    + apply prune_removable; [apply below_closed | by apply not_below_self | done].
    + intros c' n' Hc'. rewrite lookup_prune. destruct (below _ _) eqn:Hb.
      * apply below_spec in Hb. apply prefix_app_inv in Hb. destruct Hb as [k Hk]. injection Hk as -> _.
        exfalso. apply Hc. apply list_elem_of_fmap. by exists (c, n').
      * apply Hl. by right.
    + done.
    + intros c' n' Hc' Hd' Hs'. apply prune_tree_ok. apply (Ht c' n'); [by right | done | done].
  - rewrite IH; [by rewrite Hsel | done | intros; apply Hl; by right | done | intros; eapply Ht; [by right|..]; done].
Qed.

(** ** Sizes *)
Definition norm64 (z : Z) : Z := ((z + 2 ^ 63) mod 2 ^ 64 - 2 ^ 63)%Z.
Lemma add64_norm a b : add64 (norm64 a) b = norm64 (a + b).
Proof.
  unfold add64, norm64. f_equal. replace (a + b + 2 ^ 63)%Z with ((a + 2 ^ 63) + b)%Z by ring.
  rewrite <- (Zplus_mod_idemp_l (a + 2 ^ 63)). f_equal. ring.
Qed.
Definition weight (n : node) : Z := if is_dir n then 0 else size_of n.
Fixpoint sum_of (P : path -> bool) (l : list (path * node)) : Z :=
  match l with [] => 0 | (y, n) :: l => ((if P y then weight n else 0) + sum_of P l)%Z end.
(** The size of the tree at [x]: that of everything but directories. *)
Definition tree_size (s : fs) (P : path -> bool) : Z := sum_of P (map_to_list s).
Lemma tree_size_split s P Q R :
  (forall y n, s !! y = Some n -> P y = Q y || R y /\ Q y && R y = false) ->
  tree_size s P = (tree_size s Q + tree_size s R)%Z.
Proof.
  intros HP. unfold tree_size. assert (Hl : forall y n, (y, n) ∈ map_to_list s -> P y = Q y || R y /\ Q y && R y = false)
    by (intros y n Hy%elem_of_map_to_list; by eapply HP).
  induction (map_to_list s) as [|[y n] l IH]; cbn [sum_of]; [done|]. rewrite IH by (intros z m Hz; apply (Hl z m); by right).
  destruct (Hl y n) as [-> Hd]; [by left|]. destruct (Q y), (R y); cbn in *; [done | | |]; lia.
Qed.
Lemma tree_size_one s x n : s !! x = Some n -> tree_size s (fun y => bool_decide (x = y)) = weight n.
Proof.
  intros Hx. unfold tree_size. apply elem_of_map_to_list in Hx. pose proof (NoDup_fst_map_to_list s) as Hnd.
  induction (map_to_list s) as [|[y m] l IH]; [by apply not_elem_of_nil in Hx|]. cbn [sum_of].
  inversion Hnd as [|? ? Hy Hnd']; subst. apply elem_of_cons in Hx as [[= <- <-]|Hx].
  - rewrite bool_decide_true by done. enough (sum_of (fun y => bool_decide (x = y)) l = 0%Z) by lia.
    clear IH Hnd. cbn in Hy. induction l as [|[z k] l IHl]; [done|]. cbn [sum_of].
    rewrite bool_decide_false; [apply IHl|intros ->; apply Hy; by left].
    + intros Hin. apply Hy. by right.
    + by inversion Hnd'.
  - rewrite bool_decide_false; [by apply IH|]. intros <-. apply Hy, list_elem_of_fmap. by exists (x, n).
Qed.
Lemma tree_size_ext s P Q : (forall y n, s !! y = Some n -> P y = Q y) -> tree_size s P = tree_size s Q.
Proof.
  intros He. rewrite (tree_size_split s P Q (fun _ => false)).
  - enough (tree_size s (fun _ => false) = 0%Z) by lia. unfold tree_size. by induction (map_to_list s) as [|[y n] l IH].
  - intros y n Hy. rewrite orb_false_r, andb_false_r. by split; [eapply He|].
Qed.
Definition readable (s : fs) (x : path) : Prop :=
  forall y d, x `prefix_of` y -> s !! y = Some d -> is_dir d = true -> may Search d = true /\ may Read d = true.
Local Abbreviation walk_scan s := (walk_dir uid in_group (scan_entry uid in_group s) (fun _ => s)).
Lemma lstat_ok s q c n : wf s -> passable s q -> s !! (q ++ [c]) = Some n -> lstat uid in_group s (q ++ [c]) = Ok n.
Proof.
  intros Hs Hq Hn. unfold lstat. rewrite resolve_last; [|done|done|by apply (Hs _ _ _ Hn)|by intros; rewrite andb_false_r].
  rewrite Hn. unfold node_at. cbn. by rewrite Hn.
Qed.
Lemma entries_disjoint x c l y :
  c ∉ map fst l -> below (x ++ [c]) y && entries_below x l y = false.
Proof.
  intros Hc. apply not_true_is_false. rewrite andb_true_iff. intros [H1%below_spec (c' & Hc' & H2%below_spec)%existsb_exists].
  apply Hc. replace c with c'; [by apply list_elem_of_In|]. destruct H1 as [k1 ->], H2 as [k2 Hk].
  rewrite <- !app_assoc in Hk. apply app_inv_head in Hk. by injection Hk.
Qed.
Lemma walk_entries_scan f s x l t latest :
  (forall c n t latest, s !! (x ++ [c]) = Some n ->
     exists latest', walk_scan s f (norm64 t, latest) (x ++ [c]) n =
       Some (norm64 (t + tree_size s (below (x ++ [c]))), latest', true)) ->
  wf s -> NoDup (map fst l) -> (forall c n, (c, n) ∈ l -> s !! (x ++ [c]) = Some n) ->
  exists latest', walk_entries (fun a c n => walk_scan s f a (x ++ [c]) n) (norm64 t, latest) l =
    Some (norm64 (t + tree_size s (entries_below x l)), latest', true).
Proof.
  intros IH Hs. revert t latest. induction l as [|[c n] l IHl]; intros t latest Hnd Hl; cbn [walk_entries].
  { exists latest. do 4 f_equal. rewrite (tree_size_ext _ _ (fun _ => false)) by done.
    enough (tree_size s (fun _ => false) = 0%Z) by lia. unfold tree_size. by induction (map_to_list s) as [|[y m] k IHk]. }
  inversion Hnd as [|? ? Hc Hnd']; subst. destruct (IH c n t latest) as [lt ->]; [apply Hl; by left|].
  cbn [mbind option_bind]. destruct (IHl (t + tree_size s (below (x ++ [c])))%Z lt) as [lt2 ->];
    [done | intros; apply Hl; by right|].
  exists lt2. do 4 f_equal. rewrite <- Z.add_assoc. f_equal. symmetry. apply tree_size_split. intros y m _.
  split; [done | by apply entries_disjoint].
Qed.
Lemma walk_scan_size f s q c n t latest :
  wf s -> passable s q -> s !! (q ++ [c]) = Some n -> readable s (q ++ [c]) -> enough f s (q ++ [c]) ->
  exists latest', walk_scan s f (norm64 t, latest) (q ++ [c]) n =
    Some (norm64 (t + tree_size s (below (q ++ [c]))), latest', true).
Proof.
  revert q c n t latest. induction f as [|f IH]; intros q c n t latest Hs Hq Hn Hr He.
  { specialize (He _ _ Hn ltac:(done)). lia. }
  cbn [walk_dir]. unfold scan_entry at 1. rewrite (lstat_ok s q c n) by done. set (x := q ++ [c]) in *.
  destruct (is_dir n) eqn:Hd; cbn [negb].
  2:{ eexists. rewrite add64_norm. do 4 f_equal. rewrite (tree_size_ext _ _ (fun y => bool_decide (x = y))).
      - rewrite (tree_size_one s x n) by done. unfold weight. by rewrite Hd.
      - intros y m Hy. by eapply below_leaf. }
  assert (Hx : passable s x) by (apply passable_snoc; [done | exists n; split_and!; [done | done | by apply (Hr x)]]).
  destruct (read_dir_ok s x n) as (l & Hrd & Hl & Hnames); [done | done | done | by apply (Hr x)|]. rewrite Hrd.
  assert (Hnd : NoDup (map fst l)) by (rewrite Hnames; apply children_nodup).
  replace (tree_size s (below x)) with (tree_size s (fun y => entries_below x l y)).
  2:{ rewrite (tree_size_split s (below x) (fun y => bool_decide (x = y)) (entries_below x l)).
      - rewrite (tree_size_one s x n) by done. unfold weight. by rewrite Hd.
      - intros y m Hy. split.
        + symmetry. eapply below_split; [done | exact Hy|]. intros c' Hc'. rewrite Hnames. by apply children_elem.
        + destruct (decide (x = y)) as [<-|]; [|by rewrite bool_decide_false]. apply not_true_is_false.
          rewrite andb_true_iff. intros [_ (c' & _ & Hc')%existsb_exists]. by rewrite not_below_self in Hc'. }
  apply walk_entries_scan; [|done|done|by intros c' m Hc'%Hl].
  intros c' m t' lt Hm. apply IH; [done | done | done | |by apply enough_child].
  intros y d' Hy. apply Hr. etransitivity; [by exists [c'] | exact Hy].
Qed.
End user.

Lemma comps_layer base name : is_abs base = true -> plain name -> comps (path_join base name) = comps base ++ [name].
Proof.
  intros Hb Hn. rewrite comps_join by done. rewrite split_none by (by destruct Hn as (_ & _ & _ & ?)).
  unfold clean_stack. cbn [fold_left]. rewrite clean_step_plain, reverse_cons by done. by rewrite reverse_involutive.
Qed.
(** The nodes of the layers that a function cleans. *)
Definition in_selected (sel : gostring -> bool) (s : fs) (b y : path) : bool :=
  existsb (fun c => match s !! (b ++ [c]) with Some n => is_dir n && sel c && below (b ++ [c]) y | None => false end)
    (children s b).
Lemma clean_selected_prune uid g unshare sudo sel s base :
  removable uid g s (comps base) ->
  (forall c n, s !! (comps base ++ [c]) = Some n -> is_dir n = true -> sel c = true -> tree_ok uid s (comps base ++ [c])) ->
  clean_selected uid g (remove uid g unshare sudo) sel s base = Some (prune (in_selected sel s (comps base)) s, None).
Proof.
  intros Hr Ht. set (b := comps base) in *. pose proof Hr as [Hs Hp (d & Hd & Ha)]. unfold clean_selected, gone, stat. fold b.
  rewrite resolve_dir by done. unfold node_at. cbn [mbind result_bind]. rewrite Hd. cbn [from_option_err].
  destruct (read_dir_ok uid g s b d) as (l & -> & Hl & Hn); [done | done | done | by apply Ha|].
  rewrite clean_entries_prune; [|done|by intros c n Hc%Hl|rewrite Hn; apply children_nodup|].
  2:{ intros c n Hc%Hl. by apply Ht. }
  do 2 f_equal. apply prune_ext. intros y _ _. unfold in_selected. rewrite <- Hn.
  assert (Hl' : forall c n, (c, n) ∈ l -> s !! (b ++ [c]) = Some n) by (intros c n Hc; by apply Hl).
  clear - Hl'. induction l as [|[c n] l IH]; [done|]. cbn [existsb map fst snd]. rewrite (Hl' c n) by left.
  f_equal. apply IH. intros c' n' Hc'. apply Hl'. by right.
Qed.

#[export] Instance true_preorder {A} : PreOrder (fun _ _ : A => True).
Proof. by split. Qed.
(** What a layer says: the name and the type from the name of the directory,
    and the size of what can be read. *)
Definition layer_spec (uid : Z) (g : Z -> bool) (s : fs) (b : path) (y : layer) : Prop :=
  match ly_type y with
  | LayerCache => ly_raw y = $"cache-" ++ ly_name y
  | LayerRepo => ly_raw y = ly_name y /\ is_cache (ly_raw y) = false
  end /\ ly_path y = b ++ [ly_raw y] /\
  (readable uid g s (ly_path y) -> ly_size y = norm64 (tree_size s (below (ly_path y)))).
Lemma layer_of_spec uid g s b c n :
  wf s -> passable uid g s b -> s !! (b ++ [c]) = Some n -> is_dir n = true ->
  exists y, layer_of uid g s b c n = Some y /\ ly_raw y = c /\
    layer_spec uid g s b y.
Proof.
  intros Hs Hp Hn Hd.
  assert (Hscan : exists size mtime ok, scan_tree uid g s (b ++ [c]) = Some ((size, mtime), ok) /\
            (readable uid g s (b ++ [c]) -> size = norm64 (tree_size s (below (b ++ [c]))))).
  { unfold scan_tree, walk_tree. rewrite (lstat_ok uid g s b c n) by done.
    destruct (walk_dir_inv uid g (scan_entry uid g s) (fun _ => s) (b ++ [c]) (fun _ _ => True)) with
      (f := levels s) (a := (0, 0)%Z) (x := b ++ [c]) (n0 := n) as ([size mtime] & ok & Hw & _); try done.
    - unfold levels. lia.
    - by eapply wf_plain.
    - by apply enough_levels.
    - intros _ a m Ha Hm. apply prefix_snoc in Ha as [->|Ha].
      + rewrite Hn in Hm. injection Hm as <-. unfold is_dir in Hd. unfold is_link. by destruct (nd_kind n).
      + destruct (Hp a Ha) as (e & He & Hdir & _). rewrite He in Hm. injection Hm as <-.
        unfold is_dir in Hdir. unfold is_link. by destruct (nd_kind e).
    - exists size, mtime, ok. split; [done|]. intros Hr.
      destruct (walk_scan_size uid g (levels s) s b c n 0 0) as [lt Hw2]; try done; [by apply enough_levels|].
      change (norm64 0) with 0%Z in Hw2. rewrite Hw in Hw2. by injection Hw2 as -> _ _. }
  destruct Hscan as (size & mtime & ok & Hsc & Hsz). unfold layer_of. rewrite Hsc. eexists. split; [reflexivity|].
  cbn [ly_raw ly_type ly_path ly_size ly_name]. split; [done|]. split; [|by split].
  destruct (is_cache c) eqn:Hc; [|done]. apply has_prefix_true in Hc as [k ->]. by rewrite trim_prefix_app.
Qed.
Lemma layers_of_spec uid g s b l :
  wf s -> passable uid g s b -> (forall c n, (c, n) ∈ l -> s !! (b ++ [c]) = Some n) ->
  exists ls, layers_of uid g s b l = Some ls /\ map ly_raw ls = map fst (filter (fun e => visible e = true) l) /\
  Forall (layer_spec uid g s b) ls.
Proof.
  intros Hs Hp. induction l as [|[c n] l IH]; intros Hl; cbn [layers_of].
  { exists []. split_and!; [done | done | constructor]. }
  destruct IH as (ls & Hls & Hraw & Hall); [intros c' n' Hc; apply Hl; by right|].
  rewrite filter_cons. destruct (visible (c, n)) eqn:Hv; [rewrite decide_True by done|by rewrite decide_False by done; exists ls].
  unfold visible in Hv. cbn [fst snd] in Hv. apply andb_true_iff in Hv as [Hd _].
  destruct (layer_of_spec uid g s b c n) as (y & Hy & Hr & Hspec); [done | done | apply Hl; by left | done|].
  rewrite Hy, Hls. exists (y :: ls). split; [done|]. split; [cbn; by rewrite Hr, Hraw | by constructor].
Qed.
Lemma layer_leb_total x y : layer_leb x y = true \/ layer_leb y x = true.
Proof. unfold layer_leb. destruct (ly_type x), (ly_type y); auto using sleb_total. Qed.
Lemma layer_leb_trans x y z : layer_leb x y = true -> layer_leb y z = true -> layer_leb x z = true.
Proof. unfold layer_leb. destruct (ly_type x), (ly_type y), (ly_type z); try done; apply sleb_trans. Qed.

(** * Properties *)

(** cleaning deletes what it is asked to delete, and only that.  Where the
    storage base is a directory of the user that is reached without links,
    and the layers to be cleaned belong to the user and contain no symbolic
    link, every function ends without an error, the nodes of these layers are
    gone whatever their modes were (the overlay work directories have mode
    0000), and every other node is as before, the modes included. *)
Theorem clean_exact (uid : Z) (g : Z -> bool) (unshare sudo : option (fs -> fs)) (s : fs) (base : gostring)
    (Habs : is_abs base = true) (Hr : removable uid g s (comps base)) :
  let b := comps base in
  let rm := remove uid g unshare sudo in
  let own sel := forall c n, s !! (b ++ [c]) = Some n -> is_dir n = true -> sel c = true -> tree_ok uid s (b ++ [c]) in
  let exact sel r := own sel -> r = Some (prune (in_selected sel s b) s, None) in
  exact is_cache (CleanAllCaches uid g rm s base) /\
  exact (fun c => negb (is_cache c) && negb (is_hidden c)) (CleanAllRepos uid g rm s base) /\
  exact (fun c => negb (is_hidden c)) (CleanAll uid g rm s base) /\
  (forall name n, plain name -> s !! (b ++ [name]) = Some n -> tree_ok uid s (b ++ [name]) ->
     CleanRepo uid g rm s base name = Some (prune (below (b ++ [name])) s, Ok tt)) /\
  (forall name n, name <> [] -> plain ($"cache-" ++ name) -> s !! (b ++ [$"cache-" ++ name]) = Some n ->
     tree_ok uid s (b ++ [$"cache-" ++ name]) ->
     CleanCache uid g rm s base name = Some (prune (below (b ++ [$"cache-" ++ name])) s, Ok tt)).
Proof.
  intros b rm own exact. split_and!; [by intros Ho; apply clean_selected_prune ..| |].
  - intros name n Hp Hn Ht. unfold CleanRepo. rewrite (proj2 (is_empty_false name)) by (by destruct Hp).
    unfold clean_target. rewrite comps_layer by done. fold b. pose proof Hr as [Hs Hq _].
    rewrite gone_last, Hn; [|done|done|done|by intros m Hm; apply (Ht _ _ (reflexivity _) Hm)]. cbn [is_some negb].
    unfold rm. by rewrite (remove_prune _ _ _ _ _ _ _ n).
  - intros name n Hne Hp Hn Ht. unfold CleanCache. rewrite (proj2 (is_empty_false name)) by done.
    unfold clean_target. rewrite comps_layer by done. fold b. pose proof Hr as [Hs Hq _].
    rewrite gone_last, Hn; [|done|done|done|by intros m Hm; apply (Ht _ _ (reflexivity _) Hm)]. cbn [is_some negb].
    unfold rm. by rewrite (remove_prune _ _ _ _ _ _ _ n).
Qed.

(** C36: what Remove can do outside the tree it deletes, whatever the tree
    holds: the guest writes it.  Reached without links and without the two
    external commands, it always ends.  A node outside the tree is never
    deleted and never created; it stays as it was, unless it belongs to the
    user and the tree holds a symbolic link: then its mode may have become
    0700 or 0600, because the repair of the modes follows links. *)
Theorem remove_confined (uid : Z) (g : Z -> bool) (s : fs) (q : path) (c : gostring)
    (Hs : wf s) (Hpl : Forall plain (q ++ [c])) (Hl : no_link_to s q) :
  exists s' e, remove uid g None None s (q ++ [c]) = Some (s', e) /\
  forall y, below (q ++ [c]) y = false ->
    s' !! y = s !! y \/
    exists n n' x l, s !! y = Some n /\ s' !! y = Some n' /\ remoded uid n n' /\
      (q ++ [c]) `prefix_of` x /\ s !! x = Some l /\ is_link l = true.
Proof.
  unfold remove. destruct (gone uid g s (q ++ [c])).
  { exists s, None. split; [done | by left]. }
  assert (Hw : exists s1 b, walk_tree uid g (repair_entry uid g) id (levels s) s (q ++ [c]) = Some (s1, b) /\
                 touches uid (q ++ [c]) s s1).
  { unfold walk_tree. change (id s) with s. destruct (lstat uid g s (q ++ [c])) as [n|e] eqn:Hn.
    - apply walk_dir_touch; [unfold levels; lia | done | done | done | by apply enough_levels|].
      intros Hd a m Ha Hm. apply prefix_snoc in Ha as [->|Ha]; [|by apply (Hl a)].
      apply lstat_inv in Hn; [|done|done|done]. rewrite Hn in Hm. injection Hm as <-.
      unfold is_dir in Hd. unfold is_link. by destruct (nd_kind n).
    - exists s, false. split; [done | reflexivity]. }
  destruct Hw as (s1 & b & -> & Ht). cbn [mbind option_bind fst]. pose proof (tc_shape _ _ _ _ Ht) as Hsh.
  apply Forall_app in Hpl as [Hplq _].
  destruct (remove_all_cuts uid g s1 q c) as (s2 & e2 & -> & Hc2);
    [by eapply shape_wf | done | by eapply shape_no_link_to|].
  cbn [mbind option_bind].
  assert (Hout : forall s3, cuts (q ++ [c]) s1 s3 -> forall y, below (q ++ [c]) y = false ->
    s3 !! y = s !! y \/
    exists n n' x l, s !! y = Some n /\ s3 !! y = Some n' /\ remoded uid n n' /\
      (q ++ [c]) `prefix_of` x /\ s !! x = Some l /\ is_link l = true).
  { intros s3 [_ Hc] y Hy. destruct (Hc y) as [Hsame|[Hb _]]; [|congruence]. rewrite Hsame.
    destruct (decide (map_Forall (fun x l => below (q ++ [c]) x = true -> is_link l = false) s)) as [Hno|Hyes].
    - left. apply (tc_inside _ _ _ _ Ht); [|done]. intros x l [Hx|Hx] Hxl; [|apply (Hno x l Hxl); by apply below_spec].
      apply prefix_snoc in Hx as [->|Hx]; [|by apply (Hl x l)]. apply (Hno _ l Hxl). apply below_refl.
    - apply map_not_Forall in Hyes as (x & l & Hxl & Hk); [|intros; apply _].
      destruct (tc_mode _ _ _ _ Ht y) as [|(n & n' & Hn & Hn' & Hr)]; [by left|right]. exists n, n', x, l.
      split_and!; try done; [apply below_spec|]; destruct (below (q ++ [c]) x), (is_link l); naive_solver. }
  destruct (negb (is_some e2) && _); [exists s2, None; split; [done | by apply Hout]|].
  cbn [tier is_some andb]. destruct (gone uid g s2 (q ++ [c])); [exists s2, None; split; [done | by apply Hout]|].
  destruct (remove_all_cuts uid g s2 q c) as (s3 & e3 & -> & Hc3); [apply Hc2 | done | |].
  { intros a n Ha Hn. destruct Hc2 as [_ Hc2]. destruct (Hc2 a) as [H|[_ H]]; rewrite H in Hn; [|done].
    by apply (shape_no_link_to _ _ _ Hsh Hl a). }
  exists s3, e3. split; [done|]. apply Hout. by eapply cuts_trans.
Qed.

(** List shows the layers.  Where the storage base is a readable directory
    reached without links, List returns one layer for every directory of the
    base whose name does not start with a dot, repository layers before cache
    layers and each in the order of the names; the prefix cache- decides the
    type and is taken off the name; and where the tree of a layer can be read
    its size is the sum of the sizes of the files and links in it. *)
Theorem layers_listed (uid : Z) (g : Z -> bool) (s : fs) (base : gostring) (d : node)
    (Hs : wf s) (Hp : passable uid g s (comps base)) (Hd : s !! comps base = Some d) (Hr : may uid g Read d = true) :
  let b := comps base in
  exists ls, list_layers uid g s base = Some (Ok ls) /\
  StronglySorted (fun x y => layer_leb x y = true) ls /\
  NoDup (map ly_raw ls) /\
  (forall c, c ∈ map ly_raw ls <-> exists n, s !! (b ++ [c]) = Some n /\ is_dir n = true /\ is_hidden c = false) /\
  Forall (layer_spec uid g s b) ls.
Proof.
  intros b. unfold list_layers, gone, stat. fold b. rewrite resolve_dir by done. unfold node_at. cbn [mbind result_bind].
  fold b in Hd. rewrite Hd. cbn [from_option_err].
  destruct (read_dir_ok uid g s b d) as (l & -> & Hl & Hn); [done | done | done | done|].
  destruct (layers_of_spec uid g s b l) as (ls & -> & Hraw & Hall); [done | done | by intros c n Hc%Hl|].
  exists (sort_by layer_leb ls). split; [done|]. split; [apply sort_by_sorted; [apply layer_leb_total | apply layer_leb_trans]|].
  assert (Hperm : map ly_raw (sort_by layer_leb ls) ≡ₚ map fst (filter (fun e => visible e = true) l)).
  { rewrite <- Hraw. apply (fmap_Permutation ly_raw), sort_by_perm. }
  rewrite Hperm. split.
  { apply (sublist_NoDup _ (map fst l)); [rewrite Hn; apply children_nodup | apply (fmap_sublist fst), sublist_filter]. }
  split; [|by rewrite sort_by_perm]. intros c. rewrite Hperm, list_elem_of_fmap. split.
  - intros ([c' n] & -> & [Hv Hc]%list_elem_of_filter). apply Hl in Hc. exists n. unfold visible in Hv. cbn [fst snd] in Hv.
    apply andb_true_iff in Hv as [? ?%negb_true_iff]. done.
  - intros (n & Hc & Hdir & Hh). exists (c, n). split; [done|]. apply list_elem_of_filter. split; [|by apply Hl].
    unfold visible. cbn [fst snd]. by rewrite Hdir, Hh.
Qed.

(** FormatSize rounds to the nearest tenth of the unit, up to 2^53 bytes. *)
Lemma round_even_close n d : (0 < d -> 2 * Z.abs (round_even n d * d - n) <= d)%Z.
Proof.
  intros Hd. unfold round_even. pose proof (Z.div_mod n d ltac:(lia)). pose proof (Z.mod_pos_bound n d Hd).
  set (q := (n / d)%Z) in *. set (r := (n mod d)%Z) in *.
  destruct (2 * r <? d)%Z eqn:H1; [breflect; nia|]. destruct (d <? 2 * r)%Z eqn:H2; [breflect; nia|]. breflect.
  destruct (Z.even q); nia.
Qed.

(** * Examples *)
Module Example_.
Definition nobody : Z -> bool := fun _ => false.
Definition dir_ (mode : Z) : node := Node Dir mode 1000 1000 7.
Definition file_ (size mtime : Z) : node := Node (File size) 420 1000 1000 mtime.
Definition link_ (target : gostring) : node := Node (Link target) 511 1000 1000 7.
Definition entries : list (path * node) := [
  ([], Node Dir 493 0 0 1); ([$"s"], dir_ 493);
  ([$"s"; $"a"], dir_ 493); ([$"s"; $"a"; $"upper"], dir_ 493); ([$"s"; $"a"; $"upper"; $"x"], file_ 10 9);
  ([$"s"; $"a"; $"work"], dir_ 493); ([$"s"; $"a"; $"work"; $"work"], dir_ 0);
  ([$"s"; $"cache-go"], dir_ 493); ([$"s"; $"cache-go"; $"y"], file_ 5 8); ([$"s"; $".tmp"], dir_ 493);
  ([$"home"], dir_ 493); ([$"home"; $"key"], file_ 1 2)].
Definition tree : fs := list_to_map entries.
Definition rm : fs -> path -> option (fs * option errno) := remove 1000 nobody None None.
Definition names (r : option (fs * result clean_err unit)) : option (list path * bool) :=
  match r with Some (s, e) => Some (sort_by (fun a b => sleb (join $"/" a) (join $"/" b)) (map fst (map_to_list s)), is_ok e) | None => None end.

(** The size of a layer with an unreadable overlay directory is what was
    added up before the error, and not zero. *)
Example listed : list_layers 1000 nobody tree $"/s" = Some (Ok [
  Layer $"a" $"a" LayerRepo [$"s"; $"a"] 10 7; Layer $"go" $"cache-go" LayerCache [$"s"; $"cache-go"] 5 8]).
Proof. vm_compute. reflexivity. Qed.
Example cleaned : names (CleanRepo 1000 nobody rm tree $"/s" $"a") = Some ([[]; [$"home"]; [$"home"; $"key"];
  [$"s"]; [$"s"; $".tmp"]; [$"s"; $"cache-go"]; [$"s"; $"cache-go"; $"y"]], true).
Proof. vm_compute. reflexivity. Qed.
(** A link that the guest left in its layer: cleaning the layer takes the
    execute permission from the directory it points to, here the home. *)
Example link_changes_mode :
  match CleanRepo 1000 nobody rm (<[[$"s"; $"a"; $"upper"; $"l"] := link_ $"/home"]> tree) $"/s" $"a" with
  | Some (s, Ok _) => s !! [$"home"] = Some (dir_ 384) /\ stat 1000 nobody s [$"home"; $"key"] = Err EACCES
  | _ => False
  end.
Proof. vm_compute. by split. Qed.
(** A link to the storage base: the layer can never be cleaned. *)
Example link_to_base :
  match CleanRepo 1000 nobody rm (<[[$"s"; $"a"; $"upper"; $"l"] := link_ $"../.."]> tree) $"/s" $"a" with
  | Some (s, Err _) => is_some (s !! [$"s"; $"a"; $"upper"; $"x"]) = true /\
                       option_map snd (CleanRepo 1000 nobody rm s $"/s" $"a") = Some (Err (RemoveFailed EACCES))
  | _ => False
  end.
Proof. vm_compute. split; reflexivity. Qed.
(** The name is not looked at: dots lead out of the base, a cache is deleted
    as a repository layer, and a dot deletes the base. *)
Example name_escapes :
  names (CleanRepo 1000 nobody rm (<[[] := Node Dir 511 0 0 1]> tree) $"/s" $"../home") = Some ([[];
    [$"s"]; [$"s"; $".tmp"]; [$"s"; $"a"]; [$"s"; $"a"; $"upper"]; [$"s"; $"a"; $"upper"; $"x"]; [$"s"; $"a"; $"work"];
    [$"s"; $"a"; $"work"; $"work"]; [$"s"; $"cache-go"]; [$"s"; $"cache-go"; $"y"]], true) /\
  names (CleanRepo 1000 nobody rm (<[[] := Node Dir 511 0 0 1]> tree) $"/s" $".") = Some ([[]; [$"home"]; [$"home"; $"key"]], true).
Proof. vm_compute. by split. Qed.
Example sizes : map FormatSize [0; 1023; 1024; 1536; 1073741823; 1073741824; 5368709120]%Z =
  [$"0 B"; $"1023 B"; $"1.0 KiB"; $"1.5 KiB"; $"1024.0 MiB"; $"1.0 GiB"; $"5.0 GiB"].
Proof. vm_compute. reflexivity. Qed.
Lemma tree_wf : wf tree.
Proof. apply wf_checked. vm_compute. reflexivity. Qed.
Lemma base_removable : removable 1000 nobody tree (comps $"/s").
Proof.
  split; [apply tree_wf | | by exists (dir_ 493); split; [|intros []]].
  intros a [->|Ha]%(prefix_snoc a [] $"s"); [by exists (dir_ 493)|]. apply prefix_nil_inv in Ha as ->. by exists (Node Dir 493 0 0 1).
Qed.
Lemma clean_exact_witness :
  names (CleanRepo 1000 nobody rm tree $"/s" $"a") =
    names (Some (prune (below [$"s"; $"a"]) tree, Ok tt)) /\
  CleanRepo 1000 nobody rm tree $"/s" $"a" = Some (prune (below [$"s"; $"a"]) tree, Ok tt).
Proof.
  pose proof (clean_exact 1000 nobody None None tree $"/s" eq_refl base_removable) as H.
  assert (E : CleanRepo 1000 nobody rm tree $"/s" $"a" = Some (prune (below [$"s"; $"a"]) tree, Ok tt)).
  { apply (proj1 (proj2 (proj2 (proj2 H))) $"a" (dir_ 493)).
    - apply (bool_decide_eq_true_1 (plain $"a")). vm_compute. reflexivity.
    - reflexivity.
    - apply tree_checked. vm_compute. reflexivity. }
  split; [exact (f_equal names E) | exact E].
Defined.
Lemma remove_confined_witness :
  exists s' e, remove 1000 nobody None None (<[[$"s"; $"a"; $"upper"; $"l"] := link_ $"/home"]> tree) [$"s"; $"a"] = Some (s', e) /\
    is_some (s' !! [$"home"; $"key"]) = true.
Proof.
  pose proof (remove_confined 1000 nobody (<[[$"s"; $"a"; $"upper"; $"l"] := link_ $"/home"]> tree) [$"s"] $"a") as H.
  destruct H as (s' & e & Hr & Hout).
  - apply wf_checked. vm_compute. reflexivity.
  - apply (bool_decide_eq_true_1 (Forall plain [$"s"; $"a"])). vm_compute. reflexivity.
  - intros a n [->|Ha]%(prefix_snoc a [] $"s") Hn; [by injection Hn as <-|]. apply prefix_nil_inv in Ha as ->. by injection Hn as <-.
  - exists s', e. split; [exact Hr|]. destruct (Hout [$"home"; $"key"]) as [->|(n & n' & x & l & _ & -> & _)]; reflexivity.
Defined.
Lemma layers_listed_witness :
  exists ls, list_layers 1000 nobody tree $"/s" = Some (Ok ls) /\ map ly_raw ls ≡ₚ [$"a"; $"cache-go"].
Proof.
  pose proof (layers_listed 1000 nobody tree $"/s" (dir_ 493)) as H.
  specialize (H tree_wf (rm_pass _ _ _ _ base_removable) eq_refl eq_refl).
  destruct H as (ls & Hls & _). rewrite listed in Hls. exists ls. split; [rewrite listed; exact Hls|]. by injection Hls as <-.
Defined.
End Example_.
