(* ===== verification/Launch.v ===== *)
(** Launching a sandbox: [launch.go], [bwrapversion.go] and [fdscrub.go] of
    [internal/orchestrator].

    [launch] is [Launch]: the version gate, the seccomp decision, and at most
    ten attempts to [start]; an attempt is an oracle for what the operating
    system answers.  A Go panic is the result [Panicked]. *)
From S2P Require Import GoStrings GoPath GoNet ConfigTypes ConfigMerge Matcher Whitelist Justfile SeccompTables Seccomp Templates Secrets BwrapArgs Ports PlanBuilder Services.
Local Open Scope go_scope.

(** * The version of bubblewrap *)
Section version.
Local Open Scope Z_scope.
Definition bwrapMinMajor : Z := 0.
Definition bwrapMinMinor : Z := 11.
Record bwrap_version := BwrapVersion { v_major : Z; v_minor : Z; v_patch : Z }.
(** What [fmt.Sscanf] does with ["bubblewrap %d.%d.%d"].  Blanks before a
    number are skipped; a line feed among them is an error. *)
Fixpoint skip_space_fuel (fuel : nat) (s : gostring) : option gostring :=
  match fuel with
  | O => Some s
  | S f => match leading_space s with
           | None => Some s
           | Some e => if seqb e nl then None else skip_space_fuel f (drop (length e) s)
           end
  end.
Definition skip_space (s : gostring) : option gostring := skip_space_fuel (length s) s.
(** The blanks of the input that a space of the format stands for. *)
Fixpoint skip_blanks_fuel (fuel : nat) (s : gostring) : gostring :=
  match fuel with
  | O => s
  | S f => match leading_space s with
           | None => s
           | Some e => if seqb e nl then s else skip_blanks_fuel f (drop (length e) s)
           end
  end.
Definition format_space (s : gostring) : option gostring :=
  if is_empty s then Some []
  else match leading_space s with
       | None => None
       | Some e => if seqb e nl then None else Some (skip_blanks_fuel (length s) s)
       end.
Fixpoint digit_run (s : gostring) : gostring :=
  match s with
  | c :: rest => if is_digit c then c :: digit_run rest else []
  | [] => []
  end.
(** [%d]: an optional sign and decimal digits, within int64. *)
Definition scan_int (s : gostring) : option (Z * gostring) :=
  s ← skip_space s;
  let sign := match s with c :: _ => if Ascii.eqb c "+" || Ascii.eqb c "-" then [c] else [] | [] => [] end in
  let digits := digit_run (drop (length sign) s) in
  n ← atoi (sign ++ digits);
  Some (n, drop (length sign + length digits) s).
Definition scan_literal (lit s : gostring) : option gostring :=
  if has_prefix s lit then Some (drop (length lit) s) else None.
(** At least major and minor must be there; what follows them is ignored. *)
Definition parse_bwrap_version_string (output : gostring) : option bwrap_version :=
  let trimmed := trim_space output in
  s ← scan_literal $"bubblewrap" trimmed;
  s ← format_space s;
  '(major, s) ← scan_int s;
  s ← scan_literal $"." s;
  '(minor, s) ← scan_int s;
  let patch := match (s ← scan_literal $"." s; scan_int s) with Some (n, _) => n | None => 0 end in
  Some (BwrapVersion major minor patch).
End version.
Inductive version_err := NotExecutable | Unparsable.
(** [GetBwrapVersion]: the result is kept per path.  [output] is what the
    binary prints, [None] when it cannot be run. *)
Abbreviation version_cache := (gmap gostring (result version_err bwrap_version)).
Definition get_bwrap_version (output : gostring -> option gostring) (cache : version_cache) (path : gostring)
  : result version_err bwrap_version * version_cache :=
  match cache !! path with
  | Some r => (r, cache)
  | None =>
      let r := match output path with
               | None => Err NotExecutable
               | Some out => match parse_bwrap_version_string out with
                             | Some v => Ok v
                             | None => Err Unparsable
                             end
               end in
      (r, <[path := r]> cache)
  end.
Definition is_new_enough (v : bwrap_version) : bool :=
  ((bwrapMinMajor <? v_major v) || (v_major v =? bwrapMinMajor) && (bwrapMinMinor <=? v_minor v))%Z.
Inductive compat_err := OverlayNeedsNewer | SeccompNeedsNewer | VersionUnknown (e : version_err).
Definition check_compatibility_parsed (v : bwrap_version) (b : plan) (seccomp : gostring) : result compat_err unit :=
  if is_new_enough v then Ok tt
  else if has_overlay b then Err OverlayNeedsNewer
  else if seqb seccomp $"on" then Err SeccompNeedsNewer
  else Ok tt.

(** [CheckBwrapCompatibility]. *)
Definition check_bwrap_compatibility (output : gostring -> option gostring) (cache : version_cache) (path : gostring)
    (b : plan) (seccomp : gostring) : result compat_err unit * version_cache :=
  let '(v, cache) := get_bwrap_version output cache path in
  (match v with Err e => Err (VersionUnknown e) | Ok v => check_compatibility_parsed v b seccomp end, cache).
(** [CheckBwrapVersion] and [checkBwrapVersionParsed], which no launch calls. *)
Inductive old_err := TooOld (v : bwrap_version) | OldUnknown (e : version_err).
Definition check_version (v : bwrap_version) : result old_err unit := if is_new_enough v then Ok tt else Err (TooOld v).
Definition check_bwrap_version (output : gostring -> option gostring) (cache : version_cache) (path : gostring)
  : result old_err unit * version_cache :=
  let '(v, cache) := get_bwrap_version output cache path in
  (match v with Err e => Err (OldUnknown e) | Ok v => check_version v end, cache).
Definition check_bwrap_version_parsed (output : gostring) (exec_err : bool) : result old_err unit :=
  if exec_err then Err (OldUnknown NotExecutable)
  else match parse_bwrap_version_string output with
       | None => Err (OldUnknown Unparsable)
       | Some v => check_version v
       end.

(** A version that passes the old check is compatible with every plan. *)
Lemma old_check_suffices output cache path b seccomp :
  fst (check_bwrap_version output cache path) = Ok tt ->
  fst (check_bwrap_compatibility output cache path b seccomp) = Ok tt.
Proof.
  unfold check_bwrap_version, check_bwrap_compatibility, check_version, check_compatibility_parsed.
  destruct (get_bwrap_version _ _ _) as [[v|e] cache']; cbn; [|done]. by destruct (is_new_enough v).
Qed.
(** On a path that was not asked about yet, it is the check of what the binary
    prints. *)
Lemma old_check_parsed output cache path :
  cache !! path = None ->
  is_ok (fst (check_bwrap_version output cache path)) =
  match output path with Some out => is_ok (check_bwrap_version_parsed out false) | None => false end.
Proof.
  intros Hc. unfold check_bwrap_version, get_bwrap_version, check_bwrap_version_parsed. rewrite Hc.
  destruct (output path) as [out|]; [|done]. by destruct (parse_bwrap_version_string out).
Qed.

(** * File descriptors *)
(** Which of the open descriptors [ScrubForeignFDs] marks close-on-exec. *)
Definition scrub_foreign_fds (keep open : list nat) : list nat :=
  filter (fun fd => negb ((fd <=? 2) || bool_decide (fd ∈ keep)) = true) open.
(** [cmd.ExtraFiles]: the guest ends in channel order, then the filter; the
    [i]-th is descriptor [3 + i] of the child. *)
Inductive extra_file := GuestEnd (i : nat) | SeccompFile.
Definition extra_files (filter_file : bool) : list extra_file :=
  map GuestEnd (seq 0 FDPreserved) ++ (if filter_file then [SeccompFile] else []).
Definition child_fd (filter_file : bool) (fd : nat) : option extra_file :=
  if fd <? 3 then None else extra_files filter_file !! (fd - 3).
Definition FDSeccomp : Z := 8.

(** * One attempt *)
(** How [cmd.Wait] ended, with what was captured of the standard error. *)
Record wait_result := WaitResult { wr_code : Z; wr_err : bool; wr_stderr : gostring }.
(** What the [select] of [Launch] saw: the end of the process, 750 ms without
    one, or the end of the context. *)
Inductive watched := Exited (code : Z) (err : bool) (stderr : gostring) | Stable | Cancelled.
(** The operating system during one attempt. *)
Record attempt := Attempt {
  at_memfd : bool;
  at_outbound_ip : bool; at_unshare : bool;
  at_socketpairs : nat;                      (* how many can be created *)
  at_stage_argv : bool; at_scrub : bool; at_exec : bool;
  at_bind : nat -> gostring -> Z -> bool;
  at_death : option nat;                     (* exit while the services start *)
  at_watch : watched;
  at_cancelled : bool }.                     (* the context ends during the pause *)
Inductive start_err :=
  | NoOutboundIP | NoUnshare | CreateChannel (i : nat) | StageArgv | ScrubFDs | StartBwrap
  | StartServices (e : svc_err).
Definition is_overlay_busy (r : wait_result) : bool :=
  contains (wr_stderr r) $"Can't make overlay mount" && contains (wr_stderr r) $"Device or resource busy".

Inductive launch_err :=
  | BwrapNotFound
  | Incompatible (e : compat_err)
  | CompileFilter (e : compile_err)
  | BuildArgsFailed (e : build_err)
  | CreateMemfd
  | ContextDone
  | NotStable.
(** [Launched]: the sandbox, and the result [Wait] gives if there is one. *)
Inductive launched :=
  | Launched (s : sandbox) (exit : option wait_result)
  | Failed (e : launch_err)
  | Panicked.

Section launch.
Context `{UnicodeCase, Regexp, MapRange gostring}.
Context (fs : filesystem) (marshal : env_keep_marker -> option gostring).
(** [start]: every failure returns a nil sandbox. *)
Definition start (lp : launch_plan) (stage_self : bool) (a : attempt) (gone : list port_listener)
  : result start_err sandbox :=
  if fp_transparent (lp_plan lp) && negb (at_outbound_ip a) then Err NoOutboundIP
  else if negb (at_unshare a) then Err NoUnshare
  else if at_socketpairs a <? FDPreserved then Err (CreateChannel (at_socketpairs a))
  else if stage_self && negb (at_stage_argv a) then Err StageArgv
  else if negb (at_scrub a) then Err ScrubFDs
  else if negb (at_exec a) then Err StartBwrap
  else match start_background_services fs (at_bind a) lp None (lp_audit lp) (new_sandbox gone (at_death a)) with
       | (_, Err e) => Err (StartServices e)
       | (s, Ok _) => Ok s
       end.
(** What [waitCh] delivers: standard error is captured with an overlay only. *)
Definition observed (b : plan) (code : Z) (err : bool) (stderr : gostring) : wait_result :=
  WaitResult code err (if has_overlay b then stderr else []).

(** * Launch *)
(** The loop over the attempts: [n] are left, [i] is the number of the next,
    [gone] the port listeners that earlier attempts closed.  After a failed
    [start] the host ends of the nil sandbox are accessed. *)
Fixpoint attempts_loop (lp : launch_plan) (stage_self filter_file : bool) (attempts : nat -> attempt) (n i : nat)
    (gone : list port_listener) : launched :=
  match n with
  | O => Failed NotStable
  | S n =>
      let a := attempts i in
      if filter_file && negb (at_memfd a) then Failed CreateMemfd
      else match start lp stage_self a gone with
      | Err _ => Panicked
      | Ok s =>
          match at_watch a with
          | Stable => Launched s None
          | Cancelled => Failed ContextDone
          | Exited code err stderr =>
              let s := close s in
              let r := observed (fp_bwrap (lp_plan lp)) code err stderr in
              if is_overlay_busy r then
                if at_cancelled a then Failed ContextDone
                else attempts_loop lp stage_self filter_file attempts n (S i) (sb_gone s)
              else Launched s (Some r)
          end
      end
  end.
Definition max_attempts : nat := 10.
Record launch_host := LaunchHost {
  lh_self : option gostring;                 (* readlink /proc/self/exe *)
  lh_bwrap : option gostring;                (* LookPath *)
  lh_version : gostring -> option gostring;  (* what bwrap --version prints *)
  lh_cache : version_cache;
  lh_goarch : gostring }.
Definition with_self_exe (exe : gostring) (b : plan) : plan :=
  Plan (repo_root b) (sandbox_home b) (resolv_conf b) (hosts_file b) (secret_dir b) (secret_path_binds b) (mounts b)
    (env_unset_vars b) (env_set_vars b) (env_inherit_vars b) (inherit_all b) (bwrap_args b) (p_allow_weak b) (p_overlay b)
    (disk_layer_rw b) (disk_layer_work b) exe (enable_runner b) (extra_dirs b) (prepend_dirs b) (append_dirs b)
    (seccomp_fd b) (p_command b).
Definition with_seccomp_fd (fd : Z) (b : plan) : plan :=
  Plan (repo_root b) (sandbox_home b) (resolv_conf b) (hosts_file b) (secret_dir b) (secret_path_binds b) (mounts b)
    (env_unset_vars b) (env_set_vars b) (env_inherit_vars b) (inherit_all b) (bwrap_args b) (p_allow_weak b) (p_overlay b)
    (disk_layer_rw b) (disk_layer_work b) (self_exe b) (enable_runner b) (extra_dirs b) (prepend_dirs b) (append_dirs b)
    fd (p_command b).
(** [enableSeccomp]. *)
Definition enable_seccomp (mode : gostring) (v : bwrap_version) : bool :=
  if seqb mode $"off" then false
  else if seqb mode $"auto" || is_empty mode
       then negb ((v_major v =? 0)%Z && (v_minor v <? 11)%Z)
       else true.
(** What [Launch] settles before the attempts: the binary, its arguments and
    the filter. *)
Record prepared := Prepared { pr_bin : gostring; pr_plan : plan; pr_args : list gostring; pr_filter : option gostring }.
Definition no_version : bwrap_version := BwrapVersion 0 0 0.
Definition prepare (lh : launch_host) (bwrap_path : gostring) (p : full_plan) : result launch_err prepared :=
  let b := fp_bwrap p in
  let b := if is_empty (self_exe b) then with_self_exe (default [] (lh_self lh)) b else b in
  bin ← (if is_empty bwrap_path then match lh_bwrap lh with Some x => Ok x | None => Err BwrapNotFound end
         else Ok bwrap_path);
  let '(r, cache) := get_bwrap_version (lh_version lh) (lh_cache lh) bin in
  v ← map_err (fun e => Incompatible (VersionUnknown e)) r;
  _ ← map_err Incompatible (check_compatibility_parsed v b (fp_seccomp p));
  let v := match fst (get_bwrap_version (lh_version lh) cache bin) with Ok v => v | Err _ => no_version end in
  if enable_seccomp (fp_seccomp p) v then
    code ← map_err CompileFilter (compile default_profile (native_arch (lh_goarch lh)));
    let b := with_seccomp_fd FDSeccomp b in
    args ← map_err BuildArgsFailed (build_args marshal b);
    Ok (Prepared bin b args (Some code))
  else
    args ← map_err BuildArgsFailed (build_args marshal b);
    Ok (Prepared bin b args None).
Definition launch (lh : launch_host) (bwrap_path : gostring) (lp : launch_plan) (attempts : nat -> attempt) : launched :=
  match prepare lh bwrap_path (lp_plan lp) with
  | Err e => Failed e
  | Ok pr =>
      let filter_file := match pr_filter pr with Some code => 0 <? length code | None => false end in
      attempts_loop lp (negb (is_empty (self_exe (pr_plan pr)))) filter_file attempts max_attempts 0 []
  end.
End launch.

(** * Lemmas *)
Section version_lemmas.
Local Open Scope Z_scope.
Lemma leading_space_none c s : forallb (fun e => match e with x :: _ => negb (Ascii.eqb x c) | [] => false end) space_encodings = true ->
  leading_space (c :: s) = None.
Proof.
  intros Hc. apply find_none. intros e He. rewrite forallb_forall in Hc. apply list_elem_of_In, Hc in He.
  destruct e as [|x e]; [done|]. destruct (has_prefix (c :: s) (x :: e)) eqn:Hp; [|done].
  apply has_prefix_true in Hp as [t [= -> _]]. by rewrite Ascii.eqb_refl in He.
Qed.
Lemma digit_no_space c s : is_digit c = true -> leading_space (c :: s) = None.
Proof.
  intros Hc. apply find_none. intros e He. pose proof space_encodings_ends as Hends.
  rewrite forallb_forall in Hends. apply list_elem_of_In, Hends in He. destruct e as [|x e]; [done|].
  destruct (has_prefix (c :: s) (x :: e)) eqn:Hp; [|done]. apply has_prefix_true in Hp as [t [= -> _]].
  destruct (last (x :: e)); [|done]. by rewrite Hc in He.
Qed.
Lemma digit_run_app ds rest :
  Forall (fun c => is_digit c = true) ds -> digit_run (ds ++ rest) = ds ++ digit_run rest.
Proof. induction 1 as [|c ds Hc _ IH]; cbn; [done|]. by rewrite Hc, IH. Qed.
(** A number is read back, up to what is not a digit. *)
Lemma scan_int_itoa n rest :
  0 <= n <= max_int64 -> digit_run rest = [] -> scan_int (itoa n ++ rest) = Some (n, rest).
Proof.
  intros Hn Hrest. unfold scan_int, skip_space. pose proof (itoa_digits n ltac:(lia)) as Hd.
  destruct (itoa n) as [|c ds] eqn:Hi; [by apply itoa_nonempty in Hi; [|lia]|].
  inversion Hd as [|? ? Hc Hds]; subst. cbn [app length skip_space_fuel]. rewrite digit_no_space by done. cbn [mbind option_bind].
  destruct (digit_not_sign c Hc) as [-> ->]. cbn [orb length drop app].
  change (c :: ds ++ rest) with ((c :: ds) ++ rest). rewrite digit_run_app, Hrest, app_nil_r, <- Hi by done.
  rewrite atoi_itoa by done. cbn [mbind option_bind Nat.add]. by rewrite drop_app_length.
Qed.
Lemma scan_literal_app lit s : scan_literal lit (lit ++ s) = Some s.
Proof. unfold scan_literal. by rewrite has_prefix_app, drop_app_length. Qed.
Lemma digit_end_no_space t d : is_digit d = true -> List.find (has_suffix (t ++ [d])) space_encodings = None.
Proof.
  intros Hd. apply find_none. intros e He. pose proof space_encodings_ends as Hends. rewrite forallb_forall in Hends.
  apply list_elem_of_In, Hends in He. destruct (has_suffix (t ++ [d]) e) eqn:Hp; [|done].
  apply has_suffix_true in Hp as [u Hu]. destruct e as [|x e]; [done|]. destruct (last (x :: e)) as [y|] eqn:Hl; [|done].
  assert (Hy : last (t ++ [d]) = Some y) by (rewrite Hu, last_app, Hl; done).
  rewrite last_snoc in Hy. injection Hy as <-. by rewrite Hd, andb_false_r in He.
Qed.
Lemma trim_right_digit t d : is_digit d = true -> forall n, trim_right_space_fuel n (t ++ [d]) = t ++ [d].
Proof. intros Hd [|n]; [done|]. cbn [trim_right_space_fuel]. by rewrite digit_end_no_space. Qed.
Lemma trim_right_newline t d : is_digit d = true -> trim_right_space ((t ++ [d]) ++ nl) = t ++ [d].
Proof.
  intros Hd. unfold trim_right_space. rewrite length_app, Nat.add_comm. cbn [length nl Nat.add trim_right_space_fuel].
  assert (Hf : List.find (has_suffix ((t ++ [d]) ++ nl)) space_encodings = Some nl).
  { unfold space_encodings. cbv zeta. cbn [map List.find].
    destruct (has_suffix ((t ++ [d]) ++ nl) [ascii_of_nat 9]) eqn:H9.
    - apply has_suffix_true in H9 as [u Hu]. apply app_inj_tail in Hu as [_ Hu]. done.
    - change [ascii_of_nat 10] with nl. by rewrite has_suffix_app. }
  rewrite Hf. replace (take _ _) with (t ++ [d]); [by apply trim_right_digit|].
  symmetry. apply take_app_length'. rewrite !length_app. cbn. lia.
Qed.
Lemma itoa_ends_digit n : 0 <= n -> exists t d, itoa n = t ++ [d] /\ is_digit d = true.
Proof.
  intros Hn. pose proof (itoa_digits n Hn) as Hd. destruct (exists_last (itoa_nonempty n Hn)) as (t & d & Heq).
  exists t, d. split; [done|]. rewrite Heq, Forall_app in Hd. destruct Hd as [_ Hd]. by inversion Hd.
Qed.
(** What bwrap prints, with or without the line feed. *)
Definition version_text (v : bwrap_version) : gostring :=
  $"bubblewrap " ++ itoa (v_major v) ++ $"." ++ itoa (v_minor v) ++ $"." ++ itoa (v_patch v).
Definition version_wf (v : bwrap_version) : Prop :=
  0 <= v_major v <= max_int64 /\ 0 <= v_minor v <= max_int64 /\ 0 <= v_patch v <= max_int64.
Lemma format_space_number n rest : 0 <= n -> format_space ($" " ++ itoa n ++ rest) = Some (itoa n ++ rest).
Proof.
  intros Hn. destruct (itoa n) as [|c ds] eqn:Hi; [by apply itoa_nonempty in Hi|].
  assert (Hc : is_digit c = true) by (pose proof (itoa_digits n Hn) as Hd; rewrite Hi in Hd; by inversion Hd).
  unfold format_space. cbn [String.list_ascii_of_string app is_empty length skip_blanks_fuel].
  replace (leading_space (" "%char :: c :: ds ++ rest)) with (Some $" ") by reflexivity.
  change (seqb $" " nl) with false. cbv iota. cbn [skip_blanks_fuel].
  change (drop (length $" ") (" "%char :: c :: ds ++ rest)) with (c :: ds ++ rest). by rewrite digit_no_space.
Qed.
Lemma parse_version_text v tail :
  version_wf v -> tail = [] \/ tail = nl -> parse_bwrap_version_string (version_text v ++ tail) = Some v.
Proof.
  intros (Hm & Hn & Hp) Htail. unfold parse_bwrap_version_string.
  assert (Htrim : trim_space (version_text v ++ tail) = version_text v).
  { unfold trim_space. assert (Hl : trim_left_space (version_text v ++ tail) = version_text v ++ tail).
    { unfold trim_left_space, version_text. destruct (length _); [done|]. cbn [trim_left_space_fuel]. cbn [String.list_ascii_of_string app].
      by rewrite leading_space_none by reflexivity. }
    rewrite Hl. destruct (itoa_ends_digit (v_patch v) ltac:(lia)) as (t & d & Ht & Hd). unfold version_text. rewrite Ht.
    rewrite !app_assoc. destruct Htail as [->| ->]; [rewrite app_nil_r; by apply trim_right_digit | by apply trim_right_newline]. }
  cbv zeta. rewrite Htrim. unfold version_text.
  change ($"bubblewrap " ++ ?x) with ($"bubblewrap" ++ ($" " ++ x)). rewrite scan_literal_app. cbn [mbind option_bind].
  rewrite format_space_number by lia. cbn [mbind option_bind]. rewrite scan_int_itoa by (done || reflexivity).
  cbn [mbind option_bind]. rewrite scan_literal_app. cbn [mbind option_bind]. rewrite scan_int_itoa by (done || reflexivity).
  cbn [mbind option_bind]. rewrite scan_literal_app. cbn [mbind option_bind].
  rewrite <- (app_nil_r (itoa (v_patch v))), scan_int_itoa by (done || reflexivity). by destruct v.
Qed.
End version_lemmas.

Section launch_lemmas.
Context `{UnicodeCase, Regexp, MapRange gostring}.
Context (fs : filesystem) (marshal : env_keep_marker -> option gostring).
(** [reached i gone]: the attempts before the [i]-th failed with a busy
    overlay and closed the listeners [gone]. *)
Inductive reached (lp : launch_plan) (stage_self filter_file : bool) (attempts : nat -> attempt)
  : nat -> list port_listener -> Prop :=
  | reached_first : reached lp stage_self filter_file attempts 0 []
  | reached_next i gone s code err stderr :
      reached lp stage_self filter_file attempts i gone ->
      filter_file && negb (at_memfd (attempts i)) = false ->
      start fs lp stage_self (attempts i) gone = Ok s ->
      at_watch (attempts i) = Exited code err stderr ->
      is_overlay_busy (observed (fp_bwrap (lp_plan lp)) code err stderr) = true ->
      at_cancelled (attempts i) = false ->
      reached lp stage_self filter_file attempts (S i) (sb_gone (close s)).
(** Without an overlay nothing is captured, so nothing is busy. *)
Lemma reached_plain lp ss ff attempts i gone :
  has_overlay (fp_bwrap (lp_plan lp)) = false -> reached lp ss ff attempts i gone -> i = 0.
Proof. intros Hp [|? ? ? ? ? ? _ _ _ _ Hb _]; [done|]. unfold observed in Hb. by rewrite Hp in Hb. Qed.
(** How an attempt that is not repeated ends: the filter's memfd is made first,
    then the sandbox is started, then it is watched. *)
Definition attempt_ends (lp : launch_plan) (ss ff : bool) (a : attempt) (gone : list port_listener) (r : launched) : Prop :=
  if ff && negb (at_memfd a) then r = Failed CreateMemfd
  else match start fs lp ss a gone with
       | Err _ => r = Panicked
       | Ok s =>
           match at_watch a with
           | Stable => r = Launched s None
           | Cancelled => r = Failed ContextDone
           | Exited code err stderr =>
               let x := observed (fp_bwrap (lp_plan lp)) code err stderr in
               if is_overlay_busy x then at_cancelled a = true /\ r = Failed ContextDone
               else r = Launched (close s) (Some x)
           end
       end.
Lemma attempts_loop_ends lp ss ff attempts n i gone :
  reached lp ss ff attempts i gone ->
  let r := attempts_loop fs lp ss ff attempts n i gone in
  (exists j gone', i <= j < i + n /\ reached lp ss ff attempts j gone' /\ attempt_ends lp ss ff (attempts j) gone' r) \/
  (r = Failed NotStable /\ exists gone', reached lp ss ff attempts (i + n) gone').
Proof.
  revert i gone. induction n as [|n IH]; intros i gone Hr; cbn [attempts_loop].
  { right. split; [done|]. rewrite Nat.add_0_r. by exists gone. }
  assert (Hhere : forall r, attempt_ends lp ss ff (attempts i) gone r ->
    (exists j gone', i <= j < i + S n /\ reached lp ss ff attempts j gone' /\ attempt_ends lp ss ff (attempts j) gone' r) \/
    (r = Failed NotStable /\ exists gone', reached lp ss ff attempts (i + S n) gone')).
  { intros r He. left. exists i, gone. split; [lia | done]. }
  cbv zeta. destruct (ff && negb (at_memfd (attempts i))) eqn:Hm; [apply Hhere; unfold attempt_ends; by rewrite Hm|].
  destruct (start fs lp ss (attempts i) gone) as [s|e] eqn:Hs; [|apply Hhere; unfold attempt_ends; by rewrite Hm, Hs].
  destruct (at_watch (attempts i)) as [code err stderr| |] eqn:Hw;
    [|apply Hhere; unfold attempt_ends; by rewrite Hm, Hs, Hw..].
  destruct (is_overlay_busy _) eqn:Hb; [|apply Hhere; unfold attempt_ends; rewrite Hm, Hs, Hw; cbv zeta; by rewrite Hb].
  destruct (at_cancelled (attempts i)) eqn:Hc; [apply Hhere; unfold attempt_ends; rewrite Hm, Hs, Hw; cbv zeta; by rewrite Hb|].
  destruct (IH (S i) (sb_gone (close s))) as [(j & gone' & Hj & ?)|[He (gone' & ?)]]; [by econstructor|..].
  - left. exists j, gone'. split; [lia | done].
  - right. split; [done|]. exists gone'. by rewrite Nat.add_succ_r.
Qed.
(** An attempt that is reached is the one the loop goes on with. *)
Lemma attempts_loop_reached lp ss ff attempts n i gone :
  reached lp ss ff attempts i gone -> i <= n ->
  attempts_loop fs lp ss ff attempts n 0 [] = attempts_loop fs lp ss ff attempts (n - i) i gone.
Proof.
  induction 1 as [|i gone s code err stderr _ IH Hm Hs Hw Hb Hc]; intros Hi; [by rewrite Nat.sub_0_r|].
  rewrite IH by lia. replace (n - i) with (S (n - S i)) by lia. cbn [attempts_loop]. cbv zeta. by rewrite Hm, Hs, Hw, Hb, Hc.
Qed.
Lemma attempt_fails lp ss ff attempts n i gone e :
  reached lp ss ff attempts i gone -> i < n -> ff && negb (at_memfd (attempts i)) = false ->
  start fs lp ss (attempts i) gone = Err e -> attempts_loop fs lp ss ff attempts n 0 [] = Panicked.
Proof.
  intros Hr Hi Hm Hs. rewrite (attempts_loop_reached _ _ _ _ _ _ _ Hr) by lia. replace (n - i) with (S (n - S i)) by lia.
  cbn [attempts_loop]. cbv zeta. by rewrite Hm, Hs.
Qed.
(** A launched sandbox is the one of an attempt, closed if its process ended. *)
Lemma attempt_launched lp ss ff a gone s exit :
  attempt_ends lp ss ff a gone (Launched s exit) -> exists s0, start fs lp ss a gone = Ok s0 /\ (s = s0 \/ s = close s0).
Proof.
  unfold attempt_ends. destruct (_ && _); [done|]. destruct (start _ _ _ _ _) as [s0|]; [|done]. cbv zeta.
  repeat case_match; try done; [by intros [_ ?] | |]; intros [= -> _]; eauto.
Qed.
(** What a launched sandbox runs is of the plan. *)
Lemma start_ok (P : service -> Prop) lp ss a gone s :
  (forall v, service_of fs lp None v -> P v) -> start fs lp ss a gone = Ok s -> ok_state P s.
Proof.
  intros HP. unfold start. repeat (case_match; [done|]). cbv zeta.
  destruct (start_keeps fs (at_bind a) P lp None (lp_audit lp) HP _ (new_sandbox_ok P gone (at_death a))) as [Hs _].
  destruct (start_background_services _ _ _ _ _ _) as [s' [[]|e]]; [|done]. by intros [= <-].
Qed.
Lemma launch_ok_state (P : service -> Prop) lh path lp attempts s exit :
  (forall v, service_of fs lp None v -> P v) -> launch fs marshal lh path lp attempts = Launched s exit -> ok_state P s.
Proof.
  intros HP. unfold launch. destruct (prepare marshal lh path (lp_plan lp)) as [pr|e]; [|done]. cbv zeta.
  match goal with |- attempts_loop _ _ ?ss ?ff _ _ _ _ = _ -> _ =>
    destruct (attempts_loop_ends lp ss ff attempts max_attempts 0 [] (reached_first _ _ _ _))
      as [(i & gone & _ & _ & He)|[-> _]]; [|done] end.
  intros Hl. rewrite Hl in He. apply attempt_launched in He as (s0 & Hs & [-> | ->]);
    eapply start_ok in Hs; try exact HP; [done | by apply close_ok].
Qed.
Lemma launch_attempt lh path lp attempts s exit :
  launch fs marshal lh path lp attempts = Launched s exit ->
  exists i ss gone s0, i < max_attempts /\ start fs lp ss (attempts i) gone = Ok s0 /\ (s = s0 \/ s = close s0).
Proof.
  unfold launch. destruct (prepare marshal lh path (lp_plan lp)) as [pr|e]; [|done]. cbv zeta.
  match goal with |- attempts_loop _ _ ?ss ?ff _ _ _ _ = _ -> _ =>
    destruct (attempts_loop_ends lp ss ff attempts max_attempts 0 [] (reached_first _ _ _ _))
      as [(i & gone & Hi & _ & He)|[-> _]]; [|done]; intros Hl; rewrite Hl in He;
    apply attempt_launched in He as (s0 & Hs & Hx); exists i, ss, gone, s0 end.
  split; [lia | done].
Qed.
(** What [start] started, if the process did not end meanwhile. *)
Lemma start_services lp ss a gone s :
  start fs lp ss a gone = Ok s ->
  start_background_services fs (at_bind a) lp None (lp_audit lp) (new_sandbox gone (at_death a)) = (s, Ok tt).
Proof.
  unfold start. repeat (case_match; [done|]).
  destruct (start_background_services _ _ _ _ _ _) as [s' [[]|e]]; [|done]. by intros [= ->].
Qed.
Lemma child_seccomp : child_fd true (Z.to_nat FDSeccomp) = Some SeccompFile /\
  forall i, i < FDPreserved -> child_fd true (FDProxy + i) = Some (GuestEnd i).
Proof. split; [done|]. intros i Hi. unfold FDPreserved in Hi. by do 5 (destruct i as [|i]; [done|]); lia. Qed.
Lemma get_version_twice output cache path r cache' :
  get_bwrap_version output cache path = (r, cache') -> get_bwrap_version output cache' path = (r, cache').
Proof.
  unfold get_bwrap_version. destruct (cache !! path) as [r0|] eqn:Hc; intros [= <- <-]; [by rewrite Hc|].
  by rewrite lookup_insert_eq.
Qed.
Lemma prepare_ok lh path p pr :
  prepare marshal lh path p = Ok pr ->
  let b := fp_bwrap p in
  let b := if is_empty (self_exe b) then with_self_exe (default [] (lh_self lh)) b else b in
  exists v cache, get_bwrap_version (lh_version lh) (lh_cache lh) (pr_bin pr) = (Ok v, cache) /\
    check_compatibility_parsed v b (fp_seccomp p) = Ok tt /\
    build_args marshal (pr_plan pr) = Ok (pr_args pr) /\
    if enable_seccomp (fp_seccomp p) v
    then pr_plan pr = with_seccomp_fd FDSeccomp b /\
         exists code, compile default_profile (native_arch (lh_goarch lh)) = Ok code /\ pr_filter pr = Some code
    else pr_plan pr = b /\ pr_filter pr = None.
Proof.
  unfold prepare. cbv zeta. set (b := if is_empty _ then _ else _). intros (bin & _ & Hp)%bind_ok_inv.
  destruct (get_bwrap_version (lh_version lh) (lh_cache lh) bin) as [r cache] eqn:Hv.
  apply bind_ok_inv in Hp as (v & Hr & Hp). apply map_err_ok in Hr as ->.
  apply bind_ok_inv in Hp as ([] & Hc & Hp). apply map_err_ok in Hc. rewrite (get_version_twice _ _ _ _ _ Hv) in Hp.
  cbn [fst] in Hp. destruct (enable_seccomp (fp_seccomp p) v) eqn:Hen.
  - apply bind_ok_inv in Hp as (code & Hcode & Hp). apply map_err_ok in Hcode.
    apply bind_ok_inv in Hp as (args & Ha & [= <-]). apply map_err_ok in Ha.
    exists v, cache. rewrite Hen. split_and!; try done. by exists code.
  - apply bind_ok_inv in Hp as (args & Ha & [= <-]). apply map_err_ok in Ha. exists v, cache. by rewrite Hen.
Qed.

(** * Properties *)

(** C26: Launch ends, after at most ten attempts.  An attempt is repeated only
    after bwrap exited because its overlay was busy, so without an overlay
    there is one attempt; the attempt that is not repeated decides: without its
    memfd it is an error; a sandbox that cannot be started is a panic, because
    the nil sandbox of the failed start is dereferenced; otherwise the sandbox
    is returned, running or closed with the result of its process, unless the
    context ends first; and when all ten attempts were busy, that is the error.
    Launch panics exactly when an attempt that is made cannot be started. *)
Theorem launch_outcome (lh : launch_host) (path : gostring) (lp : launch_plan) (attempts : nat -> attempt) :
  let r := launch fs marshal lh path lp attempts in
  match prepare marshal lh path (lp_plan lp) with
  | Err e => r = Failed e
  | Ok pr =>
      let ss := negb (is_empty (self_exe (pr_plan pr))) in
      exists ff, (ff = true <-> exists code, pr_filter pr = Some code /\ code <> []) /\
      ((exists i gone, i < max_attempts /\ (has_overlay (fp_bwrap (lp_plan lp)) = false -> i = 0) /\
          reached lp ss ff attempts i gone /\ attempt_ends lp ss ff (attempts i) gone r) \/
       (r = Failed NotStable /\ has_overlay (fp_bwrap (lp_plan lp)) = true /\
        exists gone, reached lp ss ff attempts max_attempts gone)) /\
      (r = Panicked <->
       exists i gone e, i < max_attempts /\ reached lp ss ff attempts i gone /\
         (ff = true -> at_memfd (attempts i) = true) /\ start fs lp ss (attempts i) gone = Err e)
  end.
Proof.
  cbv zeta. unfold launch. destruct (prepare marshal lh path (lp_plan lp)) as [pr|e]; [|done]. cbv zeta.
  set (ss := negb _). set (ff := match pr_filter pr with Some code => _ | None => _ end). exists ff. split.
  { unfold ff. destruct (pr_filter pr) as [code|]; [|split; [done | by intros (? & ? & _)]].
    rewrite Nat.ltb_lt. split; [intros Hl; exists code; split; [done|]; intros ->; cbn in Hl; lia |].
    intros (c & [= <-] & Hne). destruct code; [done | cbn; lia]. }
  pose proof (attempts_loop_ends lp ss ff attempts max_attempts 0 [] (reached_first _ _ _ _)) as Hends. cbv zeta in Hends. split.
  - destruct Hends as [(i & gone & Hi & Hr & He)|[He (gone & Hr)]].
    + left. exists i, gone. split_and!; try done; [lia|]. intros Hp. by eapply reached_plain.
    + right. rewrite He. split_and!; [done| |by exists gone].
      destruct (has_overlay _) eqn:Hp; [done|]. by apply (reached_plain _ _ _ _ _ _ Hp) in Hr.
  - split.
    + intros Hp. rewrite Hp in Hends. destruct Hends as [(i & gone & Hi & Hr & He)|[He _]]; [|done].
      unfold attempt_ends in He. destruct (ff && _) eqn:Hm; [done|]. destruct (start _ _ _ _ _) as [s|e] eqn:Hs.
      { revert He. cbv zeta. repeat case_match; try done; by intros [_ ?]. }
      exists i, gone, e. split_and!; [lia | done | | done]. intros ->. by destruct (at_memfd (attempts i)).
    + intros (i & gone & e & Hi & Hr & Hm & Hs). eapply attempt_fails; try done. destruct ff; [by rewrite Hm | done].
Qed.

(** C27: when the system call filter is installed.  For a prepared launch with
    a validated mode: [off] has no filter; [on] has one, on a bwrap of version
    0.11 or newer; [auto] has one exactly when the version is not older than
    0.11.  A plan with an overlay is only launched on such a version.  The
    filter is the compiled default profile, its descriptor in the command line
    is the one at which the child finds the memfd, and the channels are where
    the guest looks for them. *)
Theorem seccomp_filter_installed (lh : launch_host) (path : gostring) (p : full_plan) (pr : prepared)
    (Hmode : fp_seccomp p ∈ [$"auto"; $"on"; $"off"]) (Hprep : prepare marshal lh path p = Ok pr) :
  exists v cache, get_bwrap_version (lh_version lh) (lh_cache lh) (pr_bin pr) = (Ok v, cache) /\
    (fp_seccomp p = $"off" -> pr_filter pr = None) /\
    (fp_seccomp p = $"on" -> is_new_enough v = true /\ pr_filter pr <> None) /\
    (fp_seccomp p = $"auto" -> (pr_filter pr <> None <-> ~ (v_major v = 0 /\ v_minor v < 11)%Z)) /\
    (has_overlay (fp_bwrap p) = true -> is_new_enough v = true) /\
    forall code, pr_filter pr = Some code ->
      compile default_profile (native_arch (lh_goarch lh)) = Ok code /\
      (exists pre post, pr_args pr = pre ++ [$"--add-seccomp-fd"; itoa FDSeccomp] ++ post) /\
      child_fd true (Z.to_nat FDSeccomp) = Some SeccompFile /\
      forall i, i < FDPreserved -> child_fd true (FDProxy + i) = Some (GuestEnd i).
Proof.
  apply prepare_ok in Hprep as (v & cache & Hv & Hc & Ha & Hf). cbv zeta in Hc, Hf. set (b := if is_empty _ then _ else _) in *.
  assert (Hov : has_overlay b = has_overlay (fp_bwrap p)) by (unfold b; by destruct (is_empty _)).
  unfold check_compatibility_parsed in Hc. rewrite Hov in Hc. exists v, cache. split; [done|].
  assert (Hen : enable_seccomp (fp_seccomp p) v = true <-> pr_filter pr <> None).
  { destruct (enable_seccomp _ _); [destruct Hf as (_ & code & _ & ->) | destruct Hf as [_ ->]]; split; congruence. }
  split_and!.
  - intros Hm. rewrite Hm in Hf. by destruct Hf.
  - intros Hm. split; [|by rewrite <- Hen, Hm]. rewrite Hm in Hc. destruct (is_new_enough v); [done|]. by destruct (has_overlay _).
  - intros Hm. rewrite <- Hen, Hm.
    change (enable_seccomp $"auto" v) with (negb ((v_major v =? 0)%Z && (v_minor v <? 11)%Z)). rewrite negb_true_iff, andb_false_iff, Z.eqb_neq, Z.ltb_ge.
    lia.
  - intros Ho. rewrite Ho in Hc. by destruct (is_new_enough v).
  - intros code Hcode. rewrite Hcode in Hf. destruct (enable_seccomp _ _); [|by destruct Hf].
    destruct Hf as (Hpl & code' & Hcomp & [= <-]). rewrite Hpl in Ha. split; [done|]. split; [|apply child_seccomp].
    apply build_args_ok in Ha as (marker & _ & ->). unfold derived_args, isolation_args.
    exists [$"--unshare-all"; $"--share-net"; $"--unshare-user"; $"--die-with-parent"; $"--disable-userns"].
    cbn [seccomp_fd with_seccomp_fd]. change ((0 <? FDSeccomp)%Z) with true. cbv iota.
    eexists. rewrite <- !app_assoc. reflexivity.
Qed.
End launch_lemmas.

(** the version that [bwrap --version] prints is read back, with or
    without a line feed, and kept: once a binary has been asked, later answers
    are the first one. *)
Theorem bwrap_version_roundtrip (v : bwrap_version) (tail path : gostring)
    (output : gostring -> option gostring) (cache : version_cache)
    (Hv : version_wf v) (Htail : tail = [] \/ tail = nl)
    (Hout : output path = Some (version_text v ++ tail)) (Hnew : cache !! path = None) :
  let '(r, cache') := get_bwrap_version output cache path in
  r = Ok v /\ forall later, fst (get_bwrap_version later cache' path) = Ok v.
Proof.
  unfold get_bwrap_version. rewrite Hnew, Hout, parse_version_text by done. split; [done|]. intros later.
  by rewrite lookup_insert_eq.
Qed.

(** * Concrete launches *)
Module Example_.
#[local] Existing Instance PlanBuilder.Example_.lower.
#[local] Existing Instance PlanBuilder.Example_.ranges.
#[local] Instance regexps : Regexp := {| regexp_ok := fun _ => true; regexp_match := fun re a => contains a re |}.
Definition plan2 (mounts : list mount) (ports : list resolved_port) : full_plan :=
  let b := Plan $"/w" $"/home/sandbox" [] [] [] [] mounts [] ∅ [] false [] false OverlayPlain [] [] [] false [] [] [] 0 [] in
  FullPlan b $"/w/.keg.yaml" $"/tmp/keg-1" [] [] [] [] [] None false ports [] no_tasks empty_runner [] [] [] [] ∅ (Ctx ∅ None)
    $"auto" $"auto".
Definition host3 (version : gostring) : launch_host :=
  LaunchHost (Some $"/usr/bin/keg") (Some $"/usr/bin/bwrap") (fun _ => Some version) ∅ $"amd64".
Definition marshal3 (m : env_keep_marker) : option gostring := Some $"{}".
Definition version3 : bwrap_version := BwrapVersion 0 11 0.
Lemma bwrap_version_roundtrip_witness :
  let '(r, cache) := get_bwrap_version (lh_version (host3 (version_text version3 ++ nl))) ∅ $"/usr/bin/bwrap" in r = Ok version3.
Proof.
  assert (Hv : version_wf version3) by (split_and!; vm_compute; discriminate).
  assert (Ht : nl = [] \/ nl = nl) by (right; reflexivity).
  pose proof (bwrap_version_roundtrip version3 nl $"/usr/bin/bwrap" (lh_version (host3 (version_text version3 ++ nl))) ∅
                Hv Ht eq_refl eq_refl) as Hx.
  destruct (get_bwrap_version _ _ _) as [r cache]. exact (proj1 Hx).
Defined.
Lemma seccomp_filter_installed_witness :
  exists pr code, prepare marshal3 (host3 $"bubblewrap 0.11.0") [] (plan2 [] []) = Ok pr /\ pr_filter pr = Some code /\
    exists pre post, pr_args pr = pre ++ [$"--add-seccomp-fd"; $"8"] ++ post.
Proof.
  assert (H : is_ok (prepare marshal3 (host3 $"bubblewrap 0.11.0") [] (plan2 [] [])) = true) by (vm_compute; reflexivity).
  destruct (prepare marshal3 (host3 $"bubblewrap 0.11.0") [] (plan2 [] [])) as [pr|e] eqn:Hp; [|discriminate].
  assert (Hm : fp_seccomp (plan2 [] []) ∈ [$"auto"; $"on"; $"off"]) by apply list_elem_of_here.
  destruct (seccomp_filter_installed marshal3 (host3 $"bubblewrap 0.11.0") [] (plan2 [] []) pr Hm Hp)
    as (v & cache & Hv & _ & _ & Hauto & _ & Hcode).
  assert (Hf : pr_filter pr <> None).
  { apply Hauto; [reflexivity|]. apply prepare_ok in Hp as (v' & cache' & Hv' & _).
    intros [_ Hlt]. rewrite Hv' in Hv. injection Hv as <- _.
    unfold get_bwrap_version in Hv'. cbn [lh_cache host3 lh_version] in Hv'. rewrite lookup_empty in Hv'.
    change (parse_bwrap_version_string $"bubblewrap 0.11.0") with (Some version3) in Hv'. injection Hv' as <- _.
    vm_compute in Hlt. discriminate. }
  destruct (pr_filter pr) as [code|] eqn:Hc; [|destruct (Hf eq_refl)]. exists pr, code. split; [reflexivity|]. split; [exact Hc|].
  exact (proj1 (proj2 (Hcode code eq_refl))).
Defined.
(** An attempt that works, and one that finds its overlay busy. *)
Definition good : attempt := Attempt true true true 5 true true true (fun _ _ _ => true) None Stable false.
Definition busy : attempt :=
  Attempt true true true 5 true true true (fun _ _ _ => true) None
    (Exited 1 false $"bwrap: Can't make overlay mount on /w: Device or resource busy") false.
(** The pre-bound listener of a dynamic port is closed with the first attempt;
    the second one forwards from the closed listener. *)
Example retry_loses_dynamic_port :
  let p := plan2 [Mount $"/a" $"/b" MountEphemeral [] []] [ResolvedPort $"web" $"127.0.0.1" 3000 40000 true] in
  match launch ∅ marshal3 (host3 $"bubblewrap 0.11.0") [] (LaunchPlan p false None) (fun i => if i =? 0 then busy else good) with
  | Launched s None => sb_services s = [ForwardPort (Prebound 0) 3000] /\ sb_gone s = [Prebound 0] /\ sb_closed s = false
  | _ => False
  end.
Proof. vm_compute. by split_and!. Qed.
(** Without unshare the launch panics instead of reporting it. *)
Example failed_start_panics :
  launch ∅ marshal3 (host3 $"bubblewrap 0.11.0") [] (LaunchPlan (plan2 [] []) false None)
    (fun _ => Attempt true true false 5 true true true (fun _ _ _ => true) None Stable false) = Panicked.
Proof. vm_compute. reflexivity. Qed.
(** An old bwrap is accepted for a plain plan, without the filter. *)
Example old_bwrap :
  match prepare marshal3 (host3 $"bubblewrap 0.8.0") [] (plan2 [] []) with
  | Ok pr => pr_filter pr = None /\ $"--add-seccomp-fd" ∉ pr_args pr
  | Err _ => False
  end /\
  is_ok (prepare marshal3 (host3 $"bubblewrap 0.8.0") [] (plan2 [Mount $"/a" $"/b" MountEphemeral [] []] [])) = false.
Proof. vm_compute. split_and!; [done | | done]. intros Hx. repeat (inversion Hx as [|? ? ? Hy]; subst; clear Hx; rename Hy into Hx). Qed.
End Example_.
