(* ===== verification/Lifetime.v ===== *)
(** The result of a sandbox, [internal/orchestrator/launch.go]: the process,
    the goroutine of [start] that waits for it, the channel [waitCh] of
    capacity one, the [select] of [Launch] that looks at an early result and
    hands it back, and the callers of [Sandbox.Wait].

    The events of the goroutines interleave in any order; an event that is
    not possible is [None], and for [WaitReturns] that means that the caller
    blocks. *)
From S2P Require Import GoStrings Launch.
Local Open Scope go_scope.

(** The goroutine of [start]: in [cmd.Wait], before [sb.Close], before the
    send, and returned. *)
Inductive monitor := InWait | BeforeClose (r : wait_result) | BeforeSend (r : wait_result) | Returned.
(** [Launch]: in the [select], with a result of its own in hand, returned with
    the sandbox, or without it (a busy overlay, or the context is done). *)
Inductive launcher := Selecting | Holding (r : wait_result) | HandedOver | GaveUp.
Record lifetime := Lifetime {
  lf_ended : option wait_result;             (* how the process ended *)
  lf_monitor : monitor;
  lf_chan : option wait_result;
  lf_launch : launcher;
  lf_closed : bool;
  lf_returned : list wait_result }.          (* what calls of [Wait] returned, newest first *)
Definition started : lifetime := Lifetime None InWait None Selecting false [].
Definition with_monitor (m : monitor) (s : lifetime) : lifetime :=
  Lifetime (lf_ended s) m (lf_chan s) (lf_launch s) (lf_closed s) (lf_returned s).
Definition with_chan (c : option wait_result) (s : lifetime) : lifetime :=
  Lifetime (lf_ended s) (lf_monitor s) c (lf_launch s) (lf_closed s) (lf_returned s).
Definition with_launch (l : launcher) (s : lifetime) : lifetime :=
  Lifetime (lf_ended s) (lf_monitor s) (lf_chan s) l (lf_closed s) (lf_returned s).
Definition closed_now (s : lifetime) : lifetime :=
  Lifetime (lf_ended s) (lf_monitor s) (lf_chan s) (lf_launch s) true (lf_returned s).
Definition ended_with (r : wait_result) (s : lifetime) : lifetime :=
  Lifetime (Some r) (BeforeClose r) (lf_chan s) (lf_launch s) (lf_closed s) (lf_returned s).
Definition returned_to_caller (r : wait_result) (s : lifetime) : lifetime :=
  Lifetime (lf_ended s) (lf_monitor s) None (lf_launch s) (lf_closed s) (r :: lf_returned s).

Inductive event :=
  | ProcessEnds (r : wait_result)
  | MonitorCloses | MonitorSends
  | LaunchReceives | LaunchHandsBack | LaunchTimesOut | LaunchCancelled
  | WaitReturns
  | UserCloses.
Definition step (e : event) (s : lifetime) : option lifetime :=
  match e with
  | ProcessEnds r => match lf_ended s with None => Some (ended_with r s) | Some _ => None end
  | MonitorCloses => match lf_monitor s with
                     | BeforeClose r => Some (closed_now (with_monitor (BeforeSend r) s))
                     | _ => None
                     end
  | MonitorSends => match lf_monitor s, lf_chan s with
                    | BeforeSend r, None => Some (with_monitor Returned (with_chan (Some r) s))
                    | _, _ => None
                    end
  | LaunchReceives => match lf_launch s, lf_chan s with
                      | Selecting, Some r =>
                          Some (with_launch (if is_overlay_busy r then GaveUp else Holding r) (with_chan None s))
                      | _, _ => None
                      end
  | LaunchHandsBack => match lf_launch s, lf_chan s with
                       | Holding r, None => Some (with_launch HandedOver (with_chan (Some r) s))
                       | _, _ => None
                       end
  | LaunchTimesOut => match lf_launch s with Selecting => Some (with_launch HandedOver s) | _ => None end
  | LaunchCancelled => match lf_launch s with Selecting => Some (with_launch GaveUp s) | _ => None end
  | WaitReturns => match lf_launch s, lf_chan s with
                   | HandedOver, Some r => Some (returned_to_caller r s)
                   | _, _ => None
                   end
  | UserCloses => match lf_launch s with HandedOver => Some (closed_now s) | _ => None end
  end.
Fixpoint run (es : list event) (s : lifetime) : option lifetime :=
  match es with [] => Some s | e :: es => s' ← step e s; run es s' end.

(** * Invariant *)
(** Where the result is: with the process, the goroutine, the channel, with
    [Launch] or with a caller of [Wait], and in one of these places only. *)
Definition located (s : lifetime) : Prop :=
  match lf_ended s with
  | None => lf_monitor s = InWait /\ lf_chan s = None /\ lf_returned s = [] /\ forall r, lf_launch s <> Holding r
  | Some r =>
      match lf_monitor s with
      | InWait => False
      | BeforeClose r' => r' = r /\ lf_chan s = None /\ lf_returned s = [] /\ forall r, lf_launch s <> Holding r
      | BeforeSend r' => r' = r /\ lf_closed s = true /\ lf_chan s = None /\ lf_returned s = [] /\ forall r, lf_launch s <> Holding r
      | Returned =>
          lf_closed s = true /\
          match lf_launch s with
          | Selecting => lf_chan s = Some r /\ lf_returned s = []
          | Holding r' => r' = r /\ lf_chan s = None /\ lf_returned s = [] /\ is_overlay_busy r = false
          | HandedOver => (lf_chan s = Some r /\ lf_returned s = []) \/ (lf_chan s = None /\ lf_returned s = [r])
          | GaveUp => lf_returned s = []
          end
      end
  end.
Lemma step_located e s s' : located s -> step e s = Some s' -> located s'.
Proof.
  destruct s as [en m c l cl rs]. unfold located.
  destruct e; cbn; intros Hl Hs; destruct en, m, c, l; cbn in *; try done; naive_solver (destruct (is_overlay_busy _) eqn:?; naive_solver).
Qed.
Lemma run_located es s s' : located s -> run es s = Some s' -> located s'.
Proof.
  revert s. induction es as [|e es IH]; intros s Hl; cbn [run]; [by intros [= <-]|].
  destruct (step e s) as [s1|] eqn:Hs; [|done]. apply IH. by eapply step_located.
Qed.
Lemma returned_kept e s s' x : located s -> lf_returned s = [x] -> step e s = Some s' -> lf_returned s' = [x].
Proof.
  destruct s as [en m c l cl rs]. unfold located. destruct e; cbn; intros Hl Hr Hs; subst rs; destruct en, m, c, l; cbn in *; naive_solver.
Qed.

(** * Properties *)
(** One result for one call of [Wait].  However the goroutines interleave: what
    a call of [Wait] returns is how the process ended, after the sandbox's
    resources were released; neither the goroutine's send nor [Launch]'s
    handing back ever blocks; once the process has ended and [Launch] has
    returned the sandbox, at most two steps of the goroutine let the first call
    return; and a second call never returns. *)
Theorem wait_returns_once (es : list event) (s : lifetime) (Hrun : run es started = Some s) :
  (forall r, r ∈ lf_returned s -> lf_returned s = [r] /\ lf_ended s = Some r /\ lf_closed s = true) /\
  (forall r, lf_monitor s = BeforeSend r -> is_Some (step MonitorSends s)) /\
  (forall r, lf_launch s = Holding r -> is_Some (step LaunchHandsBack s)) /\
  (forall r, lf_ended s = Some r -> lf_launch s = HandedOver -> lf_returned s = [] ->
     exists more s1 s2, more ∈ [[]; [MonitorSends]; [MonitorCloses; MonitorSends]] /\
       run more s = Some s1 /\ step WaitReturns s1 = Some s2 /\ lf_returned s2 = [r]) /\
  (lf_returned s <> [] -> forall more s', run more s = Some s' -> step WaitReturns s' = None).
Proof.
  assert (Hl : located s) by (eapply run_located; [|exact Hrun]; cbn; naive_solver). split_and!.
  - intros r Hin. destruct s as [en m c l cl [|x rs]]; cbn in Hin; [by apply not_elem_of_nil in Hin|].
    unfold located in Hl. destruct en, m, l; cbn in *; try naive_solver.
    destruct Hl as [-> [[_ ?]|[_ [= -> ->]]]]; [done|]. by apply list_elem_of_singleton in Hin as ->.
  - intros r. destruct s as [en m c l cl rs]. unfold located in Hl. destruct en, m; cbn in *; naive_solver.
  - intros r. destruct s as [en m c l cl rs]. unfold located in Hl. destruct en, m, l; cbn in *; naive_solver.
  - intros r. destruct s as [en m c l cl rs]. unfold located in Hl. cbn in *. intros -> -> ->. cbn in Hl. destruct m as [|r'|r'|].
    + done.
    + destruct Hl as (-> & -> & _ & _). eexists [MonitorCloses; MonitorSends], _, _. split; [rewrite !elem_of_cons; tauto | done].
    + destruct Hl as (-> & _ & -> & _). eexists [MonitorSends], _, _. split; [rewrite !elem_of_cons; tauto | done].
    + destruct Hl as [_ [[-> _]|[_ ?]]]; [|done]. eexists [], _, _. split; [rewrite !elem_of_cons; tauto | done].
  - intros Hne more s' Hmore. assert (Hx : exists x, lf_returned s = [x]).
    { destruct s as [en m c l cl rs]. unfold located in Hl. destruct en, m, l; cbn in *; naive_solver. }
    destruct Hx as [x Hx]. clear Hrun Hne. revert s Hl Hx Hmore. induction more as [|e more IH]; intros s Hl Hx; cbn [run].
    + intros [= <-]. destruct s as [en m c l cl rs]. unfold located in Hl. cbn in *. subst rs.
      destruct en, m, l, c; cbn in *; naive_solver.
    + destruct (step e s) as [s1|] eqn:Hs; [|done]. apply IH; [by eapply step_located | by eapply returned_kept].
Qed.
(** A command that ends within the stability window: its result goes through
    [Launch] to the first call; and the overlay that stays busy. *)
Definition quick : wait_result := WaitResult 3 false [].
Definition busy : wait_result := WaitResult 1 false $"bwrap: Can't make overlay mount on /newroot: Device or resource busy".
Example early_exit :
  (lf_returned <$> run [ProcessEnds quick; MonitorCloses; MonitorSends; LaunchReceives; LaunchHandsBack; WaitReturns] started,
   run [ProcessEnds quick; MonitorCloses; MonitorSends; LaunchTimesOut; WaitReturns; WaitReturns] started,
   lf_launch <$> run [ProcessEnds busy; MonitorCloses; MonitorSends; LaunchReceives] started) =
  (Some [quick], None, Some GaveUp).
Proof. vm_compute. reflexivity. Qed.
Lemma wait_returns_once_witness :
  forall more s s', run [LaunchTimesOut; ProcessEnds quick; MonitorCloses; MonitorSends; WaitReturns] started = Some s ->
    run more s = Some s' -> step WaitReturns s' = None.
Proof.
  intros more s s' Hs. destruct (wait_returns_once _ s Hs) as (_ & _ & _ & _ & H). apply H.
  vm_compute in Hs. injection Hs as <-. discriminate.
Defined.
