(* ===== verification/Descriptors.v ===== *)
(** File descriptors on their way from the host to the workload:
    [fdscrub.go], [socketpair.go], the descriptors of [start] in [launch.go]
    and of the stage in [netns.go] ([internal/orchestrator]), and
    [internal/seccomp/memfd.go].

    A table maps numbers to what is open there; [fork_exec] is what a child
    started by [os/exec] inherits. *)
From S2P Require Import GoStrings BwrapArgs Services Launch.
Local Open Scope go_scope.

(** * Tables *)
(** What a descriptor refers to: a standard stream, one of the ends of channel
    [i], the seccomp filter, a pseudo-terminal's slave, or something of the
    host's. *)
Inductive file := Stream (i : nat) | HostSide (i : nat) | GuestSide (i : nat) | Filter | Slave | Foreign (i : nat).
#[export] Instance file_eq : EqDecision file.
Proof. solve_decision. Defined.
Record descriptor := Descriptor { ds_file : file; ds_cloexec : bool }.
#[export] Instance descriptor_eq : EqDecision descriptor.
Proof. solve_decision. Defined.
Abbreviation table := (gmap nat descriptor).
(** The lowest number that is free, which is the one the kernel takes. *)
Definition lowest_free (t : table) : nat := default 0 (List.find (fun n => bool_decide (t !! n = None)) (seq 0 (S (size t)))).
Definition open_file (f : file) (cloexec : bool) (t : table) : table * nat :=
  let n := lowest_free t in (<[n := Descriptor f cloexec]> t, n).
Definition list_open_fds (t : table) : list nat := map fst (map_to_list t).

(** * Scrubbing *)
Definition close_on_exec (fd : nat) (t : table) : table := alter (fun d => Descriptor (ds_file d) true) fd t.
(** [readable]: whether /proc/self/fd can be read. *)
Definition scrub_foreign_fds (readable : bool) (keep : list nat) (t : table) : option table :=
  if readable
  then Some (fold_left (fun t fd => if (fd <=? 2) || bool_decide (fd ∈ keep) then t else close_on_exec fd t) (list_open_fds t) t)
  else None.
(** What [close] says. *)
Inductive close_result := Closed | NotOpen | CloseFailed.
Fixpoint close_loop (close : nat -> close_result) (keep : list nat) (fds : list nat) (t : table) : table * option nat :=
  match fds with
  | [] => (t, None)
  | fd :: fds =>
      if bool_decide (fd ∈ keep) then close_loop close keep fds t
      else match close fd with
           | Closed => close_loop close keep fds (delete fd t)
           | NotOpen => close_loop close keep fds t
           | CloseFailed => (t, Some fd)
           end
  end.
(** The table and the descriptor that could not be closed. *)
Definition close_all_fds_except (readable : bool) (close : nat -> close_result) (keep : list nat) (t : table) : option (table * option nat) :=
  if readable then Some (close_loop close ([0; 1; 2] ++ keep) (list_open_fds t) t) else None.

(** * Starting a process *)
(** [os/exec]: the child has the parent's descriptors, with the given files from
    0 on in place of the parent's, and loses what is closed on exec. *)
Definition survives (d : descriptor) : option descriptor := if ds_cloexec d then None else Some d.
Fixpoint place (n : nat) (files : list file) (t : table) : table :=
  match files with [] => t | f :: files => place (S n) files (<[n := Descriptor f false]> t) end.
Definition fork_exec (files : list file) (t : table) : table := omap survives (place 0 files t).
Definition streams : list file := [Stream 0; Stream 1; Stream 2].

(** * The sandbox process *)
(** [Socketpair]: neither end is closed on exec. *)
Definition socketpair (i : nat) (t : table) : table * (nat * nat) :=
  let '(t, host) := open_file (HostSide i) false t in
  let '(t, guest) := open_file (GuestSide i) false t in
  (t, (host, guest)).
Fixpoint socketpairs (n i : nat) (t : table) : table * list nat * list nat :=
  match n with
  | O => (t, [], [])
  | S n =>
      let '(t, (host, guest)) := socketpair i t in
      let '(t, hosts, guests) := socketpairs n (S i) t in
      (t, host :: hosts, guest :: guests)
  end.
(** The descriptors in [start]: the table of the stage process, or [None] when
    the scrub fails.  [filter] is the descriptor of the filter, if there is one,
    [keep_fds] the plan's [KeepFDs]. *)
Definition start_table (readable : bool) (filter : option nat) (keep_fds : list nat) (t : table) : option table :=
  let '(t, _, guests) := socketpairs FDPreserved 0 t in
  let extra := guests ++ option_list filter in
  t ← scrub_foreign_fds readable ([0; 1; 2] ++ extra ++ keep_fds) t;
  Some (fork_exec (streams ++ map GuestSide (seq 0 FDPreserved) ++ (match filter with Some _ => [Filter] | None => [] end)) t).
(** The stage hands the channels on to bwrap. *)
Definition bwrap_table (t : table) : table := fork_exec (streams ++ map GuestSide (seq 0 FDPreserved)) t.
(** The guest scrubs, and goes on when that fails; the workload's streams are
    the guest's or, on a terminal, the slave. *)
Definition workload_table (readable interactive : bool) (t : table) : table :=
  let t := match scrub_foreign_fds readable [] t with Some t' => t' | None => t end in
  fork_exec (if interactive then [Slave; Slave; Slave] else streams) t.

(** * The filter in memory *)
(** The file behind the filter: its contents and its position. *)
Record memfile := MemFile { mf_contents : gostring; mf_offset : nat }.
Definition write_at (f : memfile) (b : gostring) : memfile :=
  MemFile (take (mf_offset f) (mf_contents f) ++ b ++ drop (mf_offset f + length b) (mf_contents f)) (mf_offset f + length b).
Inductive memfd_err := FallbackFailed | WriteFilter | SeekFilter.
Record memfd_kernel := MemfdKernel { mk_memfd : bool; mk_temp : bool; mk_write : bool; mk_seek : bool }.
(** The table, and the descriptor with its file. *)
Definition create_memfd (k : memfd_kernel) (bytecode : gostring) (t : table) : table * result memfd_err (nat * memfile) :=
  let fill :=
    let '(t', fd) := open_file Filter true t in
    if negb (mk_write k) then (delete fd t', Err WriteFilter)
    else if negb (mk_seek k) then (delete fd t', Err SeekFilter)
    else (t', Ok (fd, MemFile (mf_contents (write_at (MemFile [] 0) bytecode)) 0)) in
  if mk_memfd k then fill else if mk_temp k then fill else (t, Err FallbackFailed).

(** * Lemmas *)
Lemma lowest_free_spec t : t !! lowest_free t = None.
Proof.
  unfold lowest_free. destruct (List.find _ _) as [n|] eqn:Hf; cbn [default].
  - by apply List.find_some in Hf as [_ ?%bool_decide_eq_true_1].
  - exfalso. assert (Hin : forall n, n ∈ seq 0 (S (size t)) -> n ∈ map fst (map_to_list t)).
    { intros n Hn. apply list_elem_of_In in Hn. apply (List.find_none _ _ Hf) in Hn. apply bool_decide_eq_false_1 in Hn.
      destruct (t !! n) as [d|] eqn:Hd; [|done]. apply list_elem_of_fmap. exists (n, d). split; [done|]. by apply elem_of_map_to_list. }
    assert (Hsub : seq 0 (S (size t)) ⊆+ map fst (map_to_list t)) by (apply NoDup_submseteq; [apply NoDup_seq | exact Hin]).
    apply submseteq_length in Hsub. rewrite length_seq, length_map, length_map_to_list in Hsub. lia.
Qed.
Lemma open_fds_elem t fd : fd ∈ list_open_fds t <-> is_Some (t !! fd).
Proof.
  unfold list_open_fds. rewrite list_elem_of_fmap. split.
  - intros ([n d] & -> & Hn). apply elem_of_map_to_list in Hn. eauto.
  - intros [d Hd]. exists (fd, d). split; [done|]. by apply elem_of_map_to_list.
Qed.
Definition kept (keep : list nat) (fd : nat) : bool := (fd <=? 2) || bool_decide (fd ∈ keep).
Lemma scrub_fold keep fds t fd :
  fold_left (fun t fd => if kept keep fd then t else close_on_exec fd t) fds t !! fd =
  (if negb (kept keep fd) && bool_decide (fd ∈ fds) then (fun d => Descriptor (ds_file d) true) <$> t !! fd else t !! fd).
Proof.
  revert t. induction fds as [|x fds IH]; intros t; cbn [fold_left]; [by rewrite (bool_decide_false (fd ∈ [])), andb_false_r by apply not_elem_of_nil|].
  rewrite IH. destruct (decide (fd = x)) as [->|Hne].
  - rewrite (bool_decide_true (x ∈ x :: fds)), andb_true_r by left. destruct (kept keep x) eqn:Hk; cbn [negb andb]; [done|].
    unfold close_on_exec. rewrite lookup_alter_eq. destruct (bool_decide _); [|done]. by destruct (t !! x).
  - assert (Hin : bool_decide (fd ∈ x :: fds) = bool_decide (fd ∈ fds)) by (apply bool_decide_ext; rewrite elem_of_cons; tauto).
    rewrite Hin. destruct (kept keep x); [done|]. unfold close_on_exec. by rewrite lookup_alter_ne.
Qed.
Lemma scrub_lookup keep t t' fd : scrub_foreign_fds true keep t = Some t' ->
  t' !! fd = if kept keep fd then t !! fd else (fun d => Descriptor (ds_file d) true) <$> t !! fd.
Proof.
  unfold scrub_foreign_fds. intros [= <-]. change (fun t0 fd0 => if (fd0 <=? 2) || bool_decide (fd0 ∈ keep) then t0 else close_on_exec fd0 t0)
    with (fun t0 fd0 => if kept keep fd0 then t0 else close_on_exec fd0 t0). rewrite scrub_fold.
  destruct (kept keep fd); [done|]. cbn [negb andb]. destruct (t !! fd) as [d|] eqn:Hd; [|by destruct (bool_decide _)].
  by rewrite bool_decide_true by (apply open_fds_elem; eauto).
Qed.
Lemma place_lookup n files t fd :
  place n files t !! fd = if (n <=? fd) && (fd <? n + length files) then (fun f => Descriptor f false) <$> files !! (fd - n) else t !! fd.
Proof.
  revert n t. induction files as [|f files IH]; intros n t; cbn [place length].
  - destruct (n <=? fd) eqn:H1; [|done]. cbn [andb]. apply Nat.leb_le in H1. by rewrite (proj2 (Nat.ltb_ge _ _)) by lia.
  - rewrite IH. destruct (Nat.eq_dec fd n) as [->|Hne].
    + rewrite (proj2 (Nat.leb_gt (S n) n)), Nat.leb_refl by lia. cbn [andb]. rewrite (proj2 (Nat.ltb_lt n _)) by lia.
      by rewrite lookup_insert_eq, Nat.sub_diag.
    + destruct (Nat.leb_spec (S n) fd), (Nat.ltb_spec fd (S n + length files)), (Nat.leb_spec n fd), (Nat.ltb_spec fd (n + S (length files)));
        cbn [andb]; try lia; [|by rewrite lookup_insert_ne..]. by replace (fd - n) with (S (fd - S n)) by lia.
Qed.
(** What a child has at a descriptor. *)
Lemma fork_exec_lookup files t fd :
  fork_exec files t !! fd =
  if fd <? length files then (fun f => Descriptor f false) <$> files !! fd
  else match t !! fd with Some d => survives d | None => None end.
Proof.
  unfold fork_exec. rewrite lookup_omap, place_lookup. cbn [Nat.leb Nat.add andb]. rewrite Nat.sub_0_r.
  destruct (Nat.ltb_spec fd (length files)) as [Hl|Hl]; [|done].
  destruct (lookup_lt_is_Some_2 files fd Hl) as [f ->]. done.
Qed.
Lemma survives_some d d' : survives d = Some d' <-> d = d' /\ ds_cloexec d' = false.
Proof. unfold survives. destruct (ds_cloexec d) eqn:Hd; split; [done | by intros [-> ?]; congruence | by intros [= <-] | by intros [-> _]]. Qed.
Lemma open_file_lookup f c t t' n fd : open_file f c t = (t', n) ->
  t !! n = None /\ t' !! fd = if decide (fd = n) then Some (Descriptor f c) else t !! fd.
Proof.
  unfold open_file. intros [= <- <-]. split; [apply lowest_free_spec|].
  destruct (decide _) as [->|]; [by rewrite lookup_insert_eq | by rewrite lookup_insert_ne].
Qed.
Lemma socketpair_spec i t t' host guest : socketpair i t = (t', (host, guest)) ->
  (forall fd d, t !! fd = Some d -> t' !! fd = Some d) /\ t !! guest = None /\ t' !! guest = Some (Descriptor (GuestSide i) false).
Proof.
  unfold socketpair. destruct (open_file (HostSide i) false t) as [t1 h] eqn:H1. destruct (open_file (GuestSide i) false t1) as [t2 g] eqn:H2.
  intros [= <- <- <-]. pose proof (fun fd => open_file_lookup _ _ _ _ _ fd H1) as L1. pose proof (fun fd => open_file_lookup _ _ _ _ _ fd H2) as L2.
  destruct (L1 0) as [Hh _], (L2 0) as [Hg _]. split_and!.
  - intros fd d Hd. destruct (L1 fd) as [_ E1], (L2 fd) as [_ E2]. rewrite E2, E1.
    assert (Hne : fd <> h) by congruence. rewrite (decide_False (P := fd = h)) in E1 by done.
    destruct (decide (fd = g)); [congruence|]. by rewrite decide_False.
  - destruct (L1 g) as [_ E]. rewrite Hg in E. destruct (decide (g = h)); congruence.
  - destruct (L2 g) as [_ ->]. by rewrite decide_True.
Qed.
Lemma socketpairs_spec n i t t' hosts guests : socketpairs n i t = (t', hosts, guests) ->
  (forall fd d, t !! fd = Some d -> t' !! fd = Some d) /\
  (forall fd, fd ∈ guests -> exists k, t' !! fd = Some (Descriptor (GuestSide k) false)).
Proof.
  revert i t t' hosts guests. induction n as [|n IH]; intros i t t' hosts guests; cbn [socketpairs].
  - intros [= <- <- <-]. split; [done|]. by intros fd ?%not_elem_of_nil.
  - destruct (socketpair i t) as [t1 [h g]] eqn:H1. destruct (socketpairs n (S i) t1) as [[t2 hs] gs] eqn:H2. intros [= <- <- <-].
    destruct (socketpair_spec _ _ _ _ _ H1) as (Hk1 & _ & Hg). destruct (IH _ _ _ _ _ H2) as (Hk2 & Hgs). split; [auto|].
    intros fd [->|Hfd]%elem_of_cons; [exists i; auto | auto].
Qed.
Lemma create_memfd_spec k bytecode t t' r : create_memfd k bytecode t = (t', r) ->
  match r with
  | Ok (fd, f) => t !! fd = None /\ t' !! fd = Some (Descriptor Filter true) /\ mf_contents f = bytecode /\ mf_offset f = 0 /\
      (forall x d, t !! x = Some d -> t' !! x = Some d)
  | Err _ => t' = t
  end.
Proof.
  unfold create_memfd. destruct (open_file Filter true t) as [t1 fd] eqn:H1.
  pose proof (fun x => open_file_lookup _ _ _ _ _ x H1) as L. destruct (L fd) as [Hf _].
  assert (Hdel : delete fd t1 = t).
  { apply map_eq. intros x. destruct (decide (x = fd)) as [->|Hne]; [by rewrite lookup_delete_eq, Hf|].
    rewrite lookup_delete_ne by done. destruct (L x) as [_ ->]. by rewrite decide_False. }
  assert (Hok : forall x d, t !! x = Some d -> t1 !! x = Some d).
  { intros x d Hd. destruct (L x) as [_ ->]. rewrite decide_False; [done | congruence]. }
  assert (Hfd : t1 !! fd = Some (Descriptor Filter true)) by (destruct (L fd) as [_ ->]; by rewrite decide_True).
  destruct (mk_memfd k), (mk_temp k), (mk_write k), (mk_seek k); cbn; intros [= <- <-]; try done;
    split_and!; try done; cbn; by rewrite ?take_nil, ?drop_nil, ?app_nil_r.
Qed.
(** Whatever is in a child that was started with the guest ends placed is a
    stream, a guest end, the filter, or was to be kept. *)
Lemma start_table_files filter keep_fds t child fd d :
  start_table true filter keep_fds t = Some child ->
  (forall f, filter = Some f -> t !! f = Some (Descriptor Filter true)) -> (forall x, x ∈ keep_fds -> is_Some (t !! x)) ->
  child !! fd = Some d ->
  ds_cloexec d = false /\
  (fd < 3 /\ ds_file d = Stream fd \/ 3 <= fd /\ ((exists k, ds_file d = GuestSide k) \/ ds_file d = Filter \/ fd ∈ keep_fds /\ t !! fd = Some d)).
Proof.
  unfold start_table. destruct (socketpairs FDPreserved 0 t) as [[t1 hosts] guests] eqn:Hsp. cbv zeta.
  intros Hc Hf Hk Hd. apply bind_Some in Hc as (t2 & Hs & Hc). apply (inj Some) in Hc. subst child.
  destruct (socketpairs_spec _ _ _ _ _ _ Hsp) as [Hkeep Hguest].
  rewrite fork_exec_lookup in Hd. revert Hd. destruct (Nat.ltb_spec fd (length (streams ++ map GuestSide (seq 0 FDPreserved) ++ match filter with Some _ => [Filter] | None => [] end)))
    as [Hl|Hl]; intros Hd.
  - unfold streams, FDPreserved in *. destruct filter; cbn in Hd, Hl;
      (do 9 (destruct fd as [|fd]; [solve [exfalso; lia | cbn in Hd; simplify_eq; cbn; split; [done|]; ((left; split; [lia | done]) || (right; split; [lia|]; eauto))]|]));
      exfalso; lia.
  - assert (H8 : 8 <= fd) by (unfold streams, FDPreserved in Hl; destruct filter; cbn in Hl; lia).
    rewrite (scrub_lookup _ _ _ fd Hs) in Hd. revert Hd. destruct (kept _ fd) eqn:Hkd; destruct (t1 !! fd) as [d1|] eqn:Hd1; cbn; intros Hd; try done. apply survives_some in Hd as [-> Hce]. split; [done|]. right. split; [lia|].
    unfold kept in Hkd. rewrite (proj2 (Nat.leb_gt _ _)) in Hkd by lia. apply bool_decide_eq_true in Hkd.
    rewrite !elem_of_app in Hkd. destruct Hkd as [Hkd|[[Hkd|Hkd]|Hkd]].
    + exfalso. rewrite !elem_of_cons, elem_of_nil in Hkd. lia.
    + destruct (Hguest fd Hkd) as [k Hx]. left. exists k. rewrite Hx in Hd1. by injection Hd1 as <-.
    + destruct filter as [f|]; [|by apply not_elem_of_nil in Hkd]. apply list_elem_of_singleton in Hkd as ->.
      rewrite (Hkeep _ _ (Hf f eq_refl)) in Hd1. injection Hd1 as <-. done.
    + right. right. split; [done|]. destruct (Hk fd Hkd) as [d0 Hd0]. rewrite (Hkeep _ _ Hd0) in Hd1. congruence.
Qed.
Lemma start_table_channels filter keep_fds t child : start_table true filter keep_fds t = Some child ->
  (forall i, i < FDPreserved -> child !! (FDProxy + i) = Some (Descriptor (GuestSide i) false)) /\
  (filter <> None -> child !! Z.to_nat FDSeccomp = Some (Descriptor Filter false)).
Proof.
  unfold start_table. destruct (socketpairs FDPreserved 0 t) as [[t1 hosts] guests]. cbv zeta.
  intros (t2 & Hs & Hc)%bind_Some. apply (inj Some) in Hc. subst child. split.
  - intros i Hi. rewrite fork_exec_lookup. unfold FDPreserved in *. by do 5 (destruct i as [|i]; [done|]); lia.
  - intros Hf. rewrite fork_exec_lookup. by destruct filter.
Qed.
(** A child to which the same files are given again has the same descriptors. *)
Lemma bwrap_same filter keep_fds t child : start_table true filter keep_fds t = Some child -> bwrap_table child = child.
Proof.
  unfold start_table. destruct (socketpairs FDPreserved 0 t) as [[t1 hosts] guests]. cbv zeta.
  intros (t2 & Hs & Hc)%bind_Some. apply (inj Some) in Hc. subst child. apply map_eq. intros fd.
  unfold bwrap_table. rewrite fork_exec_lookup. destruct (Nat.ltb_spec fd (length (streams ++ map GuestSide (seq 0 FDPreserved)))) as [Hl|Hl].
  - rewrite fork_exec_lookup, app_assoc. rewrite (proj2 (Nat.ltb_lt fd _)) by (rewrite length_app; lia). by rewrite (lookup_app_l (streams ++ map GuestSide (seq 0 FDPreserved))).
  - rewrite fork_exec_lookup. destruct (fd <? _) eqn:Hlt; [by destruct (_ !! fd)|]. destruct (t2 !! fd) as [d|]; [|done].
    destruct (survives d) as [d'|] eqn:Hd; [|done]. by apply survives_some in Hd as [-> Hd]; apply survives_some.
Qed.
Lemma workload_streams interactive g fd d : workload_table true interactive g !! fd = Some d ->
  fd < 3 /\ d = Descriptor (if interactive then Slave else Stream fd) false.
Proof.
  unfold workload_table. destruct (scrub_foreign_fds true [] g) as [t|] eqn:Hs; [|done]. cbv zeta. rewrite fork_exec_lookup.
  assert (Hlen : length (if interactive then [Slave; Slave; Slave] else streams) = 3) by (by destruct interactive). rewrite Hlen.
  destruct (Nat.ltb_spec fd 3) as [Hl|Hl].
  - destruct interactive; (do 3 (destruct fd as [|fd]; [by intros [= <-]|])); lia.
  - rewrite (scrub_lookup _ _ _ fd Hs). unfold kept. rewrite (proj2 (Nat.leb_gt _ _)), bool_decide_false by (lia || apply not_elem_of_nil).
    cbn. by destruct (g !! fd).
Qed.
(** Without the list, everything the guest holds that is not close-on-exec
    goes on to the workload. *)
Lemma workload_unscrubbed interactive g fd :
  workload_table false interactive g !! fd =
    if fd <? 3 then Some (Descriptor (if interactive then Slave else Stream fd) false)
    else match g !! fd with Some d => survives d | None => None end.
Proof.
  unfold workload_table, scrub_foreign_fds. cbv zeta. rewrite fork_exec_lookup.
  assert (Hlen : length (if interactive then [Slave; Slave; Slave] else streams) = 3) by (by destruct interactive). rewrite Hlen.
  destruct (Nat.ltb_spec fd 3) as [Hl|Hl]; [|by destruct (g !! fd)].
  destruct interactive; (do 3 (destruct fd as [|fd]; [done|])); lia.
Qed.

(** * Property *)
(** C15: Descriptors do not leak.  Whatever the host process has open, the stage
    and bwrap hold the guest ends of the channels at the numbers that every part
    of keg expects, the filter at its own, the three streams, and otherwise only
    further guest ends, the filter and descriptors that the plan names.  If the
    descriptors of the host process cannot be listed, nothing is started.
    Whatever the guest process holds, the workload gets its three streams and
    nothing more if the guest can list its own descriptors; if it cannot, the
    guest goes on, and the workload gets its streams and besides everything
    the guest holds that is not close-on-exec, the channels included. *)
Theorem descriptors_confined (t : table) (filter : option nat) (keep_fds : list nat)
    (Hfilter : forall f, filter = Some f -> t !! f = Some (Descriptor Filter true))
    (Hkeep : forall x, x ∈ keep_fds -> is_Some (t !! x)) :
  start_table false filter keep_fds t = None /\
  exists child, start_table true filter keep_fds t = Some child /\ bwrap_table child = child /\
    (forall i, i < FDPreserved -> child !! (FDProxy + i) = Some (Descriptor (GuestSide i) false)) /\
    (filter <> None -> child !! Z.to_nat FDSeccomp = Some (Descriptor Filter false)) /\
    (forall fd d, child !! fd = Some d ->
       fd < 3 /\ ds_file d = Stream fd \/ (exists k, ds_file d = GuestSide k) \/ ds_file d = Filter \/ fd ∈ keep_fds /\ t !! fd = Some d) /\
    (forall guest interactive fd d, workload_table true interactive guest !! fd = Some d ->
       fd < 3 /\ d = Descriptor (if interactive then Slave else Stream fd) false) /\
    (forall guest interactive fd, workload_table false interactive guest !! fd =
       if fd <? 3 then Some (Descriptor (if interactive then Slave else Stream fd) false)
       else match guest !! fd with Some d => if ds_cloexec d then None else Some d | None => None end).
Proof.
  split; [unfold start_table; by destruct (socketpairs _ _ _) as [[] ]|].
  destruct (start_table true filter keep_fds t) as [child|] eqn:Hc.
  2:{ exfalso. unfold start_table in Hc. by destruct (socketpairs _ _ _) as [[] ]. }
  exists child. destruct (start_table_channels _ _ _ _ Hc) as [H1 H2]. split_and!; try done.
  - by eapply bwrap_same.
  - intros fd d Hd. destruct (start_table_files _ _ _ _ _ _ Hc Hfilter Hkeep Hd) as (_ & [?|(_ & ?)]); auto.
  - intros guest interactive fd d. apply workload_streams.
  - intros guest interactive fd. rewrite workload_unscrubbed. unfold survives. by repeat case_match.
Qed.

(** * Witnesses *)
Module Example_.
(** A host process with its streams, a file that is open for reading, a socket
    marked already, the channel of another sandbox, and the filter. *)
Definition host_table : table :=
  {[0 := Descriptor (Stream 0) false; 1 := Descriptor (Stream 1) false; 2 := Descriptor (Stream 2) false;
    3 := Descriptor (Foreign 1) false; 4 := Descriptor (Foreign 2) true; 5 := Descriptor (HostSide 9) false; 7 := Descriptor Filter true]}.
(** The guest ends are also at the numbers they had in the host process. *)
Example stage_descriptors :
  (fun t => map (fun p => (fst p, ds_file (snd p))) (map_to_list t)) <$> start_table true (Some 7) [3] host_table =
  (fun l => map (fun p => (fst p, ds_file (snd p))) (map_to_list (list_to_map (M := table) l))) <$> Some
    ([(0, Descriptor (Stream 0) false); (1, Descriptor (Stream 1) false); (2, Descriptor (Stream 2) false)] ++
     map (fun i => (3 + i, Descriptor (GuestSide i) false)) (seq 0 5) ++ [(8, Descriptor Filter false)] ++
     [(10, Descriptor (GuestSide 1) false); (12, Descriptor (GuestSide 2) false); (14, Descriptor (GuestSide 3) false);
      (16, Descriptor (GuestSide 4) false)]).
Proof. vm_compute. reflexivity. Qed.
Lemma descriptors_confined_witness :
  exists child, start_table true (Some 7) [3] host_table = Some child /\ child !! 7 = Some (Descriptor (GuestSide 4) false) /\
    forall fd d, workload_table true false child !! fd = Some d -> fd < 3.
Proof.
  pose proof (descriptors_confined host_table (Some 7) [3]) as H.
  specialize (H ltac:(intros f Hf; injection Hf as <-; vm_compute; reflexivity)
                ltac:(intros x Hx; apply list_elem_of_singleton in Hx as ->; vm_compute; eauto)).
  destruct H as (_ & child & Hc & Hb & Hch & _ & _ & Hw & _). exists child. split; [exact Hc|]. split; [apply (Hch 4); unfold FDPreserved; lia|].
  intros fd d Hd. apply (Hw child false fd d Hd).
Defined.
(** A descriptor of the plan's [KeepFDs] reaches the guest, not the workload; and
    where the guest cannot list its descriptors, the workload gets the channels. *)
Example kept_descriptor :
  let child := default ∅ (start_table true None [4] (<[4 := Descriptor (Foreign 2) false]> host_table)) in
  let child9 := default ∅ (start_table true None [9] (<[9 := Descriptor (Foreign 2) false]> host_table)) in
  (child !! 4, child9 !! 9, workload_table true false child9 !! 9, workload_table false false child9 !! 4) =
  (Some (Descriptor (GuestSide 1) false), Some (Descriptor (Foreign 2) false), None, Some (Descriptor (GuestSide 1) false)).
Proof. vm_compute. reflexivity. Qed.
Example memfd_fallback :
  snd (create_memfd (MemfdKernel false true true true) $"code" host_table) = Ok (6, MemFile $"code" 0) /\
  create_memfd (MemfdKernel true true true false) $"code" host_table = (host_table, Err SeekFilter).
Proof. vm_compute. split; reflexivity. Qed.
Example closing_fails :
  option_map snd (close_all_fds_except true (fun fd => if fd =? 5 then CloseFailed else Closed) [4] host_table) = Some (Some 5).
Proof. vm_compute. reflexivity. Qed.
End Example_.
