(* ===== verification/Facade.v ===== *)
(** The library facade: [pkg/keg/keg.go].  [keg_launch] is [Launch]: the
    options, the plan with its additions, the audit file, the launch and the
    second start of the services; [keg_close] is [Close].

    The cleanups of a sandbox are data, so what is removed and what is left
    behind can be read off the result. *)
From S2P Require Import GoStrings GoPath GoNet ConfigTypes ConfigMerge Matcher Whitelist Justfile Templates Secrets BwrapArgs Ports PlanBuilder AuditLog Services Launch.
Local Open Scope go_scope.

(** * Options *)
Record config_options := ConfigOptions {
  co_repo_config : gostring; co_user_config : gostring; co_ephemeral : bool; co_disk_overlay : gostring;
  co_isolate_caches : bool; co_isolated_cache_name : gostring; co_instance : gostring; co_audit_file : gostring;
  co_command : list gostring; co_allow_sni : list gostring; co_allow_networks : list gostring;
  co_block_networks : list gostring; co_allow_all_network : bool }.
Definition default_options : config_options :=
  ConfigOptions [] [] false [] false [] [] [] [$"/bin/bash"; $"-i"] [] [] [] false.
(** The options but for the three streams, which are passed on. *)
Inductive keg_option :=
  | WithRepoConfig (path : gostring) | WithUserConfig (path : gostring) | WithEphemeral | WithDiskOverlay (name : gostring)
  | WithIsolateCaches | WithIsolatedCacheName (name : gostring) | WithName (name : gostring) | WithAuditFile (path : gostring)
  | WithCommand (cmd : list gostring) | WithAllowSNI (domains : list gostring) | WithAllowNetwork (cidrs : list gostring)
  | WithBlockNetwork (cidrs : list gostring) | WithAllowAllNetwork.
Definition apply_option (c : config_options) (o : keg_option) : config_options :=
  let '(ConfigOptions rc uc eph disk iso cache name aud cmd sni allow block all) := c in
  match o with
  | WithRepoConfig p => ConfigOptions p uc eph disk iso cache name aud cmd sni allow block all
  | WithUserConfig p => ConfigOptions rc p eph disk iso cache name aud cmd sni allow block all
  | WithEphemeral => ConfigOptions rc uc true disk iso cache name aud cmd sni allow block all
  | WithDiskOverlay n => ConfigOptions rc uc eph n iso cache name aud cmd sni allow block all
  | WithIsolateCaches => ConfigOptions rc uc eph disk true cache name aud cmd sni allow block all
  | WithIsolatedCacheName n => ConfigOptions rc uc eph disk iso n name aud cmd sni allow block all
  | WithName n => ConfigOptions rc uc eph disk iso cache n aud cmd sni allow block all
  | WithAuditFile p => ConfigOptions rc uc eph disk iso cache name p cmd sni allow block all
  | WithCommand l => ConfigOptions rc uc eph disk iso cache name aud l sni allow block all
  | WithAllowSNI l => ConfigOptions rc uc eph disk iso cache name aud cmd (sni ++ l) allow block all
  | WithAllowNetwork l => ConfigOptions rc uc eph disk iso cache name aud cmd sni (allow ++ l) block all
  | WithBlockNetwork l => ConfigOptions rc uc eph disk iso cache name aud cmd sni allow (block ++ l) all
  | WithAllowAllNetwork => ConfigOptions rc uc eph disk iso cache name aud cmd sni allow block true
  end.
Definition apply_options (opts : list keg_option) : config_options := fold_left apply_option opts default_options.

(** * Sandboxes *)
Inductive cleanup := RemoveTmpDir | CloseAuditFile.
(** What the cleanup does; the instance directory of a named instance stays. *)
Inductive cleaned := Removed (dir : gostring) | AuditClosed.
Definition run_cleanup (p : full_plan) (c : cleanup) : list cleaned :=
  match c with
  | RemoveTmpDir => if negb (is_empty (fp_tmp_dir p)) && is_empty (fp_instance p) then [Removed (fp_tmp_dir p)] else []
  | CloseAuditFile => [AuditClosed]
  end.
Definition run_cleanups (p : full_plan) (l : list cleanup) : list cleaned := concat (map (run_cleanup p) l).
(** [Sandbox]; [ks_exit] is what [Wait] gives when the process has ended. *)
Record keg_sandbox := KegSandbox {
  ks_sb : sandbox; ks_exit : option wait_result; ks_plan : full_plan; ks_cancelled : bool; ks_closed : bool;
  ks_cleanups : list cleanup }.
(** [Close]: the sandbox afterwards and what was cleaned up. *)
Definition keg_close (k : keg_sandbox) : keg_sandbox * list cleaned :=
  if ks_closed k then (k, [])
  else (KegSandbox (Services.close (ks_sb k)) (ks_exit k) (ks_plan k) true true [], run_cleanups (ks_plan k) (ks_cleanups k)).
Definition keg_secret_path (name : gostring) : gostring := $"/run/secrets/" ++ name.

(** * Launch *)
Inductive keg_err :=
  | ContextEnded
  | OverlaysExclusive
  | CachesExclusive
  | PlanFailed (e : plan_err)
  | BadNetworks (e : policy_err)
  | DomainsFailed (e : plan_err)
  | OpenAuditFile
  | LaunchFailed (e : launch_err)
  | ServicesFailed (e : svc_err).
(** How a launch ends; [done] is what a failed launch cleaned up. *)
Inductive keg_result :=
  | KegRunning (k : keg_sandbox)
  | KegFailed (e : keg_err) (done : list cleaned)
  | KegPanicked.
(** The operating system of one launch. *)
Record keg_world := KegWorld {
  kw_cancelled : bool;
  kw_host : PlanBuilder.host;
  kw_launch : launch_host; kw_attempts : nat -> attempt;
  kw_mkdir : gostring -> bool; kw_open_audit : gostring -> bool;
  kw_fs : filesystem;
  kw_bind : nat -> gostring -> Z -> bool;
  kw_late_death : option nat }.                (* exit during the second start *)
Definition with_additions (p : full_plan) (allow block : list gostring) (audit_file : gostring) (command : list gostring)
  : full_plan :=
  let b := fp_bwrap p in
  let b := Plan (repo_root b) (sandbox_home b) (resolv_conf b) (hosts_file b) (secret_dir b) (secret_path_binds b) (mounts b)
    (env_unset_vars b) (env_set_vars b) (env_inherit_vars b) (inherit_all b) (bwrap_args b) (p_allow_weak b) (p_overlay b)
    (disk_layer_rw b) (disk_layer_work b) (self_exe b) (enable_runner b) (extra_dirs b) (prepend_dirs b) (append_dirs b)
    (seccomp_fd b) command in
  FullPlan b (fp_repo_cfg p) (fp_tmp_dir p) (fp_instance p) (fp_sni p) allow block (fp_tcp p) (fp_dns p)
    (fp_transparent p) (fp_ports p) (fp_forward p) (fp_tasks p) (fp_runner p) (fp_hooks_dir p)
    audit_file (fp_upstream_proxy p) (fp_secrets p) (fp_sources p) (fp_secret_ctx p) (fp_landlock p) (fp_seccomp p).
Section facade.
Context `{TemplateLib, UnicodeCase, Regexp, MapRange gostring, MapRange secret_source, MapRange exec_source}.
Context (order1 order2 : MapRange repo_override) (marshal : env_keep_marker -> option gostring).
Definition overlay_of (ephemeral : bool) (disk : gostring) : overlay :=
  if ephemeral then OverlayEphemeral else if negb (is_empty disk) then OverlayDisk else OverlayPlain.
Definition request_of (repo_root : gostring) (c : config_options) : request :=
  Request repo_root (co_repo_config c) (co_user_config c) (overlay_of (co_ephemeral c) (co_disk_overlay c)) (co_disk_overlay c)
    (overlay_of (co_isolate_caches c) (co_isolated_cache_name c)) (co_isolated_cache_name c) (co_instance c) ∅.
(** The plan with the additions of the options. *)
Definition keg_plan (h : PlanBuilder.host) (repo_root : gostring) (c : config_options) : result keg_err (full_plan * user) :=
  '(p, u) ← map_err PlanFailed (snd (build_plan order1 order2 h (request_of repo_root c)));
  '(allow, block) ← (if (0 <? length (co_allow_networks c)) || (0 <? length (co_block_networks c))
    then map_err BadNetworks (add_network_cidrs (fp_allow p, fp_block p) (co_allow_networks c) (co_block_networks c))
    else Ok (fp_allow p, fp_block p));
  p ← (if 0 <? length (co_allow_sni c)
       then map_err DomainsFailed (snd (add_sni_domains h p (co_allow_sni c)))
       else Ok p);
  Ok (with_additions p allow block (or_else (co_audit_file c) (fp_audit_file p))
        (if 0 <? length (co_command c) then co_command c else p_command (fp_bwrap p)), u).
(** The audit file, when its directory can be made. *)
Definition open_audit (w : keg_world) (p : full_plan) : result keg_err (list cleanup * bool) :=
  if negb (is_empty (fp_audit_file p)) && kw_mkdir w (path_dir (fp_audit_file p)) then
    if kw_open_audit w (fp_audit_file p) then Ok ([RemoveTmpDir; CloseAuditFile], true) else Err OpenAuditFile
  else Ok ([RemoveTmpDir], false).
Definition audit_logger_of (p : full_plan) (file : bool) : audit_logger :=
  AuditLogger file false (or_else (fp_instance p) (path_base (repo_root (fp_bwrap p)))).
(** The audit writer of the facade; its number is of no account. *)
Definition facade_writer : nat := 0.
Definition keg_launch (w : keg_world) (repo_root : gostring) (opts : list keg_option) : keg_result :=
  let c := apply_options opts in
  if kw_cancelled w then KegFailed ContextEnded []
  else if co_ephemeral c && negb (is_empty (co_disk_overlay c)) then KegFailed OverlaysExclusive []
  else if co_isolate_caches c && negb (is_empty (co_isolated_cache_name c)) then KegFailed CachesExclusive []
  else match keg_plan (kw_host w) repo_root c with
  | Err e => KegFailed e []
  | Ok (p, u) =>
      match open_audit w p with
      | Err e => KegFailed e []
      | Ok (cleanups, _) =>
          let lp := LaunchPlan p (co_allow_all_network c) (Some facade_writer) in
          match launch (kw_fs w) marshal (kw_launch w) [] lp (kw_attempts w) with
          | Panicked => KegPanicked
          | Failed e => KegFailed (LaunchFailed e) (run_cleanups p cleanups)
          | Launched s exit =>
              let '(s, r) := start_background_services (kw_fs w) (kw_bind w) lp (Some u) (Some facade_writer)
                               (with_death (kw_late_death w) s) in
              let k := KegSandbox s exit p false false cleanups in
              match r with
              | Ok _ => KegRunning k
              | Err e => KegFailed (ServicesFailed e) (snd (keg_close k))
              end
          end
      end
  end.
End facade.

(** * Lemmas *)
Lemma close_all (P : service -> Prop) s :
  ok_state P s -> let s' := Services.close s in
  sb_closed s' = true /\ sb_ends s' = [] /\ sb_listeners s' = [] /\
  forall ln guest, ForwardPort ln guest ∈ sb_services s' -> ln ∈ sb_gone s'.
Proof.
  intros Hs. cbv zeta. pose proof (close_ok _ _ Hs) as Hc. assert (Hcl : sb_closed (Services.close s) = true).
  { unfold Services.close. by destruct (sb_closed s) eqn:E. }
  destruct (ok_closed _ _ Hc Hcl) as [He Hl]. split_and!; [done..|]. intros ln g Hin.
  destruct (ok_forwards _ _ Hc _ _ Hin) as [Hx|Hx]; [|done]. rewrite Hl in Hx. by apply not_elem_of_nil in Hx.
Qed.
Lemma removed_elem p l dir :
  Removed dir ∈ run_cleanups p l <-> RemoveTmpDir ∈ l /\ dir = fp_tmp_dir p /\ dir <> [] /\ fp_instance p = [].
Proof.
  unfold run_cleanups. induction l as [|c l IH]; cbn; [by split; [intros ?%not_elem_of_nil | intros [?%not_elem_of_nil _]]|].
  rewrite elem_of_app, IH, elem_of_cons. destruct c; cbn; [|rewrite list_elem_of_singleton; naive_solver].
  destruct (fp_tmp_dir p) as [|x t] eqn:Ht, (fp_instance p) eqn:Hi; cbn;
    rewrite ?list_elem_of_singleton, ?elem_of_nil; naive_solver.
Qed.
Lemma audit_closed_elem p l : AuditClosed ∈ run_cleanups p l <-> CloseAuditFile ∈ l.
Proof.
  unfold run_cleanups. induction l as [|c l IH]; cbn; [by split; intros ?%not_elem_of_nil|].
  rewrite elem_of_app, IH, elem_of_cons. destruct c; cbn.
  - destruct (_ && _); rewrite ?list_elem_of_singleton, ?elem_of_nil; naive_solver.
  - rewrite list_elem_of_singleton. naive_solver.
Qed.
Lemma open_audit_ok w p cleanups file :
  open_audit w p = Ok (cleanups, file) ->
  RemoveTmpDir ∈ cleanups /\ (CloseAuditFile ∈ cleanups <-> file = true) /\
  (file = true <-> fp_audit_file p <> [] /\ kw_mkdir w (path_dir (fp_audit_file p)) = true).
Proof.
  unfold open_audit. destruct (fp_audit_file p) as [|x a] eqn:Ha; cbn [is_empty negb andb].
  - intros [= <- <-]. split_and!; [set_solver | | naive_solver]. rewrite list_elem_of_singleton. naive_solver.
  - destruct (kw_mkdir _ _); [destruct (kw_open_audit _ _); [|done]|]; intros [= <- <-]; (split_and!; [set_solver| |naive_solver]).
    + split; [done | set_solver].
    + rewrite list_elem_of_singleton. naive_solver.
Qed.
(** The lists of the options accumulate in the order of the options. *)
Definition sni_of (o : keg_option) : list gostring := match o with WithAllowSNI l => l | _ => [] end.
Definition allow_of (o : keg_option) : list gostring := match o with WithAllowNetwork l => l | _ => [] end.
Definition block_of (o : keg_option) : list gostring := match o with WithBlockNetwork l => l | _ => [] end.
Lemma apply_options_lists opts c :
  let c' := fold_left apply_option opts c in
  co_allow_sni c' = co_allow_sni c ++ concat (map sni_of opts) /\
  co_allow_networks c' = co_allow_networks c ++ concat (map allow_of opts) /\
  co_block_networks c' = co_block_networks c ++ concat (map block_of opts).
Proof.
  revert c. induction opts as [|o opts IH]; intros c; cbn; [by rewrite !app_nil_r|].
  destruct (IH (apply_option c o)) as (-> & -> & ->). rewrite !app_assoc.
  destruct c, o; cbn [apply_option sni_of allow_of block_of co_allow_sni co_allow_networks co_block_networks];
    by rewrite ?app_nil_r.
Qed.

Section facade_lemmas.
Context `{TemplateLib, UnicodeCase, Regexp, MapRange gostring, MapRange secret_source, MapRange exec_source}.
Context (order1 order2 : MapRange repo_override) (marshal : env_keep_marker -> option gostring).
(** The parts of a plan that no option of a launch touches. *)
Definition same_limits (p p0 : full_plan) : Prop :=
  (fp_repo_cfg p, fp_tmp_dir p, fp_instance p, fp_tcp p, fp_transparent p, fp_ports p, fp_forward p, fp_tasks p, fp_runner p)
  = (fp_repo_cfg p0, fp_tmp_dir p0, fp_instance p0, fp_tcp p0, fp_transparent p0, fp_ports p0, fp_forward p0, fp_tasks p0,
     fp_runner p0) /\
  (fp_hooks_dir p, fp_secrets p, fp_sources p, fp_secret_ctx p, fp_landlock p, fp_seccomp p)
  = (fp_hooks_dir p0, fp_secrets p0, fp_sources p0, fp_secret_ctx p0, fp_landlock p0, fp_seccomp p0) /\
  let b := fp_bwrap p in let b0 := fp_bwrap p0 in
  (repo_root b, mounts b, env_unset_vars b, env_inherit_vars b, inherit_all b, bwrap_args b, p_allow_weak b, p_overlay b)
  = (repo_root b0, mounts b0, env_unset_vars b0, env_inherit_vars b0, inherit_all b0, bwrap_args b0, p_allow_weak b0,
     p_overlay b0).
(** The DNS channel after domains were added. *)
Definition dns_added (p0 : full_plan) (domains : list gostring) (p : full_plan) : Prop :=
  match fp_dns p0 with
  | Some d => exists d', fp_dns p = Some d' /\ dc_hosts d' = dc_hosts d /\ dc_upstream d' = dc_upstream d /\
                forall x, x ∈ dc_whitelist d' <-> x ∈ dc_whitelist d \/ x ∈ domains
  | None => match fp_dns p with
            | Some d' => domains <> [] /\ dc_whitelist d' = dns_whitelist (fp_sni p) (fp_tcp p0)
            | None => domains = []
            end
  end.
Lemma add_sni_domains_ok h p0 domains t p :
  add_sni_domains h p0 domains = (t, Ok p) ->
  same_limits p p0 /\ dns_added p0 domains p /\ fp_allow p = fp_allow p0 /\ fp_block p = fp_block p0 /\
  (forall x, x ∈ fp_sni p <-> x ∈ fp_sni p0 \/ x ∈ domains) /\ fp_audit_file p = fp_audit_file p0 /\
  p_command (fp_bwrap p) = p_command (fp_bwrap p0).
Proof.
  unfold add_sni_domains, dns_added. destruct domains as [|x domains]; cbn [length Nat.eqb].
  { intros [_ ->]%mret_ok_inv. split_and!; try done; [destruct (fp_dns p) as [d|]; [exists d|done]; set_solver|set_solver]. }
  cbv zeta. destruct (fp_dns p0) as [d|] eqn:Hd.
  { intros [_ <-]%mret_ok_inv. cbn -[union_strings]. split_and!; try done; [|apply union_strings_elem].
    eexists. split_and!; [reflexivity | done..| apply union_strings_elem]. }
  assert (Hne : (0 <? length (union_strings (fp_sni p0) (x :: domains))) = true).
  { apply Nat.ltb_lt. assert (Hx : x ∈ union_strings (fp_sni p0) (x :: domains)) by (rewrite union_strings_elem; set_solver).
    destruct (union_strings _ _); [by apply not_elem_of_nil in Hx | cbn; lia]. }
  rewrite Hne. intros ([rc hf] & t1 & t2 & _ & [_ <-]%mret_ok_inv & _)%io_ok_inv. cbn -[union_strings dns_whitelist].
  split_and!; try done. apply union_strings_elem.
Qed.
Lemma keg_plan_ok h root c p u :
  keg_plan order1 order2 h root c = Ok (p, u) ->
  exists t p0, build_plan order1 order2 h (request_of root c) = (t, Ok (p0, u)) /\
    same_limits p p0 /\ dns_added p0 (co_allow_sni c) p /\
    (forall x, x ∈ fp_sni p <-> x ∈ fp_sni p0 \/ x ∈ co_allow_sni c) /\
    (forall x, x ∈ fp_allow p <-> x ∈ fp_allow p0 \/ x ∈ co_allow_networks c) /\
    (forall x, x ∈ fp_block p <-> x ∈ fp_block p0 \/ x ∈ co_block_networks c) /\
    (co_allow_networks c <> [] \/ co_block_networks c <> [] ->
     is_ok (new_network_policy (co_allow_networks c) (co_block_networks c) false)) /\
    p_command (fp_bwrap p) = (if 0 <? length (co_command c) then co_command c else p_command (fp_bwrap p0)).
Proof.
  unfold keg_plan. intros ([p0 u0] & Hb%map_err_ok & ([allow block] & Hn & (p1 & Hs & [= <- <-])%bind_ok_inv)%bind_ok_inv)%bind_ok_inv.
  destruct (build_plan order1 order2 h (request_of root c)) as [t r] eqn:Hbuild. cbn in Hb. subst r.
  exists t, p0. split; [done|].
  assert (HS : same_limits p1 p0 /\ dns_added p0 (co_allow_sni c) p1 /\
    (forall x, x ∈ fp_sni p1 <-> x ∈ fp_sni p0 \/ x ∈ co_allow_sni c) /\ p_command (fp_bwrap p1) = p_command (fp_bwrap p0)).
  { assert (Hadd : exists t1, add_sni_domains h p0 (co_allow_sni c) = (t1, Ok p1)).
    { destruct (co_allow_sni c) as [|x l]; cbn [length Nat.ltb Nat.leb] in Hs; [injection Hs as <-; by eexists|].
      apply map_err_ok in Hs. destruct (add_sni_domains _ _ _) as [t1 r]. cbn in Hs. subst. by eexists. }
    destruct Hadd as [t1 Hadd]. apply add_sni_domains_ok in Hadd. tauto. }
  destruct HS as (Hl & Hd & Hsni & Hcmd).
  assert (HN : (forall x, x ∈ allow <-> x ∈ fp_allow p0 \/ x ∈ co_allow_networks c) /\
    (forall x, x ∈ block <-> x ∈ fp_block p0 \/ x ∈ co_block_networks c) /\
    (co_allow_networks c <> [] \/ co_block_networks c <> [] ->
     is_ok (new_network_policy (co_allow_networks c) (co_block_networks c) false))).
  { destruct ((0 <? length (co_allow_networks c)) || (0 <? length (co_block_networks c))) eqn:Hlen.
    - apply map_err_ok in Hn. unfold add_network_cidrs in Hn.
      apply bind_ok_inv in Hn as (pol & -> & [= <- <-]). split_and!; [apply union_strings_elem..|done].
    - injection Hn as <- <-. destruct (co_allow_networks c), (co_block_networks c); try done. set_solver. }
  destruct HN as (Ha & Hb & Hv). split_and!; try done. cbn. by rewrite Hcmd.
Qed.
Lemma keg_plan_err h root c e :
  keg_plan order1 order2 h root c = Err e ->
  (exists e', e = PlanFailed e') \/ (exists e', e = BadNetworks e') \/ (exists e', e = DomainsFailed e').
Proof.
  unfold keg_plan. intros [He|([p0 u0] & _ & [He|([allow block] & _ & [He|(p1 & _ & He)]%bind_err_inv)]%bind_err_inv)]%bind_err_inv;
    [| | |done]; repeat case_match; try done; apply map_err_err in He as (e' & _ & ->); eauto.
Qed.

(** * Properties *)

(** what the options of a launch can change.  The plan that is launched is
    the one that the configuration gives, with the domains and networks of all
    options, in any order, added to its lists: nothing the configuration
    blocks is unblocked, the new networks are well-formed, the DNS channel
    knows the new domains and is there when there are any, and mounts, tasks,
    secrets, ports, sandbox modes and inherited variables are those of the
    configuration. *)
Theorem options_only_add (h : PlanBuilder.host) (root : gostring) (opts : list keg_option) (p : full_plan) (u : user)
    (Hplan : keg_plan order1 order2 h root (apply_options opts) = Ok (p, u)) :
  let sni := concat (map sni_of opts) in
  let allow := concat (map allow_of opts) in
  let block := concat (map block_of opts) in
  exists t p0, build_plan order1 order2 h (request_of root (apply_options opts)) = (t, Ok (p0, u)) /\
    same_limits p p0 /\ dns_added p0 sni p /\
    (forall x, x ∈ fp_sni p <-> x ∈ fp_sni p0 \/ x ∈ sni) /\
    (forall x, x ∈ fp_allow p <-> x ∈ fp_allow p0 \/ x ∈ allow) /\
    (forall x, x ∈ fp_block p <-> x ∈ fp_block p0 \/ x ∈ block) /\
    (allow <> [] \/ block <> [] -> is_ok (new_network_policy allow block false)).
Proof.
  destruct (apply_options_lists opts default_options) as (Hs & Ha & Hb). cbn [app default_options co_allow_sni
    co_allow_networks co_block_networks] in Hs, Ha, Hb. fold default_options (apply_options opts) in Hs, Ha, Hb.
  cbv zeta. rewrite <- Hs, <- Ha, <- Hb. destruct (keg_plan_ok _ _ _ _ _ Hplan) as (t & p0 & Hx). exists t, p0. tauto.
Qed.
(** What a failed launch or a [Close] removes: the instance directory unless
    the instance is named, and the audit file is closed if it was opened. *)
Definition cleaned_up (w : keg_world) (p : full_plan) (done : list cleaned) : Prop :=
  (forall dir, Removed dir ∈ done <-> dir = fp_tmp_dir p /\ dir <> [] /\ fp_instance p = []) /\
  (AuditClosed ∈ done <-> fp_audit_file p <> [] /\ kw_mkdir w (path_dir (fp_audit_file p)) = true).
Lemma cleanups_clean_up w p cleanups file :
  open_audit w p = Ok (cleanups, file) -> cleaned_up w p (run_cleanups p cleanups).
Proof.
  intros (Hr & Hc & Hf)%open_audit_ok. split; [|by rewrite audit_closed_elem, Hc].
  intros dir. rewrite removed_elem. naive_solver.
Qed.

(** What runs in a sandbox of the library, when the process did not end while
    [orchestrator.Launch] started the services. *)
Lemma launched_services w p all s exit u :
  launch (kw_fs w) marshal (kw_launch w) [] (LaunchPlan p all (Some facade_writer)) (kw_attempts w) = Launched s exit ->
  (forall i, at_death (kw_attempts w i) = None) ->
  exists i, i < max_attempts /\
    sb_services (fst (start_background_services (kw_fs w) (kw_bind w) (LaunchPlan p all (Some facade_writer)) (Some u)
                        (Some facade_writer) (with_death (kw_late_death w) s))) =
      fst (planned (kw_fs w) (at_bind (kw_attempts w i)) (LaunchPlan p all (Some facade_writer)) None).
Proof.
  intros (i & ss & gone & s0 & Hi & Hs & Hx)%launch_attempt Hd. exists i. split; [exact Hi|].
  apply start_services in Hs. rewrite Hd in Hs. by eapply services_twice.
Qed.

End facade_lemmas.

(** * Concrete launches *)
Module Example_.
#[local] Existing Instances PlanBuilder.Example_.lower PlanBuilder.Example_.lib PlanBuilder.Example_.ranges.
#[local] Instance regexps : Regexp := {| regexp_ok := fun _ => true; regexp_match := fun re a => contains a re |}.
#[local] Abbreviation order := PlanBuilder.Example_.ranges.
(** A repository with a secret, a task and its own flags for bwrap. *)
Definition repo2 (flags : list gostring) : repo :=
  Repo $"1" ∅ [] (RepoPaths [] [] []) (EnvSpec [] ∅ [$"TERM"] false) flags [] [SecretRef $"tok" []] [] [] empty_network
    (DelegatedTasks [$"build"] [] [] ∅) [].
Definition host2 (r : repo) : PlanBuilder.host :=
  let h := PlanBuilder.Example_.host1 in
  PlanBuilder.Host (h_eval_symlinks h) (h_abs h) (h_trust h) (h_read h) (fun _ => Decoded r) (h_decode_user h) (h_environ h)
    (h_home h) (h_temp_dir h) (h_stat_file h) (h_mkdir_all h) (h_mkdir_temp h) (h_write h) (h_look_path h) (h_go_env h)
    (h_alloc h) (h_fetch h) (h_secret_files h).
Definition options1 : list keg_option :=
  [WithUserConfig $"/u.yaml"; WithAllowSNI [$"a.example"]; WithBlockNetwork [$"10.0.0.0/8"]; WithAllowSNI [$"b.example"];
   WithAuditFile $"/var/log/keg/audit"].
Definition planned1 : result keg_err (full_plan * user) :=
  keg_plan order order (host2 (repo2 [])) $"/w/app" (apply_options options1).
Lemma options_only_add_witness :
  exists p u, planned1 = Ok (p, u) /\ fp_block p = [$"10.0.0.0/8"] /\
    ($"b.example" ∈ fp_sni p) /\ fp_landlock p = $"on".
Proof.
  assert (Hp : is_ok planned1 = true) by (vm_compute; reflexivity).
  destruct planned1 as [[p u]|e] eqn:Hplan; [|discriminate].
  pose proof (options_only_add order order (host2 (repo2 [])) $"/w/app" options1 p u) as Hx. specialize (Hx Hplan).
  destruct Hx as (t & p0 & Hb & (_ & Hl & _) & _ & Hsni & _ & _ & _). exists p, u. split; [reflexivity|].
  assert (Hblock : match planned1 with Ok (p, _) => fp_block p | Err _ => [] end = [$"10.0.0.0/8"]) by (vm_compute; reflexivity).
  rewrite Hplan in Hblock. split; [exact Hblock|]. split; [apply Hsni; right; apply list_elem_of_further, list_elem_of_here|].
  assert (Hland : match build_plan order order (host2 (repo2 [])) (request_of $"/w/app" (apply_options options1)) with
                  | (_, Ok (p, _)) => fp_landlock p | (_, Err _) => [] end = $"on") by (vm_compute; reflexivity).
  rewrite Hb in Hland. injection Hl as _ _ _ _ Hl _. exact (eq_trans Hl Hland).
Defined.
Definition host_with (version : gostring) : launch_host :=
  LaunchHost (Some $"/usr/bin/keg") (Some $"/usr/bin/bwrap") (fun _ => Some version) ∅ $"amd64".
Definition world1 (r : repo) (audit_dir : bool) : keg_world :=
  KegWorld false (host2 r) (host_with $"bubblewrap 0.8.0")
    (fun _ => Attempt true true true 5 true true true (fun _ _ _ => true) None Stable false)
    (fun _ => audit_dir) (fun _ => true) ∅ (fun _ _ _ => true) None.
Definition marshal1 (m : env_keep_marker) : option gostring := Some $"{}".
(** A sandbox that runs: [Close] removes its directory, and its audit file is
    closed when it was opened. *)
Definition after_close (audit_dir : bool) : option (list cleaned) :=
  match keg_launch order order marshal1 (world1 (repo2 []) audit_dir) $"/w/app" options1 with
  | KegRunning k => Some (snd (keg_close k))
  | _ => None
  end.
Example closes : after_close true = Some [Removed $"/tmp/keg-1"; AuditClosed].
Proof. vm_compute. reflexivity. Qed.
(** A launch that asks for an audit file whose directory cannot be made runs,
    without the file. *)
Example runs_without_audit : after_close false = Some [Removed $"/tmp/keg-1"].
Proof. vm_compute. reflexivity. Qed.
(** A malformed network is only noticed after the plan was built: the instance
    directory with the fetched secrets stays. *)
Example failed_launch_leaks :
  keg_launch order order marshal1 (world1 (repo2 []) true) $"/w/app" [WithUserConfig $"/u.yaml"; WithAllowNetwork [$"10.0.0.0/33"]]
  = KegFailed (BadNetworks (AllowNetwork (InvalidCIDR $"10.0.0.0/33"))) [] /\
  firstn 3 (drop 4 (fst (build_plan order order (host2 (repo2 []))
                           (request_of $"/w/app" (apply_options [WithUserConfig $"/u.yaml"])))))
  = [MkdirTemp $"/tmp"; FetchSecrets $"/tmp/keg-1/secrets" [SecretRef $"tok" []]; MkdirAll $"/tmp/keg-1/hooks"].
Proof. vm_compute. by split. Qed.
(** A weak flag of the repository is refused by the launch, which cleans up. *)
Example weak_flag_refused :
  keg_launch order order marshal1 (world1 (repo2 [$"--share-net"]) true) $"/w/app" options1
  = KegFailed (LaunchFailed (BuildArgsFailed (WeakArgs [$"--share-net"]))) [Removed $"/tmp/keg-1"; AuditClosed].
Proof. vm_compute. reflexivity. Qed.
Example exclusive_overlays :
  keg_launch order order marshal1 (world1 (repo2 []) true) $"/w/app" [WithDiskOverlay $"d"; WithEphemeral] = KegFailed OverlaysExclusive [].
Proof. reflexivity. Qed.
End Example_.
