(* ===== verification/Daemon.v ===== *)
(** The background daemon: [internal/daemon/server.go] and [types.go].

    A handler runs in the goroutine of its connection and takes the mutex of
    the server only for the map, so it is cut where the mutex is free: [step]
    runs one such piece, and a run is any interleaving of the pieces of all
    connections and of [Close].  The sandboxes live in a store, of which the
    map and the running handlers hold references.

    The daemon is written against [SandboxOps], what it needs of the library;
    [Facade] implements it.  The JSON codec is a parameter. *)
From S2P Require Import GoStrings GoPath GoNet GoBase64 Frame ConfigTypes Whitelist Justfile Templates Secrets BwrapArgs PlanBuilder Services Launch Facade.
Local Open Scope go_scope.

(** * Wire data *)
Definition ActionCreate : gostring := $"create".
Definition ActionExec : gostring := $"exec".
Definition ActionStatus : gostring := $"status".
Definition ActionList : gostring := $"list".
Definition ActionStop : gostring := $"stop".
Record launch_options := LaunchOptions {
  lo_repo_config : gostring; lo_user_config : gostring; lo_ephemeral : bool; lo_disk_overlay : gostring;
  lo_isolate_caches : bool; lo_isolated_cache_name : gostring; lo_instance_name : gostring; lo_audit_file : gostring;
  lo_command : list gostring }.
Record request := Request {
  rq_action : gostring; rq_token : gostring; rq_repo_root : gostring; rq_options : launch_options;
  rq_sandbox_id : gostring; rq_argv : list gostring; rq_dir : gostring; rq_env : strmap }.
Record sandbox_status := SandboxStatus {
  st_sandbox_id : gostring; st_repo_root : gostring; st_status : gostring; st_pid : Z }.
(** The texts of [Error]. *)
Inductive daemon_err :=
  | NoError
  | Malformed
  | Unauthorized
  | UnknownAction (action : gostring)
  | LimitReached (max : Z)
  | LaunchError (e : keg_err)
  | SandboxNotFound (id : gostring)
  | WaitError (text : gostring).
Record response := Response {
  rs_action : gostring; rs_success : bool; rs_error : daemon_err; rs_sandbox_id : gostring; rs_status : gostring;
  rs_pid : Z; rs_sandboxes : list sandbox_status }.
Record exec_event := ExecEvent { xe_type : gostring; xe_data : gostring; xe_code : Z; xe_message : daemon_err }.
Definition failed_response (action : gostring) (e : daemon_err) (id : gostring) : response :=
  Response action false e id [] 0 [].

(** * Configuration *)
Record config := Config { cfg_listen_addr : gostring; cfg_auth : gostring; cfg_token : gostring; cfg_max_sandboxes : Z }.
Inductive server_err := TokenAuthRequired (addr : gostring) | TokenRequired | CreateSocketDir | ListenUnix | ListenTCP.
(** The operating system while the server is made. *)
Record listen_world := ListenWorld {
  lw_runtime_dir : gostring;                 (* XDG_RUNTIME_DIR *)
  lw_mkdir_all : gostring -> bool; lw_listen_unix : gostring -> bool; lw_listen_tcp : gostring -> bool }.
Definition is_unix (addr : gostring) : bool := has_prefix addr $"unix://".
Definition is_loopback (addr : gostring) : bool := has_prefix addr $"127.0.0.1:" || has_prefix addr $"localhost:".
Definition default_listen_addr (runtime_dir : gostring) : gostring :=
  $"unix://" ++ path_join (path_join (or_else runtime_dir $"/tmp") $"keg") $"api.sock".
(** The configuration with its defaults. *)
Definition with_defaults (w : listen_world) (cfg : config) : config :=
  Config (if is_empty (cfg_listen_addr cfg) then default_listen_addr (lw_runtime_dir w) else cfg_listen_addr cfg)
    (cfg_auth cfg) (cfg_token cfg) (if (cfg_max_sandboxes cfg <=? 0)%Z then 10%Z else cfg_max_sandboxes cfg).
(** The configuration of the server, and the socket that [Close] removes. *)
Definition new_server (w : listen_world) (cfg : config) : result server_err (config * option gostring) :=
  let cfg := with_defaults w cfg in
  let addr := cfg_listen_addr cfg in
  let token := seqb (cfg_auth cfg) $"token" in
  if negb (is_unix addr) && negb (is_loopback addr) && negb token then Err (TokenAuthRequired addr)
  else if token && is_empty (cfg_token cfg) then Err TokenRequired
  else if is_unix addr then
    let path := trim_prefix addr $"unix://" in
    if negb (lw_mkdir_all w (path_dir path)) then Err CreateSocketDir
    else if negb (lw_listen_unix w path) then Err ListenUnix
    else Ok (cfg, Some path)
  else if negb (lw_listen_tcp w addr) then Err ListenTCP
  else Ok (cfg, None).

(** * What the daemon needs of the library *)
Inductive launched_as (S : Type) := Started (s : S) | Refused (e : keg_err) | Panics.
Arguments Started {S}. Arguments Refused {S}. Arguments Panics {S}.
(** [S]: sandboxes; [W]: what the operating system answers to one launch. *)
Class SandboxOps (S W : Type) := {
  sandbox_launch : W -> gostring -> list keg_option -> launched_as S;
  sandbox_close : S -> S;
  sandbox_closed : S -> bool;
  sandbox_pid : S -> Z }.
Class SandboxLaws (S W : Type) `{SandboxOps S W} : Prop := {
  launch_open w root opts s : sandbox_launch w root opts = Started s -> sandbox_closed s = false;
  close_closed (s : S) : sandbox_closed (sandbox_close s) = true;
  close_again (s : S) : sandbox_closed s = true -> sandbox_close s = s }.
#[global] Arguments sandbox_launch {S W _}. #[global] Arguments sandbox_close {S} W {_}.
#[global] Arguments sandbox_closed {S} W {_}. #[global] Arguments sandbox_pid {S} W {_}.

(** * State *)
Record managed := Managed { mg_id : gostring; mg_repo_root : gostring; mg_sb : nat }.
(** A sandbox that was launched, with what it was launched from. *)
Record entry (S : Type) := Entry { en_root : gostring; en_options : list keg_option; en_sb : S }.
Arguments Entry {S}. Arguments en_root {S}. Arguments en_options {S}. Arguments en_sb {S}.
(** Where a handler, or [Close], stands that has given the mutex back. *)
Inductive task :=
  | CreateLaunching (req : request)          (* below the limit, about to launch *)
  | CreateLaunched (req : request) (sb : nat)
  | StopClosing (id : gostring) (sb : nat)
  | ExecLaunching (root : gostring) (argv : list gostring)
  | ExecWaiting (sb : nat)
  | CloseNext (sbs : list nat).
Record server (S : Type) := Server {
  sv_sandboxes : gmap gostring managed; sv_closed : bool; sv_store : list (entry S); sv_tasks : gmap nat task;
  sv_conns : gset nat;                       (* the connections that were accepted *)
  sv_listening : bool;
  sv_dead : bool }.                          (* the process has panicked *)
Arguments Server {S}. Arguments sv_sandboxes {S}. Arguments sv_closed {S}. Arguments sv_store {S}.
Arguments sv_tasks {S}. Arguments sv_conns {S}. Arguments sv_listening {S}. Arguments sv_dead {S}.
Definition fresh_server {S} : server S := Server ∅ false [] ∅ ∅ true false.

Create HintDb daemon.
Section daemon.
Context {S W : Type} `{SandboxOps S W} `{MapRange managed}.
Context (unmarshal : gostring -> option request) (marshal_response : response -> gostring)
  (marshal_event : exec_event -> gostring).
Context (cfg : config).
Definition with_task (c : nat) (t : option task) (d : server S) : server S :=
  Server (sv_sandboxes d) (sv_closed d) (sv_store d) (partial_alter (fun _ => t) c (sv_tasks d)) (sv_conns d)
    (sv_listening d) (sv_dead d).
Definition with_sandboxes (m : gmap gostring managed) (d : server S) : server S :=
  Server m (sv_closed d) (sv_store d) (sv_tasks d) (sv_conns d) (sv_listening d) (sv_dead d).
Definition with_store (l : list (entry S)) (d : server S) : server S :=
  Server (sv_sandboxes d) (sv_closed d) l (sv_tasks d) (sv_conns d) (sv_listening d) (sv_dead d).
Definition with_conns (conns : gset nat) (d : server S) : server S :=
  Server (sv_sandboxes d) (sv_closed d) (sv_store d) (sv_tasks d) conns (sv_listening d) (sv_dead d).
Definition with_closed (d : server S) : server S :=
  Server (sv_sandboxes d) true (sv_store d) (sv_tasks d) (sv_conns d) (sv_listening d) (sv_dead d).
Definition not_listening (d : server S) : server S :=
  Server (sv_sandboxes d) (sv_closed d) (sv_store d) (sv_tasks d) (sv_conns d) false (sv_dead d).
Definition died (d : server S) : server S :=
  Server (sv_sandboxes d) (sv_closed d) (sv_store d) (sv_tasks d) (sv_conns d) (sv_listening d) true.
(** [Close] on a sandbox of the store. *)
Definition close_entry (e : entry S) : entry S := Entry (en_root e) (en_options e) (sandbox_close W (en_sb e)).
Definition close_sandbox (sb : nat) (d : server S) : server S := with_store (alter close_entry sb (sv_store d)) d.
Definition with_entry (e : entry S) (d : server S) : server S := with_store (sv_store d ++ [e]) d.

(** * Replies *)
(** A frame that is too large is not written, and the error is dropped. *)
Definition append_bytes (w b : gostring) : result Empty_set gostring := Ok (w ++ b).
Definition sent (payload : gostring) : gostring :=
  match write_frame append_bytes [] payload with Ok w => w | Err _ => [] end.
Definition send_response (r : response) : gostring := sent (marshal_response r).
Definition send_event (e : exec_event) : gostring := sent (marshal_event e).

(** * Handlers *)
(** What one piece of a handler does: the state and what is written. *)
Abbreviation piece := (server S * gostring)%type.
Definition create_options (o : launch_options) : list keg_option :=
  (if is_empty (lo_repo_config o) then [] else [WithRepoConfig (lo_repo_config o)])
  ++ (if is_empty (lo_user_config o) then [] else [WithUserConfig (lo_user_config o)])
  ++ (if lo_ephemeral o then [WithEphemeral] else [])
  ++ (if is_empty (lo_disk_overlay o) then [] else [WithDiskOverlay (lo_disk_overlay o)])
  ++ (if lo_isolate_caches o then [WithIsolateCaches] else [])
  ++ (if is_empty (lo_isolated_cache_name o) then [] else [WithIsolatedCacheName (lo_isolated_cache_name o)])
  ++ (if is_empty (lo_instance_name o) then [] else [WithName (lo_instance_name o)])
  ++ (if is_empty (lo_audit_file o) then [] else [WithAuditFile (lo_audit_file o)])
  ++ (if 0 <? length (lo_command o) then [WithCommand (lo_command o)] else []).
(** [handleCreate] up to the launch, the launch, and the rest. *)
Definition handle_create (c : nat) (req : request) (d : server S) : piece :=
  if (cfg_max_sandboxes cfg <=? Z.of_nat (size (sv_sandboxes d)))%Z
  then (d, send_response (failed_response ActionCreate (LimitReached (cfg_max_sandboxes cfg)) []))
  else (with_task c (Some (CreateLaunching req)) d, []).
Definition create_launch (c : nat) (req : request) (w : W) (d : server S) : piece :=
  let opts := create_options (rq_options req) in
  match sandbox_launch w (rq_repo_root req) opts with
  | Panics => (died d, [])
  | Refused e => (with_task c None d, send_response (failed_response ActionCreate (LaunchError e) []))
  | Started s =>
      (with_task c (Some (CreateLaunched req (length (sv_store d)))) (with_entry (Entry (rq_repo_root req) opts s) d), [])
  end.
(** [pid_of]: the process of a sandbox of the store. *)
Definition pid_of (d : server S) (sb : nat) : Z :=
  match sv_store d !! sb with Some e => sandbox_pid W (en_sb e) | None => 0 end.
Definition create_insert (c : nat) (req : request) (sb : nat) (id : gostring) (d : server S) : piece :=
  (with_task c None (with_sandboxes (<[id := Managed id (rq_repo_root req) sb]> (sv_sandboxes d)) d),
   send_response (Response ActionCreate true NoError id $"running" (pid_of d sb) [])).
Definition handle_status (req : request) (d : server S) : piece :=
  match sv_sandboxes d !! rq_sandbox_id req with
  | None => (d, send_response (failed_response ActionStatus (SandboxNotFound (rq_sandbox_id req)) (rq_sandbox_id req)))
  | Some m => (d, send_response (Response ActionStatus true NoError (mg_id m) $"running" (pid_of d (mg_sb m)) []))
  end.
Definition status_of (d : server S) (m : managed) : sandbox_status :=
  SandboxStatus (mg_id m) (mg_repo_root m) $"running" (pid_of d (mg_sb m)).
Definition handle_list (d : server S) : piece :=
  (d, send_response (Response ActionList true NoError [] [] 0 (map (fun kv => status_of d (snd kv)) (map_range (sv_sandboxes d))))).
(** [handleStop] up to the close of the sandbox, and the rest. *)
Definition handle_stop (c : nat) (req : request) (d : server S) : piece :=
  match sv_sandboxes d !! rq_sandbox_id req with
  | None => (d, send_response (failed_response ActionStop (SandboxNotFound (rq_sandbox_id req)) (rq_sandbox_id req)))
  | Some m =>
      (with_task c (Some (StopClosing (mg_id m) (mg_sb m)))
         (with_sandboxes (delete (rq_sandbox_id req) (sv_sandboxes d)) d), [])
  end.
Definition stop_close (c : nat) (id : gostring) (sb : nat) (d : server S) : piece :=
  (with_task c None (close_sandbox sb d), send_response (Response ActionStop true NoError id $"stopped" 0 [])).
(** [handleExec] up to the launch, the launch, and the rest once the process
    has ended. *)
Definition handle_exec (c : nat) (req : request) (d : server S) : piece :=
  match sv_sandboxes d !! rq_sandbox_id req with
  | None => (d, send_event (ExecEvent $"error" [] 0 (SandboxNotFound (rq_sandbox_id req))))
  | Some m => (with_task c (Some (ExecLaunching (mg_repo_root m) (rq_argv req))) d, [])
  end.
(** The streams are handed over by reference. *)
Definition exec_options (argv : list gostring) : list keg_option := [WithEphemeral; WithCommand argv].
Definition exec_launch (c : nat) (root : gostring) (argv : list gostring) (w : W) (d : server S) : piece :=
  match sandbox_launch w root (exec_options argv) with
  | Panics => (died d, [])
  | Refused e => (with_task c None d, send_event (ExecEvent $"error" [] 0 (LaunchError e)))
  | Started s => (with_task c (Some (ExecWaiting (length (sv_store d)))) (with_entry (Entry root (exec_options argv) s) d), [])
  end.
(** How the process ended: its output and what [Wait] returned. *)
Record ended := Ended { xd_stdout : gostring; xd_stderr : gostring; xd_code : Z; xd_error : option gostring }.
Definition exec_events (x : ended) : list exec_event :=
  (if 0 <? length (xd_stdout x) then [ExecEvent $"stdout" (b64_encode (xd_stdout x)) 0 NoError] else [])
  ++ (if 0 <? length (xd_stderr x) then [ExecEvent $"stderr" (b64_encode (xd_stderr x)) 0 NoError] else [])
  ++ (match xd_error x with Some text => [ExecEvent $"error" [] 0 (WaitError text)] | None => [] end)
  ++ [ExecEvent $"exit" [] (xd_code x) NoError].
Definition exec_finish (c : nat) (sb : nat) (x : ended) (d : server S) : piece :=
  (with_task c None (close_sandbox sb d), concat (map send_event (exec_events x))).

(** * Connections *)
(** [handleConn] on one payload. *)
Definition handle_payload (c : nat) (payload : gostring) (d : server S) : piece :=
  match unmarshal payload with
  | None => (d, send_response (failed_response $"unknown" Malformed []))
  | Some req =>
      let action := rq_action req in
      if seqb (cfg_auth cfg) $"token" && negb (seqb (rq_token req) (cfg_token cfg))
      then (d, send_response (failed_response action Unauthorized []))
      else if seqb action ActionCreate then handle_create c req d
      else if seqb action ActionStatus then handle_status req d
      else if seqb action ActionList then handle_list d
      else if seqb action ActionStop then handle_stop c req d
      else if seqb action ActionExec then handle_exec c req d
      else (d, send_response (failed_response action (UnknownAction action) []))
  end.
(** [Close]: what it does under the mutex, the close of one sandbox after the
    other, in the order of the range over the map, and of the listener. *)
Definition close_server (c : nat) (d : server S) : server S :=
  if sv_closed d then d
  else with_task c (Some (CloseNext (map (fun kv => mg_sb (snd kv)) (map_range (sv_sandboxes d)))))
         (with_sandboxes ∅ (with_closed d)).
Definition close_next (c : nat) (sbs : list nat) (d : server S) : server S :=
  match sbs with
  | [] => with_task c None (not_listening d)
  | sb :: sbs => with_task c (Some (CloseNext sbs)) (close_sandbox sb d)
  end.

(** * Runs *)
(** What happens next on the goroutine [c]; the operating system and the
    random generator answer through the event. *)
Inductive event :=
  | Accepts (c : nat)
  | HangsUp (c : nat)                        (* the next frame cannot be read *)
  | Payload (c : nat) (payload : gostring)
  | LaunchEnds (c : nat) (w : W)
  | Inserts (c : nat) (id : gostring)
  | Closes (c : nat)
  | ProcessEnds (c : nat) (x : ended)
  | ServerCloses (c : nat).
(** No handler of [c] is running. *)
Definition idle (c : nat) (d : server S) : bool := negb (is_some (sv_tasks d !! c)).
Definition step (d : server S) (e : event) : option piece :=
  if sv_dead d then None
  else match e with
  | Accepts c =>
      if sv_listening d && idle c d && negb (bool_decide (c ∈ sv_conns d)) then Some (with_conns ({[c]} ∪ sv_conns d) d, []) else None
  | HangsUp c => if idle c d && bool_decide (c ∈ sv_conns d) then Some (with_conns (sv_conns d ∖ {[c]}) d, []) else None
  | Payload c payload => if idle c d && bool_decide (c ∈ sv_conns d) then Some (handle_payload c payload d) else None
  | LaunchEnds c w =>
      match sv_tasks d !! c with
      | Some (CreateLaunching req) => Some (create_launch c req w d)
      | Some (ExecLaunching root argv) => Some (exec_launch c root argv w d)
      | _ => None
      end
  | Inserts c id =>
      match sv_tasks d !! c with Some (CreateLaunched req sb) => Some (create_insert c req sb id d) | _ => None end
  | Closes c =>
      match sv_tasks d !! c with
      | Some (StopClosing id sb) => Some (stop_close c id sb d)
      | Some (CloseNext sbs) => Some (close_next c sbs d, [])
      | _ => None
      end
  | ProcessEnds c x => match sv_tasks d !! c with Some (ExecWaiting sb) => Some (exec_finish c sb x d) | _ => None end
  | ServerCloses c => if idle c d && negb (bool_decide (c ∈ sv_conns d)) then Some (close_server c d, []) else None
  end.
(** A run, with what every event had written. *)
Fixpoint run (d : server S) (evs : list event) : option (server S * list gostring) :=
  match evs with
  | [] => Some (d, [])
  | e :: evs => '(d, out) ← step d e; '(d, outs) ← run d evs; Some (d, out :: outs)
  end.
End daemon.

(** * References to sandboxes *)
(** What the running handlers say, collected over all of them. *)
Definition over_tasks {A} (f : task -> list A) (ts : gmap nat task) : list A := concat (map (fun kv => f (snd kv)) (map_to_list ts)).
Definition over_task {A} (f : task -> list A) (t : option task) : list A := match t with Some t => f t | None => [] end.
Lemma over_tasks_alter {A} (f : task -> list A) ts c t :
  over_task f (ts !! c) ++ over_tasks f (partial_alter (fun _ => t) c ts) ≡ₚ over_task f t ++ over_tasks f ts.
Proof.
  assert (Hd : over_tasks f ts ≡ₚ over_task f (ts !! c) ++ over_tasks f (delete c ts)).
  { unfold over_tasks. destruct (ts !! c) as [t0|] eqn:Hc; cbn [over_task app]; [|by rewrite delete_id].
    rewrite <- (map_to_list_delete ts c t0 Hc). done. }
  assert (Ha : over_tasks f (partial_alter (fun _ => t) c ts) ≡ₚ over_task f t ++ over_tasks f (delete c ts)).
  { destruct t as [t|]; cbn [over_task app]; [|done].
    change (partial_alter (fun _ => Some t) c ts) with (<[c := t]> ts). unfold over_tasks.
    rewrite <- insert_delete_eq, map_to_list_insert by apply lookup_delete_eq. done. }
  rewrite Hd, Ha. by rewrite !app_assoc, (Permutation_app_comm (over_task f t)).
Qed.
Lemma over_tasks_elem {A} (f : task -> list A) ts x :
  x ∈ over_tasks f ts <-> exists c t, ts !! c = Some t /\ x ∈ f t.
Proof.
  unfold over_tasks. rewrite list_elem_of_In, in_concat. setoid_rewrite in_map_iff. split.
  - intros (l & ([c t] & <- & Hin) & Hx). exists c, t. rewrite <- elem_of_map_to_list, !list_elem_of_In. done.
  - intros (c & t & Hc & Hx). exists (f t). rewrite <- list_elem_of_In. split; [|done]. exists (c, t). split; [done|].
    by rewrite <- list_elem_of_In, elem_of_map_to_list.
Qed.
Definition held (t : task) : list nat :=
  match t with
  | CreateLaunched _ sb | StopClosing _ sb | ExecWaiting sb => [sb]
  | CloseNext sbs => sbs
  | CreateLaunching _ | ExecLaunching _ _ => []
  end.
Definition creates (t : task) : list request :=
  match t with CreateLaunching req | CreateLaunched req _ => [req] | _ => [] end.
Definition mapped (m : gmap gostring managed) : list nat := map (fun kv => mg_sb (snd kv)) (map_to_list m).
Lemma mapped_elem m sb : sb ∈ mapped m <-> exists id mg, m !! id = Some mg /\ mg_sb mg = sb.
Proof.
  unfold mapped. rewrite list_elem_of_fmap. split.
  - intros ([id mg] & -> & Hin%elem_of_map_to_list). by exists id, mg.
  - intros (id & mg & Hm & <-). exists (id, mg). by rewrite elem_of_map_to_list.
Qed.
Lemma mapped_insert m id mg : m !! id = None -> mapped (<[id := mg]> m) ≡ₚ mg_sb mg :: mapped m.
Proof. intros Hm. unfold mapped. by rewrite map_to_list_insert. Qed.
Lemma mapped_delete m id mg : m !! id = Some mg -> mapped m ≡ₚ mg_sb mg :: mapped (delete id m).
Proof. intros Hm. unfold mapped. by rewrite <- (map_to_list_delete m id mg Hm). Qed.

Section invariants.
Context {S W : Type} `{SandboxLaws S W} `{MapRangeLaws managed}.
Context (unmarshal : gostring -> option request) (marshal_response : response -> gostring)
  (marshal_event : exec_event -> gostring).
Context (cfg : config).
Abbreviation step := (step unmarshal marshal_response marshal_event cfg).
Abbreviation handle_payload := (handle_payload unmarshal marshal_response marshal_event cfg).
(** The references of the map and of the handlers. *)
Definition refs (d : server S) : list nat := mapped (sv_sandboxes d) ++ over_tasks held (sv_tasks d).
Lemma refs_task d c t : over_task held (sv_tasks d !! c) ++ refs (with_task c t d) ≡ₚ over_task held t ++ refs d.
Proof.
  unfold refs. cbn. pose proof (over_tasks_alter held (sv_tasks d) c t) as Hp.
  rewrite !app_assoc, (Permutation_app_comm (over_task held (sv_tasks d !! c))), <- app_assoc, Hp.
  by rewrite !app_assoc, (Permutation_app_comm (mapped _)).
Qed.
Lemma refs_task_idle d c t : sv_tasks d !! c = None -> refs (with_task c t d) ≡ₚ over_task held t ++ refs d.
Proof. intros Hc. pose proof (refs_task d c t) as Hp. by rewrite Hc in Hp. Qed.
(** Every reference is to one sandbox of its own, and the sandboxes that are
    open are those that are referenced. *)
Record custody (d : server S) : Prop := {
  cu_nodup : NoDup (refs d);
  cu_valid : Forall (fun sb => sb < length (sv_store d)) (refs d);
  cu_open : forall sb e, sv_store d !! sb = Some e -> (sandbox_closed W (en_sb e) = false <-> sb ∈ refs d) }.
Lemma custody_perm d d' : refs d' ≡ₚ refs d -> sv_store d' = sv_store d -> custody d -> custody d'.
Proof.
  intros Hr Hs [Hn Hv Ho]. split; [by rewrite Hr | by rewrite Hr, Hs |]. intros sb e Hsb. rewrite Hr. apply Ho. by rewrite <- Hs.
Qed.
Lemma custody_new d d' e :
  refs d' ≡ₚ length (sv_store d) :: refs d -> sv_store d' = sv_store d ++ [e] -> sandbox_closed W (en_sb e) = false ->
  custody d -> custody d'.
Proof.
  intros Hr Hs He [Hn Hv Ho]. rewrite Forall_forall in Hv.
  assert (Hnew : length (sv_store d) ∉ refs d) by (intros Hin; apply Hv in Hin; lia). split.
  - rewrite Hr. by constructor.
  - rewrite Hr, Hs, length_app. cbn. constructor; [lia|]. rewrite Forall_forall. intros sb Hsb%Hv. lia.
  - intros sb e' Hsb. rewrite Hr, elem_of_cons. rewrite Hs in Hsb. apply lookup_app_Some in Hsb as [Hsb|[Hl Hsb]].
    + pose proof (lookup_lt_Some _ _ _ Hsb). rewrite (Ho sb e' Hsb). split; [tauto|]. intros [->|]; [lia | done].
    + apply list_lookup_singleton_Some in Hsb as [Hsb <-]. split; [intros _; left; lia | done].
Qed.
Lemma custody_close d d' sb :
  refs d ≡ₚ sb :: refs d' -> sv_store d' = alter (close_entry (W := W)) sb (sv_store d) -> custody d -> custody d'.
Proof.
  intros Hr Hs [Hn Hv Ho]. rewrite Hr in Hn, Hv. apply NoDup_cons in Hn as [Hsb Hn]. inversion Hv as [|? ? _ Hv']; subst. split.
  - done.
  - by rewrite Hs, length_alter.
  - intros sb' e. rewrite Hs, list_lookup_alter. case_decide as Hsb'.
    + subst sb'. intros (e0 & _ & ->)%fmap_Some. cbn. by rewrite close_closed.
    + intros He. rewrite (Ho sb' e He), Hr, elem_of_cons. naive_solver.
Qed.
Lemma custody_fresh : custody fresh_server.
Proof. split; [constructor | constructor | done]. Qed.

(** What a step does to the sandboxes: it hands references on, opens one or
    closes one. *)
Inductive change (d d' : server S) : Prop :=
  | ch_passes : refs d' ≡ₚ refs d -> sv_store d' = sv_store d -> change d d'
  | ch_opens e : refs d' ≡ₚ length (sv_store d) :: refs d -> sv_store d' = sv_store d ++ [e] ->
      sandbox_closed W (en_sb e) = false -> change d d'
  | ch_closes sb : refs d ≡ₚ sb :: refs d' -> sv_store d' = alter (close_entry (W := W)) sb (sv_store d) -> change d d'.
Lemma custody_change d d' : change d d' -> custody d -> custody d'.
Proof. intros [? ?|e ? ? ?|sb ? ?]; [by apply custody_perm | by eapply custody_new | by eapply custody_close]. Qed.
(** The generated identifier is not in use. *)
Definition fresh_id (d : server S) (e : event (W := W)) : Prop :=
  match e with Inserts _ id => sv_sandboxes d !! id = None | _ => True end.
Lemma with_sandboxes_refs m d : refs (with_sandboxes m d) = mapped m ++ over_tasks held (sv_tasks d).
Proof. done. Qed.
Lemma change_refl d : change d d.
Proof. by apply ch_passes. Qed.
#[local] Hint Resolve change_refl : core.
Lemma payload_change c p d : sv_tasks d !! c = None -> change d (fst (handle_payload c p d)).
Proof.
  intros Hc. unfold Daemon.handle_payload. destruct (unmarshal p) as [req|]; [|done].
  destruct (_ && _); [done|]. destruct (seqb _ _).
  { unfold handle_create. destruct (_ <=? _)%Z; [done|]. apply ch_passes; [|done]. cbn [fst]. by rewrite refs_task_idle. }
  destruct (seqb _ _); [unfold handle_status; by destruct (sv_sandboxes d !! _)|].
  destruct (seqb _ _); [done|]. destruct (seqb _ _).
  { unfold handle_stop. destruct (sv_sandboxes d !! rq_sandbox_id req) as [m|] eqn:Hm; [|done]. apply ch_passes; [|done].
    cbn [fst]. rewrite refs_task_idle by done. rewrite with_sandboxes_refs. unfold refs. cbn [over_task held app].
    by rewrite (mapped_delete (sv_sandboxes d) _ _ Hm). }
  destruct (seqb _ _); [|done]. unfold handle_exec. destruct (sv_sandboxes d !! _); [|done].
  apply ch_passes; [|done]. cbn [fst]. by rewrite refs_task_idle.
Qed.
Lemma range_mapped m : map (fun kv => mg_sb (snd kv)) (map_range m) ≡ₚ mapped m.
Proof. unfold mapped. by rewrite map_range_perm. Qed.
Lemma opens_change d c t e :
  over_task held (sv_tasks d !! c) = [] -> held t = [length (sv_store d)] -> sandbox_closed W (en_sb e) = false ->
  change d (with_task c (Some t) (with_entry e d)).
Proof.
  intros Hc Ht He. apply (ch_opens _ _ e); [|done..]. pose proof (refs_task (with_entry e d) c (Some t)) as Hp.
  cbn [sv_tasks with_entry with_store] in Hp. rewrite Hc in Hp. cbn [over_task] in Hp. by rewrite Ht in Hp.
Qed.
Lemma drops_change d c : over_task held (sv_tasks d !! c) = [] -> change d (with_task c None d).
Proof. intros Hc. apply ch_passes; [|done]. pose proof (refs_task d c None) as Hp. by rewrite Hc in Hp. Qed.
Lemma closes_change d c sb :
  over_task held (sv_tasks d !! c) = [sb] -> change d (with_task c None (close_sandbox (W := W) sb d)).
Proof. intros Hc. apply (ch_closes _ _ sb); [|done]. pose proof (refs_task d c None) as Hp. rewrite Hc in Hp. by rewrite <- Hp. Qed.
Lemma next_change d c sbs : sv_tasks d !! c = Some (CloseNext sbs) -> change d (close_next (W := W) c sbs d).
Proof.
  intros Hc. unfold close_next. destruct sbs as [|sb sbs].
  - apply ch_passes; [|done]. pose proof (refs_task (not_listening d) c None) as Hp. cbn in Hp. by rewrite Hc in Hp.
  - apply (ch_closes _ _ sb); [|done]. pose proof (refs_task d c (Some (CloseNext sbs))) as Hp. rewrite Hc in Hp.
    cbn [over_task held] in Hp. change (refs (with_task c (Some (CloseNext sbs)) (close_sandbox sb d)))
      with (refs (with_task c (Some (CloseNext sbs)) d)).
    change ((sb :: sbs) ++ ?l) with ([sb] ++ sbs ++ l) in Hp. rewrite (Permutation_app_swap_app [sb] sbs) in Hp.
    by apply (inj (app sbs)) in Hp.
Qed.
Lemma step_change d e d' out : step d e = Some (d', out) -> fresh_id d e -> change d d'.
Proof.
  unfold Daemon.step. destruct (sv_dead d); [done|].
  assert (Hidle : forall c, idle c d = true -> sv_tasks d !! c = None) by (intros c; unfold idle; by destruct (_ !! _)).
  destruct e as [c|c|c p|c w|c id|c|c x|c]; cbn [fresh_id].
  - destruct (_ && _); [|done]. intros [= <- <-] _. by apply ch_passes.
  - destruct (_ && _); [|done]. intros [= <- <-] _. by apply ch_passes.
  - destruct (idle c d) eqn:Hi; [|done]. destruct (bool_decide _); [|done]. cbn [andb]. intros Hs _.
    pose proof (payload_change c p d (Hidle c Hi)) as Hch. injection Hs as Hs. by rewrite Hs in Hch.
  - destruct (sv_tasks d !! c) as [[req|req sb|i sb|root argv|sb|sbs]|] eqn:Hc; try done; intros Hs _; injection Hs as Hs; apply (f_equal fst) in Hs.
    + unfold create_launch in Hs. destruct (sandbox_launch _ _ _) as [s|e|] eqn:Hl; cbn in Hs; subst d'.
      * apply opens_change; [by rewrite Hc | done | by apply launch_open in Hl].
      * apply drops_change. by rewrite Hc.
      * by apply ch_passes.
    + unfold exec_launch in Hs. destruct (sandbox_launch _ _ _) as [s|e|] eqn:Hl; cbn in Hs; subst d'.
      * apply opens_change; [by rewrite Hc | done | by apply launch_open in Hl].
      * apply drops_change. by rewrite Hc.
      * by apply ch_passes.
  - destruct (sv_tasks d !! c) as [[]|] eqn:Hc; try done. intros [= <- <-] Hf. apply ch_passes; [|done].
    pose proof (refs_task (with_sandboxes (<[id := Managed id (rq_repo_root req) sb]> (sv_sandboxes d)) d) c None) as Hp.
    cbn [sv_tasks with_sandboxes] in Hp. rewrite Hc in Hp. cbn [over_task held app] in Hp.
    rewrite with_sandboxes_refs, mapped_insert in Hp by done. by apply (inj (cons sb)) in Hp.
  - destruct (sv_tasks d !! c) as [[]|] eqn:Hc; try done; intros [= <- <-] _.
    + apply closes_change. by rewrite Hc.
    + by apply next_change.
  - destruct (sv_tasks d !! c) as [[]|] eqn:Hc; try done. intros [= <- <-] _. apply closes_change. by rewrite Hc.
  - destruct (idle c d) eqn:Hi; [|done]. destruct (negb _); [|done]. cbn [andb]. intros [= <- <-] _. unfold close_server.
    destruct (sv_closed d); [done|]. apply ch_passes; [|done]. rewrite refs_task_idle by (apply Hidle; done).
    rewrite with_sandboxes_refs. cbn [over_task held sv_tasks with_closed]. by rewrite range_mapped.
Qed.

(** * Histories *)
(** The events that happened since the server was made, each under the
    condition [P] on it. *)
Inductive history (P : server S -> event (W := W) -> Prop) : list event -> server S -> Prop :=
  | history_start : history P [] fresh_server
  | history_step evs d e d' out :
      history P evs d -> P d e -> step d e = Some (d', out) -> history P (evs ++ [e]) d'.
(** A run all of whose events satisfy [P]. *)
Fixpoint run_within (P : server S -> event (W := W) -> Prop) (d : server S) (evs : list event) : Prop :=
  match evs with
  | [] => True
  | e :: evs => P d e /\ match step d e with Some (d, _) => run_within P d evs | None => True end
  end.
Lemma history_run P evs0 d evs d' outs :
  history P evs0 d -> run_within P d evs -> run unmarshal marshal_response marshal_event cfg d evs = Some (d', outs) ->
  history P (evs0 ++ evs) d'.
Proof.
  revert evs0 d outs. induction evs as [|e evs IH]; intros evs0 d outs Hd; cbn.
  { intros _ [= <- _]. by rewrite app_nil_r. }
  intros [HP Hw]. destruct (step d e) as [[d1 out]|] eqn:Hs; [|done]. cbn. destruct (run _ _ _ _ d1 evs) as [[d2 outs2]|] eqn:Hr; [|done].
  intros [= <- _]. change (evs0 ++ e :: evs) with (evs0 ++ [e] ++ evs). rewrite app_assoc.
  eapply IH; [by eapply history_step | done | done].
Qed.
Lemma history_custody evs d : history fresh_id evs d -> custody d.
Proof. induction 1; [apply custody_fresh|]. eapply custody_change; [|done]. by eapply step_change. Qed.

(** ** Closed sandboxes stay closed *)
Definition is_closed (d : server S) (sb : nat) : Prop :=
  exists e, sv_store d !! sb = Some e /\ sandbox_closed W (en_sb e) = true.
Lemma step_store d e d' out : step d e = Some (d', out) -> sv_store d' = sv_store d \/ change d d'.
Proof.
  intros Hs. destruct e; try (right; by apply step_change in Hs). left. unfold Daemon.step in Hs.
  destruct (sv_dead d); [done|]. destruct (_ !! _) as [[]|]; try done. by injection Hs as <- <-.
Qed.
Lemma step_length d e d' out : step d e = Some (d', out) -> length (sv_store d) <= length (sv_store d').
Proof. intros [->|[_ ->|e1 _ -> _|sb _ ->]]%step_store; rewrite ?length_app, ?length_alter; lia. Qed.
Lemma alter_closed l sb sb' :
  (exists e, l !! sb = Some e /\ sandbox_closed W (en_sb e) = true) \/ sb = sb' /\ sb < length l ->
  exists e, alter (close_entry (S := S) (W := W)) sb' l !! sb = Some e /\ sandbox_closed W (en_sb e) = true.
Proof.
  rewrite list_lookup_alter. intros Hx. case_decide as Heq; [subst|destruct Hx as [|[-> _]]; done].
  assert (exists e, l !! sb = Some e) as [e He] by (destruct Hx as [(e & ? & _)|[_ Hl%lookup_lt_is_Some_2]]; eauto).
  rewrite He. exists (close_entry (W := W) e). split; [done|]. cbn. apply close_closed.
Qed.
Lemma step_closed d e d' out sb : step d e = Some (d', out) -> is_closed d sb -> is_closed d' sb.
Proof.
  unfold is_closed. intros [->|[_ ->|e1 _ -> _|sb' _ ->]]%step_store; [done..| |by intros Hx; apply alter_closed; left].
  intros (e0 & He0 & Hcl). exists e0. split; [by apply lookup_app_l_Some | done].
Qed.
(** ** The list of [Close] *)
Lemma with_task_other c c' t (d : server S) : c <> c' -> sv_tasks (with_task c t d) !! c' = sv_tasks d !! c'.
Proof. intros Hc. cbn. by apply lookup_partial_alter_ne. Qed.
Lemma with_task_same c t (d : server S) : sv_tasks (with_task c t d) !! c = t.
Proof. cbn. apply lookup_partial_alter_eq. Qed.
(** A step acts on one goroutine; it only leaves the loop of [Close] through
    [close_next], and once the server is closed it does not enter it. *)
Record frame_rule (d d' : server S) (c : nat) : Prop := {
  fr_closed : sv_closed d = true -> sv_closed d' = true;
  fr_deaf : sv_listening d = false -> sv_listening d' = false;
  fr_task : sv_tasks d' !! c = sv_tasks d !! c \/
    (exists l, sv_tasks d !! c = Some (CloseNext l) /\ d' = close_next (W := W) c l d) \/
    ((forall l, sv_tasks d !! c <> Some (CloseNext l)) /\
     (sv_closed d = true -> forall l, sv_tasks d' !! c <> Some (CloseNext l))) }.
Lemma frame_same d d' c :
  sv_closed d' = sv_closed d -> sv_listening d' = sv_listening d -> sv_tasks d' !! c = sv_tasks d !! c -> frame_rule d d' c.
Proof. intros Hc Hl Ht. split; [by rewrite Hc | by rewrite Hl | by left]. Qed.
Lemma frame_task d d0 c c' t :
  sv_closed d0 = sv_closed d -> sv_listening d0 = sv_listening d -> sv_tasks d0 = sv_tasks d ->
  (forall l, sv_tasks d !! c' <> Some (CloseNext l)) -> (forall l, t <> Some (CloseNext l)) ->
  frame_rule d (with_task c' t d0) c.
Proof.
  intros Hc Hl Ht Hd Hn. split; cbn; [by rewrite Hc | by rewrite Hl|]. rewrite Ht. destruct (decide (c' = c)) as [->|Hne].
  - right. right. split; [done|]. intros _. by rewrite lookup_partial_alter_eq.
  - left. by apply lookup_partial_alter_ne.
Qed.
Lemma payload_frame c c' p d : sv_tasks d !! c' = None -> frame_rule d (fst (handle_payload c' p d)) c.
Proof.
  intros Hc. assert (Hno : forall l, sv_tasks d !! c' <> Some (CloseNext l)) by (by rewrite Hc).
  unfold Daemon.handle_payload. destruct (unmarshal p) as [req|]; [|by apply frame_same].
  destruct (_ && _); [by apply frame_same|]. destruct (seqb _ _).
  { unfold handle_create. destruct (_ <=? _)%Z; [by apply frame_same | by apply frame_task]. }
  destruct (seqb _ _); [unfold handle_status; destruct (sv_sandboxes d !! _); by apply frame_same|].
  destruct (seqb _ _); [by apply frame_same|]. destruct (seqb _ _).
  { unfold handle_stop. destruct (sv_sandboxes d !! _); [by apply frame_task | by apply frame_same]. }
  destruct (seqb _ _); [|by apply frame_same]. unfold handle_exec.
  destruct (sv_sandboxes d !! _); [by apply frame_task | by apply frame_same].
Qed.
Lemma step_frame d e d' out c : step d e = Some (d', out) -> frame_rule d d' c.
Proof.
  unfold Daemon.step. destruct (sv_dead d); [done|].
  assert (Hidle : forall c, idle c d = true -> sv_tasks d !! c = None) by (intros c1; unfold idle; by destruct (_ !! _)).
  destruct e as [c'|c'|c' p|c' w|c' id|c'|c' x|c'].
  - destruct (_ && _); [|done]. intros [= <- <-]. by apply frame_same.
  - destruct (_ && _); [|done]. intros [= <- <-]. by apply frame_same.
  - destruct (idle c' d) eqn:Hi; [|done]. destruct (bool_decide _); [|done]. cbn [andb]. intros Hs.
    pose proof (payload_frame c c' p d (Hidle c' Hi)) as Hf. injection Hs as Hs. by rewrite Hs in Hf.
  - destruct (sv_tasks d !! c') as [[]|] eqn:Hc; try done; intros Hs; injection Hs as Hs; apply (f_equal fst) in Hs;
      unfold create_launch, exec_launch in Hs; destruct (sandbox_launch _ _ _); cbn in Hs; subst d';
      try (by apply frame_same); by apply frame_task; rewrite ?Hc.
  - destruct (sv_tasks d !! c') as [[]|] eqn:Hc; try done. intros [= <- <-]. by apply frame_task; rewrite ?Hc.
  - destruct (sv_tasks d !! c') as [[]|] eqn:Hc; try done; intros [= <- <-].
    + by apply frame_task; rewrite ?Hc.
    + destruct (decide (c' = c)) as [->|Hne].
      * split; [by destruct sbs..|]. right. left. by exists sbs.
      * split; [by destruct sbs..|]. left. destruct sbs; by apply lookup_partial_alter_ne.
  - destruct (sv_tasks d !! c') as [[]|] eqn:Hc; try done. intros [= <- <-]. by apply frame_task; rewrite ?Hc.
  - destruct (idle c' d) eqn:Hi; [|done]. destruct (negb _); [|done]. cbn [andb]. intros [= <- <-]. unfold close_server.
    destruct (sv_closed d) eqn:Hcl; [by apply frame_same|]. split; cbn; [by rewrite Hcl.. | done |].
    destruct (decide (c' = c)) as [->|Hne].
    + right. right. split; [by rewrite Hidle | by rewrite Hcl].
    + left. by apply lookup_partial_alter_ne.
Qed.
(** [sbs] are those that the loop on [c] has to close. *)
Definition closing (c : nat) (sbs : list nat) (d : server S) : Prop :=
  sv_closed d = true /\ Forall (fun sb => sb < length (sv_store d)) sbs /\
  ((exists l, sv_tasks d !! c = Some (CloseNext l) /\ forall sb, sb ∈ sbs -> is_closed d sb \/ sb ∈ l) \/
   ((forall l, sv_tasks d !! c <> Some (CloseNext l)) /\ sv_listening d = false /\ forall sb, sb ∈ sbs -> is_closed d sb)).
Lemma closing_step c sbs d e d' out : step d e = Some (d', out) -> closing c sbs d -> closing c sbs d'.
Proof.
  intros Hs (Hc & Hv & Hx). pose proof (step_frame _ _ _ _ c Hs) as [Hcl Hdeaf Ht]. split; [by apply Hcl|]. split.
  { eapply Forall_impl; [done|]. cbn. intros sb. pose proof (step_length _ _ _ _ Hs). lia. }
  destruct Ht as [Ht|[(l & Hl & ->)|[Hno Hno']]].
  - rewrite !Ht. destruct Hx as [(l & Hl & Hin)|(Hl & Hli & Hin)]; [left; exists l | right]; split_and!; auto.
    + intros sb Hsb. destruct (Hin sb Hsb); [left; by eapply step_closed | by right].
    + intros sb Hsb. by eapply step_closed; [|apply Hin].
  - destruct Hx as [(l' & Hl' & Hin)|(Hl' & _)]; [|by destruct (Hl' l)]. rewrite Hl in Hl'. injection Hl' as <-.
    destruct l as [|sb0 l]; cbn [close_next] in *.
    + right. rewrite with_task_same. split_and!; [done..|]. intros sb Hsb. destruct (Hin sb Hsb) as [|Hn%not_elem_of_nil]; done.
    + left. exists l. rewrite with_task_same. split; [done|]. intros sb Hsb. rewrite Forall_forall in Hv.
      destruct (Hin sb Hsb) as [Hcs|[->|Hl']%elem_of_cons]; [| |by right]; left; apply alter_closed; [by left | right; auto].
  - destruct Hx as [(l & Hl & _)|(Hl & Hli & Hin)]; [by destruct (Hno l)|]. right. split_and!; auto.
    intros sb Hsb. by eapply step_closed; [|apply Hin].
Qed.
Lemma closing_run c sbs evs d d' outs :
  run unmarshal marshal_response marshal_event cfg d evs = Some (d', outs) -> closing c sbs d -> closing c sbs d'.
Proof.
  revert d outs. induction evs as [|e evs IH]; intros d outs; cbn; [by intros [= <- _]|].
  destruct (step d e) as [[d1 out]|] eqn:Hs; [|done]. cbn. destruct (run _ _ _ _ d1 evs) as [[d2 outs2]|] eqn:Hr; [|done].
  intros [= <- _] Hcl. eapply IH; [done|]. by eapply closing_step.
Qed.
Lemma closing_start c d :
  custody d -> sv_closed d = false -> closing c (mapped (sv_sandboxes d)) (close_server c d).
Proof.
  intros [_ Hv _] Hc. unfold close_server. rewrite Hc. split; [done|]. split.
  { unfold refs in Hv. apply Forall_app in Hv as [Hv _]. exact Hv. }
  left. eexists. rewrite with_task_same. split; [reflexivity|]. intros sb Hsb. right. by rewrite range_mapped.
Qed.
Lemma step_close_next c l d :
  sv_dead d = false -> sv_tasks d !! c = Some (CloseNext l) -> step d (Closes c) = Some (close_next (W := W) c l d, []).
Proof. intros Hd Hc. unfold Daemon.step. by rewrite Hd, Hc. Qed.
Lemma close_loop_runs c l d :
  sv_dead d = false -> sv_tasks d !! c = Some (CloseNext l) ->
  exists d' outs, run unmarshal marshal_response marshal_event cfg d (Closes c :: replicate (length l) (Closes c)) = Some (d', outs) /\
    sv_tasks d' !! c = None.
Proof.
  revert d. induction l as [|sb l IH]; intros d Hd Hc; cbn [length replicate run]; rewrite step_close_next with (1 := Hd) (2 := Hc);
    cbn [mbind option_bind close_next].
  - eexists _, _. split; [reflexivity|]. apply with_task_same.
  - destruct (IH (with_task c (Some (CloseNext l)) (close_sandbox (W := W) sb d))) as (d' & outs & Hr & Ht); [done|apply with_task_same|].
    cbn [run] in Hr. rewrite Hr. cbn. by eexists _, _.
Qed.

(** ** How many sandboxes there are *)
Definition creating (d : server S) : nat := length (over_tasks creates (sv_tasks d)).
Lemma creating_task d c t :
  length (over_task creates (sv_tasks d !! c)) + creating (with_task c t d) = length (over_task creates t) + creating d.
Proof. unfold creating. rewrite <- !length_app. by rewrite <- (over_tasks_alter creates (sv_tasks d) c t). Qed.
(** A step does not make them more, or starts a create below the limit. *)
Definition bounded (d d' : server S) : Prop :=
  size (sv_sandboxes d') + creating d' <= size (sv_sandboxes d) + creating d \/
  (sv_sandboxes d' = sv_sandboxes d /\ (Z.of_nat (size (sv_sandboxes d)) < cfg_max_sandboxes cfg)%Z).
Lemma bounded_task d d0 c t :
  sv_tasks d0 = sv_tasks d ->
  size (sv_sandboxes d0) + length (over_task creates t) <= size (sv_sandboxes d) + length (over_task creates (sv_tasks d !! c)) ->
  bounded d (with_task c t d0).
Proof.
  intros Ht Hs. left. pose proof (creating_task d0 c t) as Hc. unfold creating in *. rewrite Ht in Hc. cbn in *. lia.
Qed.
Lemma bounded_same d d' : sv_sandboxes d' = sv_sandboxes d -> sv_tasks d' = sv_tasks d -> bounded d d'.
Proof. intros Hs Ht. left. unfold creating. rewrite Hs, Ht. lia. Qed.
Lemma payload_bounded c p d : sv_tasks d !! c = None -> bounded d (fst (handle_payload c p d)).
Proof.
  intros Hc. unfold Daemon.handle_payload. destruct (unmarshal p) as [req|]; [|by apply bounded_same].
  destruct (_ && _); [by apply bounded_same|]. destruct (seqb _ _).
  { unfold handle_create. destruct (_ <=? _)%Z eqn:Hm; [by apply bounded_same | right]. split; [done|]. apply Z.leb_gt in Hm. lia. }
  destruct (seqb _ _); [unfold handle_status; destruct (sv_sandboxes d !! _); by apply bounded_same|].
  destruct (seqb _ _); [by apply bounded_same|]. destruct (seqb _ _).
  { unfold handle_stop. destruct (sv_sandboxes d !! _) eqn:Hm; [|by apply bounded_same]. apply bounded_task; [done|].
    cbn. rewrite map_size_delete, Hm. lia. }
  destruct (seqb _ _); [|by apply bounded_same]. unfold handle_exec.
  destruct (sv_sandboxes d !! _); [|by apply bounded_same]. apply bounded_task; [done|]. cbn. lia.
Qed.
Lemma step_bounded d e d' out : step d e = Some (d', out) -> bounded d d'.
Proof.
  unfold Daemon.step. destruct (sv_dead d); [done|].
  assert (Hidle : forall c, idle c d = true -> sv_tasks d !! c = None) by (intros c1; unfold idle; by destruct (_ !! _)).
  destruct e as [c|c|c p|c w|c id|c|c x|c].
  - destruct (_ && _); [|done]. intros [= <- <-]. by apply bounded_same.
  - destruct (_ && _); [|done]. intros [= <- <-]. by apply bounded_same.
  - destruct (idle c d) eqn:Hi; [|done]. destruct (bool_decide _); [|done]. cbn [andb]. intros Hs.
    pose proof (payload_bounded c p d (Hidle c Hi)) as Hf. injection Hs as Hs. by rewrite Hs in Hf.
  - destruct (sv_tasks d !! c) as [[]|] eqn:Hc; try done; intros Hs; injection Hs as Hs; apply (f_equal fst) in Hs;
      unfold create_launch, exec_launch in Hs; destruct (sandbox_launch _ _ _); cbn in Hs; subst d';
      try (by apply bounded_same); apply bounded_task; rewrite ?Hc; cbn; try done; lia.
  - destruct (sv_tasks d !! c) as [[]|] eqn:Hc; try done. intros [= <- <-]. apply bounded_task; [done|]. rewrite Hc. cbn.
    rewrite map_size_insert. destruct (_ !! id); cbn; lia.
  - destruct (sv_tasks d !! c) as [[]|] eqn:Hc; try done; intros [= <- <-].
    + apply bounded_task; [done|]. rewrite Hc. cbn. lia.
    + destruct sbs; apply bounded_task; rewrite ?Hc; cbn; try done; lia.
  - destruct (sv_tasks d !! c) as [[]|] eqn:Hc; try done. intros [= <- <-]. apply bounded_task; [done|]. rewrite Hc. cbn. lia.
  - destruct (idle c d) eqn:Hi; [|done]. destruct (negb _); [|done]. cbn [andb]. intros [= <- <-]. unfold close_server.
    destruct (sv_closed d); [by apply bounded_same|]. apply bounded_task; [done|]. cbn. rewrite map_size_empty. lia.
Qed.

(** ** What was asked for *)
Definition authorised (req : request) : Prop := cfg_auth cfg = $"token" -> rq_token req = cfg_token cfg.
Definition asked (evs : list (event (W := W))) (req : request) : Prop :=
  authorised req /\ exists c p, Payload c p ∈ evs /\ unmarshal p = Some req.
Definition root_asked (evs : list (event (W := W))) (root : gostring) : Prop :=
  exists req, asked evs req /\ rq_action req = ActionCreate /\ rq_repo_root req = root.
Definition exec_asked (evs : list (event (W := W))) (argv : list gostring) : Prop :=
  exists req, asked evs req /\ rq_action req = ActionExec /\ rq_argv req = argv.
Definition task_asked (evs : list (event (W := W))) (t : task) : Prop :=
  match t with
  | CreateLaunching req | CreateLaunched req _ => asked evs req /\ rq_action req = ActionCreate
  | ExecLaunching root argv => root_asked evs root /\ exec_asked evs argv
  | _ => True
  end.
Definition entry_asked (evs : list (event (W := W))) (e : entry S) : Prop :=
  (exists req, asked evs req /\ rq_action req = ActionCreate /\ en_root e = rq_repo_root req /\
     en_options e = create_options (rq_options req)) \/
  (root_asked evs (en_root e) /\ exists argv, exec_asked evs argv /\ en_options e = exec_options argv).
Record all_asked (evs : list (event (W := W))) (d : server S) : Prop := {
  as_tasks : map_Forall (fun _ t => task_asked evs t) (sv_tasks d);
  as_map : map_Forall (fun id mg => mg_id mg = id /\ root_asked evs (mg_repo_root mg)) (sv_sandboxes d);
  as_store : Forall (entry_asked evs) (sv_store d) }.
Lemma asked_later evs e req : asked evs req -> asked (evs ++ [e]) req.
Proof. intros (Ha & c & p & Hin & Hp). split; [done|]. exists c, p. split; [apply elem_of_app; by left | done]. Qed.
#[local] Hint Resolve asked_later : daemon.
#[local] Hint Unfold root_asked exec_asked : daemon.
Lemma all_asked_later evs e d : all_asked evs d -> all_asked (evs ++ [e]) d.
Proof.
  assert (Hr : forall root, root_asked evs root -> root_asked (evs ++ [e]) root) by (intros ? (req & ? & ?); exists req; auto with daemon).
  assert (Hx : forall argv, exec_asked evs argv -> exec_asked (evs ++ [e]) argv) by (intros ? (req & ? & ?); exists req; auto with daemon).
  intros [Ht Hm Hs]. split.
  - eapply map_Forall_impl; [done|]. intros i t. destruct t; cbn; naive_solver eauto with daemon.
  - eapply map_Forall_impl; [done|]. cbn. naive_solver.
  - eapply Forall_impl; [done|]. unfold entry_asked. naive_solver eauto with daemon.
Qed.
Lemma all_asked_task evs c t d :
  all_asked evs d -> match t with Some t => task_asked evs t | None => True end -> all_asked evs (with_task c t d).
Proof.
  intros [Ht Hm Hs] Hx. split; cbn; [|done..]. destruct t as [t|].
  - change (partial_alter (fun _ => Some t) c (sv_tasks d)) with (<[c := t]> (sv_tasks d)). by apply map_Forall_insert_2.
  - change (partial_alter (fun _ => None) c (sv_tasks d)) with (delete c (sv_tasks d)). by apply map_Forall_delete.
Qed.
Lemma all_asked_map evs m d :
  all_asked evs d -> map_Forall (fun id mg => mg_id mg = id /\ root_asked evs (mg_repo_root mg)) m -> all_asked evs (with_sandboxes m d).
Proof. by intros [? ? ?]; split. Qed.
Lemma all_asked_entry evs e d : all_asked evs d -> entry_asked evs e -> all_asked evs (with_entry e d).
Proof. intros [? ? ?] He. split; cbn; [done..|]. apply Forall_app. by split; [|constructor]. Qed.
Lemma all_asked_close evs sb d : all_asked evs d -> all_asked evs (close_sandbox (W := W) sb d).
Proof. intros [Ht Hm Hs]. split; cbn; [done..|]. apply Forall_alter; [done|]. intros e _ He. exact He. Qed.
Lemma payload_asked evs c p d :
  all_asked evs d -> Payload c p ∈ evs -> all_asked evs (fst (handle_payload c p d)).
Proof.
  intros Hd Hin. unfold Daemon.handle_payload. destruct (unmarshal p) as [req|] eqn:Hp; [|done].
  destruct (_ && _) eqn:Hauth; [done|]. assert (Hreq : asked evs req).
  { split; [|by exists c, p]. intros Ha. apply andb_false_iff in Hauth as [Hauth|Hauth]; breflect; done. }
  clear Hauth. destruct (seqb _ _) eqn:Ha.
  { breflect. unfold handle_create. destruct (_ <=? _)%Z; [done|]. cbn [fst]. by apply all_asked_task. }
  clear Ha. destruct (seqb _ _); [unfold handle_status; by destruct (sv_sandboxes d !! _)|].
  destruct (seqb _ _); [done|]. destruct (seqb _ _).
  { unfold handle_stop. destruct (sv_sandboxes d !! _); [|done]. cbn [fst]. apply all_asked_task; [|done].
    apply all_asked_map; [done|]. apply map_Forall_delete. by destruct Hd. }
  destruct (seqb _ _) eqn:Hx; [|done]. breflect. unfold handle_exec.
  destruct (sv_sandboxes d !! rq_sandbox_id req) as [mg|] eqn:Hm; [|done]. cbn [fst]. apply all_asked_task; [done|].
  destruct Hd as [_ Hmap _]. split; [by apply Hmap in Hm as [_ ?] | by exists req].
Qed.
Lemma step_asked evs d e d' out : step d e = Some (d', out) -> all_asked evs d -> all_asked (evs ++ [e]) d'.
Proof.
  intros Hs Hd0. pose proof (all_asked_later evs e d Hd0) as Hd. clear Hd0. revert Hs.
  unfold Daemon.step. destruct (sv_dead d); [done|].
  destruct e as [c|c|c p|c w|c id|c|c x|c].
  - destruct (_ && _); [|done]. intros [= <- <-]. by destruct Hd.
  - destruct (_ && _); [|done]. intros [= <- <-]. by destruct Hd.
  - destruct (_ && _); [|done]. intros Hs. injection Hs as Hs. apply (f_equal fst) in Hs. cbn [fst] in Hs. subst d'.
    apply payload_asked; [done|]. apply elem_of_app. right. by left.
  - destruct (sv_tasks d !! c) as [[]|] eqn:Hc; try done; intros Hs; injection Hs as Hs; apply (f_equal fst) in Hs;
      pose proof (as_tasks _ _ Hd _ _ Hc) as Ht; cbn in Ht; unfold create_launch, exec_launch in Hs;
      destruct (sandbox_launch _ _ _); cbn in Hs; subst d'; try (by destruct Hd); apply all_asked_task; try done;
      apply all_asked_entry; try done.
    + left. exists req. tauto.
    + right. cbn. split; [tauto|]. exists argv. tauto.
  - destruct (sv_tasks d !! c) as [[]|] eqn:Hc; try done. intros [= <- <-]. pose proof (as_tasks _ _ Hd _ _ Hc) as [Hreq Ha].
    apply all_asked_task; [|try done]. apply all_asked_map; [done|]. apply map_Forall_insert_2; [|by destruct Hd].
    split; [done|]. by exists req.
  - destruct (sv_tasks d !! c) as [[]|] eqn:Hc; try done; intros [= <- <-].
    + by apply all_asked_task; [apply all_asked_close|].
    + destruct sbs; (apply all_asked_task; [|try done]); [by destruct Hd | by apply all_asked_close].
  - destruct (sv_tasks d !! c) as [[]|] eqn:Hc; try done. intros [= <- <-]. by apply all_asked_task; [apply all_asked_close|].
  - destruct (_ && _); [|done]. intros [= <- <-]. unfold close_server. destruct (sv_closed d); [done|].
    apply all_asked_task; [|try done]. apply all_asked_map; [by destruct Hd | apply map_Forall_empty].
Qed.
(** The options of a request, as the library sees them. *)
Definition options_asked (o : launch_options) : config_options :=
  ConfigOptions (lo_repo_config o) (lo_user_config o) (lo_ephemeral o) (lo_disk_overlay o) (lo_isolate_caches o)
    (lo_isolated_cache_name o) (lo_instance_name o) (lo_audit_file o)
    (if 0 <? length (lo_command o) then lo_command o else co_command default_options) [] [] [] false.
Lemma create_options_asked o : apply_options (create_options o) = options_asked o.
Proof. destruct o as [[] [] [] [] [] [] [] [] []]; reflexivity. Qed.

(** * Properties *)

(** C11: no sandbox is lost or shared.  In every interleaving of connections
    and [Close], as long as generated identifiers do not collide: a sandbox of
    the daemon is open exactly when the map or one running handler refers to
    it, and no two references are to the same sandbox; with no handler
    running, the open sandboxes are exactly those that are listed. *)
Theorem sandboxes_accounted (evs : list event) (d : server S) (Hd : history fresh_id evs d) :
  NoDup (refs d) /\
  (forall sb e, sv_store d !! sb = Some e ->
     (sandbox_closed W (en_sb e) = false <->
      (exists id mg, sv_sandboxes d !! id = Some mg /\ mg_sb mg = sb) \/
      (exists c t, sv_tasks d !! c = Some t /\ sb ∈ held t))) /\
  (sv_tasks d = ∅ -> forall sb e, sv_store d !! sb = Some e ->
     (sandbox_closed W (en_sb e) = false <-> exists id mg, sv_sandboxes d !! id = Some mg /\ mg_sb mg = sb)).
Proof.
  apply history_custody in Hd as [Hn _ Ho].
  assert (Hopen : forall sb e, sv_store d !! sb = Some e ->
     (sandbox_closed W (en_sb e) = false <->
      (exists id mg, sv_sandboxes d !! id = Some mg /\ mg_sb mg = sb) \/
      (exists c t, sv_tasks d !! c = Some t /\ sb ∈ held t))).
  { intros sb e Hsb. rewrite (Ho sb e Hsb). unfold refs. by rewrite elem_of_app, mapped_elem, over_tasks_elem. }
  split_and!; [done..|]. intros Ht sb e Hsb. rewrite (Hopen sb e Hsb), Ht. split; [intros [|(c & t & Hc & _)]|]; [done|done|by left].
Qed.

(** what [Close] achieves.  It takes every sandbox out of the map at once;
    left alone, its loop ends after one step per sandbox; and however the
    other goroutines run meanwhile, once the loop has ended every one of these
    sandboxes is closed and no connection is accepted any more. *)
Theorem close_closes_all (evs : list event) (d : server S) (c : nat)
    (Hd : history fresh_id evs d) (Hopen : sv_closed d = false) (Hlive : sv_dead d = false) :
  let d1 := close_server c d in
  sv_sandboxes d1 = ∅ /\
  (exists d2 outs, run unmarshal marshal_response marshal_event cfg d1
                     (Closes c :: replicate (size (sv_sandboxes d)) (Closes c)) = Some (d2, outs) /\
     sv_tasks d2 !! c = None) /\
  forall evs' d' outs, run unmarshal marshal_response marshal_event cfg d1 evs' = Some (d', outs) ->
    (forall l, sv_tasks d' !! c <> Some (CloseNext l)) ->
    sv_listening d' = false /\
    forall id mg, sv_sandboxes d !! id = Some mg ->
      exists e, sv_store d' !! mg_sb mg = Some e /\ sandbox_closed W (en_sb e) = true.
Proof.
  pose proof (closing_start c d (history_custody _ _ Hd) Hopen) as Hcl. cbv zeta. split_and!.
  - unfold close_server. by rewrite Hopen.
  - assert (Hl : length (map (fun kv : gostring * managed => mg_sb (snd kv)) (map_range (sv_sandboxes d))) = size (sv_sandboxes d)).
    { by rewrite length_map, map_range_perm, length_map_to_list. }
    rewrite <- Hl. apply close_loop_runs; unfold close_server; rewrite Hopen; [done | apply with_task_same].
  - intros evs' d' outs Hr Hend. destruct (closing_run _ _ _ _ _ _ Hr Hcl) as (_ & _ & [(l & Hl & _)|(_ & Hli & Hall)]).
    + by destruct (Hend l).
    + split; [done|]. intros id mg Hm. apply Hall, mapped_elem. by exists id, mg.
Qed.

(** C35: the limit on sandboxes, as far as it goes.  If never more than [K]
    creates are under way at once, the sandboxes that creates have put into the
    daemon's map and those creates together are never more than [K - 1] beyond
    its limit; in particular the limit holds for them when creates come one at
    a time.  Not counted are the sandbox an exec starts for its command and
    those being stopped: an exec is not held against the limit. *)
Theorem sandbox_limit (K : nat) (evs : list event) (d : server S) (Hmax : (0 < cfg_max_sandboxes cfg)%Z)
    (Hd : history (fun d e => forall d' out, step d e = Some (d', out) -> creating d' <= K) evs d) :
  (Z.of_nat (size (sv_sandboxes d) + creating d) <= cfg_max_sandboxes cfg - 1 + Z.of_nat K)%Z.
Proof.
  induction Hd as [|evs d e d' out _ IH HK Hs].
  { unfold creating, over_tasks. cbn [sv_sandboxes sv_tasks fresh_server]. rewrite map_size_empty, map_to_list_empty. cbn [map concat length]. lia. }
  specialize (HK _ _ Hs).
  destruct (step_bounded _ _ _ _ Hs) as [Hb|[-> Hlt]]; lia.
Qed.

(** C9: who can have a sandbox launched.  Every sandbox that the daemon ever
    launched was asked for by a request that some connection sent and that
    carried the token if the daemon wants one: a create launches the
    repository and the options of the request, an exec launches the command of
    the request in an ephemeral sandbox of a repository of an earlier create.
    Every other request with a wrong token changes nothing. *)
Theorem only_authorised_launches (evs : list event) (d : server S) (Hd : history (fun _ _ => True) evs d) :
  Forall (fun e =>
    exists c p req, Payload c p ∈ evs /\ unmarshal p = Some req /\
      (cfg_auth cfg = $"token" -> rq_token req = cfg_token cfg) /\
      ((rq_action req = ActionCreate /\ en_root e = rq_repo_root req /\
        apply_options (en_options e) = options_asked (rq_options req)) \/
       (rq_action req = ActionExec /\ root_asked evs (en_root e) /\
        co_ephemeral (apply_options (en_options e)) = true /\ co_command (apply_options (en_options e)) = rq_argv req)))
    (sv_store d) /\
  forall c p req, unmarshal p = Some req -> cfg_auth cfg = $"token" -> rq_token req <> cfg_token cfg ->
    handle_payload c p d = (d, send_response marshal_response (failed_response (rq_action req) Unauthorized [])).
Proof.
  split.
  - assert (Ha : all_asked evs d).
    { clear -Hd. induction Hd as [|evs d e d' out _ IH _ Hs]; [|by eapply step_asked]. split; [done | done | constructor]. }
    eapply Forall_impl; [apply (as_store _ _ Ha)|]. intros e [(req & (Hau & c & p & Hin & Hp) & Hact & Hr & Ho)|(Hr & argv & Hx & Ho)].
    + exists c, p, req. split_and!; try done. left. by rewrite Ho, create_options_asked.
    + destruct Hx as (req & (Hau & c & p & Hin & Hp) & Hact & <-). exists c, p, req. split_and!; try done. right. by rewrite Ho.
  - intros c p req Hp Hau Hne. unfold Daemon.handle_payload. rewrite Hp, Hau, seqb_refl. cbn [andb].
    destruct (seqb (rq_token req) (cfg_token cfg)) eqn:Ht; [by apply seqb_eq in Ht | done].
Qed.
End invariants.

(** whom the daemon listens to.  A server that is made has a positive limit,
    never wants an empty token, and wants one whenever its address is neither a
    Unix socket nor on the loopback; it removes the socket it made when it is
    closed.  Otherwise the error says which of the checks failed. *)
Theorem new_server_outcome (w : listen_world) (cfg : config) :
  let cfg' := with_defaults w cfg in
  let addr := cfg_listen_addr cfg' in
  match new_server w cfg with
  | Ok (c, sock) =>
      c = cfg' /\ (0 < cfg_max_sandboxes c)%Z /\ addr <> [] /\
      (cfg_auth c = $"token" -> cfg_token c <> []) /\
      (is_unix addr = false -> is_loopback addr = false -> cfg_auth c = $"token") /\
      match sock with
      | Some path => addr = $"unix://" ++ path /\ lw_listen_unix w path = true
      | None => is_unix addr = false /\ lw_listen_tcp w addr = true
      end
  | Err (TokenAuthRequired a) => a = addr /\ is_unix a = false /\ is_loopback a = false /\ cfg_auth cfg <> $"token"
  | Err TokenRequired => cfg_auth cfg = $"token" /\ cfg_token cfg = []
  | Err CreateSocketDir | Err ListenUnix => is_unix addr = true
  | Err ListenTCP => is_unix addr = false /\ lw_listen_tcp w addr = false
  end.
Proof.
  cbv zeta. unfold new_server. cbv zeta. set (c := with_defaults w cfg). set (addr := cfg_listen_addr c).
  assert (Hmax : (0 < cfg_max_sandboxes c)%Z) by (unfold c, with_defaults; cbn; destruct (_ <=? _)%Z eqn:Hm; [|apply Z.leb_gt in Hm]; lia).
  assert (Haddr : addr <> []).
  { unfold addr, c, with_defaults. cbn. by destruct (cfg_listen_addr cfg). }
  assert (Hau : cfg_auth c = cfg_auth cfg /\ cfg_token c = cfg_token cfg) by done. destruct Hau as [Hau Htok].
  destruct (is_unix addr) eqn:Hu, (is_loopback addr) eqn:Hl, (seqb (cfg_auth c) $"token") eqn:Ha, (is_empty (cfg_token c)) eqn:He;
    cbn [negb andb]; rewrite <- ?Hau, <- ?Htok; breflect; try done;
    try (destruct (lw_mkdir_all w _); cbn [negb]; [|done]; destruct (lw_listen_unix w _) eqn:Hlu; cbn [negb]; [|done]);
    try (destruct (lw_listen_tcp w addr) eqn:Hlt; cbn [negb]; [|done]); split_and!; try done.
  all: unfold is_unix in Hu; apply has_prefix_true in Hu as [t ->]; by rewrite trim_prefix_app.
Qed.
(** What of the outcome of an exec reaches the client: the frames of the
    events that fit, the exit code in the last of the events. *)
Lemma sent_frame payload : sent payload = if (max_size <? Z.of_nat (length payload))%Z then [] else frame_bytes payload.
Proof. unfold sent, write_frame. by destruct (_ <? _)%Z. Qed.
Lemma exec_events_output x :
  last (exec_events x) = Some (ExecEvent $"exit" [] (xd_code x) NoError) /\
  (xd_stdout x <> [] -> exists e, e ∈ exec_events x /\ xe_type e = $"stdout" /\ b64_decode (xe_data e) = Some (xd_stdout x)).
Proof.
  unfold exec_events. rewrite !app_assoc. split; [by rewrite last_snoc|]. intros Hne. exists (ExecEvent $"stdout" (b64_encode (xd_stdout x)) 0 NoError).
  split_and!; [|done|apply b64_roundtrip]. destruct (xd_stdout x) as [|y t]; [done|]. cbn [length Nat.ltb Nat.leb]. rewrite <- !app_assoc. by left.
Qed.

(** * The library implements what the daemon needs *)
Section library.
Context `{TemplateLib, UnicodeCase, Regexp, MapRange gostring, MapRange secret_source, MapRange exec_source}.
Context (order1 order2 : MapRange repo_override) (marshal : env_keep_marker -> option gostring) (pid : keg_sandbox -> Z).
Definition library_launch (w : keg_world) (root : gostring) (opts : list keg_option) : launched_as keg_sandbox :=
  match keg_launch order1 order2 marshal w root opts with
  | KegRunning k => Started k
  | KegFailed e _ => Refused e
  | KegPanicked => Panics
  end.
#[export] Instance library_ops : SandboxOps keg_sandbox keg_world :=
  {| sandbox_launch := library_launch; sandbox_close k := fst (keg_close k); sandbox_closed := ks_closed; sandbox_pid := pid |}.
#[export] Instance library_laws : SandboxLaws keg_sandbox keg_world.
Proof.
  split.
  - intros w root opts k. cbn. unfold library_launch. destruct (keg_launch _ _ _ _ _ _) as [k'|e l|] eqn:Hl; try done.
    intros [= ->]. revert Hl. unfold keg_launch. repeat (case_match; try done). by intros [= <-].
  - intros k. cbn. unfold keg_close. by destruct (ks_closed k) eqn:E.
  - intros k. cbn. intros Hc. unfold keg_close. by rewrite Hc.
Qed.
End library.

(** * Concrete runs *)
Module Example_.
(** Sandboxes that are open or closed; a launch works, fails or panics. *)
#[local] Instance flag_ops : SandboxOps bool nat :=
  {| sandbox_launch := fun w _ _ => match w with 0 => Started false | 1 => Refused ContextEnded | _ => Panics end;
     sandbox_close := fun _ => true; sandbox_closed := fun b => b; sandbox_pid := fun _ => 4711%Z |}.
#[local] Instance flag_laws : SandboxLaws bool nat.
Proof. split; [intros [|[]] ? ? s; cbn; congruence | reflexivity | intros [|]; reflexivity || discriminate]. Qed.
#[local] Instance ranges {V} : MapRange V := map_range_default.
#[local] Instance ranges_laws {V} : @MapRangeLaws V ranges := map_range_default_laws.
Definition no_options : launch_options := LaunchOptions [] [] false [] false [] [] [] [].
Definition ask (action token id : gostring) : request := Request action token $"/w/app" no_options id [$"ls"] [] ∅.
(** A codec for these requests: the action, then the token. *)
Definition decode (p : gostring) : option request :=
  if seqb p $"create:s3cret" then Some (ask ActionCreate $"s3cret" [])
  else if seqb p $"create:" then Some (ask ActionCreate [] [])
  else if seqb p $"stop:s3cret" then Some (ask ActionStop $"s3cret" $"a")
  else if seqb p $"exec:s3cret" then Some (ask ActionExec $"s3cret" $"a")
  else None.
Definition show_response (r : response) : gostring := rs_action r.
Definition show_event (e : exec_event) : gostring := xe_type e ++ xe_data e.
Definition config1 : config := Config $"127.0.0.1:7777" $"token" $"s3cret" 1.
Abbreviation run1 := (run (S := bool) (W := nat) decode show_response show_event config1).
Definition after (d : server bool) (evs : list (event (W := nat))) : server bool :=
  match run1 d evs with Some (d, _) => d | None => d end.
Definition create_a : list (event (W := nat)) := [Accepts 0; Payload 0 $"create:s3cret"; LaunchEnds 0 0; Inserts 0 $"a"].
Definition with_exec : list (event (W := nat)) := create_a ++ [Payload 0 $"create:"; Payload 0 $"exec:s3cret"; LaunchEnds 0 0].
Lemma history1 P : run_within (S := bool) (W := nat) decode show_response show_event config1 P fresh_server with_exec ->
  history (S := bool) (W := nat) decode show_response show_event config1 P with_exec (after fresh_server with_exec).
Proof.
  intros HP. change with_exec with ([] ++ with_exec) at 1. eapply history_run; [constructor | exact HP |].
  vm_compute. reflexivity.
Qed.
Lemma sandboxes_accounted_witness :
  let d := after fresh_server with_exec in
  length (sv_store d) = 2 /\ exists c t, sv_tasks d !! c = Some t /\ 1 ∈ held t.
Proof.
  pose proof (sandboxes_accounted decode show_response show_event config1 with_exec (after fresh_server with_exec)) as Hx.
  specialize (Hx (history1 fresh_id ltac:(vm_compute; repeat split; reflexivity))). destruct Hx as (_ & Hopen & _).
  cbv zeta. split; [reflexivity|]. destruct (proj1 (Hopen 1 _ eq_refl) eq_refl) as [(id & mg & Hm & Hsb)|Hx]; [|exact Hx].
  revert Hsb. change (sv_sandboxes (after fresh_server with_exec)) with ({[$"a" := Managed $"a" $"/w/app" 0]} : gmap gostring managed) in Hm.
  apply lookup_singleton_Some in Hm as [_ <-]. discriminate.
Defined.
Lemma close_closes_all_witness :
  exists d2 outs, run1 (close_server 9 (after fresh_server with_exec)) [Closes 9; Closes 9] = Some (d2, outs) /\ sv_tasks d2 !! 9 = None.
Proof.
  pose proof (close_closes_all decode show_response show_event config1 with_exec (after fresh_server with_exec) 9) as Hx.
  specialize (Hx (history1 fresh_id ltac:(vm_compute; repeat split; reflexivity)) eq_refl eq_refl).
  exact (proj1 (proj2 Hx)).
Defined.
Lemma sandbox_limit_witness : (Z.of_nat (size (sv_sandboxes (after fresh_server with_exec)) + creating (after fresh_server with_exec)) <= 1)%Z.
Proof.
  pose proof (sandbox_limit decode show_response show_event config1 1 with_exec (after fresh_server with_exec) eq_refl) as Hx.
  apply Hx. apply history1. vm_compute. repeat split; intros d' out [= <- _]; lia.
Defined.
Lemma only_authorised_launches_witness :
  let d := after fresh_server with_exec in
  exists c p req, Payload c p ∈ with_exec /\ decode p = Some req /\ rq_token req = $"s3cret".
Proof.
  pose proof (only_authorised_launches decode show_response show_event config1 with_exec (after fresh_server with_exec)) as Hx.
  specialize (Hx (history1 (fun _ _ => True) ltac:(vm_compute; repeat split; reflexivity))). destruct Hx as [Hall _].
  apply Forall_inv in Hall as (c & p & req & Hin & Hp & Ht & _). exists c, p, req.
  split; [exact Hin|]. split; [exact Hp|]. exact (Ht eq_refl).
Defined.
(** Below a limit of one, a sandbox in the map and three that execs have
    started are open at once: [sandbox_limit] with [K = 1] holds all along. *)
Example execs_exceed :
  let d := after fresh_server (create_a ++ concat (map (fun c => [Accepts c; Payload c $"exec:s3cret"; LaunchEnds c 0]) [1; 2; 3])) in
  cfg_max_sandboxes config1 = 1%Z /\ size (sv_sandboxes d) = 1 /\ creating d = 0 /\
  map en_sb (sv_store d) = [false; false; false; false] /\ size (sv_tasks d) = 3.
Proof. vm_compute. by split_and!. Qed.
(** Two clients create at once, below a limit of one. *)
Example concurrent_creates_exceed :
  let d := after fresh_server [Accepts 0; Accepts 1; Payload 0 $"create:s3cret"; Payload 1 $"create:s3cret"; LaunchEnds 0 0;
                               LaunchEnds 1 0; Inserts 0 $"a"; Inserts 1 $"b"] in
  size (sv_sandboxes d) = 2 /\ sv_tasks d = ∅.
Proof. vm_compute. by split. Qed.
(** A connection that is open when the daemon is closed is still served: the
    sandbox it creates is never closed. *)
Example create_after_close :
  let d := after fresh_server ([Accepts 0; ServerCloses 9; Closes 9] ++ drop 1 create_a) in
  sv_closed d = true /\ sv_listening d = false /\ sv_tasks d = ∅ /\ en_sb <$> sv_store d !! 0 = Some false.
Proof. vm_compute. by split_and!. Qed.
(** A launch that panics takes the daemon with it, and the other sandboxes. *)
Example launch_panics :
  let d := after fresh_server (create_a ++ [Payload 0 $"stop:s3cret"; Closes 0; Payload 0 $"create:s3cret"; LaunchEnds 0 2]) in
  sv_dead d = true /\ run1 d [Accepts 3] = None.
Proof. vm_compute. by split. Qed.
(** Output whose encoding does not fit into a frame is dropped; the client is
    only told the exit code. *)
Example large_output_dropped :
  let x := Ended (repeat "a"%char 49153) [] 0 None in
  snd (exec_finish (S := bool) (W := nat) show_event 0 0 x fresh_server) = frame_bytes $"exit".
Proof. vm_compute. reflexivity. Qed.
(** An authentication mode that is misspelt switches authentication off. *)
Example unknown_auth_mode :
  new_server (ListenWorld [] (fun _ => true) (fun _ => true) (fun _ => true)) (Config [] $"Token" $"s3cret" 0)
  = Ok (Config $"unix:///tmp/keg/api.sock" $"Token" $"s3cret" 10, Some $"/tmp/keg/api.sock").
Proof. reflexivity. Qed.
End Example_.
(** The daemon on the library: a sandbox whose process has ended at once is
    still reported to be running. *)
Module Library_.
#[local] Existing Instances PlanBuilder.Example_.lower PlanBuilder.Example_.lib PlanBuilder.Example_.ranges Facade.Example_.regexps.
#[local] Abbreviation order := PlanBuilder.Example_.ranges.
#[local] Instance ops : SandboxOps keg_sandbox keg_world :=
  library_ops order order Facade.Example_.marshal1 (fun _ => 4711%Z).
Definition exits_at_once : keg_world :=
  KegWorld false (Facade.Example_.host2 (Facade.Example_.repo2 [])) (Facade.Example_.host_with $"bubblewrap 0.8.0")
    (fun _ => Attempt true true true 5 true true true (fun _ _ _ => true) None (Exited 1 false []) false)
    (fun _ => true) (fun _ => true) ∅ (fun _ _ _ => true) None.
Definition ask_user (action id : gostring) : request :=
  Request action [] $"/w/app" (LaunchOptions [] $"/u.yaml" false [] false [] [] [] []) id [] [] ∅.
Definition decode (p : gostring) : option request := Some (ask_user p $"a").
Definition show (r : response) : gostring := rs_action r ++ rs_status r.
Example exited_reported_running :
  match run (W := keg_world) decode show (fun e => xe_type e) (Config [] [] [] 10) fresh_server
          [Accepts 0; Payload 0 ActionCreate; LaunchEnds 0 exits_at_once; Inserts 0 $"a"; Payload 0 ActionStatus] with
  | Some (d, outs) =>
      (fun e => (ks_exit (en_sb e), sb_closed (ks_sb (en_sb e)))) <$> sv_store d !! 0 = Some (Some (WaitResult 1 false []), true) /\
      last outs = Some (frame_bytes $"statusrunning")
  | None => False
  end.
Proof. vm_compute. by split. Qed.
End Library_.
