(* ===== verification/EndToEnd.v ===== *)
(** Across components: what a sandbox that was planned by [build_plan] and
    whose services [start_background_services] started lets its guest do. *)
From S2P Require Import GoStrings GoPath GoNet GoBase64 ConfigTypes ConfigMerge Matcher ProxyServer RawEndpoints Whitelist Justfile RunnerServer Templates Secrets BwrapArgs GuestEnv Ports PlanBuilder Services.
Local Open Scope go_scope.

(** * Whitelists *)
(** The first rule of a command is the one that decides. *)
Definition first_rule (raw : list raw_rule) (task : gostring) : option raw_rule :=
  List.find (fun r => seqb (rr_cmd r) task) raw.
Lemma find_app {A} (f : A -> bool) l1 l2 :
  List.find f (l1 ++ l2) = match List.find f l1 with Some x => Some x | None => List.find f l2 end.
Proof. induction l1 as [|x l1 IH]; cbn; [done|]. by destruct (f x). Qed.
Lemma first_rule_some raw task rule :
  first_rule raw task = Some rule <->
  exists before after, raw = before ++ rule :: after /\ rr_cmd rule = task /\ Forall (fun r => rr_cmd r <> task) before.
Proof.
  unfold first_rule. induction raw as [|r raw IH]; cbn; [split; [done | by intros ([|] & ? & ? & _)]|].
  destruct (seqb_spec (rr_cmd r) task) as [He|Hne].
  - split; [intros [= <-]; by exists [], raw|]. intros ([|b before] & after & Heq & Hr & Hb); [by injection Heq as <- _|].
    injection Heq as <- _. by inversion Hb.
  - rewrite IH. split.
    + intros (before & after & -> & Hr & Hb). exists (r :: before), after. split_and!; [done..|]. by constructor.
    + intros ([|b before] & after & Heq & Hr & Hb); injection Heq as -> Heq; [done|]. inversion Hb. by exists before, after.
Qed.
Lemma whitelisted_find `{Regexp} exact prefixes raw argv k :
  whitelisted exact prefixes raw argv k <->
  exists task rest, argv = task :: rest /\
    ((task ∈ exact /\ rest = [] /\ k = KindJust) \/ (task ∉ exact /\ task ∈ prefixes /\ k = KindJust) \/
     (task ∉ exact /\ task ∉ prefixes /\ k = KindRaw /\
      exists rule, first_rule raw task = Some rule /\ raw_accepts rule argv)).
Proof.
  unfold whitelisted. setoid_rewrite first_rule_some. split; intros (task & rest & -> & Hc); exists task, rest; naive_solver.
Qed.
(** Naming rules again at the end changes nothing. *)
Lemma whitelisted_again `{Regexp} e e' p p' r r' argv k :
  (forall x, x ∈ e' -> x ∈ e) -> (forall x, x ∈ p' -> x ∈ p) -> (forall x, x ∈ r' -> x ∈ r) ->
  whitelisted (e ++ e') (p ++ p') (r ++ r') argv k <-> whitelisted e p r argv k.
Proof.
  intros He Hp Hr.
  assert (Hin : forall l l' : list gostring, (forall x, x ∈ l' -> x ∈ l) -> forall x, x ∈ l ++ l' <-> x ∈ l)
    by (intros l l' Hl x; rewrite elem_of_app; split; [intros [?|?]; auto | by left]).
  assert (Hf : forall task, first_rule (r ++ r') task = first_rule r task).
  { intros task. unfold first_rule. rewrite find_app. destruct (List.find _ r) as [x|] eqn:Hn; [done|].
    destruct (List.find _ r') as [x|] eqn:Hx; [|done]. apply List.find_some in Hx as [Hx Ht].
    apply list_elem_of_In, Hr, list_elem_of_In in Hx. by rewrite (List.find_none _ _ Hn _ Hx) in Ht. }
  rewrite !whitelisted_find. setoid_rewrite (Hin e e' He). setoid_rewrite (Hin p p' Hp). by setoid_rewrite Hf.
Qed.

(** * Delegation *)
(** The server that [StartBackgroundServices] starts for a runner service;
    [trust] is what [VerifyApproved] answers when the job arrives.  No
    [JustBin] is passed. *)
Definition daemon_config (cfg : runner_service) (trust : bool) : server_config :=
  ServerConfig (Some (rs_engine cfg)) [] (rs_repo_root cfg) (rs_hooks_dir cfg) (Some trust) true.
Section delegation.
Context `{TemplateLib, UnicodeCase, Regexp, MapRangeLaws gostring, MapRangeLaws secret_source, MapRangeLaws exec_source}.
Context (order1 order2 : MapRange repo_override) {L1 : @MapRangeLaws _ order1} {L2 : @MapRangeLaws _ order2}.
Context (h : host) (fs : filesystem) (bind : nat -> gostring -> Z -> bool).
Lemma build_plan_tasks q t p u :
  build_plan order1 order2 h q = (t, Ok (p, u)) ->
  exists r, snd (load_repo h (config_path h q) (negb (is_empty (q_repo_cfg q)))) = Ok r /\
    let ru := u_runner (effective order1 h q u) in
    h_trust h (resolve_root h (q_repo_dir q)) (config_path h q) = true /\
    repo_root (fp_bwrap p) = resolve_root h (q_repo_dir q) /\ fp_repo_cfg p = config_path h q /\
    enable_runner (fp_bwrap p) = has_tasks (fp_tasks p) /\
    dt_exact (fp_tasks p) = dt_exact (r_tasks r) ++ env_tasks h ++ rc_exact ru /\
    dt_prefixes (fp_tasks p) = dt_prefixes (r_tasks r) ++ rc_prefixes ru /\
    dt_raw (fp_tasks p) = dt_raw (r_tasks r) ++ rc_raw ru /\
    (has_tasks (fp_tasks p) = true ->
       fp_runner p = ru /\ dt_descriptions (fp_tasks p) = rc_descriptions ru ∪ dt_descriptions (r_tasks r)).
Proof.
  intros Hb. apply build_plan_ok in Hb as (c & r0 & env & tr & t0 & t1 & t2 & t3 & t4 & t5 & t6 & t7 & t8 & t9 & -> & Ht & Hr0 &
    _ & Hr & _). apply resolve_templates_ok in Hr as (_ & _ & Htasks & _).
  exists r0. rewrite Hr0. split; [done|]. cbv zeta. set (eff := effective order1 h q u).
  destruct (kept_tasks (merged_tasks h (pc_repo c) eff)) as (He & Hp & Hw & Hk).
  unfold assemble. cbn [fp_bwrap fp_tasks repo_root fp_repo_cfg enable_runner fp_runner]. rewrite He, Hp, Hw, Hk.
  split_and!; try done; [by unfold merged_tasks; cbn; rewrite Htasks.. |]. intros ->. split; [done|].
  unfold merged_tasks. cbn [dt_descriptions]. rewrite Htasks in *. destruct (_ || _) eqn:Hs; [done|].
  apply orb_false_iff in Hs as [Hs1 Hs2]. apply Nat.ltb_ge, Nat.le_0_r, map_size_empty_inv in Hs1, Hs2.
  unfold eff in *. by rewrite Hs2, (left_id_L ∅ (∪)).
Qed.
(** The rules of the user's configuration are part of the effective ones. *)
Lemma effective_runner q u :
  let ru := u_runner (effective order1 h q u) in
  (forall x, x ∈ rc_exact (u_runner u) -> x ∈ rc_exact ru) /\
  (forall x, x ∈ rc_prefixes (u_runner u) -> x ∈ rc_prefixes ru) /\
  (forall x, x ∈ rc_raw (u_runner u) -> x ∈ rc_raw ru).
Proof.
  cbv zeta. unfold effective, match_repo. destruct (find_repo_override _ _ _ _) as [o|]; [|done].
  cbn [merge_users u_runner merge_runner rc_exact rc_prefixes rc_raw]. setoid_rewrite union_strings_elem.
  split_and!; [by left.. |]. intros x Hx. apply elem_of_app. by left.
Qed.
(** The configuration the engine is made of a second time: the effective one,
    or the user's own. *)
Lemma second_runner q t p u who :
  build_plan order1 order2 h q = (t, Ok (p, u)) -> has_tasks (fp_tasks p) = true -> who = None \/ who = Some u ->
  runner_cfg_for p who = u_runner (effective order1 h q u) \/ runner_cfg_for p who = u_runner u.
Proof.
  intros Hb Hw Hwho. apply build_plan_tasks in Hb as (r & _ & _ & _ & _ & _ & _ & _ & _ & Hru).
  destruct (Hru Hw) as [Hru' _]. destruct Hwho as [->| ->]; cbn [runner_cfg_for]; [by left|].
  case_match; [by right | by left].
Qed.
(** The daemon of a planned sandbox allows what the configuration names. *)
Lemma runner_engine_allows q t p u who cfg :
  build_plan order1 order2 h q = (t, Ok (p, u)) -> wants_runner p = true -> who = None \/ who = Some u ->
  runner_service_for fs p who = Ok cfg ->
  exists r, snd (load_repo h (config_path h q) (negb (is_empty (q_repo_cfg q)))) = Ok r /\
    let ru := u_runner (effective order1 h q u) in
    forall argv k, engine_match (rs_engine cfg) argv = Allowed k <->
      whitelisted (dt_exact (r_tasks r) ++ env_tasks h ++ rc_exact ru) (dt_prefixes (r_tasks r) ++ rc_prefixes ru)
        (dt_raw (r_tasks r) ++ rc_raw ru) argv k.
Proof.
  intros Hb Hw Hwho Hcfg. apply andb_true_iff in Hw as [_ Hw].
  pose proof (second_runner _ _ _ _ _ Hb Hw Hwho) as Hsec. destruct (effective_runner q u) as (Hse & Hsp & Hsr).
  apply build_plan_tasks in Hb as (r & Hr & _ & _ & _ & _ & He & Hp & Hraw & _).
  exists r. split; [done|]. cbv zeta. intros argv k. unfold runner_service_for in Hcfg.
  apply bind_ok_inv in Hcfg as (e & Hne & [= <-]). cbn [rs_engine].
  change (engine_match (set_fallback e _) argv) with (engine_match e argv).
  rewrite (engine_match_whitelisted _ _ e argv k Hne), He, Hp, Hraw.
  apply whitelisted_again; intros x Hx; rewrite ?elem_of_app; destruct Hsec as [Hs|Hs]; rewrite Hs in Hx; auto.
Qed.
(** Delegation end to end.  Take any plan, start its services (with the
    user's configuration, as the command and the library do, or without it,
    as the launcher does, and with the sandbox exiting at any moment), and let a guest send any request to the
    daemon: a command that is started on the host was whitelisted by the
    repository's configuration, which the user had approved, by
    [RUNNER_WHITELIST] or by the user's own configuration; the approval was
    verified again for that very configuration file; and it runs in the
    repository or below it, with [just] taken from the path. *)
Theorem delegation_end_to_end (decode : gostring -> option job_request) (hd : RunnerServer.host)
    (q : request) (t : list effect) (p : full_plan) (u : user) (who : option user) (all trust : bool)
    (audit writer : option nat) (gone : list port_listener) (death : option nat) (cfg : runner_service) (payload : option gostring)
    (cmd : command) (log : list audit_record)
    (Habs : is_abs (resolve_root h (q_repo_dir q)) = true)
    (Hplan : build_plan order1 order2 h q = (t, Ok (p, u)))
    (Hwho : who = None \/ who = Some u)
    (Hserve : ServeRunner cfg ∈ sb_services (fst (start_background_services fs bind (LaunchPlan p all audit) who writer
                                                    (new_sandbox gone death))))
    (Hrun : handle_stream decode hd (daemon_config cfg trust) payload = (Started cmd, log)) :
  let root := resolve_root h (q_repo_dir q) in
  let ru := u_runner (effective order1 h q u) in
  trust = true /\ rs_repo_root cfg = root /\ rs_cfg_path cfg = config_path h q /\
  h_trust h root (config_path h q) = true /\
  (c_dir cmd = root \/ below root (c_dir cmd)) /\
  exists r bytes req k,
    snd (load_repo h (config_path h q) (negb (is_empty (q_repo_cfg q)))) = Ok r /\
    payload = Some bytes /\ decode bytes = Some req /\
    let argv := decode_strings (argv_b64 req) in
    whitelisted (dt_exact (r_tasks r) ++ env_tasks h ++ rc_exact ru) (dt_prefixes (r_tasks r) ++ rc_prefixes ru)
      (dt_raw (r_tasks r) ++ rc_raw ru) argv k /\
    match k with KindJust => c_path cmd = $"just" /\ c_args cmd = argv
               | KindRaw => look_path hd (Whitelist.first_of argv) = Some (c_path cmd) end.
Proof.
  cbv zeta. assert (Hw : wants_runner p = true /\ runner_service_for fs p who = Ok cfg).
  { exact (started_service _ _ _ _ _ _ _ _ Hserve). }
  destruct Hw as [Hw Hcfg].
  destruct (build_plan_tasks _ _ _ _ Hplan) as (r & Hr & Htr & Hroot & Hpath & _).
  destruct (runner_engine_allows _ _ _ _ _ _ Hplan Hw Hwho Hcfg) as (r' & Hr' & Hiff).
  rewrite Hr in Hr'. injection Hr' as <-.
  assert (Hrs : rs_repo_root cfg = resolve_root h (q_repo_dir q) /\ rs_cfg_path cfg = config_path h q).
  { unfold runner_service_for in Hcfg. apply bind_ok_inv in Hcfg as (e & _ & [= <-]). cbn [rs_repo_root rs_cfg_path].
    rewrite Hroot, Hpath. split; [done|]. unfold config_path, or_else. by destruct (is_empty (q_repo_cfg q)) eqn:He;
      [destruct (is_empty (path_join _ _)) | rewrite He]. }
  destruct Hrs as [Hrs Hcp]. apply started_job in Hrun as (bytes & req & e & k & -> & Hreq & He & _ & _ & Hm & Has & Ht & Hdir & _);
    [|by cbn; rewrite Hrs].
  cbn in He, Ht, Hdir. rewrite Hrs in Hdir. injection He as <-. split_and!; try done; [by destruct trust | tauto|].
  exists r, bytes, req, k. split_and!; try done; [by apply Hiff|]. destruct k; cbn in Has; tauto.
Qed.
End delegation.

(** * Egress *)
(** The server of channel A while the correlation table is [table], [None]
    before the resolver has been started; [now] is the time of the request. *)
Definition egress_server (cfg : proxy_cfg) (table : option (gmap gostring raw_entry)) (now : Z) : server :=
  Server (px_sni cfg) (px_upstream cfg) 0 true false
    (Some (fun host_port => match table with Some st => fst (check now st host_port) | None => false end))
    (Some (fun a => match table with Some st => fst (resolve_host now st a) | None => [] end))
    (Some (px_policy cfg)).
Section egress.
Context `{TemplateLib, UnicodeCase, Regexp, MapRangeLaws gostring, MapRangeLaws secret_source, MapRangeLaws exec_source}.
Context (order1 order2 : MapRange repo_override) {L1 : @MapRangeLaws _ order1} {L2 : @MapRangeLaws _ order2}.
Context (h : host) (fs : filesystem) (bind : nat -> gostring -> Z -> bool).
Lemma build_plan_network q t p u :
  build_plan order1 order2 h q = (t, Ok (p, u)) ->
  exists r, snd (load_repo h (config_path h q) (negb (is_empty (q_repo_cfg q)))) = Ok r /\
    let nu := u_network (effective order1 h q u) in
    fp_sni p = union_strings (nw_sni (r_network r)) (nw_sni nu) /\
    fp_allow p = union_strings (nw_allow (r_network r)) (nw_allow nu) /\
    fp_block p = union_strings (nw_block (r_network r)) (nw_block nu) /\
    fp_tcp p = nw_tcp (r_network r) ++ nw_tcp nu.
Proof.
  intros Hb. apply build_plan_ok in Hb as (c & r0 & env & tr & t0 & t1 & t2 & t3 & t4 & t5 & t6 & t7 & t8 & t9 & -> & _ & Hr0 &
    _ & Hr & _). apply resolve_templates_ok in Hr as (_ & Hnet & _).
  exists r0. rewrite Hr0. split; [done|]. cbv zeta. unfold assemble, plan_sni, plan_tcp. cbn. by rewrite Hnet.
Qed.
(** C2: egress end to end.  Take any plan, start its services (for any user's
    configuration, with the sandbox exiting at any moment), and let the guest ask the proxy for any
    target, by CONNECT or by a plain request, after any history of answers of the resolver: if a connection is
    opened, the name matches a domain that the repository or the user
    configured, or the target is an address that the resolver gave within the
    last 30 seconds for an endpoint that one of them declares, with a port of
    that endpoint; and the connection goes to the target by the configured
    upstream, to the target itself or to an address of its name, where an
    address is only reached if the network policy of their merged lists lets
    it through; without an upstream, a name that can be looked up is only
    reached at such an address. *)
Theorem egress_end_to_end (tr : transport) (net : network) (env : gostring -> gostring)
    (q : request) (t : list effect) (p : full_plan) (u : user) (who : option user) (all : bool) (audit writer : option nat)
    (gone : list port_listener) (death : option nat) (cfg : proxy_cfg)
    (evs : list (Z * RawEndpoints.event)) (now : Z) (req : ProxyServer.request) (s : served) (c : conn) (log : list audit_event)
    (Hplan : build_plan order1 order2 h q = (t, Ok (p, u)))
    (Hserve : ServeProxy cfg ∈ sb_services (fst (start_background_services fs bind (LaunchPlan p all audit) who writer
                                                   (new_sandbox gone death))))
    (Hclock : ordered evs now)
    (Hrun : ProxyServer.handle_stream tr net env (egress_server cfg (Some (run (fp_tcp p) evs)) now) (Some req) = Some (s, log))
    (Hopened : opened s = Some c) :
  exists r policy, snd (load_repo h (config_path h q) (negb (is_empty (q_repo_cfg q)))) = Ok r /\
    let nr := r_network r in
    let nu := u_network (effective order1 h q u) in
    let ips_of := lookup_ip net (host_only (dial_name tr req)) in
    new_network_policy (union_strings (nw_allow nr) (nw_allow nu)) (union_strings (nw_block nr) (nw_block nu)) all
      = Ok policy /\
    (Match (host_only (asked req)) (union_strings (nw_sni nr) (nw_sni nu)) = Allow \/
     exists a port t' name ips x ep n, split_host_port (asked req) = Some (a, port) /\
       (t', Answered name ips) ∈ evs /\ (now < t' + DefaultRawCorrelationTTL)%Z /\ x ∈ ips /\ ip_string x = a /\
       ep ∈ nw_tcp nr ++ nw_tcp nu /\ endpoint_matches name ep = true /\ n ∈ te_ports ep /\ itoa n = port) /\
    (forall a, parse_ip (host_only (dial_name tr req)) = Some a -> evaluate (Some policy) (Some a) = true) /\
    match c with
    | Tunnel up target => up = px_upstream cfg /\ target = dial_name tr req
    | Direct addr => addr = dial_name tr req \/
        exists a port, a ∈ ips_of /\ evaluate (Some policy) (Some a) = true /\ addr = join_host_port (ip_string a) port
    end /\
    (px_upstream cfg = [] -> parse_ip (host_only (dial_name tr req)) = None -> ips_of <> [] ->
     exists a port, a ∈ ips_of /\ evaluate (Some policy) (Some a) = true /\ c = Direct (join_host_port (ip_string a) port)).
Proof.
  apply started_service in Hserve as [_ (policy & Hpol & ->)].
  destruct (build_plan_network _ _ _ _ Hplan) as (r & Hr & Hsni & Hallow & Hblock & Htcp).
  exists r, policy. split; [done|]. unfold policy_of in Hpol. cbn [lp_plan lp_allow_all] in Hpol.
  rewrite Hallow, Hblock in Hpol. cbv zeta. split; [done|].
  apply (stream_opened _ _ _ _ _ _ _ c) in Hrun as [Hd (Hip & Hc & Hpin)]; [|done]. apply decide_verdict in Hd as [Hd _]. split.
  - cbn [sni_domains egress_server px_sni proxy_cfg_for lp_plan] in Hd. rewrite Hsni in Hd.
    destruct Hd as [Hm|(f & a & Hf & _ & Hk)]; [by left|]. right. cbn in Hf. injection Hf as <-.
    destruct (split_host_port (asked req)) as [[x port]|] eqn:Hsp; [|by unfold check in Hk; rewrite Hsp in Hk].
    pose proof (check_after_run (fp_tcp p) evs now _ _ _ Hclock Hsp) as (_ & _ & Hx).
    destruct (Hx Hk) as (t' & name & ips & y & ep & n & ?). rewrite Htcp in *.
    exists x, port, t', name, ips, y, ep, n. tauto.
  - split; [exact Hip|]. split; [by destruct c as [addr|up target]; [|destruct Hc as (? & ? & _)]|].
    intros Hup. exact (Hpin Hup eq_refl eq_refl).
Qed.
End egress.

(** * A concrete sandbox *)
Module Example_.
#[local] Existing Instance PlanBuilder.Example_.lower.
#[local] Existing Instance PlanBuilder.Example_.lib.
#[local] Existing Instance PlanBuilder.Example_.ranges.
#[local] Existing Instance PlanBuilder.Example_.ranges_laws.
#[local] Instance regexps : Regexp := {| regexp_ok := fun _ => true; regexp_match := fun re a => contains a re |}.
Definition no_files : filesystem := ∅.
Definition bind_all : nat -> gostring -> Z -> bool := fun _ _ _ => true.
Definition lp1 : launch_plan := LaunchPlan PlanBuilder.Example_.plan1 false None.
(** The services of the plan; the sandbox exits while they are started. *)
Definition services1 (death : option nat) : list service :=
  sb_services (fst (start_background_services no_files bind_all lp1 None None (new_sandbox [] death))).
Definition engine1 : engine := Engine {[$"build" := true]} [$"build"] ∅ [] ∅ [].
Definition runner1 : runner_service :=
  RunnerService engine1 $"/w/app" $"/tmp/keg-1/hooks" $"/w/app/.keg.yaml".
Definition policy1 : network_policy := NetworkPolicy [] false false.
Definition secrets1 : service :=
  let p := PlanBuilder.Example_.plan1 in
  RefreshSecrets (fp_secrets p) (fp_sources p) $"/tmp/keg-1/secrets" (fp_secret_ctx p).
Example starts : services1 None =
  [ServeDNS (DNSConfig ∅ [$"github.com"] $"127.0.0.53:53") policy1 [];
   ServeProxy (ProxyCfg [$"github.com"] policy1 []); ForwardPort (Listening 0) 3000; ServeRunner runner1; secrets1].
Proof. vm_compute. reflexivity. Qed.
(** The sandbox exits when the listener of its port has just been bound: what
    is left to start is not, except for the refresher, which does not look. *)
Example exits : services1 (Some 8) = take 2 (services1 None) ++ [secrets1].
Proof. vm_compute. reflexivity. Qed.
Definition job1 : option job_request := Some (JobRequest [b64_encode $"build"] $"sub" false).
Definition host2 : RunnerServer.host := RunnerServer.Host (fun _ => None) (fun _ => true).
Lemma delegation_end_to_end_witness :
  handle_stream (fun _ => job1) host2 (daemon_config runner1 true) (Some [])
    = (Started (Command $"just" [$"build"] $"/w/app/sub"), [AuditRecord true $"build" NoMessage]) /\
  below $"/w/app" $"/w/app/sub".
Proof.
  assert (Hserve : ServeRunner runner1 ∈ services1 None).
  { rewrite starts. apply list_elem_of_further, list_elem_of_further, list_elem_of_further, list_elem_of_here. }
  assert (Habs : is_abs (resolve_root PlanBuilder.Example_.host1 (q_repo_dir PlanBuilder.Example_.request1)) = true)
    by (vm_compute; reflexivity).
  assert (H : handle_stream (fun _ => job1) host2 (daemon_config runner1 true) (Some [])
    = (Started (Command $"just" [$"build"] $"/w/app/sub"), [AuditRecord true $"build" NoMessage])) by (vm_compute; reflexivity).
  split; [exact H|].
  pose proof (delegation_end_to_end PlanBuilder.Example_.ranges PlanBuilder.Example_.ranges PlanBuilder.Example_.host1
              no_files bind_all (fun _ => job1) host2 PlanBuilder.Example_.request1 (fst PlanBuilder.Example_.run1)
              PlanBuilder.Example_.plan1 PlanBuilder.Example_.user1 None false true None None [] None runner1 (Some [])
              (Command $"just" [$"build"] $"/w/app/sub") [AuditRecord true $"build" NoMessage]) as Hend.
  specialize (Hend Habs PlanBuilder.Example_.run1_ok (or_introl eq_refl) Hserve H).
  cbv zeta in Hend. destruct Hend as (_ & _ & _ & _ & Hdir & _).
  destruct Hdir as [Hx|Hb]; [vm_compute in Hx; discriminate | exact Hb].
Defined.
Definition tr1 : transport := Transport (fun _ => None) (fun _ => false) (fun _ _ => true).
Lemma egress_end_to_end_witness :
  let net := Network (fun _ => [[1; 2; 3; 4]%Z]) (fun _ => true) (fun _ _ => None) in
  let cfg := ProxyCfg [$"github.com"] policy1 [] in
  exists c log,
    ProxyServer.handle_stream tr1 net (fun _ => []) (egress_server cfg (Some (run [] [])) 0)
      (Some (ProxyServer.Request $"GET" $"/" $"github.com" [])) = Some (ProxyServer.Forwarded $"github.com" c, log) /\
    Match $"github.com" [$"github.com"] = Allow.
Proof.
  intros net cfg.
  assert (Hserve : ServeProxy cfg ∈ services1 None).
  { rewrite starts. apply list_elem_of_further, list_elem_of_here. }
  assert (Hclock : ordered [] 0) by (split; constructor).
  assert (H : ProxyServer.handle_stream tr1 net (fun _ => []) (egress_server cfg (Some (run [] [])) 0)
                (Some (ProxyServer.Request $"GET" $"/" $"github.com" []))
              = Some (ProxyServer.Forwarded $"github.com" (Direct $"1.2.3.4:80"), [AuditEvent true $"github.com"])) by (vm_compute; reflexivity).
  exists (Direct $"1.2.3.4:80"), [AuditEvent true $"github.com"]. split; [exact H|].
  pose proof (egress_end_to_end PlanBuilder.Example_.ranges PlanBuilder.Example_.ranges PlanBuilder.Example_.host1
              no_files bind_all tr1 net (fun _ => []) PlanBuilder.Example_.request1 (fst PlanBuilder.Example_.run1)
              PlanBuilder.Example_.plan1 PlanBuilder.Example_.user1 None false None None [] None cfg [] 0
              (ProxyServer.Request $"GET" $"/" $"github.com" []) (ProxyServer.Forwarded $"github.com" (Direct $"1.2.3.4:80"))
              (Direct $"1.2.3.4:80") [AuditEvent true $"github.com"]) as Hend.
  specialize (Hend PlanBuilder.Example_.run1_ok Hserve Hclock H eq_refl).
  destruct Hend as (r & policy & Hr & _ & [Hm|(a & port & t' & name & ips & x & ep & n & _ & Hin & _)] & _).
  - injection (eq_trans (eq_sym PlanBuilder.Example_.loaded1) Hr) as <-. exact Hm.
  - by apply not_elem_of_nil in Hin.
Defined.
End Example_.
