(* ===== verification/CliRun.v ===== *)
(** The command [keg run]: [cmd/keg/run.go].

    The flags come parsed from the command-line library; [run_plan] is what
    [runAction] makes of them and of the configuration, [run_action] the whole
    command up to the exit code.  [keg_plan] of [Facade] is the same plan made
    by the library, and the two are compared. *)
From S2P Require Import GoStrings GoPath ConfigTypes ConfigExpand ConfigMerge Matcher Whitelist Justfile Templates BwrapArgs GuestEnv Ports PlanBuilder AuditLog Services Launch Facade.
Local Open Scope go_scope.

(** * Flags *)
Inductive flag_err :=
  | EmptyEntry
  | EmptyName (entry : gostring)
  | WantKeyValue (entry : gostring)
  | BadPort (e : port_err)
  | EmptyPart (entry : gostring)
  | BadNetwork (part : gostring) (e : policy_err).
Definition remove_string (k : gostring) (l : list gostring) : list gostring := List.filter (fun s => negb (seqb s k)) l.
(** One turn of the loop of [parseEnvFlag]. *)
Definition env_entry (host_env : gostring -> option gostring) (st : strmap * list gostring) (entry : gostring)
  : result flag_err (strmap * list gostring) :=
  let '(set_, inherit) := st in
  if is_empty entry then Err EmptyEntry
  else if has_prefix entry $"=" then Err (EmptyName entry)
  else match cut "=" entry with
       | Some (k, v) => Ok (<[k := v]> set_, remove_string k inherit)
       | None =>
           if smem entry HostDeniedEnvVars then
             Ok (match host_env entry with Some val => <[entry := val]> set_ | None => set_ end, remove_string entry inherit)
           else Ok (delete entry set_, if smem entry inherit then inherit else inherit ++ [entry])
       end.
Definition parse_env_flag (host_env : gostring -> option gostring) (entries : list gostring)
  : result flag_err (strmap * list gostring) := foldM_result (env_entry host_env) (∅, []) entries.
Definition parse_var_flags (entries : list gostring) : result flag_err strmap :=
  foldM_result (fun (out : strmap) entry =>
    if is_empty entry then Err EmptyEntry
    else match cut "=" entry with
         | None => Err (WantKeyValue entry)
         | Some (k, v) => if is_empty k then Err (EmptyName entry) else Ok (<[k := v]> out)
         end) ∅ entries.
Definition parse_publish_flags `{UnicodeCase} (entries : list gostring) : result flag_err (list port_spec) :=
  mapM_result (fun entry => map_err BadPort (parse_publish_flag entry)) entries.
Definition parse_forward_host_flags (entries : list gostring) : result flag_err (list forward_host_spec) :=
  mapM_result (fun entry => map_err BadPort (parse_forward_host_flag entry)) entries.
(** The two loops over the parts of an entry. *)
Definition parse_parts (check : gostring -> result flag_err unit) (entries : list gostring) : result flag_err (list gostring) :=
  foldM_result (fun out entry =>
    if is_empty entry then Err EmptyEntry
    else foldM_result (fun out part =>
           let part := trim_space part in
           if is_empty part then Err (EmptyPart entry)
           else _ ← check part; Ok (out ++ [part])) out (split "," entry)) [] entries.
Definition parse_sni_flags (entries : list gostring) : result flag_err (list gostring) :=
  parse_parts (fun _ => Ok tt) entries.
Definition parse_network_cidr_flags (entries : list gostring) : result flag_err (list gostring) :=
  parse_parts (fun part => map_err (BadNetwork part) (_ ← new_network_policy [part] [] false; Ok tt)) entries.

(** * The plan *)
Record run_flags := RunFlags {
  rf_repo : gostring; rf_config : gostring; rf_user_config : gostring;
  rf_ephemeral : bool; rf_disk_overlay : gostring; rf_isolate_caches : bool; rf_isolated_cache_name : gostring;
  rf_name : gostring; rf_env : list gostring; rf_var : list gostring; rf_publish : list gostring;
  rf_forward_host : list gostring; rf_allow_sni : list gostring; rf_allow_network : list gostring;
  rf_block_network : list gostring; rf_allow_all_network : bool; rf_inherit_all : bool; rf_verbose : bool;
  rf_args : list gostring }.
Inductive run_err :=
  | NoRepoDir
  | RunOverlaysExclusive
  | RunCachesExclusive
  | BadFlag (e : flag_err)
  | RunPlanFailed (e : plan_err)
  | RunBadNetworks (e : policy_err)
  | RunDomainsFailed (e : plan_err)
  | RunPortsFailed (e : plan_err)
  | RunLaunchFailed (e : launch_err)
  | WaitFailed.
(** The flags of [keg run] after their own parsing. *)
Record parsed_flags := ParsedFlags {
  pf_set : strmap; pf_inherit : list gostring; pf_vars : strmap; pf_ports : list port_spec;
  pf_forward : list forward_host_spec; pf_sni : list gostring; pf_allow : list gostring; pf_block : list gostring }.
Definition with_env (b : plan) (env : strmap) (inherit : list gostring) (all : bool) (cmd : list gostring) : plan :=
  Plan (repo_root b) (sandbox_home b) (resolv_conf b) (hosts_file b) (secret_dir b) (secret_path_binds b) (mounts b)
    (env_unset_vars b) env inherit all (bwrap_args b) (p_allow_weak b) (p_overlay b) (disk_layer_rw b) (disk_layer_work b)
    (self_exe b) (enable_runner b) (extra_dirs b) (prepend_dirs b) (append_dirs b) (seccomp_fd b) cmd.
Definition with_lists (p : full_plan) (b : plan) (allow block : list gostring) (ports : list resolved_port)
    (forward : list forward_host_spec) : full_plan :=
  FullPlan b (fp_repo_cfg p) (fp_tmp_dir p) (fp_instance p) (fp_sni p) allow block (fp_tcp p) (fp_dns p)
    (fp_transparent p) ports forward (fp_tasks p) (fp_runner p) (fp_hooks_dir p) (fp_audit_file p)
    (fp_upstream_proxy p) (fp_secrets p) (fp_sources p) (fp_secret_ctx p) (fp_landlock p) (fp_seccomp p).
(** The environment of a plan, and the command, replaced. *)
Definition set_env (p : full_plan) (env : strmap) : full_plan :=
  let b := fp_bwrap p in
  with_lists p (with_env b env (env_inherit_vars b) (inherit_all b) (p_command b)) (fp_allow p) (fp_block p) (fp_ports p) (fp_forward p).
Definition default_command : list gostring := [$"/bin/bash"; $"-i"].

Section run.
Context `{TemplateLib, UnicodeCase, Regexp, MapRange gostring, MapRange secret_source, MapRange exec_source}.
Context (order1 order2 : MapRange repo_override) (marshal : env_keep_marker -> option gostring).
Definition parse_run_flags (h : PlanBuilder.host) (fl : run_flags) : result flag_err parsed_flags :=
  '(set_, inherit) ← parse_env_flag (PlanBuilder.lookup_env h) (rf_env fl);
  vars ← parse_var_flags (rf_var fl);
  ports ← parse_publish_flags (rf_publish fl);
  forward ← parse_forward_host_flags (rf_forward_host fl);
  sni ← parse_sni_flags (rf_allow_sni fl);
  allow ← parse_network_cidr_flags (rf_allow_network fl);
  block ← parse_network_cidr_flags (rf_block_network fl);
  Ok (ParsedFlags set_ inherit vars ports forward sni allow block).
Definition run_request (repo_dir : gostring) (fl : run_flags) (vars : strmap) : request :=
  Request repo_dir (rf_config fl) (rf_user_config fl) (overlay_of (rf_ephemeral fl) (rf_disk_overlay fl)) (rf_disk_overlay fl)
    (overlay_of (rf_isolate_caches fl) (rf_isolated_cache_name fl)) (rf_isolated_cache_name fl) (rf_name fl) vars.
(** The assignments to the plan between [BuildPlan] and the command. *)
Definition add_environment (p : full_plan) (pf : parsed_flags) (inherit_all_flag : bool) : full_plan :=
  let b := fp_bwrap p in
  with_lists p (with_env b (pf_set pf ∪ env_set_vars b) (union_strings (env_inherit_vars b) (pf_inherit pf))
                  (inherit_all_flag || inherit_all b) (p_command b))
    (fp_allow p) (fp_block p) (fp_ports p) (fp_forward p).
Definition add_networks (p : full_plan) (allow block : list gostring) : result run_err full_plan :=
  if (0 <? length allow) || (0 <? length block) then
    '(a, b) ← map_err RunBadNetworks (add_network_cidrs (fp_allow p, fp_block p) allow block);
    Ok (with_lists p (fp_bwrap p) a b (fp_ports p) (fp_forward p))
  else Ok p.
Definition add_domains (h : PlanBuilder.host) (p : full_plan) (sni : list gostring) : result run_err full_plan :=
  if 0 <? length sni then map_err RunDomainsFailed (snd (add_sni_domains h p sni)) else Ok p.
Definition publish (h : PlanBuilder.host) (p : full_plan) (specs : list port_spec) : result run_err full_plan :=
  if 0 <? length specs then
    '(ports, env) ← map_err RunPortsFailed (snd (add_ports h specs (fp_ports p) (env_set_vars (fp_bwrap p))));
    let p := set_env p env in Ok (with_lists p (fp_bwrap p) (fp_allow p) (fp_block p) ports (fp_forward p))
  else Ok p.
Definition add_forwards (p : full_plan) (specs : list forward_host_spec) : full_plan :=
  if 0 <? length specs then
    let forward := fp_forward p ++ specs in
    let p := set_env p (<[EnvForwardHosts := format_forward_hosts forward]> (env_set_vars (fp_bwrap p))) in
    with_lists p (fp_bwrap p) (fp_allow p) (fp_block p) (fp_ports p) forward
  else p.
Definition set_command (p : full_plan) (args : list gostring) : full_plan :=
  let b := fp_bwrap p in
  with_lists p (with_env b (env_set_vars b) (env_inherit_vars b) (inherit_all b)
                  (if length args =? 0 then default_command else args)) (fp_allow p) (fp_block p) (fp_ports p) (fp_forward p).
(** [runAction] up to the command; [getwd] is the working directory. *)
Definition run_plan (h : PlanBuilder.host) (getwd : option gostring) (fl : run_flags) : result run_err (full_plan * user) :=
  repo_dir ← (if is_empty (rf_repo fl) then from_option_err NoRepoDir getwd else Ok (rf_repo fl));
  if rf_ephemeral fl && negb (is_empty (rf_disk_overlay fl)) then Err RunOverlaysExclusive
  else if rf_isolate_caches fl && negb (is_empty (rf_isolated_cache_name fl)) then Err RunCachesExclusive
  else
    pf ← map_err BadFlag (parse_run_flags h fl);
    '(p, u) ← map_err RunPlanFailed (snd (build_plan order1 order2 h (run_request repo_dir fl (pf_vars pf))));
    p ← add_networks (add_environment p pf (rf_inherit_all fl)) (pf_allow pf) (pf_block pf);
    p ← add_domains h p (pf_sni pf);
    p ← publish h p (pf_ports pf);
    Ok (set_command (add_forwards p (pf_forward pf)) (rf_args fl), u).

(** * The command *)
(** The operating system; [rw_wait] is the exit code, [None] an error of
    [Wait]. *)
Record run_world := RunWorld {
  rw_world : keg_world; rw_getwd : option gostring; rw_wait : option Z }.
(** How the command ends.  The process exits with the code without running
    what is deferred: the sandbox stays as it is. *)
Inductive run_result :=
  | RunExits (code : Z) (s : sandbox) (services : result svc_err unit)
  | RunFails (e : run_err)
  | RunPanics.
(** The audit file: an error in opening it is dropped like one in making its
    directory. *)
Definition run_audit (w : keg_world) (p : full_plan) : bool :=
  negb (is_empty (fp_audit_file p)) && kw_mkdir w (path_dir (fp_audit_file p)) && kw_open_audit w (fp_audit_file p).
Definition run_logger (w : keg_world) (p : full_plan) (verbose : bool) : audit_logger :=
  AuditLogger (run_audit w p) verbose (or_else (fp_instance p) (path_base (repo_root (fp_bwrap p)))).
Definition run_action (rw : run_world) (fl : run_flags) : run_result :=
  let w := rw_world rw in
  match run_plan (kw_host w) (rw_getwd rw) fl with
  | Err e => RunFails e
  | Ok (p, u) =>
      let lp := LaunchPlan p (rf_allow_all_network fl) (Some facade_writer) in
      match launch (kw_fs w) marshal (kw_launch w) [] lp (kw_attempts w) with
      | Panicked => RunPanics
      | Failed e => RunFails (RunLaunchFailed e)
      | Launched s exit =>
          let '(s, r) := start_background_services (kw_fs w) (kw_bind w) lp (Some u) (Some facade_writer)
                           (with_death (kw_late_death w) s) in
          match rw_wait rw with
          | None => RunFails WaitFailed
          | Some code => RunExits code s r
          end
      end
  end.
End run.

(** * Specification of the environment flag *)
(** The variable an entry is about. *)
Definition entry_name (entry : gostring) : gostring := match cut "=" entry with Some (k, _) => k | None => entry end.
Definition well_formed_entry (entry : gostring) : Prop := entry_name entry <> [].
(** What an entry does to the assignments: nothing, an assignment, or the
    removal of one. *)
Definition entry_effect (host_env : gostring -> option gostring) (entry : gostring) : option (option gostring) :=
  match cut "=" entry with
  | Some (_, v) => Some (Some v)
  | None => if smem entry HostDeniedEnvVars then Some <$> host_env entry else Some None
  end.
(** An entry that asks for the value at the start of the sandbox. *)
Definition asks_inherit (entry : gostring) : bool :=
  match cut "=" entry with Some _ => false | None => negb (smem entry HostDeniedEnvVars) end.
(** The last entry about [k]. *)
Definition last_about (k : gostring) (entries : list gostring) : option gostring :=
  last (filter (fun e => entry_name e = k) entries).
Definition value_of (host_env : gostring -> option gostring) (k : gostring) (entries : list gostring) : option gostring :=
  default None (last (omap (entry_effect host_env) (filter (fun e => entry_name e = k) entries))).

(** * Lemmas *)
Lemma last_about_snoc k l e : last_about k (l ++ [e]) = if decide (entry_name e = k) then Some e else last_about k l.
Proof.
  unfold last_about. rewrite filter_app, filter_cons, filter_nil. destruct (decide _); [by rewrite last_snoc|].
  by rewrite app_nil_r.
Qed.
Lemma value_of_snoc host k l e :
  value_of host k (l ++ [e]) =
    if decide (entry_name e = k) then match entry_effect host e with Some r => r | None => value_of host k l end
    else value_of host k l.
Proof.
  unfold value_of. rewrite filter_app, filter_cons, filter_nil. destruct (decide _); [|by rewrite app_nil_r].
  rewrite omap_app. cbn. destruct (entry_effect host e); [by rewrite last_snoc | by rewrite app_nil_r].
Qed.
Lemma elem_remove_string x k l : x ∈ remove_string k l <-> x ∈ l /\ x <> k.
Proof.
  unfold remove_string. rewrite list_elem_of_In, filter_In, <- list_elem_of_In.
  rewrite negb_true_iff, seqb_neq. done.
Qed.
Lemma NoDup_remove_string k l : NoDup l -> NoDup (remove_string k l).
Proof. rewrite !NoDup_ListNoDup. apply List.NoDup_filter. Qed.
(** What the loop has computed after some entries. *)
Definition env_state (host : gostring -> option gostring) (entries : list gostring) (st : strmap * list gostring) : Prop :=
  (forall k, fst st !! k = value_of host k entries) /\ NoDup (snd st) /\
  (forall k, k ∈ snd st <-> exists e, last_about k entries = Some e /\ asks_inherit e = true).
Lemma env_entry_step host entries st entry :
  env_state host entries st ->
  match env_entry host st entry with
  | Ok st' => well_formed_entry entry /\ env_state host (entries ++ [entry]) st'
  | Err _ => ~ well_formed_entry entry
  end.
Proof.
  intros (Hset & Hnd & Hin). destruct st as [set_ inherit]. cbn [fst snd] in *. unfold env_entry, well_formed_entry.
  destruct (is_empty entry) eqn:He; [apply is_empty_true in He as ->; by intros []|]. apply is_empty_false in He.
  assert (Hcut : has_prefix entry $"=" = true <-> exists v, cut "=" entry = Some ([], v)).
  { rewrite has_prefix_true. setoid_rewrite cut_some. split; [intros [t ->] | intros (t & -> & _)]; exists t; [|done].
    split; [done | by intros ?%not_elem_of_nil]. }
  destruct (has_prefix entry $"=") eqn:Hpre.
  { destruct (proj1 Hcut eq_refl) as [v Hv]. unfold entry_name. rewrite Hv. by intros []. }
  assert (Hname : entry_name entry <> []).
  { unfold entry_name. destruct (cut "=" entry) as [[k v]|] eqn:Hc; [|done]. intros ->.
    assert (false = true) by (apply Hcut; by exists v). done. }
  assert (Hstep : forall set' inherit',
    (forall k, set' !! k = if decide (entry_name entry = k)
                           then match entry_effect host entry with Some r => r | None => set_ !! k end else set_ !! k) ->
    NoDup inherit' ->
    (forall k, k ∈ inherit' <-> if decide (entry_name entry = k) then asks_inherit entry = true else k ∈ inherit) ->
    entry_name entry <> [] /\ env_state host (entries ++ [entry]) (set', inherit')).
  { intros set' inherit' Hs' Hn' Hi'. split; [done|]. split_and!; [|done|]; intros k; cbn [fst snd].
    - rewrite value_of_snoc, Hs', Hset. done.
    - rewrite last_about_snoc, Hi'. destruct (decide _); [|apply Hin]. split; [by exists entry | by intros (? & [= <-] & ?)]. }
  unfold entry_effect, asks_inherit, entry_name in Hstep |- *. destruct (cut "=" entry) as [[k v]|] eqn:Hc.
  - apply Hstep; [|by apply NoDup_remove_string|].
    + intros x. destruct (decide (k = x)) as [->|]; [apply lookup_insert_eq | by apply lookup_insert_ne].
    + intros x. rewrite elem_remove_string. destruct (decide (k = x)) as [->|]; [|naive_solver]. split; [tauto | done].
  - destruct (smem entry HostDeniedEnvVars); cbn [negb] in Hstep; apply Hstep.
    + intros x. destruct (host entry) as [val|]; cbn; [|by destruct (decide _)].
      destruct (decide (entry = x)) as [->|]; [apply lookup_insert_eq | by apply lookup_insert_ne].
    + by apply NoDup_remove_string.
    + intros x. rewrite elem_remove_string. destruct (decide (entry = x)) as [->|]; [|naive_solver]. split; [tauto | done].
    + intros x. destruct (decide (entry = x)) as [->|]; [apply lookup_delete_eq | by apply lookup_delete_ne].
    + destruct (smem entry inherit) eqn:Hm; [done|]. apply smem_false in Hm. apply NoDup_app. split_and!; [done | | apply NoDup_singleton].
      intros x Hx ->%list_elem_of_singleton. done.
    + intros x. destruct (smem entry inherit) eqn:Hm.
      * apply smem_true in Hm. destruct (decide (entry = x)) as [<-|]; [tauto | done].
      * rewrite elem_of_app, list_elem_of_singleton. destruct (decide (entry = x)) as [<-|]; naive_solver.
Qed.
Lemma parse_env_flag_spec host entries :
  match parse_env_flag host entries with
  | Ok st => Forall well_formed_entry entries /\ env_state host entries st
  | Err _ => ~ Forall well_formed_entry entries
  end.
Proof.
  unfold parse_env_flag. induction entries as [|e entries IH] using rev_ind.
  - cbn. split; [constructor|]. split_and!; [done | constructor|]. intros k. split; [by intros ?%not_elem_of_nil | by intros (e & ? & _)].
  - rewrite foldM_result_app. destruct (foldM_result _ _ entries) as [st|err] eqn:Hf; cbn [mbind result_bind].
    + destruct IH as [Hwf Hst]. pose proof (env_entry_step host entries st e Hst) as Hstep. cbn [foldM_result].
      destruct (env_entry host st e) as [st'|err']; cbn [mbind result_bind foldM_result].
      * split; [|apply Hstep]. apply Forall_app. split; [done|]. constructor; [apply Hstep | constructor].
      * intros [_ Hx]%Forall_app. apply Hstep. by inversion Hx.
    + intros [Hx _]%Forall_app. done.
Qed.

Lemma last_filter_inv {A} (P : A -> Prop) `{!forall x, Decision (P x)} l e : last (filter P l) = Some e -> P e.
Proof. intros He%last_Some_elem_of. by apply list_elem_of_filter in He as [? _]. Qed.
Lemma inherit_not_set host k entries e :
  last_about k entries = Some e -> asks_inherit e = true -> k ∉ HostDeniedEnvVars /\ value_of host k entries = None.
Proof.
  intros Hl Ha. pose proof (last_filter_inv _ _ _ Hl) as Hk. unfold asks_inherit, entry_name in *.
  destruct (cut "=" e) as [[x v]|] eqn:Hc; [done|]. subst k. apply negb_true_iff, smem_false in Ha. split; [done|].
  unfold value_of. unfold last_about in Hl. apply last_Some in Hl as [l ->]. rewrite omap_app. cbn.
  unfold entry_effect. rewrite Hc, (proj2 (smem_false _ _) Ha). by rewrite last_snoc.
Qed.

(** ** The additions to a plan *)
(** What no flag of the command touches once the plan is built. *)
Definition untouched (p p0 : full_plan) : Prop :=
  (fp_repo_cfg p, fp_tmp_dir p, fp_instance p, fp_tcp p, fp_transparent p, fp_tasks p, fp_runner p, fp_hooks_dir p)
  = (fp_repo_cfg p0, fp_tmp_dir p0, fp_instance p0, fp_tcp p0, fp_transparent p0, fp_tasks p0, fp_runner p0, fp_hooks_dir p0) /\
  (fp_audit_file p, fp_upstream_proxy p, fp_secrets p, fp_sources p, fp_secret_ctx p, fp_landlock p, fp_seccomp p)
  = (fp_audit_file p0, fp_upstream_proxy p0, fp_secrets p0, fp_sources p0, fp_secret_ctx p0, fp_landlock p0, fp_seccomp p0) /\
  let b := fp_bwrap p in let b0 := fp_bwrap p0 in
  (repo_root b, sandbox_home b, secret_dir b, secret_path_binds b, mounts b, env_unset_vars b, bwrap_args b, p_allow_weak b)
  = (repo_root b0, sandbox_home b0, secret_dir b0, secret_path_binds b0, mounts b0, env_unset_vars b0, bwrap_args b0, p_allow_weak b0) /\
  (p_overlay b, disk_layer_rw b, disk_layer_work b, self_exe b, enable_runner b, extra_dirs b, prepend_dirs b, append_dirs b, seccomp_fd b)
  = (p_overlay b0, disk_layer_rw b0, disk_layer_work b0, self_exe b0, enable_runner b0, extra_dirs b0, prepend_dirs b0, append_dirs b0, seccomp_fd b0).
(** The parts that flags change, but for the DNS channel. *)
Definition env_of (p : full_plan) : strmap := env_set_vars (fp_bwrap p).
Definition lists_of (p : full_plan) := (fp_allow p, fp_block p, fp_ports p, fp_forward p).
Definition inherits (p : full_plan) := (env_inherit_vars (fp_bwrap p), inherit_all (fp_bwrap p)).
#[export] Instance untouched_preorder : PreOrder untouched.
Proof.
  split; [by intros p | intros p1 p2 p3 (H1 & H2 & H3 & H4) (K1 & K2 & K3 & K4)]. repeat split; etransitivity; eassumption.
Qed.

Section plan_lemmas.
Context `{TemplateLib, UnicodeCase, Regexp, MapRange gostring, MapRange secret_source, MapRange exec_source}.
Context (order1 order2 : MapRange repo_override) (marshal : env_keep_marker -> option gostring).
Lemma add_networks_ok p allow block p' :
  add_networks p allow block = Ok p' ->
  untouched p' p /\ env_of p' = env_of p /\ inherits p' = inherits p /\ fp_sni p' = fp_sni p /\ fp_dns p' = fp_dns p /\
  (fp_ports p', fp_forward p') = (fp_ports p, fp_forward p) /\
  (forall x, x ∈ fp_allow p' <-> x ∈ fp_allow p \/ x ∈ allow) /\ (forall x, x ∈ fp_block p' <-> x ∈ fp_block p \/ x ∈ block).
Proof.
  unfold add_networks. destruct ((0 <? length allow) || (0 <? length block)) eqn:Hl.
  - intros ([a b] & Hn%map_err_ok & [= <-])%bind_ok_inv. unfold add_network_cidrs in Hn.
    apply bind_ok_inv in Hn as (pol & _ & [= <- <-]). split_and!; try done; intros x; apply union_strings_elem.
  - intros [= <-]. split_and!; try done; destruct allow, block; try done; set_solver.
Qed.
Lemma add_domains_ok h p sni p' :
  add_domains h p sni = Ok p' ->
  untouched p' p /\ inherits p' = inherits p /\ lists_of p' = lists_of p /\
  (forall x, x ∈ fp_sni p' <-> x ∈ fp_sni p \/ x ∈ sni) /\ dns_added p sni p' /\
  forall k, env_of p' !! k =
    first_of [if (0 <? length sni) && negb (fp_transparent p) then proxy_env (fp_sni p') !! k else None; env_of p !! k].
Proof.
  unfold add_domains. destruct sni as [|x sni]; cbn [length Nat.ltb Nat.leb andb].
  { intros [= <-]. split_and!; try done; [set_solver | | intros k; cbn; by destruct (env_of p !! k)].
    unfold dns_added. destruct (fp_dns p) as [d|]; [|done]. exists d. set_solver. }
  intros Ha%map_err_ok. destruct (add_sni_domains h p (x :: sni)) as [t r] eqn:Hs. cbn in Ha. subst r.
  pose proof (add_sni_domains_ok h p _ t p' Hs) as (_ & Hd & _ & _ & Hsni & _). unfold add_sni_domains in Hs.
  cbn [length Nat.eqb] in Hs. cbv zeta in Hs.
  assert (Henv : forall k, (if negb (fp_transparent p) then proxy_env (union_strings (fp_sni p) (x :: sni)) ∪ env_of p else env_of p) !! k
    = first_of [if negb (fp_transparent p) then proxy_env (union_strings (fp_sni p) (x :: sni)) !! k else None; env_of p !! k]).
  { intros k. destruct (negb _); [rewrite lookup_union | cbn; by destruct (env_of p !! k)].
    by destruct (proxy_env _ !! k), (env_of p !! k). }
  destruct (fp_dns p) as [d|].
  { apply mret_ok_inv in Hs as [_ <-]. by split_and!. }
  assert (Hne : (0 <? length (union_strings (fp_sni p) (x :: sni))) = true).
  { apply Nat.ltb_lt. assert (Hx : x ∈ union_strings (fp_sni p) (x :: sni)) by (rewrite union_strings_elem; set_solver).
    destruct (union_strings _ _); [by apply not_elem_of_nil in Hx | cbn; lia]. }
  rewrite Hne in Hs. apply io_ok_inv in Hs as ([rc hf] & t1 & t2 & _ & [_ <-]%mret_ok_inv & _). by split_and!.
Qed.
Lemma publish_plan_ok h p specs p' :
  publish h p specs = Ok p' ->
  untouched p' p /\ inherits p' = inherits p /\ fp_sni p' = fp_sni p /\ fp_dns p' = fp_dns p /\
  (fp_allow p', fp_block p', fp_forward p') = (fp_allow p, fp_block p, fp_forward p) /\
  exists resolved, fp_ports p' = fp_ports p ++ resolved /\
    (if length specs =? 0 then resolved = [] else resolve specs (Some (h_alloc h)) = Ok resolved) /\
    forall k, env_of p' !! k =
      first_of [only_for k EnvPortsForward (0 <? length specs) (format_allowed (fp_ports p')); port_env resolved !! k; env_of p !! k].
Proof.
  unfold publish. destruct specs as [|s specs]; cbn [length Nat.ltb Nat.leb Nat.eqb].
  { intros [= <-]. split_and!; try done. exists []. rewrite app_nil_r. split_and!; try done. intros k.
    unfold only_for. rewrite andb_false_r. cbn. by destruct (env_of p !! k). }
  intros ([ports env] & Ha%map_err_ok & [= <-])%bind_ok_inv. destruct (add_ports h (s :: specs) _ _) as [t r] eqn:Hr.
  cbn in Ha. subst r. split_and!; try done. unfold add_ports in Hr. cbn [length Nat.eqb] in Hr.
  apply io_ok_inv in Hr as ([] & t1 & t2 & _ & Hr & _). apply io_ok_inv in Hr as (resolved & t3 & t4 & Hl & [_ [= <- <-]]%mret_ok_inv & _).
  apply lift_ok_inv in Hl as [_ Hl]. exists resolved. split_and!; [done | done|]. intros k.
  pose proof (insert_if_lookup (port_env resolved ∪ env_of p) k EnvPortsForward (format_allowed (fp_ports p ++ resolved)) true) as Hk.
  etransitivity; [exact Hk|]. rewrite lookup_union. cbn [first_of fp_ports with_lists].
  change (0 <? length (s :: specs)) with true. destruct (only_for _ _ _ _); [done|].
  by destruct (port_env resolved !! k), (env_of p !! k).
Qed.
Lemma add_forwards_ok p specs :
  let p' := add_forwards p specs in
  untouched p' p /\ inherits p' = inherits p /\ fp_sni p' = fp_sni p /\ fp_dns p' = fp_dns p /\
  (fp_allow p', fp_block p', fp_ports p') = (fp_allow p, fp_block p, fp_ports p) /\ fp_forward p' = fp_forward p ++ specs /\
  forall k, env_of p' !! k =
    first_of [only_for k EnvForwardHosts (0 <? length specs) (format_forward_hosts (fp_forward p')); env_of p !! k].
Proof.
  unfold add_forwards. destruct specs as [|s specs]; cbn [length Nat.ltb Nat.leb].
  { cbn zeta. rewrite app_nil_r. split_and!; try done. intros k. unfold only_for. rewrite andb_false_r. cbn. by destruct (env_of p !! k). }
  cbn zeta. split_and!; try done. intros k.
  pose proof (insert_if_lookup (env_of p) k EnvForwardHosts (format_forward_hosts (fp_forward p ++ s :: specs)) true) as Hk.
  etransitivity; [exact Hk|]. cbn [first_of fp_forward with_lists]. change (0 <? length (s :: specs)) with true.
  destruct (only_for _ _ _ _); [done|]. by destruct (env_of p !! k).
Qed.
Lemma parse_run_flags_ok h fl pf :
  parse_run_flags h fl = Ok pf ->
  parse_env_flag (PlanBuilder.lookup_env h) (rf_env fl) = Ok (pf_set pf, pf_inherit pf) /\
  parse_var_flags (rf_var fl) = Ok (pf_vars pf) /\ parse_publish_flags (rf_publish fl) = Ok (pf_ports pf) /\
  parse_forward_host_flags (rf_forward_host fl) = Ok (pf_forward pf) /\ parse_sni_flags (rf_allow_sni fl) = Ok (pf_sni pf) /\
  parse_network_cidr_flags (rf_allow_network fl) = Ok (pf_allow pf) /\
  parse_network_cidr_flags (rf_block_network fl) = Ok (pf_block pf).
Proof.
  unfold parse_run_flags. intros ([set_ inh] & -> & (vars & -> & (ports & -> & (fwd & -> & (sni & -> & (al & -> & (bl & -> & Hp
    )%bind_ok_inv)%bind_ok_inv)%bind_ok_inv)%bind_ok_inv)%bind_ok_inv)%bind_ok_inv)%bind_ok_inv. by injection Hp as <-.
Qed.

(** ** The command and the library *)
(** The options of the library that say the same as the flags. *)
Definition library_options (fl : run_flags) (pf : parsed_flags) : list keg_option :=
  [WithRepoConfig (rf_config fl); WithUserConfig (rf_user_config fl); WithDiskOverlay (rf_disk_overlay fl);
   WithIsolatedCacheName (rf_isolated_cache_name fl); WithName (rf_name fl)]
  ++ (if rf_ephemeral fl then [WithEphemeral] else []) ++ (if rf_isolate_caches fl then [WithIsolateCaches] else [])
  ++ (if rf_allow_all_network fl then [WithAllowAllNetwork] else [])
  ++ [WithCommand (if length (rf_args fl) =? 0 then default_command else rf_args fl);
      WithAllowSNI (pf_sni pf); WithAllowNetwork (pf_allow pf); WithBlockNetwork (pf_block pf)].
Lemma apply_library_options fl pf :
  apply_options (library_options fl pf) =
  ConfigOptions (rf_config fl) (rf_user_config fl) (rf_ephemeral fl) (rf_disk_overlay fl) (rf_isolate_caches fl)
    (rf_isolated_cache_name fl) (rf_name fl) [] (if length (rf_args fl) =? 0 then default_command else rf_args fl)
    (pf_sni pf) (pf_allow pf) (pf_block pf) (rf_allow_all_network fl).
Proof.
  unfold apply_options, library_options. by destruct (rf_ephemeral fl), (rf_isolate_caches fl), (rf_allow_all_network fl).
Qed.
(** The flags that the library has no option for are not used. *)
Record library_flags (fl : run_flags) : Prop := LibraryFlags {
  lf_env : rf_env fl = []; lf_var : rf_var fl = []; lf_publish : rf_publish fl = []; lf_forward : rf_forward_host fl = [];
  lf_inherit : rf_inherit_all fl = false; lf_repo : rf_repo fl <> [] }.
Lemma library_flags_parsed h fl pf :
  library_flags fl -> parse_run_flags h fl = Ok pf ->
  pf_set pf = ∅ /\ pf_inherit pf = [] /\ pf_vars pf = ∅ /\ pf_ports pf = [] /\ pf_forward pf = [].
Proof.
  intros [He Hv Hp Hf _ _] (E & V & P & F & _)%parse_run_flags_ok. rewrite He in E. rewrite Hv in V. rewrite Hp in P. rewrite Hf in F.
  cbn in E, V, P, F. injection E as <- <-. injection V as <-. injection P as <-. by injection F as <-.
Qed.
Lemma add_environment_nothing p pf : pf_set pf = ∅ -> pf_inherit pf = [] -> add_environment p pf false = p.
Proof.
  intros Hs Hi. unfold add_environment. rewrite Hs, Hi, (left_id_L ∅ (∪)). by destruct p as [[]].
Qed.
Definition relisted (a b : list gostring) (p : full_plan) : full_plan := with_lists p (fp_bwrap p) a b (fp_ports p) (fp_forward p).
Lemma add_domains_relisted h p sni a b :
  add_domains h (relisted a b p) sni = (p ← add_domains h p sni; Ok (relisted a b p)).
Proof.
  unfold add_domains. destruct (0 <? length sni); [|done]. unfold add_sni_domains. destruct (length sni =? 0); [done|].
  cbv zeta. cbn [relisted with_lists fp_dns fp_sni fp_bwrap fp_transparent fp_tmp_dir fp_tcp].
  destruct (fp_dns p) as [d|]; [done|]. destruct (0 <? _); [|done].
  destruct (write_dns_files h (fp_tmp_dir p) ∅) as [t [[rc hf]|e]]; [|done]. by destruct p as [[]].
Qed.
Lemma run_plan_library h getwd fl pf :
  library_flags fl -> parse_run_flags h fl = Ok pf ->
  rf_ephemeral fl && negb (is_empty (rf_disk_overlay fl)) = false ->
  rf_isolate_caches fl && negb (is_empty (rf_isolated_cache_name fl)) = false ->
  match keg_plan order1 order2 h (rf_repo fl) (apply_options (library_options fl pf)) with
  | Ok r => run_plan order1 order2 h getwd fl = Ok r
  | Err _ => is_ok (run_plan order1 order2 h getwd fl) = false
  end.
Proof.
  intros Hf Hpf He Hc. destruct (library_flags_parsed h fl pf Hf Hpf) as (Hset & Hinh & Hvars & Hports & Hfwd).
  rewrite apply_library_options. unfold run_plan, keg_plan. rewrite (proj2 (is_empty_false (rf_repo fl))) by apply Hf.
  cbn [mbind result_bind]. rewrite He, Hc, Hpf. cbn [map_err mbind result_bind]. rewrite (lf_inherit fl Hf), Hvars.
  change (request_of _ _) with (run_request (rf_repo fl) fl ∅).
  destruct (snd (build_plan order1 order2 h (run_request (rf_repo fl) fl ∅))) as [[p0 u]|e]; [|done].
  cbn [map_err mbind result_bind]. rewrite add_environment_nothing by done. unfold add_networks.
  cbn [co_allow_networks co_block_networks co_allow_sni co_audit_file co_command].
  assert (Hrest : forall a b,
    match (p ← (if 0 <? length (pf_sni pf) then map_err DomainsFailed (snd (add_sni_domains h p0 (pf_sni pf))) else Ok p0);
           Ok (with_additions p a b (or_else [] (fp_audit_file p))
                 (if 0 <? length (if length (rf_args fl) =? 0 then default_command else rf_args fl)
                  then (if length (rf_args fl) =? 0 then default_command else rf_args fl) else p_command (fp_bwrap p)), u)) with
    | Ok r => (p ← add_domains h (relisted a b p0) (pf_sni pf); p ← publish h p (pf_ports pf);
               Ok (set_command (add_forwards p (pf_forward pf)) (rf_args fl), u)) = Ok r
    | Err _ => is_ok (p ← add_domains h (relisted a b p0) (pf_sni pf); p ← publish h p (pf_ports pf);
                      Ok (set_command (add_forwards p (pf_forward pf)) (rf_args fl), u)) = false
    end).
  { intros a b. rewrite add_domains_relisted, Hports, Hfwd. unfold add_domains.
    assert (Hend : forall p1, set_command (relisted a b p1) (rf_args fl) =
      with_additions p1 a b (or_else [] (fp_audit_file p1))
        (if 0 <? length (if length (rf_args fl) =? 0 then default_command else rf_args fl)
         then (if length (rf_args fl) =? 0 then default_command else rf_args fl) else p_command (fp_bwrap p1))).
    { intros p1. by destruct (rf_args fl). }
    destruct (0 <? length (pf_sni pf)); cbn [mbind result_bind]; [|cbn; by rewrite <- Hend].
    destruct (snd (add_sni_domains h p0 (pf_sni pf))) as [p1|e]; cbn; [by rewrite <- Hend | done]. }
  destruct ((0 <? length (pf_allow pf)) || (0 <? length (pf_block pf))); cbn [mbind result_bind].
  - destruct (add_network_cidrs _ _ _) as [[a b]|e]; cbn [map_err mbind result_bind]; [apply Hrest | done].
  - specialize (Hrest (fp_allow p0) (fp_block p0)). replace (relisted (fp_allow p0) (fp_block p0) p0) with p0 in Hrest; [apply Hrest|].
    by destruct p0 as [[]].
Qed.

(** * Properties *)

(** the meaning of the environment flags.  They are refused exactly when
    an entry has an empty name.  Otherwise the last entry about a variable
    decides: NAME=value assigns the value and NAME asks for the value that the
    variable has at the start; a variable that must never be inherited is not,
    and asking for it by name assigns the host's value now, if there is one.
    Nothing is asked for twice. *)
Theorem environment_flags (host_env : gostring -> option gostring) (entries : list gostring) :
  match parse_env_flag host_env entries with
  | Err _ => ~ Forall well_formed_entry entries
  | Ok (set_, inherit) =>
      Forall well_formed_entry entries /\ NoDup inherit /\
      (forall k, set_ !! k = value_of host_env k entries) /\
      (forall k, k ∈ inherit <-> exists e, last_about k entries = Some e /\ asks_inherit e = true) /\
      (forall k, k ∈ inherit -> k ∉ HostDeniedEnvVars /\ set_ !! k = None)
  end.
Proof.
  pose proof (parse_env_flag_spec host_env entries) as Hs. destruct (parse_env_flag host_env entries) as [[set_ inherit]|e]; [|done].
  destruct Hs as (Hwf & Hset & Hnd & Hin). cbn [fst snd] in *. split_and!; try done.
  intros k (e & Hl & Ha)%Hin. rewrite Hset. by eapply inherit_not_set.
Qed.

(** what the flags of keg run can change.  When they are accepted the plan
    is the one that the configuration gives for the chosen overlays and
    variables, with the domains, networks, ports and forwards of the flags
    added to its lists, and with an environment in which the markers of the
    added channels come first, then the variables of new ports, the proxy
    settings of new domains, the assignments of the flags, and what the
    configuration says.  Mounts, tasks, secrets, bwrap arguments, overlays and
    the security modes are those of the configuration. *)
Theorem run_options_only_add (h : PlanBuilder.host) (getwd : option gostring) (fl : run_flags) (p : full_plan) (u : user)
    (Hrun : run_plan order1 order2 h getwd fl = Ok (p, u)) :
  exists dir pf t p0 resolved,
    (if is_empty (rf_repo fl) then getwd else Some (rf_repo fl)) = Some dir /\ parse_run_flags h fl = Ok pf /\
    build_plan order1 order2 h (run_request dir fl (pf_vars pf)) = (t, Ok (p0, u)) /\
    untouched p p0 /\ dns_added p0 (pf_sni pf) p /\
    (forall x, x ∈ fp_sni p <-> x ∈ fp_sni p0 \/ x ∈ pf_sni pf) /\
    (forall x, x ∈ fp_allow p <-> x ∈ fp_allow p0 \/ x ∈ pf_allow pf) /\
    (forall x, x ∈ fp_block p <-> x ∈ fp_block p0 \/ x ∈ pf_block pf) /\
    fp_ports p = fp_ports p0 ++ resolved /\
    (if length (pf_ports pf) =? 0 then resolved = [] else resolve (pf_ports pf) (Some (h_alloc h)) = Ok resolved) /\
    fp_forward p = fp_forward p0 ++ pf_forward pf /\
    inherit_all (fp_bwrap p) = rf_inherit_all fl || inherit_all (fp_bwrap p0) /\
    (forall k, k ∈ env_inherit_vars (fp_bwrap p) <-> k ∈ env_inherit_vars (fp_bwrap p0) \/ k ∈ pf_inherit pf) /\
    p_command (fp_bwrap p) = (if length (rf_args fl) =? 0 then default_command else rf_args fl) /\
    forall k, env_of p !! k =
      first_of [only_for k EnvForwardHosts (0 <? length (pf_forward pf)) (format_forward_hosts (fp_forward p));
                only_for k EnvPortsForward (0 <? length (pf_ports pf)) (format_allowed (fp_ports p));
                port_env resolved !! k;
                if (0 <? length (pf_sni pf)) && negb (fp_transparent p0) then proxy_env (fp_sni p) !! k else None;
                pf_set pf !! k; env_of p0 !! k].
Proof.
  unfold run_plan in Hrun. apply bind_ok_inv in Hrun as (dir & Hdir & Hrun).
  destruct (rf_ephemeral fl && _); [done|]. destruct (rf_isolate_caches fl && _); [done|].
  apply bind_ok_inv in Hrun as (pf & Hpf%map_err_ok & Hrun). apply bind_ok_inv in Hrun as ([p0 u0] & Hb%map_err_ok & Hrun).
  apply bind_ok_inv in Hrun as (p1 & Hp1 & Hrun). apply bind_ok_inv in Hrun as (p2 & Hp2 & Hrun).
  apply bind_ok_inv in Hrun as (p3 & Hp3 & [= <- <-]).
  destruct (build_plan order1 order2 h (run_request dir fl (pf_vars pf))) as [t r] eqn:Hbuild. cbn in Hb. subst r.
  pose proof (add_networks_ok _ _ _ _ Hp1) as (U1 & E1 & I1 & S1 & D1 & L1 & A1 & B1).
  pose proof (add_domains_ok _ _ _ _ Hp2) as (U2 & I2 & L2 & S2 & D2 & E2).
  pose proof (publish_plan_ok _ _ _ _ Hp3) as (U3 & I3 & S3 & D3 & L3 & resolved & P3 & R3 & E3).
  pose proof (add_forwards_ok p3 (pf_forward pf)) as (U4 & I4 & S4 & D4 & L4 & F4 & E4).
  set (p4 := add_forwards p3 (pf_forward pf)) in *. set (q := add_environment p0 pf (rf_inherit_all fl)) in *.
  assert (U0 : untouched q p0) by done. assert (U5 : untouched (set_command p4 (rf_args fl)) p4) by done.
  exists dir, pf, t, p0, resolved. split; [by destruct (is_empty _), getwd; try done; injection Hdir as <-|].
  do 2 (split; [done|]).
  assert (U : untouched (set_command p4 (rf_args fl)) p0) by (transitivity p4; [done|]; transitivity p3; [done|];
    transitivity p2; [done|]; transitivity p1; [done|]; by transitivity q).
  split; [exact U|].
  injection L1 as L1a L1b. injection L2 as L2a L2b L2c L2d. injection L3 as L3a L3b L3c. injection L4 as L4a L4b L4c.
  injection I1 as I1a I1b. injection I2 as I2a I2b. injection I3 as I3a I3b. injection I4 as I4a I4b.
  assert (T1 : fp_tcp p1 = fp_tcp p0) by (by injection (proj1 U1)).
  assert (T2 : fp_transparent p1 = fp_transparent p0) by (by injection (proj1 U1)).
  cbn [set_command with_lists fp_sni fp_allow fp_block fp_ports fp_forward fp_bwrap with_env inherit_all env_inherit_vars p_command].
  split_and!.
  - unfold dns_added in *. cbn [set_command with_lists fp_dns fp_sni]. rewrite D4, D3, S4, S3, <- T1.
    change (fp_dns p0) with (fp_dns q). rewrite <- D1. exact D2.
  - intros x. rewrite S4, S3, S2, S1. done.
  - intros x. rewrite L4a, L3a, L2a, A1. done.
  - intros x. rewrite L4b, L3b, L2b, B1. done.
  - rewrite L4c, P3, L2c, L1a. done.
  - exact R3.
  - rewrite F4, L3c, L2d, L1b. done.
  - rewrite I4b, I3b, I2b, I1b. done.
  - intros k. rewrite I4a, I3a, I2a, I1a. apply union_strings_elem.
  - done.
  - intros k. change (env_of (set_command p4 (rf_args fl))) with (env_of p4). cbn [set_command with_lists fp_forward fp_ports fp_sni].
    rewrite E4, E3, E2, E1, T2, L4c, S4, S3. change (env_of q) with (pf_set pf ∪ env_of p0). rewrite lookup_union. cbn [first_of].
    repeat (match goal with |- context [match ?o with Some _ => _ | None => _ end] => destruct o; [reflexivity|] end).
    by destruct (pf_set pf !! k), (env_of p0 !! k).
Qed.

(** C18: keg run and the library launch the same sandbox.  For flags that the
    library has options for, a repository and an audit file that can be
    opened, run_action panics when Launch of the library does, fails when it
    fails before the services, and otherwise ends with the exit code of the
    same sandbox; when the second start of the services fails the library
    closes the sandbox and returns the error, while the command prints it and
    goes on. *)
Theorem command_matches_library (rw : run_world) (fl : run_flags) (pf : parsed_flags) (Hfl : library_flags fl)
    (Hpf : parse_run_flags (kw_host (rw_world rw)) fl = Ok pf) (Hctx : kw_cancelled (rw_world rw) = false)
    (Haudit : forall file, kw_open_audit (rw_world rw) file = true) :
  let ended s r := match rw_wait rw with Some code => RunExits code s r | None => RunFails WaitFailed end in
  match keg_launch order1 order2 marshal (rw_world rw) (rf_repo fl) (library_options fl pf) with
  | KegRunning k => run_action order1 order2 marshal rw fl = ended (ks_sb k) (Ok tt)
  | KegFailed (ServicesFailed e) _ => exists s, run_action order1 order2 marshal rw fl = ended s (Err e)
  | KegFailed _ _ => exists e, run_action order1 order2 marshal rw fl = RunFails e
  | KegPanicked => run_action order1 order2 marshal rw fl = RunPanics
  end.
Proof.
  intros ended. unfold keg_launch, run_action. set (w := rw_world rw) in *. rewrite Hctx.
  destruct (rf_ephemeral fl && negb (is_empty (rf_disk_overlay fl))) eqn:He.
  { rewrite apply_library_options. cbn [co_ephemeral co_disk_overlay]. rewrite He. exists RunOverlaysExclusive.
    unfold run_plan. rewrite (proj2 (is_empty_false (rf_repo fl))) by apply Hfl. cbn [mbind result_bind]. by rewrite He. }
  destruct (rf_isolate_caches fl && negb (is_empty (rf_isolated_cache_name fl))) eqn:Hc.
  { rewrite apply_library_options. cbn [co_ephemeral co_disk_overlay co_isolate_caches co_isolated_cache_name]. rewrite He, Hc.
    exists RunCachesExclusive. unfold run_plan. rewrite (proj2 (is_empty_false (rf_repo fl))) by apply Hfl. cbn [mbind result_bind]. by rewrite He, Hc. }
  pose proof (run_plan_library (kw_host w) (rw_getwd rw) fl pf Hfl Hpf He Hc) as Hplan. rewrite apply_library_options in Hplan |- *.
  cbn [co_ephemeral co_disk_overlay co_isolate_caches co_isolated_cache_name co_allow_all_network]. rewrite He, Hc.
  destruct (keg_plan order1 order2 (kw_host w) (rf_repo fl) _) as [[p u]|e] eqn:Hk.
  2:{ destruct (run_plan _ _ _ _ fl) as [r|e']; [done|]. apply keg_plan_err in Hk as [[x ->]|[[x ->]|[x ->]]]; by exists e'. }
  rewrite Hplan. assert (Ha : exists cl b, open_audit w p = Ok (cl, b)).
  { unfold open_audit. destruct (negb _ && _); [rewrite Haudit|]; by do 2 eexists. }
  destruct Ha as (cl & b & ->). cbv zeta.
  destruct (launch _ _ _ _ _ _) as [s exit|e|]; [|by exists (RunLaunchFailed e)|done].
  destruct (start_background_services _ _ _ _ _ _) as [s2 [[]|e]]; cbn [ks_sb]; [done | by exists s2].
Qed.
End plan_lemmas.

(** * Concrete runs *)
Module Example_.
#[local] Existing Instances PlanBuilder.Example_.lower PlanBuilder.Example_.lib PlanBuilder.Example_.ranges Facade.Example_.regexps.
#[local] Abbreviation order := PlanBuilder.Example_.ranges.
#[local] Abbreviation host2 := (Facade.Example_.host2 (Facade.Example_.repo2 [])).
#[local] Abbreviation marshal1 := Facade.Example_.marshal1.
Definition env1 (k : gostring) : option gostring := if seqb k $"HTTP_PROXY" then Some $"http://host:3128" else None.
Definition shown (r : result flag_err (strmap * list gostring)) : option (list (gostring * gostring) * list gostring) :=
  match r with Ok (m, l) => Some (sort_by (fun a b => sleb (fst a) (fst b)) (map_to_list m), l) | Err _ => None end.
Example env_order :
  shown (parse_env_flag env1 [$"A=1"; $"B"; $"A"; $"B=x=y"; $"HTTP_PROXY"; $"C"; $"A"]) =
    Some ([($"B", $"x=y"); ($"HTTP_PROXY", $"http://host:3128")], [$"A"; $"C"]).
Proof. vm_compute. reflexivity. Qed.
(** A denied variable that the host does not have keeps an earlier value. *)
Example denied_keeps_value :
  shown (parse_env_flag (fun _ => None) [$"HTTP_PROXY=http://p:1"; $"HTTP_PROXY"]) = Some ([($"HTTP_PROXY", $"http://p:1")], []).
Proof. vm_compute. reflexivity. Qed.
Example refused_flags :
  parse_env_flag env1 [$"A"; $"=1"] = Err (EmptyName $"=1") /\ parse_var_flags [$"A"] = Err (WantKeyValue $"A") /\
  parse_sni_flags [$"a.example,,b.example"] = Err (EmptyPart $"a.example,,b.example") /\
  parse_network_cidr_flags [$"10.0.0.0/8, 192.168.0.1"] = Ok [$"10.0.0.0/8"; $"192.168.0.1"].
Proof. vm_compute. by split_and!. Qed.
Definition flags1 : run_flags :=
  RunFlags $"/w/app" [] $"/u.yaml" false [] false [] [] [$"KEY=1"] [] [$"8080:3000"] [$"5432:db.internal:5432"] [$"a.example"] []
    [$"10.0.0.0/8"] false false false [].
Definition planned1 : result run_err (full_plan * user) := run_plan order order host2 None flags1.
Lemma run_options_only_add_witness :
  exists p u, planned1 = Ok (p, u) /\ fp_block p = [$"10.0.0.0/8"] /\ p_command (fp_bwrap p) = default_command /\
    env_of p !! $"KEY" = Some $"1" /\ env_of p !! EnvForwardHosts = Some $"5432:db.internal:5432".
Proof.
  assert (Hp : is_ok planned1 = true) by (vm_compute; reflexivity).
  destruct planned1 as [[p u]|e] eqn:Hplan; [|discriminate].
  pose proof (run_options_only_add order order host2 None flags1 p u) as Hx. specialize (Hx Hplan).
  destruct Hx as (dir & pf & t & p0 & resolved & _ & _ & _ & _ & _ & _ & _ & _ & _ & _ & _ & _ & _ & Hcmd & _).
  exists p, u. split; [reflexivity|].
  assert (Hc : match planned1 with
               | Ok (p, _) => (fp_block p, env_of p !! $"KEY", env_of p !! EnvForwardHosts)
               | Err _ => ([], None, None) end = ([$"10.0.0.0/8"], Some $"1", Some $"5432:db.internal:5432")) by (vm_compute; reflexivity).
  rewrite Hplan in Hc. injection Hc as Hb Hk Hf. exact (conj Hb (conj Hcmd (conj Hk Hf))).
Defined.
Definition flags2 : run_flags :=
  RunFlags $"/w/app" [] $"/u.yaml" false [] false [] [] [] [] [] [] [$"a.example"] [] [$"10.0.0.0/8"] false false false [$"make"].
Definition world2 : run_world := RunWorld (Facade.Example_.world1 (Facade.Example_.repo2 []) true) None (Some 3%Z).
Definition parsed2 : parsed_flags := ParsedFlags ∅ [] ∅ [] [] [$"a.example"] [] [$"10.0.0.0/8"].
Lemma flags2_library : library_flags flags2.
Proof. by split. Qed.
Lemma command_matches_library_witness :
  exists s, run_action order order marshal1 world2 flags2 = RunExits 3 s (Ok tt).
Proof.
  pose proof (command_matches_library order order marshal1 world2 flags2 parsed2 flags2_library) as Hx.
  specialize (Hx ltac:(vm_compute; reflexivity) ltac:(reflexivity) ltac:(intros; reflexivity)). cbv zeta in Hx.
  assert (Hk : match keg_launch order order marshal1 (rw_world world2) (rf_repo flags2) (library_options flags2 parsed2) with
               | KegRunning _ => true | _ => false end = true) by (vm_compute; reflexivity).
  destruct (keg_launch order order marshal1 (rw_world world2) (rf_repo flags2) (library_options flags2 parsed2)) as [k| |];
    [|discriminate|discriminate].
  exists (ks_sb k). exact Hx.
Defined.
(** The audit file cannot be opened: the command runs without it, the library
    does not launch. *)
Definition no_audit : keg_world :=
  let w := Facade.Example_.world1 (Facade.Example_.repo2 []) true in
  KegWorld (kw_cancelled w) (kw_host w) (kw_launch w) (kw_attempts w) (kw_mkdir w) (fun _ => false) (kw_fs w) (kw_bind w) (kw_late_death w).
Example audit_file_dropped :
  match run_action order order marshal1 (RunWorld no_audit None (Some 0%Z)) flags2 with RunExits 0 _ (Ok _) => True | _ => False end /\
  keg_launch order order marshal1 no_audit $"/w/app" (library_options flags2 parsed2) = KegFailed OpenAuditFile [].
Proof. vm_compute. by split. Qed.
End Example_.
