(* ===== verification/CliTools.v ===== *)
(** The other commands of [cmd/keg]: [delegate.go], [trust.go], [layer.go] and
    the small ones of [agent.go], [serve.go] and [main.go].

    The command-line library has parsed the flags; [keg delegate] parses its
    own.  What is printed is a byte string where it is plain text, and a
    diagnostic where it is an error message. *)
From S2P Require Import GoStrings GoPath GoNet ConfigTypes ConfigExpand ConfigMerge Justfile Whitelist RunnerServer TrustDiff Trust BwrapArgs Templates Secrets PlanBuilder Services Storage Daemon EndToEnd.
Local Open Scope go_scope.

(** * [keg delegate] *)
Record list_flags := ListFlags {
  lf_list : bool; lf_json : bool; lf_repo : gostring; lf_config : gostring; lf_user_config : gostring }.
Definition no_list_flags : list_flags := ListFlags false false [] [] [].
(** The loop of [parseDelegateListFlags]. *)
Fixpoint list_flags_loop (argv : list gostring) (fl : list_flags) : option list_flags :=
  let '(ListFlags l j r c u) := fl in
  match argv with
  | [] => Some fl
  | a :: rest =>
      if seqb a $"--list" || seqb a $"-l" then list_flags_loop rest (ListFlags true j r c u)
      else if seqb a $"--json" then list_flags_loop rest (ListFlags l true r c u)
      else if seqb a $"--repo" then
        match rest with [] => None | v :: rest => list_flags_loop rest (ListFlags l j v c u) end
      else if seqb a $"--config" || seqb a $"-c" then
        match rest with [] => None | v :: rest => list_flags_loop rest (ListFlags l j r v u) end
      else if seqb a $"--user-config" then
        match rest with [] => None | v :: rest => list_flags_loop rest (ListFlags l j r c v) end
      else None
  end.
(** The flags and [ok]. *)
Definition parse_delegate_list_flags (argv : list gostring) : list_flags * bool :=
  match argv with
  | [] => (no_list_flags, false)
  | first :: _ =>
      if negb (seqb first $"--list") && negb (seqb first $"-l") && negb (seqb first $"--json") then (no_list_flags, false)
      else match list_flags_loop argv no_list_flags with
           | Some fl => (fl, lf_list fl)
           | None => (no_list_flags, false)
           end
  end.
Inductive load_err := NoWorkingDir | LoadConfig (e : plan_err) | BadTasks (e : engine_err).
Inductive delegate_diag :=
  | Usage
  | NoRunner
  | ListFailed (e : list_err)
  | HostListFailed (e : load_err)
  | EncodeFailed
  | Job (i : err_item).
Record cli_result := CliResult { cr_code : Z; cr_stdout : gostring; cr_stderr : list delegate_diag }.

Section delegate.
Context `{UnicodeCase, Regexp, MapRange secret_source, MapRange exec_source, MapRange gostring}.
Context (order : MapRange repo_override).
(** [loadHostDelegatedTasks]. *)
Definition load_host_delegated_tasks (h : PlanBuilder.host) (fs : Justfile.filesystem) (getwd : option gostring)
    (repo_dir repo_cfg user_cfg : gostring) : result load_err (list task_info) :=
  dir ← (if is_empty repo_dir then from_option_err NoWorkingDir getwd else Ok repo_dir);
  let root := resolve_root h dir in
  let cfg_path := or_else repo_cfg (path_join root $".keg.yaml") in
  repo ← map_err LoadConfig (snd (load_repo h cfg_path (negb (is_empty repo_cfg))));
  user ← map_err LoadConfig (snd (load_user order h user_cfg));
  let eff := @match_repo (PlanBuilder.lookup_env h) (h_home h) order user root in
  e ← map_err BadTasks (new_engine (r_tasks repo) (u_runner eff));
  Ok (rules (set_fallback e (default ∅ (discover_justfile_descriptions fs root)))).

(** The world of the command: the runner socket if it can be dialed, with what
    it answers to a job and to a listing, and the host otherwise. *)
Record delegate_world := DelegateWorld {
  dw_dial : bool; dw_sent : bool; dw_frames : list (option RunnerServer.event);
  dw_write : nat -> bool -> gostring -> gostring * bool;
  dw_list_frame : option (option RunnerServer.event);
  dw_host : PlanBuilder.host; dw_fs : Justfile.filesystem; dw_getwd : option gostring;
  dw_encode : list task_info -> option gostring }.
Definition delegate_list (w : delegate_world) (repo_dir repo_cfg user_cfg : gostring) (json_out : bool) : cli_result :=
  let tasks :=
    if dw_dial w then
      match list_tasks (dw_list_frame w) with
      | Ok t => Ok t
      | Err e => Err (CliResult CodeProtocolError [] [ListFailed e])
      end
    else match load_host_delegated_tasks (dw_host w) (dw_fs w) (dw_getwd w) repo_dir repo_cfg user_cfg with
         | Ok t => Ok t
         | Err e => Err (CliResult 1 [] [HostListFailed e])
         end in
  match tasks with
  | Err r => r
  | Ok t =>
      if json_out then
        match dw_encode w t with
        | Some text => CliResult 0 text []
        | None => CliResult 1 [] [EncodeFailed]
        end
      else CliResult 0 (format_task_list t) []
  end.
Definition delegate_action_with_io (w : delegate_world) (argv : list gostring) (repo_dir repo_cfg user_cfg : gostring) : cli_result :=
  match argv with
  | [] => CliResult 2 [] [Usage]
  | _ =>
      let '(fl, ok) := parse_delegate_list_flags argv in
      if ok && lf_list fl then
        delegate_list w (or_else (lf_repo fl) repo_dir) (or_else (lf_config fl) repo_cfg) (or_else (lf_user_config fl) user_cfg)
          (lf_json fl)
      else if negb (dw_dial w) then CliResult CodeNoRunner [] [NoRunner]
      else let r := exec (dw_write w) (dw_sent w) (dw_frames w) in
           CliResult (xr_code r) (xr_stdout r) (map Job (xr_stderr r))
  end.
(** The command: a listing knows the global flags, a job does not. *)
Definition delegate_command (w : delegate_world) (argv : list gostring) (config user_config : gostring) : cli_result :=
  let '(fl, ok) := parse_delegate_list_flags argv in
  if ok && lf_list fl then delegate_action_with_io w argv [] config user_config
  else delegate_action_with_io w argv [] [] [].
End delegate.

(** * [keg trust] *)
Inductive trust_output :=
  | NoConfig (dir : gostring) | EmptyConfig (dir : gostring)
  | StatusNone (sums : list (gostring * gostring)) | StatusTrusted (sums : list (gostring * gostring))
  | StatusChanged (sums : list (gostring * gostring))
  | Revoked (dir : gostring) | Approved (dir : gostring) (sums : list (gostring * gostring)).
Section trust_command.
Context `{Digest, MapRange gostring}.
Context (eval_symlinks abs_path : gostring -> option gostring) (parse_repo : gostring -> option repo).
(** The checksum lines: the configuration, then the anchors that were read. *)
Definition checksums (sha : gostring) (anchors : list gostring) (shas : strmap) : list (gostring * gostring) :=
  ($".keg.yaml", sha) :: omap (fun rel => s ← shas !! rel; Some (rel, s)) anchors.
(** [trustAction]: what is printed, and the store that is handed to
    [SaveFile], if any. *)
Definition trust_action (now : Z) (fs : Justfile.filesystem) (load : result trust_err store) (save_ok : store -> bool)
    (repo_dir : gostring) (status revoke_flag : bool) : result trust_err trust_output * option store :=
  match read_path fs (path_join repo_dir $".keg.yaml") with
  | Err _ => (Err Trust.ReadConfig, None)
  | Ok None => (Ok (NoConfig repo_dir), None)
  | Ok (Some data) =>
      if is_empty data then (Ok (EmptyConfig repo_dir), None)
      else
        let sha := sha_hex data in
        let anchors := anchors_of parse_repo fs data repo_dir in
        match read_anchors fs repo_dir anchors, load with
        | Err e, _ | Ok _, Err e => (Err e, None)
        | Ok contents, Ok st =>
            let shas := shas_of contents in
            if (status : bool) then
              match st !! clean_repo_key eval_symlinks abs_path repo_dir with
              | None => (Ok (StatusNone (checksums sha anchors shas)), None)
              | Some e =>
                  if is_empty (en_approved e) then (Ok (StatusNone (checksums sha anchors shas)), None)
                  else if is_trusted e sha shas then (Ok (StatusTrusted (checksums sha anchors shas)), None)
                  else (Ok (StatusChanged (checksums sha anchors shas)), None)
              end
            else if (revoke_flag : bool) then
              let st' := revoke eval_symlinks abs_path now st repo_dir in
              (if save_ok st' then Ok (Revoked repo_dir) else Err Trust.SaveStore, Some st')
            else
              match approve eval_symlinks abs_path now st repo_dir data contents with
              | Err e => (Err e, None)
              | Ok (st', approved) =>
                  (if save_ok st' then Ok (Approved repo_dir (checksums approved anchors shas)) else Err Trust.SaveStore,
                   Some st')
              end
        end
  end.
End trust_command.

(** * The layer commands *)
Section layers.
Context `{UnicodeCase, MapRange secret_source, MapRange exec_source, MapRange gostring}.
Context (order : MapRange repo_override).
(** [resolveStorageBase]. *)
Definition resolve_storage_base (h : PlanBuilder.host) (getwd : option gostring) (storage_flag repo_flag user_cfg : gostring)
  : result plan_err gostring :=
  if negb (is_empty storage_flag) then Ok (expand_or_keep h storage_flag)
  else
    let dir := resolve_root h (or_else repo_flag (default [] getwd)) in
    user ← snd (load_user order h user_cfg);
    Ok (storage_base h (@match_repo (PlanBuilder.lookup_env h) (h_home h) order user dir)).
End layers.
Inductive layer_cmd_err :=
  | ResolveFailed (e : plan_err) | CleanNeedsName | StorageFailed (e : clean_err) | CleanFailed (e : errno) | ListFailedOn (e : errno).
Section layer_commands.
Context (uid : Z) (in_group : Z -> bool) (rm : fs -> path -> option (fs * option errno)).
(** The actions, on what [resolveStorageBase] returned. *)
Definition list_command (s : fs) (base : result plan_err gostring) : option (result layer_cmd_err (list layer)) :=
  match base with
  | Err e => Some (Err (ResolveFailed e))
  | Ok base => r ← list_layers uid in_group s base; Some (map_err ListFailedOn r)
  end.
Definition all_cleaned (r : option (fs * option errno)) : option (fs * result layer_cmd_err unit) :=
  '(s, e) ← r; Some (s, match e with Some e => Err (CleanFailed e) | None => Ok tt end).
Definition one_cleaned (r : option (fs * result clean_err unit)) : option (fs * result layer_cmd_err unit) :=
  '(s, e) ← r; Some (s, map_err StorageFailed e).
Definition clean_command (s : fs) (base : result plan_err gostring) (all : bool) (name : gostring)
  : option (fs * result layer_cmd_err unit) :=
  match base with
  | Err e => Some (s, Err (ResolveFailed e))
  | Ok base =>
      if all then all_cleaned (CleanAll uid in_group rm s base)
      else if is_empty name then Some (s, Err CleanNeedsName)
      else one_cleaned (CleanRepo uid in_group rm s base name)
  end.
Definition clean_cache_command (s : fs) (base : result plan_err gostring) (all : bool) (name : gostring)
  : option (fs * result layer_cmd_err unit) :=
  match base with
  | Err e => Some (s, Err (ResolveFailed e))
  | Ok base =>
      if is_empty name || all then all_cleaned (CleanAllCaches uid in_group rm s base)
      else one_cleaned (CleanCache uid in_group rm s base name)
  end.
End layer_commands.

(** * The small commands *)
Inductive schema := RepoSchema | UserSchema.
Definition agent_schema `{UnicodeCase} (arg : gostring) : option schema :=
  let t := to_lower (or_else arg $"repo") in
  if smem t [$"repo"; $".keg.yaml"; $"keg"] then Some RepoSchema
  else if smem t [$"user"; $"config.yaml"; $"config"] then Some UserSchema
  else None.
Definition serve_config (listen auth token : gostring) (max_sandboxes : Z) : Daemon.config :=
  Daemon.Config listen auth token max_sandboxes.
(** [main] on the error of the command: an error with a code of its own ends
    the process with it. *)
Definition exit_code (err : option (option Z)) : Z :=
  match err with None => 0 | Some (Some code) => code | Some None => 1 end.

(** * Lemmas: listings *)
Section listing_lemmas.
Context `{Regexp}.
(** The entries of a listing, for a way to describe names. *)
Definition name_info (d : gostring -> gostring) (kind n : gostring) : task_info := TaskInfo n kind (d n) [] [] [] false [].
Definition raw_info (d : gostring -> gostring) (r : raw_rule) : task_info :=
  TaskInfo (rr_cmd r) $"raw" (or_else (rr_description r) (d (rr_cmd r))) (rr_subcommands r) (rr_flags r)
    (rr_opts_with_value r) (rr_allow_opt_value_form r) (rr_forbidden r).
Definition lists (d : gostring -> gostring) (exact prefixes : list gostring) (raw : list raw_rule) (t : task_info) : Prop :=
  (exists n, t = name_info d $"exact" n /\ n ∈ exact) \/ (exists n, t = name_info d $"prefix" n /\ n ∈ prefixes) \/
  (exists r, t = raw_info d r /\ r ∈ raw).
Lemma elem_of_map_agree {A B} (f : A -> B) (l l' : list A) y :
  (forall x, x ∈ l <-> x ∈ l') -> y ∈ map f l <-> exists x, y = f x /\ x ∈ l'.
Proof. intros Hl. rewrite list_elem_of_fmap. split; intros (x & -> & Hx%Hl); eauto. Qed.
Lemma rules_elem tasks extra e fb t :
  new_engine tasks extra = Ok e ->
  t ∈ rules (set_fallback e fb) <->
  lists (describe (set_fallback e fb)) (dt_exact tasks ++ rc_exact extra) (dt_prefixes tasks ++ rc_prefixes extra)
    (dt_raw tasks ++ rc_raw extra) t.
Proof.
  unfold new_engine. cbv zeta. pose proof (add_names_agree (dt_exact tasks ++ rc_exact extra)) as [_ Hx].
  pose proof (add_names_agree (dt_prefixes tasks ++ rc_prefixes extra)) as [_ Hp].
  destruct (fold_left _ (dt_exact tasks ++ _) _) as [ex exo], (fold_left _ (dt_prefixes tasks ++ _) _) as [px pxo].
  intros (_ & _ & [= <-])%bind_ok_inv. unfold rules, lists. set (d := describe _). cbn [set_fallback e_exact_order e_prefix_order e_raw].
  cbn [snd fst] in *. rewrite (elem_of_app (map _ exo)), (elem_of_app (map _ pxo)).
  rewrite (elem_of_map_agree _ exo (dt_exact tasks ++ rc_exact extra)) by apply Hx.
  rewrite (elem_of_map_agree _ pxo (dt_prefixes tasks ++ rc_prefixes extra)) by apply Hp. by rewrite list_elem_of_fmap.
Qed.
Lemma new_engine_descriptions tasks extra e :
  new_engine tasks extra = Ok e -> e_descriptions e = nonempty_values (rc_descriptions extra) ∪ nonempty_values (dt_descriptions tasks).
Proof.
  unfold new_engine. cbv zeta. destruct (fold_left _ (dt_exact tasks ++ _) _), (fold_left _ (dt_prefixes tasks ++ _) _).
  by intros (_ & _ & [= <-])%bind_ok_inv.
Qed.
(** The rules of an engine are checked one by one, so fewer rules pass too. *)
Lemma new_engine_total tasks extra tasks' extra' e :
  new_engine tasks extra = Ok e -> (forall r, r ∈ dt_raw tasks' ++ rc_raw extra' -> r ∈ dt_raw tasks ++ rc_raw extra) ->
  exists e', new_engine tasks' extra' = Ok e'.
Proof.
  unfold new_engine. cbv zeta. destruct (fold_left _ (dt_exact tasks ++ _) _), (fold_left _ (dt_prefixes tasks ++ _) _).
  intros ([] & Hc & _)%bind_ok_inv Hsub. destruct (fold_left _ (dt_exact tasks' ++ _) _), (fold_left _ (dt_prefixes tasks' ++ _) _).
  assert (Hok : iterM check_raw (dt_raw tasks' ++ rc_raw extra') = Ok tt); [|rewrite Hok; by eexists].
  apply iterM_ok. intros k r Hr. apply list_elem_of_lookup_2, Hsub, list_elem_of_lookup_1 in Hr as [j Hj].
  apply (proj1 (iterM_ok _ _) Hc) in Hj. unfold check_raw in *. destruct (length _ =? 0); [done|exact Hj].
Qed.
Lemma described_again (r u : strmap) :
  (forall k, u !! k <> Some []) -> nonempty_values u ∪ nonempty_values (u ∪ r) = nonempty_values u ∪ nonempty_values r.
Proof.
  intros Hu. apply map_eq. intros k. rewrite !lookup_union. unfold nonempty_values. rewrite !map_lookup_filter, lookup_union.
  specialize (Hu k). destruct (u !! k) as [[|c v]|]; cbn; [done|..].
  - by destruct (r !! k) as [[|]|].
  - by destruct (r !! k) as [[|]|].
Qed.
Definition undescribed (t : task_info) : task_info :=
  TaskInfo (ti_name t) (ti_kind t) [] (ti_subcommands t) (ti_flags t) (ti_opts_with_value t) (ti_allow_opt_value_form t) (ti_forbidden t).
Lemma lists_undescribed d d' e p r t : lists d e p r t -> exists t', undescribed t = undescribed t' /\ lists d' e p r t'.
Proof.
  intros [(n & -> & Hn)|[(n & -> & Hn)|(x & -> & Hx)]].
  - exists (name_info d' $"exact" n). split; [done|]. left. eauto.
  - exists (name_info d' $"prefix" n). split; [done|]. right. left. eauto.
  - exists (raw_info d' x). split; [done|]. right. right. eauto.
Qed.
Lemma lists_more d (e e' more p p' : list gostring) (r r' : list raw_rule) t :
  (forall n, n ∈ e <-> n ∈ e' \/ n ∈ more) -> (forall n, n ∈ p <-> n ∈ p') -> (forall x, x ∈ r <-> x ∈ r') ->
  lists d e p r t <-> lists d e' p' r' t \/ exists n, t = name_info d $"exact" n /\ n ∈ more.
Proof.
  intros He Hp Hr. unfold lists. split.
  - intros [(n & -> & [Hn|Hn]%He)|[(n & -> & Hn%Hp)|(x & -> & Hx%Hr)]]; eauto 10.
  - intros [[(n & -> & Hn)|[(n & -> & Hn%Hp)|(x & -> & Hx%Hr)]]|(n & -> & Hn)]; [|by eauto..|]; left; exists n; rewrite He; auto.
Qed.
End listing_lemmas.

(** * Lemmas: the flags of a listing *)
Inductive list_arg :=
  | AList | AShort | AJson | ARepo (v : gostring) | AConfig (v : gostring) | AConfigShort (v : gostring) | AUser (v : gostring).
Definition tokens (a : list_arg) : list gostring :=
  match a with
  | AList => [$"--list"] | AShort => [$"-l"] | AJson => [$"--json"] | ARepo v => [$"--repo"; v]
  | AConfig v => [$"--config"; v] | AConfigShort v => [$"-c"; v] | AUser v => [$"--user-config"; v]
  end.
Definition with_arg (fl : list_flags) (a : list_arg) : list_flags :=
  let '(ListFlags l j r c u) := fl in
  match a with
  | AList | AShort => ListFlags true j r c u | AJson => ListFlags l true r c u | ARepo v => ListFlags l j v c u
  | AConfig v | AConfigShort v => ListFlags l j r v u | AUser v => ListFlags l j r c v
  end.
Definition asks_list (a : list_arg) : bool := match a with AList | AShort => true | _ => false end.
(** A listing opens with a flag that takes no value. *)
Definition opens (args : list list_arg) : Prop :=
  match args with (AList | AShort | AJson) :: _ => True | _ => False end.
Lemma list_flags_loop_args args fl : list_flags_loop (concat (map tokens args)) fl = Some (fold_left with_arg args fl).
Proof. revert fl. induction args as [|a args IH]; intros [l j r c u]; [done|]. destruct a; cbn; apply IH. Qed.
Lemma list_flags_loop_inv n argv fl fl' :
  length argv <= n -> list_flags_loop argv fl = Some fl' ->
  exists args, argv = concat (map tokens args) /\ fl' = fold_left with_arg args fl.
Proof.
  revert argv fl. induction n as [|n IH]; intros [|a rest] [l j r c u]; cbn [length list_flags_loop]; try lia;
    try by (intros _ [= <-]; exists []).
  intros Hn.
  assert (Hstep : forall x rest' fl1, a :: rest = tokens x ++ rest' -> fl1 = with_arg (ListFlags l j r c u) x ->
    length rest' <= n -> list_flags_loop rest' fl1 = Some fl' ->
    exists args, a :: rest = concat (map tokens args) /\ fl' = fold_left with_arg args (ListFlags l j r c u)).
  { intros x rest' fl1 Ht -> Hl (args & -> & ->)%IH; [|done]. exists (x :: args). by rewrite Ht. }
  destruct (seqb a $"--list" || seqb a $"-l") eqn:E1.
  { apply orb_true_iff in E1 as [E|E]; breflect; subst a; [apply (Hstep AList rest) | apply (Hstep AShort rest)]; done || lia. }
  destruct (seqb a $"--json") eqn:E2; [breflect; subst a; apply (Hstep AJson rest); done || lia|].
  destruct (seqb a $"--repo") eqn:E3.
  { breflect; subst a. destruct rest as [|v rest]; [done|]. cbn in Hn. apply (Hstep (ARepo v) rest); done || lia. }
  destruct (seqb a $"--config" || seqb a $"-c") eqn:E4.
  { destruct rest as [|v rest]; [done|]. cbn in Hn. apply orb_true_iff in E4 as [E|E]; breflect; subst a;
      [apply (Hstep (AConfig v) rest) | apply (Hstep (AConfigShort v) rest)]; done || lia. }
  destruct (seqb a $"--user-config") eqn:E5; [|done].
  breflect; subst a. destruct rest as [|v rest]; [done|]. cbn in Hn. apply (Hstep (AUser v) rest); done || lia.
Qed.
Lemma asks_list_fold args fl : lf_list (fold_left with_arg args fl) = lf_list fl || existsb asks_list args.
Proof.
  revert fl. induction args as [|a args IH]; intros fl; [by rewrite orb_false_r|]. cbn [fold_left existsb]. rewrite IH.
  destruct fl as [l j r c u], a; cbn; by rewrite ?orb_true_r.
Qed.
Lemma parse_flags_iff argv fl :
  parse_delegate_list_flags argv = (fl, true) <->
  exists args, argv = concat (map tokens args) /\ opens args /\ existsb asks_list args = true /\
    fl = fold_left with_arg args no_list_flags.
Proof.
  split.
  - destruct argv as [|first rest]; [done|]. cbn [parse_delegate_list_flags].
    destruct (_ && _ && _) eqn:Hf; [done|]. destruct (list_flags_loop _ _) as [fl'|] eqn:Hl; [|done]. intros [= -> Hlist].
    apply (list_flags_loop_inv _ _ _ _ (le_n _)) in Hl as (args & Hargs & ->). exists args. rewrite asks_list_fold in Hlist.
    split_and!; [done| |done|done]. destruct args as [|[| | |v|v|v|v] args]; try done; injection Hargs as -> _; by vm_compute in Hf.
  - intros (args & -> & Ho & Ha & ->). pose proof (list_flags_loop_args args no_list_flags) as Hl.
    destruct args as [|[] args]; try done; cbn [map concat tokens app parse_delegate_list_flags] in *;
      rewrite Hl, asks_list_fold, Ha, orb_true_r; reflexivity.
Qed.
(** Whether the arguments are those of a listing. *)
Definition is_listing (argv : list gostring) (args : list list_arg) : Prop :=
  argv = concat (map tokens args) /\ opens args /\ existsb asks_list args = true.

(** * Properties *)
(** [keg delegate] lists exactly when its arguments are a sequence of
    listing flags that opens with a flag without a value and asks for a list;
    then a later flag overrides an earlier one and the global flags of the
    command are what is left unset.  Any other arguments are a job, sent to
    the runner as they are, and never looked up on the host: without a runner
    the exit code is 127, without an argument it is 2. *)
Theorem delegate_lists_or_runs `{UnicodeCase, Regexp, MapRange secret_source, MapRange exec_source, MapRange gostring} (order : MapRange repo_override)
    (w : delegate_world) (argv : list gostring) (config user_config : gostring) :
  (forall args, is_listing argv args ->
     let fl := fold_left with_arg args no_list_flags in
     delegate_command order w argv config user_config =
     delegate_list order w (lf_repo fl) (or_else (lf_config fl) config) (or_else (lf_user_config fl) user_config) (lf_json fl)) /\
  ((forall args, ~ is_listing argv args) ->
     delegate_command order w argv config user_config =
     match argv with
     | [] => CliResult 2 [] [Usage]
     | _ => if dw_dial w
            then let r := exec (dw_write w) (dw_sent w) (dw_frames w) in CliResult (xr_code r) (xr_stdout r) (map Job (xr_stderr r))
            else CliResult 127 [] [NoRunner]
     end).
Proof.
  unfold delegate_command. split.
  - intros args (Hargs & Ho & Ha). cbv zeta. set (fl := fold_left _ _ _). assert (Hp : parse_delegate_list_flags argv = (fl, true)) by (apply parse_flags_iff; by exists args).
    rewrite Hp. assert (Hl : lf_list fl = true) by (unfold fl; by rewrite asks_list_fold, Ha, orb_true_r).
    rewrite Hl. cbn [andb]. unfold delegate_action_with_io. rewrite Hp, Hl. cbn [andb].
    destruct argv; [by destruct args as [|[]]|]. do 2 f_equal. unfold or_else. by destruct (lf_repo fl).
  - intros Hn. destruct (parse_delegate_list_flags argv) as [fl ok] eqn:Hp. destruct (ok && lf_list fl) eqn:Hok.
    { apply andb_true_iff in Hok as [-> _]. apply parse_flags_iff in Hp as (args & ? & ? & ? & _). by destruct (Hn args). }
    unfold delegate_action_with_io. destruct argv as [|a argv]; [done|]. rewrite Hp, Hok. by destruct (dw_dial w).
Qed.
Section listing.
Context `{TemplateLib, UnicodeCase, Regexp, MapRangeLaws gostring, MapRangeLaws secret_source, MapRangeLaws exec_source}.
Context (order1 order2 : MapRange repo_override) {L1 : @MapRangeLaws _ order1} {L2 : @MapRangeLaws _ order2}.
Context (h : PlanBuilder.host) (files : Justfile.filesystem).
(** What the host listing is made of, where a sandbox was planned with the
    same arguments. *)
Lemma host_listing q t p u r e getwd repo_dir :
  build_plan order1 order2 h q = (t, Ok (p, u)) ->
  snd (load_repo h (config_path h q) (negb (is_empty (q_repo_cfg q)))) = Ok r ->
  new_engine (r_tasks r) (u_runner (effective order1 h q u)) = Ok e ->
  (if is_empty repo_dir then getwd = Some (q_repo_dir q) else repo_dir = q_repo_dir q) ->
  load_host_delegated_tasks order1 h files getwd repo_dir (q_repo_cfg q) (q_user_cfg q) =
  Ok (rules (set_fallback e (default ∅ (discover_justfile_descriptions files (resolve_root h (q_repo_dir q)))))).
Proof.
  intros Hb Hr He Hdir. apply build_plan_ok in Hb as (c & r0 & env & tr & t0 & t1 & t2 & t3 & t4 & t5 & t6 & t7 & t8 & t9 & _ & _ & _ & Hu & _).
  unfold load_host_delegated_tasks.
  replace (if is_empty repo_dir then from_option_err NoWorkingDir getwd else Ok repo_dir) with (@Ok load_err _ (q_repo_dir q)).
  2:{ destruct (is_empty repo_dir); by rewrite Hdir. }
  cbn [mbind result_bind]. change (or_else (q_repo_cfg q) _) with (config_path h q). rewrite Hr. cbn [map_err mbind result_bind].
  rewrite Hu. cbn [snd map_err mbind result_bind]. unfold effective in He. by rewrite He.
Qed.
(** C19: the listing on the host is the listing in the sandbox.  Where a sandbox
    was planned and its runner started, [keg delegate --list] on the host with
    the same configuration files succeeds, and the two lists name the same
    tasks with the same rules, except for the tasks of [RUNNER_WHITELIST],
    which only the sandbox has.  Their descriptions are the same too, unless
    the user's configuration has an empty description or an override of its
    rules that the sandbox's start does not see. *)
Theorem listing_agrees (q : PlanBuilder.request) (t : list effect) (p : full_plan) (u : user) (who : option user)
    (cfg : runner_service) (getwd : option gostring) (repo_dir : gostring)
    (Hplan : build_plan order1 order2 h q = (t, Ok (p, u))) (Hw : wants_runner p = true)
    (Hwho : who = None \/ who = Some u) (Hcfg : runner_service_for files p who = Ok cfg)
    (Hdir : if is_empty repo_dir then getwd = Some (q_repo_dir q) else repo_dir = q_repo_dir q) :
  let ru := u_runner (effective order1 h q u) in
  let inside := rules (rs_engine cfg) in
  exists outside, load_host_delegated_tasks order1 h files getwd repo_dir (q_repo_cfg q) (q_user_cfg q) = Ok outside /\
    (forall x, x ∈ map undescribed inside <->
       x ∈ map undescribed outside \/ exists n, x = TaskInfo n $"exact" [] [] [] [] false [] /\ n ∈ env_tasks h) /\
    ((forall k, rc_descriptions ru !! k <> Some []) -> runner_cfg_for p who = ru ->
     forall x, ti_name x ∉ env_tasks h -> x ∈ inside <-> x ∈ outside).
Proof.
  cbv zeta. apply andb_true_iff in Hw as [_ Hw]. pose proof (second_runner _ _ _ _ _ _ _ _ Hplan Hw Hwho) as Hsec.
  destruct (effective_runner order1 h q u) as (Hse & Hsp & Hsr). set (ru := u_runner (effective order1 h q u)) in *.
  destruct (build_plan_tasks _ _ _ _ _ _ _ Hplan) as (r & Hr & _ & Hroot & _ & _ & He & Hp & Hraw & Hru). fold ru in He, Hp, Hraw, Hru.
  destruct (Hru Hw) as [_ Hd]. unfold runner_service_for in Hcfg. set (second := runner_cfg_for p who) in *.
  apply bind_ok_inv in Hcfg as (e1 & He1 & [= <-]). cbn [rs_engine]. rewrite Hroot.
  destruct (new_engine_total _ _ (r_tasks r) ru _ He1) as [e2 He2]; [by intros x Hx; rewrite Hraw; apply elem_of_app; left|].
  eexists. split; [exact (host_listing _ _ _ _ _ _ _ _ Hplan Hr He2 Hdir)|]. fold (fallback_descriptions files (resolve_root h (q_repo_dir q))).
  set (fb := fallback_descriptions _ _).
  assert (Hin : forall x, x ∈ rules (set_fallback e1 fb) <->
    lists (describe (set_fallback e1 fb)) (dt_exact (r_tasks r) ++ rc_exact ru) (dt_prefixes (r_tasks r) ++ rc_prefixes ru)
      (dt_raw (r_tasks r) ++ rc_raw ru) x \/ exists n, x = name_info (describe (set_fallback e1 fb)) $"exact" n /\ n ∈ env_tasks h).
  { intros x. rewrite (rules_elem _ _ _ fb x He1), He, Hp, Hraw. apply lists_more; intros n; rewrite !elem_of_app;
      destruct Hsec as [-> | ->]; specialize (Hse); naive_solver. }
  pose proof (fun x => rules_elem _ _ _ fb x He2) as Hout. split.
  - intros x. rewrite !list_elem_of_fmap. split.
    + intros (y & -> & [Hy|(n & -> & Hn)]%Hin); [|by right; exists n]. left.
      apply (lists_undescribed _ (describe (set_fallback e2 fb))) in Hy as (y' & -> & Hy'). exists y'. by rewrite Hout.
    + intros [(y & -> & Hy%Hout)|(n & -> & Hn)].
      * apply (lists_undescribed _ (describe (set_fallback e1 fb))) in Hy as (y' & -> & Hy'). exists y'. rewrite Hin. auto.
      * exists (name_info (describe (set_fallback e1 fb)) $"exact" n). rewrite Hin. eauto.
  - intros Hne Hs x Hx.
    assert (Hdesc : describe (set_fallback e1 fb) = describe (set_fallback e2 fb)).
    { unfold describe, set_fallback. cbn [e_descriptions].
      by rewrite (new_engine_descriptions _ _ _ He1), (new_engine_descriptions _ _ _ He2), Hs, Hd, described_again. }
    rewrite Hin, Hout, Hdesc. split; [|by left]. intros [?|(n & -> & Hn)]; [done|]. by destruct Hx.
Qed.
End listing.
Section trust_properties.
Context `{DigestLaws, MapRangeLaws gostring, UnicodeCase}.
Context (eval_symlinks abs_path : gostring -> option gostring) (parse_repo : gostring -> option repo).
Lemma gate_silent now files st repo_dir cfg_path data contents is_term answer :
  repo_state parse_repo files repo_dir cfg_path = Some (data, contents) ->
  trusted st (clean_repo_key eval_symlinks abs_path repo_dir) (sha_hex data) (shas_of contents) = true ->
  ensure_trust eval_symlinks abs_path parse_repo now files st repo_dir cfg_path is_term answer = (Ok tt, st, []).
Proof.
  unfold repo_state, ensure_trust, trusted. destruct (read_path files cfg_path) as [[d|]|]; [|done..].
  destruct (is_empty d); [done|]. destruct (read_anchors files repo_dir _) as [c|]; [|done]. intros [= -> ->].
  destruct (st !! _) as [e|]; [|done]. change (default empty_entry (Some e)) with e. by intros ->.
Qed.
(** [keg trust] and the gate agree.  For a repository with a configuration,
    the status is TRUSTED exactly when a launch would ask no question, and
    asking for it saves nothing; an approval succeeds if the store can be
    written, and after it the gate lets the repository pass without a question
    and without a terminal; after a revocation no content of the repository is
    trusted; and the entry of another repository stays what it was. *)
Theorem trust_command_agrees (now now' : Z) (files : Justfile.filesystem) (st : store) (save_ok : store -> bool)
    (repo_dir data : gostring) (contents : strmap) (is_term : bool) (answer : option gostring)
    (Hstate : repo_state parse_repo files repo_dir (path_join repo_dir $".keg.yaml") = Some (data, contents)) :
  let key := clean_repo_key eval_symlinks abs_path repo_dir in
  let run := trust_action eval_symlinks abs_path parse_repo now files (Ok st) save_ok repo_dir in
  let gate st := ensure_trust eval_symlinks abs_path parse_repo now' files st repo_dir (path_join repo_dir $".keg.yaml") is_term answer in
  let sums := checksums (sha_hex data) (anchors_of parse_repo files data repo_dir) (shas_of contents) in
  (exists out, (forall revoke_flag, run true revoke_flag = (Ok out, None)) /\ (out = StatusTrusted sums <-> gate st = (Ok tt, st, []))) /\
  (exists st', run false false = (if save_ok st' then Ok (Approved repo_dir sums) else Err Trust.SaveStore, Some st') /\
     gate st' = (Ok tt, st', []) /\ (forall k, k <> key -> st' !! k = st !! k)) /\
  (exists st', run false true = (if save_ok st' then Ok (Revoked repo_dir) else Err Trust.SaveStore, Some st') /\
     (forall sha shas, trusted st' key sha shas = false) /\ (forall k, k <> key -> st' !! k = st !! k)).
Proof.
  cbv zeta. set (cfg := path_join repo_dir _) in *. pose proof Hstate as Hs. unfold repo_state in Hs.
  destruct (read_path files cfg) as [[d|]|] eqn:Hread; [|done..]. destruct (is_empty d) eqn:Hne; [done|].
  destruct (read_anchors files repo_dir _) as [c|] eqn:Hanchors; [|done]. injection Hs as -> ->.
  unfold trust_action. fold cfg. rewrite Hread, Hne. apply is_empty_false in Hne as Hd. cbv zeta. rewrite Hanchors.
  set (key := clean_repo_key eval_symlinks abs_path repo_dir). split_and!.
  - assert (Hgate : trusted st key (sha_hex data) (shas_of contents) = true <->
      ensure_trust eval_symlinks abs_path parse_repo now' files st repo_dir cfg is_term answer = (Ok tt, st, [])).
    { split; [by apply gate_silent|]. intros He. pose proof He as Hc. apply ensure_cases in Hc as [Hc _]. unfold gate_approved in Hc.
      destruct Hc as [[[Hx|Hx] _]|(d & c & Hs & Ht & _)]; [congruence | rewrite Hread in Hx; congruence|].
      rewrite Hstate in Hs. by injection Hs as -> ->. }
    setoid_rewrite <- Hgate. unfold trusted. destruct (st !! key) as [e|]; [|eexists; split; [done|]; split; done].
    destruct (is_empty (en_approved e)) eqn:Ha.
    { eexists. split; [done|]. unfold is_trusted. rewrite Ha. cbn [orb]. split; done. }
    destruct (is_trusted e _ _); eexists; (split; [done|]); split; done.
  - destruct (approve_total eval_symlinks abs_path now st repo_dir data contents Hd) as [st' Hst'].
    { exact (read_anchors_nonempty _ _ _ _ Hanchors). }
    rewrite Hst'. exists st'. split; [done|].
    pose proof (approve_trusts _ _ _ _ _ _ _ _ _ Hst') as Ht. split; [by apply (gate_silent _ _ _ _ _ data contents)|].
    by apply approve_iff in Hst' as (_ & Ho & _).
  - exists (revoke eval_symlinks abs_path now st repo_dir). split; [done|].
    split; [intros; apply revoke_distrusts | intros; by apply revoke_others].
Qed.
End trust_properties.
Section disk_layer.
Context `{TemplateLib, UnicodeCase, MapRangeLaws gostring, MapRangeLaws secret_source, MapRangeLaws exec_source}.
Context (order1 order2 : MapRange repo_override) {L1 : @MapRangeLaws _ order1} {L2 : @MapRangeLaws _ order2}.
Context (h : PlanBuilder.host).
Lemma build_plan_disk q t p u :
  build_plan order1 order2 h q = (t, Ok (p, u)) -> q_overlay q = OverlayDisk ->
  let layer := path_join (storage_base h (effective order1 h q u)) (q_disk_name q) in
  disk_layer_rw (fp_bwrap p) = path_join layer $"rw" /\ disk_layer_work (fp_bwrap p) = path_join layer $"work" /\
  exists t1, load_user order1 h (q_user_cfg q) = (t1, Ok u).
Proof.
  intros Hb Ho layer. unfold build_plan in Hb. cbv zeta in Hb.
  do 2 (apply io_ok_inv in Hb as (? & ? & ? & _ & Hb & _)). apply io_ok_inv in Hb as (u' & t1 & ? & Hu & Hb & _).
  do 4 (apply io_ok_inv in Hb as (? & ? & ? & _ & Hb & _)).
  apply io_ok_inv in Hb as ([[ms env] extra] & ? & ? & _ & Hb & _). apply io_ok_inv in Hb as (? & ? & ? & _ & Hb & _).
  apply io_ok_inv in Hb as ([ports penv] & ? & ? & _ & Hb & _). apply io_ok_inv in Hb as (? & ? & ? & _ & Hb & _).
  apply io_ok_inv in Hb as ([rw work] & ? & ? & Hd & Hb & _). apply mret_ok_inv in Hb as [_ [= <- <-]].
  rewrite Ho in Hd. unfold disk_layer in Hd. cbv zeta in Hd.
  do 2 (apply io_ok_inv in Hd as (? & ? & ? & _ & Hd & _)). apply mret_ok_inv in Hd as [_ [= <- <-]].
  split_and!; [done..|]. by exists t1.
Qed.
Lemma resolved_base q t p u getwd repo_flag :
  build_plan order1 order2 h q = (t, Ok (p, u)) -> q_overlay q = OverlayDisk ->
  or_else repo_flag (default [] getwd) = q_repo_dir q ->
  resolve_storage_base order1 h getwd [] repo_flag (q_user_cfg q) = Ok (storage_base h (effective order1 h q u)).
Proof.
  intros Hb Ho Hd. destruct (build_plan_disk _ _ _ _ Hb Ho) as (_ & _ & t1 & Hu).
  unfold resolve_storage_base. cbn [is_empty negb]. by rewrite Hd, Hu.
Qed.
Lemma layer_part base name part :
  is_abs base = true -> plain name -> plain part ->
  comps (path_join (path_join base name) part) = (comps base ++ [name]) ++ [part].
Proof. intros Hb Hn Hp. rewrite comps_layer; [by rewrite comps_layer | by apply path_join_abs | done]. Qed.
(** [keg clean NAME] finds the layer of [keg run --disk-overlay NAME].
    Without the flag that overrides it, and with the same repository and the
    same user configuration, the command resolves the base below which the
    plan puts the layer; so, where that base is a directory of the user
    reached without links and the layer is theirs and holds no link, the
    command ends without an error, and nothing is left at or below the two
    directories that the plan gave to the sandbox, or of the layer at all,
    while everything else is as it was. *)
Theorem clean_finds_disk_layer (q : PlanBuilder.request) (t : list effect) (p : full_plan) (u : user)
    (getwd : option gostring) (repo_flag : gostring)
    (uid : Z) (g : Z -> bool) (unshare sudo : option (fs -> fs)) (s : fs) (n : node)
    (Hplan : build_plan order1 order2 h q = (t, Ok (p, u))) (Hdisk : q_overlay q = OverlayDisk)
    (Hdir : or_else repo_flag (default [] getwd) = q_repo_dir q) (Hname : plain (q_disk_name q)) :
  let resolved := resolve_storage_base order1 h getwd [] repo_flag (q_user_cfg q) in
  exists base, resolved = Ok base /\
    let layer := comps base ++ [q_disk_name q] in
    (is_abs base = true -> removable uid g s (comps base) -> s !! layer = Some n -> tree_ok uid s layer ->
     exists s', clean_command uid g (remove uid g unshare sudo) s resolved false (q_disk_name q) = Some (s', Ok tt) /\
       (forall y, layer `prefix_of` y -> s' !! y = None) /\
       (forall y, comps (disk_layer_rw (fp_bwrap p)) `prefix_of` y \/ comps (disk_layer_work (fp_bwrap p)) `prefix_of` y ->
          s' !! y = None) /\
       (forall y, ~ layer `prefix_of` y -> s' !! y = s !! y)).
Proof.
  destruct (build_plan_disk _ _ _ _ Hplan Hdisk) as (Hrw & Hwork & _).
  cbv zeta. rewrite (resolved_base _ _ _ _ _ _ Hplan Hdisk Hdir). eexists. split; [done|].
  set (base := storage_base h _) in *. set (name := q_disk_name q) in *. cbv zeta. set (layer := comps base ++ [name]).
  intros Habs Hr Hn Ht. exists (prune (below layer) s).
  assert (Hgone : forall y, layer `prefix_of` y -> prune (below layer) s !! y = None)
    by (intros y Hy; by rewrite lookup_prune, (proj2 (below_spec _ _) Hy)).
  split_and!; [|exact Hgone| |].
  - unfold clean_command. pose proof Hname as (Hne & _). apply is_empty_false in Hne. rewrite Hne. cbn [one_cleaned].
    unfold CleanRepo, clean_target. rewrite Hne, comps_layer by done. fold layer. pose proof Hr as [Hs Hq _].
    unfold layer. rewrite gone_last; [|done|done|done|by intros m Hm; apply (Ht _ _ (reflexivity _) Hm)]. fold layer. rewrite Hn.
    cbn [is_some negb]. unfold layer. by rewrite (remove_prune _ _ _ _ _ _ _ n).
  - intros y Hy. apply Hgone. rewrite Hrw, Hwork, !layer_part in Hy by (done || apply (bool_decide_eq_true_1 (plain _)); by vm_compute).
    fold layer in Hy. destruct Hy as [[z ->]|[z ->]]; rewrite <- app_assoc; by eexists.
  - intros y Hy. apply below_false in Hy. by rewrite lookup_prune, Hy.
Qed.
End disk_layer.

(** * Concrete runs *)
Module Example_.
#[local] Existing Instances PlanBuilder.Example_.lower PlanBuilder.Example_.lib PlanBuilder.Example_.ranges.
#[local] Existing Instance PlanBuilder.Example_.ranges_laws.
#[local] Existing Instance Trust.Example_.digest.
#[local] Abbreviation ranges := PlanBuilder.Example_.ranges.
#[local] Instance regexps : Regexp := {| regexp_ok := fun _ => true; regexp_match := fun re a => contains a re |}.
Definition shown_flags (argv : list gostring) : option (bool * gostring * gostring) :=
  match parse_delegate_list_flags argv with (fl, true) => Some (lf_json fl, lf_repo fl, lf_config fl) | _ => None end.
Example list_flags :
  map shown_flags [
    [$"--list"; $"--repo"; $"/a"; $"--repo"; $"/b"; $"--json"]; [$"--json"; $"-l"; $"-c"; $"--list"]; [$"--json"];
    [$"--repo"; $"/a"; $"--list"]; [$"--list"; $"build"]; [$"build"; $"--list"]; [$"-l"; $"--config"]] =
  [Some (true, $"/b", []); Some (true, [], $"--list"); None; None; None; None; None].
Proof. vm_compute. reflexivity. Qed.

(** A user with a raw rule and a storage base, on a host that names a task in
    [RUNNER_WHITELIST]. *)
Definition get_pods : raw_rule := RawRule $"kubectl" [] [$"get"] [] [] false [].
Definition user3 : user :=
  User (Paths $"/s" [] [] [] [] [] []) (RunnerCfg [] [] [$"deploy"] [get_pods] {[$"build" := $"all of it"]}) ∅ None ∅
    (Security None [] []) [] {[$"tok" := SecretSource [$"pass"] 0 0 [] false false]}
    [] {[$"key" := $"~/.key"]} [] empty_network empty_env ∅.
Definition host3 : PlanBuilder.host :=
  let h := PlanBuilder.Example_.host1 in
  PlanBuilder.Host (h_eval_symlinks h) (h_abs h) (h_trust h) (h_read h) (h_decode_repo h) (fun _ => Decoded user3)
    [$"HOME=/home/me"; $"RUNNER_WHITELIST=lint"] (h_home h) (h_temp_dir h) (h_stat_file h) (h_mkdir_all h) (h_mkdir_temp h)
    (h_write h) (h_look_path h) (h_go_env h) (h_alloc h) (h_fetch h) (h_secret_files h).
Definition request3 : PlanBuilder.request := PlanBuilder.Request $"/w/app" [] $"/u.yaml" OverlayDisk $"a" OverlayPlain [] [] ∅.
Definition run3 : list effect * result plan_err (full_plan * user) := build_plan ranges ranges host3 request3.
Definition plan3 : full_plan := match snd run3 with Ok (p, _) => p | Err _ => PlanBuilder.Example_.plan1 end.
Lemma run3_ok : run3 = (fst run3, Ok (plan3, user3)).
Proof.
  assert (Hu : match snd run3 with Ok (_, u) => Some u | Err _ => None end = Some user3) by (vm_compute; reflexivity).
  unfold plan3. destruct run3 as [t [[p u]|e]]; cbn [fst snd] in *; congruence.
Qed.
Definition no_files : Justfile.filesystem := ∅.
Definition service3 : runner_service :=
  match runner_service_for no_files plan3 (Some user3) with
  | Ok cfg => cfg
  | Err _ => RunnerService (Engine ∅ [] ∅ [] ∅ []) [] [] []
  end.
Lemma service3_ok : runner_service_for no_files plan3 (Some user3) = Ok service3.
Proof. vm_compute. reflexivity. Qed.
(** The plan's tasks hold the user's rules, and the engine is made of them and
    of the user's rules again: a raw rule is listed twice in the sandbox. *)
Example raw_rule_listed_twice :
  map (fun t => (ti_name t, ti_description t)) (rules (rs_engine service3)) =
    [($"build", $"all of it"); ($"lint", []); ($"deploy", []); ($"kubectl", []); ($"kubectl", [])] /\
  option_map (map ti_name) (match load_host_delegated_tasks ranges host3 no_files (Some $"/w/app") [] [] $"/u.yaml" with
                            | Ok l => Some l | Err _ => None end) =
    Some [$"build"; $"deploy"; $"kubectl"].
Proof. vm_compute. by split. Qed.
Lemma listing_agrees_witness :
  exists outside, load_host_delegated_tasks ranges host3 no_files (Some $"/w/app") [] [] $"/u.yaml" = Ok outside /\
    forall x, ti_name x = $"kubectl" -> x ∈ rules (rs_engine service3) <-> x ∈ outside.
Proof.
  pose proof (listing_agrees ranges ranges host3 no_files request3 (fst run3) plan3 user3 (Some user3) service3 (Some $"/w/app") []) as H.
  specialize (H run3_ok ltac:(vm_compute; reflexivity) (or_intror eq_refl) service3_ok eq_refl). cbv zeta in H.
  destruct H as (outside & Hout & _ & Hsame). exists outside. split; [exact Hout|]. intros x Hx. apply Hsame.
  - assert (Hd : bool_decide (map_Forall (fun _ v => v <> []) (rc_descriptions (u_runner (effective ranges host3 request3 user3)))) = true)
      by (vm_compute; reflexivity).
    apply bool_decide_eq_true_1 in Hd. intros k Hk. exact (Hd k [] Hk eq_refl).
  - vm_compute. reflexivity.
  - rewrite Hx. apply smem_false. vm_compute. reflexivity.
Defined.
Lemma clean_finds_disk_layer_witness :
  resolve_storage_base ranges host3 (Some $"/w/app") [] [] $"/u.yaml" = Ok $"/s" /\
  disk_layer_rw (fp_bwrap plan3) = $"/s/a/rw" /\
  exists s', clean_command 1000 Storage.Example_.nobody Storage.Example_.rm Storage.Example_.tree
      (resolve_storage_base ranges host3 (Some $"/w/app") [] [] $"/u.yaml") false $"a" = Some (s', Ok tt) /\
    s' !! [$"s"; $"a"; $"rw"] = None.
Proof.
  assert (Hb : resolve_storage_base ranges host3 (Some $"/w/app") [] [] $"/u.yaml" = Ok $"/s") by (vm_compute; reflexivity).
  split; [exact Hb|]. split; [vm_compute; reflexivity|].
  pose proof (clean_finds_disk_layer ranges ranges host3 request3 (fst run3) plan3 user3 (Some $"/w/app") [] 1000
    Storage.Example_.nobody None None Storage.Example_.tree (Storage.Example_.dir_ 493) run3_ok eq_refl eq_refl) as H.
  specialize (H ltac:(apply (bool_decide_eq_true_1 (plain $"a")); vm_compute; reflexivity)).
  cbv zeta in H. destruct H as (base & Hbase & H). injection (eq_trans (eq_sym Hb) Hbase) as <-.
  specialize (H eq_refl Storage.Example_.base_removable ltac:(vm_compute; reflexivity) ltac:(apply tree_checked; vm_compute; reflexivity)).
  destruct H as (s' & Hc & _ & Hgone & _). exists s'. split; [exact Hc|]. apply Hgone. left.
  exists []. vm_compute. reflexivity.
Defined.
Lemma trust_command_agrees_witness :
  let run status revoke_flag := trust_action Trust.Example_.same Trust.Example_.same Trust.Example_.parse0 5
    (Trust.Example_.fs0 $"all:") (Ok (∅ : store)) (fun _ => true) $"/r" status revoke_flag in
  exists sums st', run false false = (Ok (Approved $"/r" sums), Some st') /\
    ensure_trust Trust.Example_.same Trust.Example_.same Trust.Example_.parse0 9 (Trust.Example_.fs0 $"all:") st' $"/r" $"/r/.keg.yaml"
      false None = (Ok tt, st', []).
Proof.
  pose proof (@trust_command_agrees Trust.Example_.digest Trust.Example_.digest_laws _ PlanBuilder.Example_.ranges_laws
    PlanBuilder.Example_.lower Trust.Example_.same Trust.Example_.same Trust.Example_.parse0 5 9 (Trust.Example_.fs0 $"all:") ∅ (fun _ => true)
    $"/r" $"v: 1" {[$"Makefile" := $"all:"]} false None) as H.
  specialize (H ltac:(vm_compute; reflexivity)). cbv zeta in H.
  destruct H as (_ & (st' & Hr & Hg & _) & _). eexists _, st'. split; [exact Hr | exact Hg].
Defined.
End Example_.
