(* ===== verification/TrustFile.v ===== *)
(** The trust store on disk: [LoadFile], [SaveFile], [Load] and [Save] of
    [internal/trust/trust.go], [EnsureTrustFile] of [gate.go], and what a whole
    history of launches, [keg trust] commands and delegated jobs makes of the
    file.

    The file is a [disk]: it is missing, it cannot be read, or it has contents.
    The YAML codec is the class [StoreCodec]; the document that [Save] builds
    and what [Load] makes of the decoder's answer are the code's.  The history
    is compared with a ledger of the user's decisions ([ledger_step]), to which
    only an affirmative answer on a terminal and [keg trust] append. *)
From S2P Require Import GoStrings GoPath ConfigTypes Justfile Templates TrustDiff Trust PlanBuilder CliTools.
Local Open Scope go_scope.

(** * The codec of the store *)
(** [yaml.Node.Encode] of an entry, [yaml.Encoder.Encode] of the document whose
    only key is [repos], and [yaml.Decoder.Decode] into a [Store] (a nil map
    reads as the empty one). *)
Class StoreCodec (node : Type) := {
  encode_entry : entry -> option node;
  encode_doc : list (gostring * node) -> option gostring;
  decode_store : gostring -> decoded store }.
(** Structs of strings and times always encode; decoding a document gives the
    entries that its nodes were encoded from. *)
Class StoreCodecLaws (node : Type) `{StoreCodec node} : Prop := {
  encode_entry_total (e : entry) : encode_entry e <> None;
  encode_doc_total (nodes : list (gostring * node)) : encode_doc nodes <> None;
  decode_encode_doc (entries : list (gostring * entry)) (nodes : list (gostring * node)) (data : gostring) :
    NoDup (map fst entries) ->
    Forall2 (fun ke kn => fst kn = fst ke /\ encode_entry (snd ke) = Some (snd kn)) entries nodes ->
    encode_doc nodes = Some data -> decode_store data = Decoded (list_to_map entries) }.

(** * The file *)
Inductive disk := Missing | Unreadable | Contents (data : gostring).
(** How the calls of [SaveFile] end: [os.MkdirAll] fails, [os.WriteFile] fails
    to open the file, fails after some bytes (it has truncated the file by
    then), or writes all of them. *)
Inductive write_outcome := NoDirectory | NoFile | Stops (n : nat) | Written.

Section file.
Context {node : Type} `{StoreCodec node, MapRange entry}.

(** [Load]. *)
Definition load (data : gostring) : result trust_err store :=
  match decode_store data with
  | Decoded st => Ok st
  | EndOfFile => Ok ∅
  | BadYAML => Err LoadStore
  end.
(** [LoadFile]. *)
Definition load_file (d : disk) : result trust_err store :=
  match d with
  | Missing => Ok ∅
  | Unreadable => Err LoadStore
  | Contents data => load data
  end.
(** The node of a key, in the loop of [Save]. *)
Definition save_node (st : store) (k : gostring) : result trust_err (gostring * node) :=
  match encode_entry (default empty_entry (st !! k)) with
  | Some n => Ok (k, n)
  | None => Err SaveStore
  end.
(** [Save]. *)
Definition save (st : store) : result trust_err gostring :=
  nodes ← mapM_result (save_node st) (sort_strings (map fst (map_range st)));
  from_option_err SaveStore (encode_doc nodes).
(** [SaveFile]: the file afterwards and the outcome. *)
Definition save_file (o : write_outcome) (d : disk) (st : store) : disk * result trust_err unit :=
  match save st with
  | Err e => (d, Err e)
  | Ok data =>
      match o with
      | NoDirectory | NoFile => (d, Err SaveStore)
      | Stops n => (Contents (take n data), Err SaveStore)
      | Written => (Contents data, Ok tt)
      end
  end.
(** The file after a command that handed this store to [SaveFile], if any. *)
Definition disk_after (o : write_outcome) (d : disk) (saved : option store) : disk :=
  match saved with Some st => fst (save_file o d st) | None => d end.
Definition save_ok (o : write_outcome) (d : disk) (st : store) : bool := is_ok (snd (save_file o d st)).

Context `{Digest, UnicodeCase, MapRange gostring}.
Context (eval_symlinks abs_path : gostring -> option gostring) (parse_repo : gostring -> option repo).

(** [EnsureTrustFile] on the file. *)
Definition gate (o : write_outcome) (now : Z) (files : Justfile.filesystem) (d : disk) (repo_path cfg_path : gostring)
    (is_term : bool) (answer : option gostring) : result trust_err unit * disk :=
  let '(res, saved) := ensure_trust_file eval_symlinks abs_path parse_repo (load_file d) (save_ok o d) now files
                         repo_path cfg_path is_term answer in
  (res, disk_after o d saved).
(** [keg trust] on the file. *)
Definition trust_command (o : write_outcome) (now : Z) (files : Justfile.filesystem) (d : disk) (repo_dir : gostring)
    (status revoke_flag : bool) : result trust_err trust_output * disk :=
  let '(res, saved) := trust_action eval_symlinks abs_path parse_repo now files (load_file d) (save_ok o d)
                         repo_dir status revoke_flag in
  (res, disk_after o d saved).
(** [VerifyApproved] with the file, before a delegated job. *)
Definition verify (files : Justfile.filesystem) (d : disk) (repo_path cfg_path : gostring) : result trust_err unit :=
  verify_approved eval_symlinks abs_path parse_repo files (load_file d) repo_path cfg_path.

(** * Histories *)
Inductive command :=
  | Edit (files : Justfile.filesystem)
  | Launch (repo_path cfg_path : gostring) (is_term : bool) (answer : option gostring)
  | Trust (repo_dir : gostring) (status revoke_flag : bool)
  | Job (repo_path cfg_path : gostring).
(** One command, when it ran and how its writes ended. *)
Record event := Event { ev_command : command; ev_time : Z; ev_write : write_outcome }.
Record world := World { w_files : Justfile.filesystem; w_disk : disk }.
Inductive report :=
  | Edited | Passed | Refused
  | Shown (out : trust_output).

Definition pass {A} (r : result trust_err A) : report := match r with Ok _ => Passed | Err _ => Refused end.
Definition execute (w : world) (ev : event) : world * report :=
  let '(World files d) := w in
  match ev_command ev with
  | Edit files' => (World files' d, Edited)
  | Launch repo_path cfg_path is_term answer =>
      let '(res, d') := gate (ev_write ev) (ev_time ev) files d repo_path cfg_path is_term answer in
      (World files d', pass res)
  | Trust repo_dir status revoke_flag =>
      let '(res, d') := trust_command (ev_write ev) (ev_time ev) files d repo_dir status revoke_flag in
      (World files d', match res with Ok out => Shown out | Err _ => Refused end)
  | Job repo_path cfg_path => (w, pass (verify files d repo_path cfg_path))
  end.
Fixpoint run (w : world) (evs : list event) : world * list report :=
  match evs with
  | [] => (w, [])
  | ev :: evs' => let '(w1, r) := execute w ev in let '(w2, rs) := run w1 evs' in (w2, r :: rs)
  end.

(** * The ledger *)
(** What the user decided, in order: a configuration and anchors approved for
    a repository, by their hashes, or everything of a repository revoked. *)
Inductive decision :=
  | Approves (key sha : gostring) (shas : strmap)
  | Revokes (key : gostring).
Record grant := Grant { g_config : gostring; g_anchors : strmap }.
Definition no_grant : grant := Grant [] ∅.
Definition decide_grant (key : gostring) (g : grant) (x : decision) : grant :=
  match x with
  | Approves k sha shas => if seqb k key then Grant sha (shas ∪ g_anchors g) else g
  | Revokes k => if seqb k key then no_grant else g
  end.
Definition granted (ledger : list decision) (key : gostring) : grant := foldl (decide_grant key) no_grant ledger.
Definition allows (g : grant) (sha : gostring) (shas : strmap) : bool :=
  bool_decide (sha <> [] /\ g_config g = sha /\ map_Forall (fun rel s => g_anchors g !! rel = Some s) shas).

Definition wrote (o : write_outcome) : bool := match o with Written => true | _ => false end.
(** What a command reads of a repository: its configuration file is unreadable
    (or one of its anchors is), it has none, or it has one. *)
Inductive view := Unreadable_ | Unconfigured (exists_ : bool) | Configured (data : gostring) (contents : strmap).
Definition viewed (files : Justfile.filesystem) (repo_path cfg_path : gostring) : view :=
  match read_path files cfg_path with
  | Err _ => Unreadable_
  | Ok None => Unconfigured false
  | Ok (Some data) =>
      if is_empty data then Unconfigured true
      else match read_anchors files repo_path (anchors_of parse_repo files data repo_path) with
           | Ok contents => Configured data contents
           | Err _ => Unreadable_
           end
  end.
Abbreviation key_of := (clean_repo_key eval_symlinks abs_path).
Definition ledger_launch (saved : bool) (files : Justfile.filesystem) (ledger : list decision)
    (repo_path cfg_path : gostring) (is_term : bool) (answer : option gostring) : list decision * report :=
  match viewed files repo_path cfg_path with
  | Unreadable_ => (ledger, Refused)
  | Unconfigured _ => (ledger, if saved then Passed else Refused)
  | Configured data contents =>
      let key := key_of repo_path in
      if allows (granted ledger key) (sha_hex data) (shas_of contents) then (ledger, if saved then Passed else Refused)
      else if is_term && saved && match answer with Some a => affirmative a | None => false end
      then (ledger ++ [Approves key (sha_hex data) (shas_of contents)], Passed)
      else (ledger, Refused)
  end.
Definition ledger_status (g : grant) (sha : gostring) (shas : strmap) (sums : list (gostring * gostring)) : trust_output :=
  if is_empty (g_config g) then StatusNone sums else if allows g sha shas then StatusTrusted sums else StatusChanged sums.
Definition ledger_trust (saved : bool) (files : Justfile.filesystem) (ledger : list decision) (repo_dir : gostring)
    (status revoke_flag : bool) : list decision * report :=
  match viewed files repo_dir (path_join repo_dir $".keg.yaml") with
  | Unreadable_ => (ledger, Refused)
  | Unconfigured exists_ => (ledger, Shown (if exists_ then EmptyConfig repo_dir else NoConfig repo_dir))
  | Configured data contents =>
      let key := key_of repo_dir in
      let sums := checksums (sha_hex data) (anchors_of parse_repo files data repo_dir) (shas_of contents) in
      if status then (ledger, Shown (ledger_status (granted ledger key) (sha_hex data) (shas_of contents) sums))
      else if negb saved then (ledger, Refused)
      else if revoke_flag then (ledger ++ [Revokes key], Shown (Revoked repo_dir))
      else (ledger ++ [Approves key (sha_hex data) (shas_of contents)], Shown (Approved repo_dir sums))
  end.
Definition ledger_job (files : Justfile.filesystem) (ledger : list decision) (repo_path cfg_path : gostring) : report :=
  match viewed files repo_path cfg_path with
  | Unreadable_ => Refused
  | Unconfigured _ => Passed
  | Configured data contents =>
      if allows (granted ledger (key_of repo_path)) (sha_hex data) (shas_of contents) then Passed else Refused
  end.
Definition ledger_step (s : Justfile.filesystem * list decision) (ev : event)
  : (Justfile.filesystem * list decision) * report :=
  let '(files, ledger) := s in
  let saved := wrote (ev_write ev) in
  match ev_command ev with
  | Edit files' => ((files', ledger), Edited)
  | Launch repo_path cfg_path is_term answer =>
      let '(ledger', r) := ledger_launch saved files ledger repo_path cfg_path is_term answer in ((files, ledger'), r)
  | Trust repo_dir status revoke_flag =>
      let '(ledger', r) := ledger_trust saved files ledger repo_dir status revoke_flag in ((files, ledger'), r)
  | Job repo_path cfg_path => (s, ledger_job files ledger repo_path cfg_path)
  end.
Fixpoint ledger_run (s : Justfile.filesystem * list decision) (evs : list event)
  : (Justfile.filesystem * list decision) * list report :=
  match evs with
  | [] => (s, [])
  | ev :: evs' => let '(s1, r) := ledger_step s ev in let '(s2, rs) := ledger_run s1 evs' in (s2, r :: rs)
  end.
End file.

(** * Loading what was saved *)
Section codec.
Context {node : Type} `{StoreCodecLaws node, MapRangeLaws entry}.
Lemma save_node_total st k : exists n, save_node st k = Ok (k, n) /\ encode_entry (default empty_entry (st !! k)) = Some n.
Proof.
  unfold save_node. pose proof (encode_entry_total (default empty_entry (st !! k))) as He.
  destruct (encode_entry _) as [n|]; [by exists n | done].
Qed.
Lemma save_nodes_total st keys : exists nodes, mapM_result (save_node st) keys = Ok nodes.
Proof.
  induction keys as [|k keys [nodes IH]]; cbn [mapM_result]; [by eexists|].
  destruct (save_node_total st k) as (n & -> & _). rewrite IH. by eexists.
Qed.
(** The keys that are written: each once, and those of the store. *)
Lemma saved_keys_perm (st : store) : sort_strings (map fst (map_range st)) ≡ₚ map fst (map_to_list st).
Proof. rewrite sort_strings_perm. apply (fmap_Permutation fst), map_range_perm. Qed.
Definition saved_entries (st : store) : list (gostring * entry) :=
  map (fun k => (k, default empty_entry (st !! k))) (sort_strings (map fst (map_range st))).
Lemma saved_entries_keys st : map fst (saved_entries st) = sort_strings (map fst (map_range st)).
Proof. unfold saved_entries. rewrite map_map. cbn [fst]. apply map_id. Qed.
Lemma saved_entries_nodup st : NoDup (map fst (saved_entries st)).
Proof. rewrite saved_entries_keys, saved_keys_perm. apply NoDup_fst_map_to_list. Qed.
Lemma saved_entries_map st : list_to_map (saved_entries st) = st.
Proof.
  apply map_eq. intros k. apply option_eq. intros e.
  rewrite <- elem_of_list_to_map by apply saved_entries_nodup.
  assert (Hk : k ∈ sort_strings (map fst (map_range st)) <-> is_Some (st !! k)).
  { rewrite saved_keys_perm, list_elem_of_fmap. split.
    - intros ([k' v] & -> & Hv%elem_of_map_to_list). by eexists.
    - intros [v Hv]. exists (k, v). split; [done | by apply elem_of_map_to_list]. }
  unfold saved_entries. rewrite list_elem_of_fmap. split.
  - intros (k' & [= <- ->] & Hin). apply Hk in Hin as [v Hv]. by rewrite Hv.
  - intros He. exists k. rewrite He. split; [done|]. apply Hk. by eexists.
Qed.
(** Saving never fails, and what it makes loads as the store it was made of. *)
Lemma save_loads st : exists data, save st = Ok data /\ load data = Ok st.
Proof.
  unfold save. destruct (save_nodes_total st (sort_strings (map fst (map_range st)))) as [nodes Hn]. rewrite Hn.
  cbn [mbind result_bind]. pose proof (encode_doc_total nodes) as Hd. destruct (encode_doc nodes) as [data|] eqn:He; [|done].
  exists data. split; [done|]. unfold load.
  rewrite (decode_encode_doc (saved_entries st) nodes data); [by rewrite saved_entries_map | apply saved_entries_nodup | | done].
  apply mapM_result_Forall2 in Hn. unfold saved_entries. rewrite Forall2_fmap_l. eapply Forall2_impl; [exact Hn|].
  intros k kn Hk. cbn [fst snd]. destruct (save_node_total st k) as (n & Hs & Hen). cbv beta in Hk. rewrite Hs in Hk. apply ok_inj in Hk as <-. by split.
Qed.
Lemma save_file_written d st : exists data, save_file Written d st = (Contents data, Ok tt) /\ load_file (Contents data) = Ok st.
Proof. destruct (save_loads st) as (data & Hs & Hl). exists data. unfold save_file. by rewrite Hs. Qed.
(** A write that does not get to the file leaves it. *)
Lemma save_file_refused o d st : o = NoDirectory \/ o = NoFile -> exists e, save_file o d st = (d, Err e).
Proof. intros Ho. unfold save_file. destruct (save st); [|by eexists]. by destruct Ho as [-> | ->]; eexists. Qed.
End codec.

(** * What a store grants *)
Section grants.
Context `{DigestLaws, MapRangeLaws gostring}.
Context (eval_symlinks abs_path : gostring -> option gostring).
Abbreviation key_of := (clean_repo_key eval_symlinks abs_path).
Definition approved_hash (a : anchor_entry) : option gostring :=
  if is_empty (ae_approved a) then None else Some (ae_approved a).
Definition entry_grant (e : entry) : grant := Grant (en_approved e) (omap approved_hash (en_anchors e)).
Definition store_grant (st : store) (key : gostring) : grant := default no_grant (entry_grant <$> st !! key).

Lemma anchor_granted e rel s :
  g_anchors (entry_grant e) !! rel = Some s <-> exists a, en_anchors e !! rel = Some a /\ ae_approved a = s /\ s <> [].
Proof.
  unfold entry_grant. cbn [g_anchors]. rewrite lookup_omap. destruct (en_anchors e !! rel) as [a|]; cbn; [|naive_solver].
  unfold approved_hash. destruct (is_empty (ae_approved a)) eqn:He; breflect; naive_solver.
Qed.
Lemma trusted_allows st key sha shas : trusted st key sha shas = allows (store_grant st key) sha shas.
Proof.
  unfold trusted, allows, store_grant. destruct (st !! key) as [e|]; cbn [fmap option_fmap option_map default].
  - apply eq_true_iff_eq. rewrite (is_trusted_iff eval_symlinks abs_path), bool_decide_eq_true. unfold matches_approval, map_Forall.
    setoid_rewrite anchor_granted. naive_solver.
  - symmetry. apply bool_decide_eq_false. cbn [g_config no_grant]. intros (Hne & <- & _). done.
Qed.
Lemma store_grant_insert key e st : store_grant (<[key := e]> st) key = entry_grant e.
Proof. unfold store_grant. by rewrite lookup_insert_eq. Qed.
Lemma store_grant_insert_ne key k e st : key <> k -> store_grant (<[k := e]> st) key = store_grant st key.
Proof. intros Hne. unfold store_grant. by rewrite lookup_insert_ne. Qed.
(** The entry an operation starts from: the empty one for a new repository. *)
Lemma store_grant_existing st key : store_grant st key = entry_grant (default empty_entry (st !! key)).
Proof.
  unfold store_grant. destruct (st !! key); [done|]. unfold entry_grant, no_grant. cbn [default from_option fmap option_fmap option_map].
  cbn [empty_entry en_approved en_anchors]. by rewrite omap_empty.
Qed.
Lemma note_current_grant now st repo content contents st' ch key :
  note_current eval_symlinks abs_path now st repo content contents = Ok (st', ch) ->
  store_grant st' key = store_grant st key.
Proof.
  unfold note_current. intros (s & Hs & Hn)%bind_ok_inv. apply bind_ok_inv in Hn as ([m c] & Hf & [= <- <-]).
  destruct (decide (key = key_of repo)) as [->|Hne]; [|by rewrite store_grant_insert_ne].
  rewrite store_grant_insert, store_grant_existing. pose proof (note_fold _ _ _ _ _ Hf) as Ha.
  set (existing := default empty_entry (st !! key_of repo)) in *.
  unfold entry_grant. cbn [en_approved en_anchors]. f_equal.
  apply map_eq. intros rel. rewrite !lookup_omap. unfold approved_hash. destruct (Ha rel) as [Heq|(Hnone & a & Hm & He)].
  - destruct (m !! rel), (en_anchors existing !! rel); cbn in Heq |- *; try done. injection Heq as ->. done.
  - rewrite Hnone, Hm. cbn. by rewrite He.
Qed.
Lemma approve_grant now st repo content contents st' sha key :
  approve eval_symlinks abs_path now st repo content contents = Ok (st', sha) ->
  store_grant st' key = decide_grant key (store_grant st key) (Approves (key_of repo) (sha_hex content) (shas_of contents)).
Proof.
  unfold approve. intros (s & Hs & Hn)%bind_ok_inv. apply bind_ok_inv in Hn as (m & Hf & [= <- <-]).
  apply sha256_ok in Hs as [_ ->]. cbn [decide_grant].
  destruct (seqb_spec (key_of repo) key) as [<-|Hne]; [|by rewrite store_grant_insert_ne].
  rewrite store_grant_insert, store_grant_existing. unfold entry_grant. cbn [en_approved en_anchors g_anchors]. f_equal. apply map_eq. intros rel. rewrite lookup_omap, lookup_union, (approve_fold eval_symlinks abs_path _ _ _ Hf).
  unfold shas_of. rewrite lookup_fmap. destruct (contents !! rel) as [b|]; cbn.
  - unfold approved_hash. cbn [ae_approved]. pose proof (sha_hex_nonempty b) as Hb. apply is_empty_false in Hb. rewrite Hb.
    by destruct (_ !! rel).
  - rewrite lookup_omap. by destruct (_ ≫= _).
Qed.
Lemma revoke_grant now st repo key :
  store_grant (revoke eval_symlinks abs_path now st repo) key = decide_grant key (store_grant st key) (Revokes (key_of repo)).
Proof.
  unfold revoke. cbn [decide_grant]. destruct (seqb_spec (key_of repo) key) as [<-|Hne].
  - destruct (st !! key_of repo) as [e|] eqn:He; [|unfold store_grant; by rewrite He].
    rewrite store_grant_insert. unfold entry_grant, no_grant. cbn [en_approved en_anchors]. f_equal.
    apply map_eq. intros rel. rewrite lookup_omap, lookup_fmap, lookup_empty. by destruct (en_anchors e !! rel).
  - destruct (st !! key_of repo); [by rewrite store_grant_insert_ne | done].
Qed.
Lemma granted_snoc ledger x key : granted (ledger ++ [x]) key = decide_grant key (granted ledger key) x.
Proof. unfold granted. by rewrite foldl_app. Qed.
End grants.

(** * The file implements the ledger *)
Section refinement.
Context {node : Type} `{StoreCodecLaws node, MapRangeLaws entry, DigestLaws, UnicodeCase, MapRangeLaws gostring}.
Context (eval_symlinks abs_path : gostring -> option gostring) (parse_repo : gostring -> option repo).
Abbreviation key_of := (clean_repo_key eval_symlinks abs_path).
Abbreviation viewed := (viewed parse_repo).

(** The file loads, and the store it holds grants what the ledger does. *)
Definition represents (d : disk) (ledger : list decision) : Prop :=
  exists st, load_file d = Ok st /\ forall key, store_grant st key = granted ledger key.
Lemma missing_represents : represents Missing [].
Proof. exists ∅. split; [done|]. intros key. unfold store_grant. by rewrite lookup_empty. Qed.

(** How a write ends that does not tear the file. *)
Definition untorn (o : write_outcome) : Prop := forall n, o <> Stops n.
Lemma save_file_untorn o d st :
  untorn o ->
  save_ok o d st = wrote o /\ if wrote o then load_file (disk_after o d (Some st)) = Ok st else disk_after o d (Some st) = d.
Proof.
  intros Ho. unfold save_ok, disk_after. destruct o as [| |n|]; cbn [wrote].
  - by destruct (save_file_refused NoDirectory d st (or_introl eq_refl)) as [e ->].
  - by destruct (save_file_refused NoFile d st (or_intror eq_refl)) as [e ->].
  - by destruct (Ho n).
  - destruct (save_file_written d st) as (data & -> & Hl). by split.
Qed.
(** The file after a command that handed [SaveFile] a store granting what the
    ledger then says. *)
Lemma represents_after o d ledger ledger' st :
  untorn o -> represents d ledger -> (forall key, store_grant st key = granted ledger' key) ->
  (wrote o = false -> ledger' = ledger) -> represents (disk_after o d (Some st)) ledger'.
Proof.
  intros Ho Hd Hst Hkeep. destruct (save_file_untorn o d st Ho) as [_ Hw]. destruct (wrote o).
  - by exists st.
  - by rewrite Hw, Hkeep.
Qed.

(** What the gate does, by what it reads. *)
Lemma ensure_trust_viewed now files st repo_path cfg_path is_term answer res st' text :
  ensure_trust eval_symlinks abs_path parse_repo now files st repo_path cfg_path is_term answer = (res, st', text) ->
  match viewed files repo_path cfg_path with
  | Unreadable_ => is_ok res = false /\ st' = st
  | Unconfigured _ => is_ok res = true /\ st' = st
  | Configured data contents =>
      let key := key_of repo_path in
      if allows (store_grant st key) (sha_hex data) (shas_of contents) then is_ok res = true /\ st' = st
      else if is_term && match answer with Some a => affirmative a | None => false end
      then is_ok res = true /\
           forall k, store_grant st' k = decide_grant k (store_grant st k) (Approves key (sha_hex data) (shas_of contents))
      else is_ok res = false /\ forall k, store_grant st' k = store_grant st k
  end.
Proof.
  unfold ensure_trust, TrustFile.viewed.
  destruct (read_path files cfg_path) as [[data|]|]; [| by intros [= <- <- _] | by intros [= <- <- _]].
  destruct (is_empty data) eqn:Hd; [by intros [= <- <- _]|]. breflect.
  destruct (read_anchors files repo_path _) as [contents|] eqn:Hr; [|by intros [= <- <- _]].
  cbv zeta. rewrite <- (trusted_allows eval_symlinks abs_path).
  assert (Ht : (match st !! key_of repo_path with Some _ => true | None => false end) &&
               is_trusted (default empty_entry (st !! key_of repo_path)) (sha_hex data) (shas_of contents) =
               trusted st (key_of repo_path) (sha_hex data) (shas_of contents))
    by (unfold trusted; by destruct (st !! key_of repo_path)).
  rewrite Ht. destruct (trusted st _ _ _); [by intros [= <- <- _]|].
  pose proof (read_anchors_nonempty _ _ _ _ Hr) as Hne.
  destruct (note_current_total eval_symlinks abs_path now st repo_path data contents Hd Hne) as (st1 & ch & Hn). rewrite Hn.
  pose proof (fun k => note_current_grant eval_symlinks abs_path _ _ _ _ _ _ _ k Hn) as Hg.
  destruct is_term; cbn [negb andb]; [|by intros [= <- <- _]].
  destruct answer as [ans|]; [|by intros [= <- <- _]]. destruct (affirmative ans); [|by intros [= <- <- _]].
  destruct (approve_total eval_symlinks abs_path now st1 repo_path data contents Hd Hne) as [st2 Ha]. rewrite Ha.
  intros [= <- <- _]. split; [done|]. intros k. rewrite <- (Hg k). exact (approve_grant eval_symlinks abs_path _ _ _ _ _ _ _ k Ha).
Qed.
Abbreviation execute := (execute eval_symlinks abs_path parse_repo).
Abbreviation ledger_step := (ledger_step eval_symlinks abs_path parse_repo).
Abbreviation gate := (gate eval_symlinks abs_path parse_repo).
Abbreviation trust_command := (trust_command eval_symlinks abs_path parse_repo).
Abbreviation verify := (verify eval_symlinks abs_path parse_repo).

Lemma pass_ok {A} (r : result trust_err A) : pass r = if is_ok r then Passed else Refused.
Proof. by destruct r. Qed.
Lemma launch_refines o now files d ledger repo_path cfg_path is_term answer :
  untorn o -> represents d ledger ->
  let '(res, d') := gate o now files d repo_path cfg_path is_term answer in
  let '(ledger', r) := ledger_launch eval_symlinks abs_path parse_repo (wrote o) files ledger repo_path cfg_path is_term answer in
  pass res = r /\ represents d' ledger'.
Proof.
  intros Ho Hd. pose proof Hd as (st & Hl & Hg). unfold TrustFile.gate, ensure_trust_file. rewrite Hl.
  destruct (ensure_trust _ _ _ _ _ _ _ _ _ _) as [[res st'] text] eqn:He. apply ensure_trust_viewed in He.
  destruct (save_file_untorn o d st' Ho) as [Hs _]. rewrite Hs. clear Hs.
  assert (Hres : (if wrote o then (res, Some st')
                  else match res with Err e => (Err (JoinedErr e SaveStore), Some st') | Ok _ => (Err SaveStore, Some st') end)
               = (if wrote o then res else match res with Err e => Err (JoinedErr e SaveStore) | Ok _ => Err SaveStore end, Some st'))
    by (by destruct (wrote o), res).
  rewrite Hres. clear Hres. unfold ledger_launch.
  destruct (viewed files repo_path cfg_path) as [|ex|data contents].
  - destruct He as [Hr ->]. split; [|by apply (represents_after _ _ ledger)].
    rewrite pass_ok. by destruct (wrote o), res.
  - destruct He as [Hr ->]. split; [|by apply (represents_after _ _ ledger)].
    rewrite pass_ok. by destruct (wrote o), res.
  - cbv zeta in He. rewrite Hg in He. destruct (allows _ _ _).
    { destruct He as [Hr ->]. split; [|by apply (represents_after _ _ ledger)]. rewrite pass_ok. by destruct (wrote o), res. }
    destruct is_term; cbn [andb] in *.
    + destruct (match answer with Some a => _ | None => _ end); destruct He as [Hr Hst'].
      * destruct (wrote o) eqn:Hw; cbn [andb].
        -- split; [rewrite pass_ok, Hr; done|]. apply (represents_after _ _ ledger); [done..| |congruence].
           intros k. by rewrite Hst', Hg, granted_snoc.
        -- split; [by destruct res|]. unfold disk_after. destruct (save_file_untorn o d st' Ho) as [_ Hd'].
           rewrite Hw in Hd'. unfold disk_after in Hd'. by rewrite Hd'.
      * rewrite andb_false_r. split; [rewrite pass_ok; by destruct (wrote o), res|].
        apply (represents_after _ _ ledger); [done..| |done]. intros k. by rewrite Hst'.
    + destruct He as [Hr Hst']. split; [rewrite pass_ok; by destruct (wrote o), res|].
      apply (represents_after _ _ ledger); [done..| |done]. intros k. by rewrite Hst'.
Qed.
Lemma trust_refines o now files d ledger repo_dir status revoke_flag :
  untorn o -> represents d ledger ->
  let '(res, d') := trust_command o now files d repo_dir status revoke_flag in
  let '(ledger', r) := ledger_trust eval_symlinks abs_path parse_repo (wrote o) files ledger repo_dir status revoke_flag in
  match res with Ok out => Shown out | Err _ => Refused end = r /\ represents d' ledger'.
Proof.
  intros Ho Hd. pose proof Hd as (st & Hl & Hg). unfold TrustFile.trust_command, trust_action, ledger_trust, TrustFile.viewed.
  destruct (read_path files _) as [[data|]|]; [|done..]. destruct (is_empty data) eqn:Hne; [done|]. breflect. cbv zeta.
  destruct (read_anchors files repo_dir _) as [contents|] eqn:Hr; [|done]. rewrite Hl.
  destruct status.
  - unfold ledger_status. rewrite <- Hg, <- (trusted_allows eval_symlinks abs_path), store_grant_existing. unfold trusted, entry_grant. cbn [g_config].
    destruct (st !! key_of repo_dir) as [e|]; [|done]. cbn [default from_option id].
    destruct (is_empty (en_approved e)); [done|]. by destruct (is_trusted e _ _).
  - destruct revoke_flag.
    + set (st' := revoke _ _ _ _ _). destruct (save_file_untorn o d st' Ho) as [Hs Hw]. rewrite Hs.
      destruct (wrote o) eqn:Hwo; cbn [negb]; [|by rewrite Hw]. split; [done|].
      exists st'. split; [done|]. intros k. unfold st'. by rewrite (revoke_grant eval_symlinks abs_path), Hg, granted_snoc.
    + destruct (approve_total eval_symlinks abs_path now st repo_dir data contents Hne (read_anchors_nonempty _ _ _ _ Hr)) as [st' Ha].
      rewrite Ha. destruct (save_file_untorn o d st' Ho) as [Hs Hw]. rewrite Hs.
      destruct (wrote o) eqn:Hwo; cbn [negb]; [|by rewrite Hw]. split; [done|].
      exists st'. split; [done|]. intros k. by rewrite (approve_grant eval_symlinks abs_path _ _ _ _ _ _ _ k Ha), Hg, granted_snoc.
Qed.
Lemma job_refines files d ledger repo_path cfg_path :
  represents d ledger ->
  pass (verify files d repo_path cfg_path) = ledger_job eval_symlinks abs_path parse_repo files ledger repo_path cfg_path.
Proof.
  intros (st & Hl & Hg). unfold TrustFile.verify, verify_approved, ledger_job, TrustFile.viewed. rewrite Hl.
  destruct (read_path files _) as [[data|]|]; [|done..]. destruct (is_empty data); [done|].
  destruct (read_anchors files repo_path _) as [contents|]; [|done]. cbn [mbind result_bind].
  rewrite <- Hg, <- (trusted_allows eval_symlinks abs_path). unfold trusted.
  destruct (st !! key_of repo_path) as [e|]; [|done]. by destruct (is_trusted e _ _).
Qed.
Lemma step_refines w ev ledger :
  untorn (ev_write ev) -> represents (w_disk w) ledger ->
  let '(w', r) := execute w ev in
  let '(s', r') := ledger_step (w_files w, ledger) ev in
  r = r' /\ w_files w' = fst s' /\ represents (w_disk w') (snd s').
Proof.
  intros Ho Hd. destruct w as [files d]. unfold TrustFile.execute, TrustFile.ledger_step. cbn [w_files w_disk] in *.
  destruct (ev_command ev) as [files'|root cfg is_term answer|dir status rev|root cfg].
  - done.
  - pose proof (launch_refines _ (ev_time ev) files d ledger root cfg is_term answer Ho Hd) as Hl.
    destruct (gate _ _ _ _ _ _ _ _), (ledger_launch _ _ _ _ _ _ _ _ _ _). by destruct Hl.
  - pose proof (trust_refines _ (ev_time ev) files d ledger dir status rev Ho Hd) as Hl.
    destruct (trust_command _ _ _ _ _ _ _), (ledger_trust _ _ _ _ _ _ _ _ _). by destruct Hl.
  - cbn [w_files w_disk fst snd]. by rewrite job_refines with (ledger := ledger).
Qed.
Abbreviation run := (run eval_symlinks abs_path parse_repo).
Abbreviation ledger_run := (ledger_run eval_symlinks abs_path parse_repo).
Lemma run_refines evs w ledger :
  Forall (fun ev => untorn (ev_write ev)) evs -> represents (w_disk w) ledger ->
  let '(w', rs) := run w evs in
  let '(s', rs') := ledger_run (w_files w, ledger) evs in
  rs = rs' /\ w_files w' = fst s' /\ represents (w_disk w') (snd s').
Proof.
  intros Hall. revert w ledger. induction Hall as [|ev evs Hev _ IH]; intros w ledger Hd; [done|].
  cbn [TrustFile.run TrustFile.ledger_run]. pose proof (step_refines w ev ledger Hev Hd) as Hs.
  destruct (execute w ev) as [w1 r], (ledger_step (w_files w, ledger) ev) as [[files1 ledger1] r'].
  destruct Hs as (<- & Hf & Hr). cbn [fst snd] in *. subst files1. specialize (IH w1 ledger1 Hr).
  destruct (run w1 evs), (ledger_run (w_files w1, ledger1) evs). destruct IH as (<- & ? & ?). done.
Qed.
End refinement.

(** * The decisions in a ledger *)
Section decisions.
Context `{DigestLaws, UnicodeCase, MapRangeLaws gostring}.
Context (eval_symlinks abs_path : gostring -> option gostring) (parse_repo : gostring -> option repo).
Abbreviation key_of := (clean_repo_key eval_symlinks abs_path).
Abbreviation viewed := (viewed parse_repo).
Abbreviation ledger_step := (ledger_step eval_symlinks abs_path parse_repo).
Abbreviation ledger_run := (ledger_run eval_symlinks abs_path parse_repo).

Definition about (key : gostring) (x : decision) : Prop :=
  match x with Approves k _ _ => k = key | Revokes k => k = key end.
(** Nothing after it takes the approval of an anchor away. *)
Definition leaves_anchor (key rel : gostring) (x : decision) : Prop :=
  match x with Approves k _ shas => k = key -> shas !! rel = None | Revokes k => k <> key end.

(** A configuration is approved by the last decision about the repository. *)
Lemma granted_config ledger key sha :
  sha <> [] -> g_config (granted ledger key) = sha ->
  exists l1 shas l2, ledger = l1 ++ Approves key sha shas :: l2 /\ Forall (fun x => ~ about key x) l2.
Proof.
  intros Hne. induction ledger as [|x ledger IH] using rev_ind; [by intros <-|].
  rewrite granted_snoc. destruct x as [k s shas|k]; cbn [decide_grant]; destruct (seqb_spec k key) as [->|Hk].
  - cbn [g_config]. intros ->. by exists ledger, shas, [].
  - intros Hg. destruct (IH Hg) as (l1 & shas' & l2 & -> & Hl2). exists l1, shas', (l2 ++ [Approves k s shas]).
    split; [by rewrite <- app_assoc|]. apply Forall_app. split; [done|]. by constructor.
  - by intros <-.
  - intros Hg. destruct (IH Hg) as (l1 & shas' & l2 & -> & Hl2). exists l1, shas', (l2 ++ [Revokes k]).
    split; [by rewrite <- app_assoc|]. apply Forall_app. split; [done|]. by constructor.
Qed.
Lemma granted_anchor ledger key rel s :
  g_anchors (granted ledger key) !! rel = Some s ->
  exists l1 sha shas l2, ledger = l1 ++ Approves key sha shas :: l2 /\ shas !! rel = Some s /\ Forall (leaves_anchor key rel) l2.
Proof.
  induction ledger as [|x ledger IH] using rev_ind; [done|].
  assert (Hkeep : leaves_anchor key rel x -> g_anchors (granted ledger key) !! rel = Some s ->
    exists l1 sha shas l2, ledger ++ [x] = l1 ++ Approves key sha shas :: l2 /\ shas !! rel = Some s /\ Forall (leaves_anchor key rel) l2).
  { intros Hx Hg. destruct (IH Hg) as (l1 & sha & shas & l2 & -> & Hs & Hl2). exists l1, sha, shas, (l2 ++ [x]).
    split; [by rewrite <- app_assoc|]. split; [done|]. apply Forall_app. split; [done|]. by constructor. }
  rewrite granted_snoc. destruct x as [k sha shas|k]; cbn [decide_grant]; destruct (seqb_spec k key) as [->|Hk];
    [| apply Hkeep; by intros -> | cbn; by rewrite lookup_empty | apply Hkeep; exact Hk].
  cbn [g_anchors]. rewrite lookup_union_Some_raw. intros [Hs|[Hnone Hg]]; [by exists ledger, sha, shas, []|].
  apply Hkeep; [by intros _ | done].
Qed.

(** The ledger approves a configuration and anchors: the last decision about
    the repository approved that configuration, and each anchor was approved by
    a decision after which the repository was not revoked and that anchor not
    approved with another content. *)
Definition approved (ledger : list decision) (key sha : gostring) (shas : strmap) : Prop :=
  (exists l1 shas' l2, ledger = l1 ++ Approves key sha shas' :: l2 /\ Forall (fun x => ~ about key x) l2) /\
  (forall rel s, shas !! rel = Some s ->
     exists l1 sha' shas' l2, ledger = l1 ++ Approves key sha' shas' :: l2 /\ shas' !! rel = Some s /\
       Forall (leaves_anchor key rel) l2).
Lemma allows_approved ledger key sha shas : allows (granted ledger key) sha shas = true -> approved ledger key sha shas.
Proof.
  unfold allows. intros (Hne & Hcfg & Hanchors)%bool_decide_eq_true. split; [by apply granted_config|].
  intros rel s Hs. apply granted_anchor. by apply Hanchors.
Qed.

(** Who made a decision: the user, on a terminal or with [keg trust], about the
    content that the files had then. *)
Definition made_by_user (files : Justfile.filesystem) (ev : event) (x : decision) : Prop :=
  ev_write ev = Written /\
  match x with
  | Approves key sha shas =>
      exists repo_path cfg_path data contents, key = key_of repo_path /\
        viewed files repo_path cfg_path = Configured data contents /\ sha = sha_hex data /\ shas = shas_of contents /\
        (ev_command ev = Trust repo_path false false /\ cfg_path = path_join repo_path $".keg.yaml" \/
         exists answer, ev_command ev = Launch repo_path cfg_path true (Some answer) /\ affirmative answer = true)
  | Revokes key => exists repo_path, key = key_of repo_path /\ ev_command ev = Trust repo_path false true
  end.
(** Every decision of the ledger was made by the user in the history. *)
Definition decided_by_user (files : Justfile.filesystem) (evs : list event) (ledger : list decision) : Prop :=
  forall x, x ∈ ledger -> exists evs1 ev evs2, evs = evs1 ++ ev :: evs2 /\
    made_by_user (fst (fst (ledger_run (files, []) evs1))) ev x.
Lemma step_decides files ledger ev :
  let '((files', ledger'), _) := ledger_step (files, ledger) ev in
  ledger' = ledger \/ exists x, ledger' = ledger ++ [x] /\ made_by_user files ev x.
Proof.
  unfold TrustFile.ledger_step, made_by_user. destruct (ev_command ev) as [files'|root cfg is_term answer|dir status rev|root cfg]; [by left | | | by left].
  - unfold ledger_launch. destruct (viewed files root cfg) as [| |data contents] eqn:Hv; [by left..|]. cbv zeta.
    destruct (allows _ _ _); [by left|]. destruct (_ && _) eqn:Hb; [|by left].
    destruct is_term; [|done]. cbn [andb] in Hb. destruct (ev_write ev); cbn [wrote andb] in Hb; try done.
    destruct answer as [a|]; [|done]. right. eexists. split; [done|]. split; [done|].
    exists root, cfg, data, contents. split_and!; try done. right. by exists a.
  - unfold ledger_trust. destruct (viewed files dir _) as [| |data contents] eqn:Hv; [by left..|]. cbv zeta.
    destruct status; [by left|]. destruct (ev_write ev); cbn [wrote negb]; [by left..|].
    destruct rev; right; eexists; (split; [done|]); (split; [done|]); [by exists dir|].
    exists dir, (path_join dir $".keg.yaml"), data, contents. split_and!; try done. by left.
Qed.
Lemma run_decides evs files ledger x :
  x ∈ snd (fst (ledger_run (files, ledger) evs)) ->
  x ∈ ledger \/ exists evs1 ev evs2, evs = evs1 ++ ev :: evs2 /\ made_by_user (fst (fst (ledger_run (files, ledger) evs1))) ev x.
Proof.
  revert files ledger. induction evs as [|ev evs IH]; intros files ledger; [by left|].
  cbn [TrustFile.ledger_run]. pose proof (step_decides files ledger ev) as Hs.
  destruct (ledger_step (files, ledger) ev) as [[files1 ledger1] r] eqn:Hstep.
  specialize (IH files1 ledger1). destruct (ledger_run (files1, ledger1) evs) as [s2 rs]. cbn [fst snd] in *.
  intros Hx. destruct (IH Hx) as [Hin|(evs1 & ev' & evs2 & -> & Hm)].
  - destruct Hs as [->|(y & -> & Hy)]; [by left|]. apply elem_of_app in Hin as [Hin| ->%list_elem_of_singleton]; [by left|].
    right. by exists [], ev, evs.
  - right. exists (ev :: evs1), ev', evs2. split; [done|]. cbn [TrustFile.ledger_run]. rewrite Hstep.
    by destruct (ledger_run (files1, ledger1) evs1) as [[? ?] ?].
Qed.
End decisions.

(** * What the history of the file guarantees *)
Section history.
Context {node : Type} `{StoreCodecLaws node, MapRangeLaws entry, DigestLaws, UnicodeCase, MapRangeLaws gostring}.
Context (eval_symlinks abs_path : gostring -> option gostring) (parse_repo : gostring -> option repo).
Abbreviation key_of := (clean_repo_key eval_symlinks abs_path).
Abbreviation viewed := (viewed parse_repo).
Abbreviation run := (run eval_symlinks abs_path parse_repo).
Abbreviation ledger_run := (ledger_run eval_symlinks abs_path parse_repo).
Abbreviation gate := (gate eval_symlinks abs_path parse_repo).
Abbreviation verify := (verify eval_symlinks abs_path parse_repo).

(** C20: the trust store on disk is a ledger of the user's decisions.  Over every
    history of launches, [keg trust] commands, delegated jobs and changes of the
    repositories' files, with every write of the store either completed or
    refused before it touched the file, each command that goes through
    [LoadFile], [EnsureTrust], [VerifyApproved], [Approve], [Revoke], [Save] and
    [SaveFile] reports exactly what the ledger says it should, whatever the
    order Go visits its maps in; and the file that is left still loads as a
    store that grants what the ledger grants. *)
Theorem trust_file_is_a_ledger (evs : list event) (w : world) (ledger : list decision)
    (Hwrites : Forall (fun ev => untorn (ev_write ev)) evs) (Hw : represents (w_disk w) ledger) :
  let '(w', reports) := run w evs in
  let '((files', ledger'), reports') := ledger_run (w_files w, ledger) evs in
  reports = reports' /\ w_files w' = files' /\ represents (w_disk w') ledger'.
Proof.
  pose proof (run_refines eval_symlinks abs_path parse_repo evs w ledger Hwrites Hw) as Hr.
  destruct (run w evs), (ledger_run (w_files w, ledger) evs) as [[files' ledger'] rs]. exact Hr.
Qed.

(** A launch that asks nothing (or gets no affirmative answer), or a delegated
    job, is let through. *)
Definition passed_unasked (w : world) (repo_path cfg_path : gostring) : Prop :=
  verify (w_files w) (w_disk w) repo_path cfg_path = Ok tt \/
  exists o now is_term answer, untorn o /\
    is_term && match answer with Some a => affirmative a | None => false end = false /\
    fst (gate o now (w_files w) (w_disk w) repo_path cfg_path is_term answer) = Ok tt.
Lemma passed_allows w ledger repo_path cfg_path data contents :
  represents (w_disk w) ledger -> viewed (w_files w) repo_path cfg_path = Configured data contents ->
  passed_unasked w repo_path cfg_path ->
  allows (granted ledger (key_of repo_path)) (sha_hex data) (shas_of contents) = true.
Proof.
  intros Hd Hv [Hj|(o & now & is_term & answer & Ho & Hans & Hg)].
  - pose proof (job_refines eval_symlinks abs_path parse_repo (w_files w) _ _ repo_path cfg_path Hd) as Hr.
    rewrite Hj in Hr. unfold ledger_job in Hr. rewrite Hv in Hr. by destruct (allows _ _ _).
  - pose proof (launch_refines eval_symlinks abs_path parse_repo o now (w_files w) _ _ repo_path cfg_path is_term answer Ho Hd) as Hr.
    destruct (gate _ _ _ _ _ _ _ _) as [res d']. cbn [fst] in Hg. subst res.
    unfold ledger_launch in Hr. rewrite Hv in Hr. cbv zeta in Hr. destruct (allows _ _ _); [done|].
    destruct is_term; cbn [andb] in *; [|by destruct Hr]. rewrite Hans, andb_false_r in Hr. by destruct Hr.
Qed.

Lemma passed_approved evs files repo_path cfg_path data contents :
  Forall (fun ev => untorn (ev_write ev)) evs ->
  viewed (w_files (fst (run (World files Missing) evs))) repo_path cfg_path = Configured data contents ->
  passed_unasked (fst (run (World files Missing) evs)) repo_path cfg_path ->
  let ledger := snd (fst (ledger_run (files, []) evs)) in
  approved ledger (key_of repo_path) (sha_hex data) (shas_of contents) /\
  decided_by_user eval_symlinks abs_path parse_repo files evs ledger.
Proof.
  intros Hwrites Hview Hpass. cbv zeta.
  pose proof (run_refines eval_symlinks abs_path parse_repo evs (World files Missing) [] Hwrites missing_represents) as Hr.
  cbn [w_files] in Hr. destruct (run (World files Missing) evs) as [w' rs]. cbn [fst] in *.
  destruct (ledger_run (files, []) evs) as [[files' ledger] rs'] eqn:Hl. cbn [fst snd] in *. destruct Hr as (_ & _ & Hd). split.
  - eapply allows_approved, passed_allows; eassumption.
  - intros x Hx. destruct (run_decides eval_symlinks abs_path parse_repo evs files [] x) as [Hin|Hm]; [by rewrite Hl | | exact Hm].
    by apply elem_of_nil in Hin.
Qed.

(** C14: what is let through was approved, as it is.  Take any history that
    starts without a trust store, with the repositories' files changed by
    anyone at any time, in which every write of the store was done whole or not
    at all (none stopped half way).  If afterwards a launch passes without an affirmative
    answer, or a delegated job passes, for a repository with a configuration,
    then the ledger of the history approves it: the last decision about that
    repository approved the hash of this very configuration, and every anchor
    that is read was approved with the hash it has now, with no revocation and
    no approval of another content since.  Each decision of the ledger was an
    affirmative answer on a terminal or a [keg trust], given when the files had
    the hashes that it approves. *)
Theorem launch_was_approved (evs : list event) (files : Justfile.filesystem) (repo_path cfg_path data : gostring) (contents : strmap)
    (Hwrites : Forall (fun ev => untorn (ev_write ev)) evs)
    (Hview : viewed (w_files (fst (run (World files Missing) evs))) repo_path cfg_path = Configured data contents)
    (Hpass : passed_unasked (fst (run (World files Missing) evs)) repo_path cfg_path) :
  let ledger := snd (fst (ledger_run (files, []) evs)) in
  approved ledger (key_of repo_path) (sha_hex data) (shas_of contents) /\
  decided_by_user eval_symlinks abs_path parse_repo files evs ledger.
Proof. exact (passed_approved _ _ _ _ _ _ Hwrites Hview Hpass). Qed.

(** A write that stops: a file emptied by it holds no approval; one that does
    not decode refuses every launch, every delegated job of a repository with a
    configuration, and every [keg trust] of one, until the file is removed. *)
Lemma torn_write_fails_closed o now files d repo_path cfg_path is_term answer data status revoke_flag :
  d = Contents data -> decode_store data = BadYAML ->
  is_ok (fst (gate o now files d repo_path cfg_path is_term answer)) = false /\
  snd (gate o now files d repo_path cfg_path is_term answer) = d /\
  (match viewed files repo_path cfg_path with Configured _ _ => true | _ => false end = true ->
   is_ok (verify files d repo_path cfg_path) = false) /\
  (match viewed files repo_path (path_join repo_path $".keg.yaml") with Configured _ _ => true | _ => false end = true ->
   is_ok (fst (trust_command eval_symlinks abs_path parse_repo o now files d repo_path status revoke_flag)) = false).
Proof.
  intros -> Hbad. assert (Hl : load_file (Contents data) = Err LoadStore) by (cbn; unfold load; by rewrite Hbad).
  unfold TrustFile.gate, ensure_trust_file, TrustFile.verify, verify_approved, trust_command, trust_action, TrustFile.viewed.
  rewrite !Hl. split; [done|]. split; [done|]. split.
  - destruct (read_path files cfg_path) as [[x|]|]; [|done..]. destruct (is_empty x); [done|]. by destruct (read_anchors _ _ _).
  - destruct (read_path files _) as [[x|]|]; [|done..]. destruct (is_empty x); [done|]. by destruct (read_anchors _ _ _).
Qed.
Lemma emptied_store_trusts_nothing st d n key sha shas :
  decode_store [] = EndOfFile -> n = 0%nat ->
  exists st', load_file (fst (save_file (Stops n) d st)) = Ok st' /\ trusted st' key sha shas = false.
Proof.
  intros Hend ->. unfold save_file. destruct (save_loads st) as (data & -> & _). cbn [fst load_file]. unfold load. rewrite take_0. rewrite Hend.
  exists ∅. split; [done|]. unfold trusted. by rewrite lookup_empty.
Qed.

(** The gate of [BuildPlan] is the gate on the file: a plan that is built after
    such a history, with no affirmative answer, is the plan of an approved
    configuration (or of none). *)
Lemma plan_was_approved (order1 order2 : MapRange repo_override) `{!MapRange secret_source, !MapRange exec_source, !TemplateLib}
    (h : host) (q : request) t p u w o now is_term answer :
  untorn o -> is_term && match answer with Some a => affirmative a | None => false end = false ->
  h_trust h = (fun root cfg => is_ok (fst (gate o now (w_files w) (w_disk w) root cfg is_term answer))) ->
  build_plan order1 order2 h q = (t, Ok (p, u)) ->
  passed_unasked w (resolve_root h (q_repo_dir q)) (config_path h q).
Proof.
  intros Ho Hans Hh Hb. apply build_plan_ok in Hb. cbv zeta in Hb.
  destruct Hb as (c & r0 & env & tr & t0 & t1 & t2 & t3 & t4 & t5 & t6 & t7 & t8 & t9 & _ & Ht & _).
  right. exists o, now, is_term, answer. split; [done|]. split; [done|]. rewrite Hh in Ht.
  destruct (fst _) as [[]|]; done.
Qed.
End history.

(** * A concrete store *)
Module Example_.
(** A codec that satisfies the laws: the entries as a number, in binary. *)
#[local] Instance anchor_entry_eq : EqDecision anchor_entry.
Proof. solve_decision. Defined.
#[local] Instance anchor_entry_countable : Countable anchor_entry.
Proof.
  refine (inj_countable' (fun a => (ae_current a, ae_approved a, ae_content a))
            (fun '(x, y, z) => AnchorEntry x y z) _). by intros [].
Defined.
#[local] Instance entry_eq : EqDecision entry.
Proof. solve_decision. Defined.
#[local] Instance entry_countable : Countable entry.
Proof.
  refine (inj_countable' (fun e => (en_current e, en_approved e, en_content e, en_anchors e, en_updated e))
            (fun '(x, y, z, m, t) => Entry x y z m t) _). by intros [].
Defined.
Fixpoint bits (p : positive) : gostring :=
  match p with xH => [] | xO q => "0"%char :: bits q | xI q => "1"%char :: bits q end.
Fixpoint of_bits (s : gostring) : positive :=
  match s with [] => xH | c :: s' => if ascii_dec c "1" then xI (of_bits s') else xO (of_bits s') end.
Lemma of_bits_bits p : of_bits (bits p) = p.
Proof. induction p as [p IH|p IH|]; cbn; congruence. Qed.
#[local] Instance codec : StoreCodec entry := {|
  encode_entry := Some;
  encode_doc nodes := Some ("-"%char :: bits (encode nodes) ++ $".");
  decode_store data :=
    match data with
    | [] => EndOfFile
    | c :: s =>
        if seqb (drop (length s - 1) s) $"." then
          match decode (A := list (gostring * entry)) (of_bits (take (length s - 1) s)) with
          | Some l => Decoded (list_to_map l)
          | None => BadYAML
          end
        else BadYAML
    end |}.
#[local] Instance codec_laws : StoreCodecLaws entry.
Proof.
  split; [done..|]. intros entries nodes data _ Hall [= <-].
  assert (Hnodes : nodes = entries).
  { induction Hall as [|[k e] [k' e'] es ns [Hk He] _ IH]; [done|]. cbn in Hk, He. injection He as <-. subst. done. }
  subst nodes. cbn [decode_store codec]. rewrite length_app. cbn [length].
  replace (length (bits (encode entries)) + 1 - 1)%nat with (length (bits (encode entries))) by lia.
  rewrite drop_app_length, take_app_length. cbn [seqb]. rewrite of_bits_bits, decode_encode. done.
Qed.
#[local] Existing Instances Trust.Example_.digest Trust.Example_.digest_laws Trust.Example_.lower Trust.Example_.ranges.
#[local] Instance entry_ranges : MapRange entry := map_range_default.
#[local] Instance entry_ranges_laws : MapRangeLaws entry := map_range_default_laws.
#[local] Instance string_ranges_laws : MapRangeLaws gostring := map_range_default_laws.
#[local] Abbreviation same := Trust.Example_.same.
#[local] Abbreviation parse0 := Trust.Example_.parse0.
#[local] Abbreviation fs0 := Trust.Example_.fs0.
#[local] Abbreviation run0 := (run same same parse0).
Definition ev (c : command) : event := Event c 5 Written.
Definition launch0 (is_term : bool) (answer : gostring) : event := ev (Launch $"/r" $"/r/.keg.yaml" is_term (Some answer)).
(** Refused without a terminal, approved on one, passed without one; then the
    build script changes, so a launch is refused again and so is a job. *)
Definition history0 : list event :=
  [launch0 false []; launch0 true $"yes"; launch0 false []; ev (Edit (fs0 $"bad:")); launch0 false [];
   ev (Job $"/r" $"/r/.keg.yaml"); ev (Edit (fs0 $"all:"))].
Example reports0 :
  snd (run0 (World (fs0 $"all:") Missing) history0) = [Refused; Passed; Passed; Edited; Refused; Refused; Edited].
Proof. vm_compute. reflexivity. Qed.
(** An approval survives a launch whose store could not be written, which is
    itself refused; after a write that stopped at once nothing is approved, and
    after one that stopped later every launch is refused, also of a directory
    without a configuration. *)
Definition outcomes (o : write_outcome) : list report :=
  snd (run0 (World (fs0 $"all:") Missing)
         [launch0 true $"yes"; Event (Launch $"/r" $"/r/.keg.yaml" false None) 6 o;
          launch0 false []; ev (Launch $"/empty" $"/empty/.keg.yaml" false None)]).
Example write_failures :
  map outcomes [NoFile; Stops 0; Stops 9] =
  [[Passed; Refused; Passed; Passed]; [Passed; Refused; Refused; Passed]; [Passed; Refused; Refused; Refused]].
Proof. vm_compute. reflexivity. Qed.

(** Two commands that overlap: the launch loaded the store from [d0], and what
    it saves replaces [d1], which another command has left in the meantime. *)
Definition files2 : Justfile.filesystem := <[$"/s/.keg.yaml" := FSFile (Some $"v: 2")]> (fs0 $"all:").
Definition overlapped (d0 d1 : disk) : result trust_err unit * disk :=
  let '(res, saved) := ensure_trust_file same same parse0 (load_file d0) (save_ok Written d1) 7 files2
                         $"/r" $"/r/.keg.yaml" true (Some $"yes") in
  (res, disk_after Written d1 saved).
Definition job2 (d : disk) : result trust_err unit := verify same same parse0 files2 d $"/s" $"/s/.keg.yaml".
Definition approved2 : disk := snd (trust_command same same parse0 Written 5 files2 Missing $"/s" false false).
Definition revoked2 : disk := snd (trust_command same same parse0 Written 6 files2 approved2 $"/s" false true).
(** [keg trust --revoke] of one repository, while the question about another
    one waits on a terminal, is undone by the answer. *)
Example revocation_undone :
  (job2 approved2, job2 revoked2, fst (overlapped approved2 revoked2), job2 (snd (overlapped approved2 revoked2))) =
  (Ok tt, Err (UntrustedOrModified $"/s"), Ok tt, Ok tt).
Proof. vm_compute. reflexivity. Qed.
(** [os.WriteFile] empties the file before it writes: a launch that loads it
    then saves a store without the approvals of the other repositories. *)
Example approvals_lost :
  let emptied := fst (save_file (Stops 0) approved2 ∅) in
  (job2 approved2, fst (overlapped emptied approved2), job2 (snd (overlapped emptied approved2))) =
  (Ok tt, Ok tt, Err (UntrustedOrModified $"/s")).
Proof. vm_compute. reflexivity. Qed.

Lemma untorn0 : Forall (fun e => untorn (ev_write e)) history0.
Proof. repeat constructor; intros n; discriminate. Qed.
Lemma trust_file_is_a_ledger_witness :
  snd (ledger_run same same parse0 (fs0 $"all:", []) history0) =
    [Refused; Passed; Passed; Edited; Refused; Refused; Edited] /\
  represents (w_disk (fst (run0 (World (fs0 $"all:") Missing) history0)))
    (snd (fst (ledger_run same same parse0 (fs0 $"all:", []) history0))).
Proof.
  pose proof (trust_file_is_a_ledger same same parse0 history0 (World (fs0 $"all:") Missing) [] untorn0 missing_represents) as H.
  pose proof reports0 as Hr. cbn [w_files] in H. revert H Hr.
  destruct (run0 (World (fs0 $"all:") Missing) history0) as [w' rs].
  destruct (ledger_run same same parse0 (fs0 $"all:", []) history0) as [[files' ledger'] rs'].
  intros (<- & _ & Hd) Hr. split; [exact Hr | exact Hd].
Defined.
Lemma launch_was_approved_witness :
  exists l1 shas l2, snd (fst (ledger_run same same parse0 (fs0 $"all:", []) history0)) =
    l1 ++ Approves $"/r" (sha_hex $"v: 1") shas :: l2.
Proof.
  pose proof (launch_was_approved same same parse0 history0 (fs0 $"all:") $"/r" $"/r/.keg.yaml" $"v: 1"
    {[$"Makefile" := $"all:"]} untorn0) as H.
  specialize (H ltac:(vm_compute; reflexivity) ltac:(left; vm_compute; reflexivity)).
  destruct H as [[(l1 & shas & l2 & Hl & _) _] _]. exists l1, shas, l2. exact Hl.
Defined.
End Example_.
