(* ===== verification/Approval.v ===== *)
(** What a guest can make the host run, over time: the delegation daemon of a
    planned sandbox ([EndToEnd]) asks [VerifyApproved] before every job, and
    what that answers is decided by the history of the trust store
    ([TrustFile]) and by the anchors of the repository ([Justfile]).

    The examples show what this does not cover: the anchors are files at the
    root of the repository, and a job chooses its directory; and that directory
    is compared as a text, with links followed afterwards ([Storage]). *)
From S2P Require Import Storage GoStrings GoPath GoBase64 ConfigTypes Whitelist Justfile RunnerServer Templates TrustDiff Trust PlanBuilder Services EndToEnd TrustFile.
Local Open Scope go_scope.

(** * Reading the anchors *)
Lemma read_anchors_reads fs root anchors contents rel data :
  read_anchors fs root anchors = Ok contents -> rel ∈ anchors ->
  read_path fs (path_join root rel) = Ok (Some data) -> data <> [] -> contents !! rel = Some data.
Proof.
  unfold read_anchors. intros Hread Hin Hfile Hne. apply is_empty_false in Hne.
  revert contents Hread Hin. induction anchors as [|a anchors IH] using rev_ind; intros contents; [by intros _ ?%elem_of_nil|].
  rewrite foldM_result_app. destruct (foldM_result _ ∅ anchors) as [c|]; [|done]. cbn [foldM_result].
  destruct (read_anchor fs root c a) as [c'|] eqn:Ha; [|done]. intros <-%ok_inj Hin. unfold read_anchor in Ha.
  destruct (decide (rel = a)) as [<-|Hd].
  - rewrite Hfile, Hne in Ha. apply ok_inj in Ha as <-. apply lookup_insert_eq.
  - assert (Hc : c !! rel = Some data).
    { apply IH; [done|]. apply elem_of_app in Hin as [?|Hx%list_elem_of_singleton]; [done | by destruct Hd]. }
    revert Ha. destruct (read_path fs (path_join root a)) as [[bytes|]|]; [|by intros <-%ok_inj|done].
    destruct (is_empty bytes); intros <-%ok_inj; [done|]. by rewrite lookup_insert_ne.
Qed.

(** Where a directory below the root is, when no link is on its path. *)
Lemma below_place root dir : is_abs root = true -> dir = root \/ below root dir ->
  forall uid in_group (s : gmap (list gostring) Storage.node) place,
    Storage.no_link_to s (comps dir) -> Storage.resolve uid in_group s true (comps dir) = Ok place ->
    place = comps dir /\ comps root `prefix_of` place.
Proof.
  intros Hroot Hdir uid in_group s place Hl Hp.
  assert (Hx : exists cs, comps dir = comps root ++ cs /\ Forall plain cs).
  { destruct Hdir as [->|Hb]; [exists []; by rewrite app_nil_r | exact Hb]. }
  destruct Hx as (cs & Hcs & Hpl).
  assert (place = comps dir) as ->.
  { apply (Storage.resolve_no_link_to uid in_group s true _ _ Hp); [|exact Hl]. rewrite Hcs. apply Forall_app. split; [|exact Hpl].
    by apply comps_abs_plain. }
  split; [reflexivity|]. exists cs. exact Hcs.
Qed.

Section approval.
Context {node : Type} `{StoreCodecLaws node, MapRangeLaws entry, DigestLaws}.
Context `{TemplateLib, UnicodeCase, Regexp, MapRangeLaws gostring, MapRangeLaws secret_source, MapRangeLaws exec_source}.
Context (order1 order2 : MapRange repo_override) {L1 : @MapRangeLaws _ order1} {L2 : @MapRangeLaws _ order2}.
Context (eval_symlinks abs_path : gostring -> option gostring) (parse_repo : gostring -> option repo).
Context (h : PlanBuilder.host) (fs : Justfile.filesystem) (bind : nat -> gostring -> Z -> bool).
Abbreviation viewed := (viewed parse_repo).

(** What is read of a configured repository: its anchors are the ones the
    configuration declares, the root justfile when the configuration delegates
    tasks to [just], and whatever they import. *)
Lemma viewed_anchors files root cfg_path data contents r :
  is_abs root = true -> viewed files root cfg_path = Configured data contents -> parse_repo data = Some r ->
  exists L, effective_trust_anchors files r root = Some L /\
    (dt_exact (r_tasks r) <> [] \/ dt_prefixes (r_tasks r) <> [] ->
     forall name, root_justfile files root = Some name -> name ∈ L) /\
    (forall x y, x ∈ L -> imports files root x y -> y ∈ L) /\
    (forall rel b, rel ∈ L -> files !! path_join root rel = Some (FSFile (Some b)) -> b <> [] -> contents !! rel = Some b).
Proof.
  intros Habs Hv Hr. destruct (effective_trust_anchors_complete files r root Habs) as (L & HL & _ & _ & _ & _ & Hroot & Hclosed).
  exists L. split_and!; [done..|]. intros rel b Hin Hfile Hne. unfold TrustFile.viewed in Hv.
  destruct (read_path files cfg_path) as [[d|]|]; [|done..]. destruct (is_empty d); [done|].
  destruct (read_anchors files root _) as [c|] eqn:Hc; [|done]. injection Hv as -> ->.
  apply (read_anchors_reads files root (anchors_of parse_repo files data root)); [done| | |done].
  - unfold anchors_of. by rewrite Hr, HL.
  - unfold read_path. by rewrite Hfile.
Qed.

(** C1: the host runs what the user approved.  Take any plan, its services
    started in any way (with the user's configuration, as the command and the
    library do, or without it, as the launcher does, and with the sandbox
    exiting at any moment), and any history of the trust store up to the moment
    at which a guest sends a request, the repository's files changed by anyone,
    in which every write of the store was done whole or not at all.
    A command that is then started on the host was whitelisted by the
    repository's configuration, by [RUNNER_WHITELIST] or by the user's own
    configuration; the path of its working directory is, as a text, the
    repository's or one below it, and if no symbolic link is on that path, that
    is where it runs (where a link leads is not looked at: [link_leaves_root]),
    with [just] taken from the path; and the repository has no configuration at that moment, or:
    the configuration on disk is the one the user approved last, the user's
    decision having been made in that history and not revoked since; and every
    declared anchor, the root justfile when the configuration delegates tasks
    to [just], and every file they import, as far as they exist, have the
    content that was approved. *)
Theorem host_job_was_approved (decode : gostring -> option job_request) (hd : RunnerServer.host)
    (q : request) (t : list effect) (p : full_plan) (u : user) (who : option user) (all : bool)
    (audit writer : option nat) (gone : list port_listener) (death : option nat) (cfg : runner_service) (payload : option gostring)
    (cmd : RunnerServer.command) (log : list audit_record) (evs : list event) (files0 : Justfile.filesystem)
    (Habs : is_abs (resolve_root h (q_repo_dir q)) = true)
    (Hplan : build_plan order1 order2 h q = (t, Ok (p, u)))
    (Hwho : who = None \/ who = Some u)
    (Hserve : ServeRunner cfg ∈ sb_services (fst (start_background_services fs bind (LaunchPlan p all audit) who writer
                                                    (new_sandbox gone death))))
    (Hwrites : Forall (fun ev => untorn (ev_write ev)) evs)
    (Hrun : let w := fst (run eval_symlinks abs_path parse_repo (World files0 Missing) evs) in
            handle_stream decode hd
              (daemon_config cfg (is_ok (verify eval_symlinks abs_path parse_repo (w_files w) (w_disk w)
                                           (rs_repo_root cfg) (rs_cfg_path cfg)))) payload = (Started cmd, log)) :
  let root := resolve_root h (q_repo_dir q) in
  let files := w_files (fst (run eval_symlinks abs_path parse_repo (World files0 Missing) evs)) in
  let ledger := snd (fst (ledger_run eval_symlinks abs_path parse_repo (files0, []) evs)) in
  let ru := u_runner (effective order1 h q u) in
  (c_dir cmd = root \/ below root (c_dir cmd)) /\
  (forall uid in_group (s : gmap (list gostring) Storage.node) place,
     Storage.no_link_to s (comps (c_dir cmd)) -> Storage.resolve uid in_group s true (comps (c_dir cmd)) = Ok place ->
     place = comps (c_dir cmd) /\ comps root `prefix_of` place) /\
  (exists r bytes req k,
     snd (load_repo h (config_path h q) (negb (is_empty (q_repo_cfg q)))) = Ok r /\
     payload = Some bytes /\ decode bytes = Some req /\
     let argv := decode_strings (argv_b64 req) in
     whitelisted (dt_exact (r_tasks r) ++ env_tasks h ++ rc_exact ru) (dt_prefixes (r_tasks r) ++ rc_prefixes ru)
       (dt_raw (r_tasks r) ++ rc_raw ru) argv k /\
     match k with KindJust => c_path cmd = $"just" /\ c_args cmd = argv
                | KindRaw => look_path hd (Whitelist.first_of argv) = Some (c_path cmd) end) /\
  ((exists e, viewed files root (config_path h q) = Unconfigured e) \/
   exists data contents, viewed files root (config_path h q) = Configured data contents /\
     approved ledger (clean_repo_key eval_symlinks abs_path root) (sha_hex data) (shas_of contents) /\
     decided_by_user eval_symlinks abs_path parse_repo files0 evs ledger /\
     forall r, parse_repo data = Some r ->
       exists L, effective_trust_anchors files r root = Some L /\
         (dt_exact (r_tasks r) <> [] \/ dt_prefixes (r_tasks r) <> [] ->
          forall name, root_justfile files root = Some name -> name ∈ L) /\
         (forall x y, x ∈ L -> imports files root x y -> y ∈ L) /\
         (forall rel b, rel ∈ L -> files !! path_join root rel = Some (FSFile (Some b)) -> b <> [] -> contents !! rel = Some b)).
Proof.
  cbv zeta in *. pose proof (delegation_end_to_end order1 order2 h fs bind decode hd q t p u who all _ audit writer gone death cfg payload
    cmd log Habs Hplan Hwho Hserve Hrun) as Hcmd. cbv zeta in Hcmd.
  destruct Hcmd as (Htrust & Hroot & Hpath & _ & Hdir & Hwl). split; [exact Hdir|]. split; [by apply (below_place _ _ Habs)|].
  split; [exact Hwl|]. rewrite Hroot, Hpath in Htrust.
  destruct (verify _ _ _ _ _ _ _) as [[]|] eqn:Hv in Htrust; [|done].
  destruct (viewed (w_files _) _ _) as [|e|data contents] eqn:Hview; [| left; by exists e | right].
  - unfold verify, verify_approved in Hv. unfold TrustFile.viewed in Hview.
    destruct (read_path (w_files _) _) as [[d|]|]; [|done..]. destruct (is_empty d); [done|].
    by destruct (read_anchors _ _ _).
  - exists data, contents. split; [done|].
    destruct (passed_approved eval_symlinks abs_path parse_repo evs files0 _ _ _ _ Hwrites Hview (or_introl Hv)) as [Ha Hd].
    split; [done|]. split; [done|]. intros r Hr. by apply (viewed_anchors _ _ (config_path h q) data).
Qed.
End approval.

(** * The directory of a job on a file system with links *)
(** [os.Stat] of [jailDir] follows symbolic links ([Storage.stat]); the job's
    working directory is where the path leads. *)
Section directory.
Context (uid : Z) (in_group : Z -> bool) (s : gmap (list gostring) Storage.node).
Definition dir_host : RunnerServer.host :=
  RunnerServer.Host (fun _ => None)
    (fun p => match Storage.stat uid in_group s (comps p) with Ok n => Storage.is_dir n | Err _ => false end).
Definition leads_to (p : gostring) : result Storage.errno (list gostring) := Storage.resolve uid in_group s true (comps p).
Lemma dir_host_stat p n : Storage.stat uid in_group s (comps p) = Ok n -> RunnerServer.is_dir dir_host p = Storage.is_dir n.
Proof. unfold dir_host. cbn [RunnerServer.is_dir]. by intros ->. Qed.
Lemma dir_host_none p e : Storage.stat uid in_group s (comps p) = Err e -> RunnerServer.is_dir dir_host p = false.
Proof. unfold dir_host. cbn [RunnerServer.is_dir]. by intros ->. Qed.
Lemma stat_resolves x n : Storage.stat uid in_group s x = Ok n ->
  exists q, Storage.resolve uid in_group s true x = Ok q /\ s !! q = Some n.
Proof.
  unfold Storage.stat, Storage.node_at. intros (q & Hq & Hn)%bind_ok_inv. exists q. split; [exact Hq|].
  destruct (s !! q); [by injection Hn as -> | discriminate Hn].
Qed.
(** Without a link on the way, an accepted directory is the one that its name
    says, below the root. *)
Lemma jailed_directory root sub d :
  is_abs root = true -> jail_dir dir_host root sub = Ok d -> Storage.no_link_to s (comps d) ->
  leads_to d = Ok (comps d) /\ Storage.under (comps root) (comps d) /\
  exists n, s !! comps d = Some n /\ Storage.is_dir n = true.
Proof.
  intros Hroot Hj Hl. pose proof (jail_dir_cases dir_host root sub Hroot) as Hc. cbv zeta in Hc. rewrite Hj in Hc.
  destruct Hc as (Hd & _ & (cs & Hcs & _) & Hdir). rewrite <- Hd in Hcs, Hdir.
  destruct (Storage.stat uid in_group s (comps d)) as [n|e] eqn:Hs;
    [|rewrite (dir_host_none d e Hs) in Hdir; discriminate Hdir].
  rewrite (dir_host_stat d n Hs) in Hdir. apply stat_resolves in Hs as (q & Hq & Hn).
  assert (q = comps d) as ->.
  { apply (Storage.resolve_no_link_to uid in_group s true (comps d) q Hq); [|exact Hl].
    rewrite Hd. apply comps_abs_plain. apply path_join_abs. exact Hroot. }
  split; [exact Hq|]. split; [exists cs; exact Hcs|]. exists n. split; [exact Hn | exact Hdir].
Qed.
End directory.
(** With one, which the guest may make, it can be anywhere. *)
Example link_leaves_root :
  let dir := Storage.Node Storage.Dir 493 1000 1000 0 in
  let link := Storage.Node (Storage.Link $"/home/me") 511 1000 1000 0 in
  let s := list_to_map [([], dir); ([$"w"], dir); ([$"w"; $"app"], dir); ([$"w"; $"app"; $"out"], link); ([$"home"], dir);
                        ([$"home"; $"me"], dir)] in
  jail_dir (dir_host 1000 (fun _ => false) s) $"/w/app" $"out" = Ok $"/w/app/out" /\
  leads_to 1000 (fun _ => false) s $"/w/app/out" = Ok [$"home"; $"me"].
Proof. vm_compute. by split. Qed.

(** * A concrete history *)
Module Example_.
#[local] Existing Instances PlanBuilder.Example_.lower PlanBuilder.Example_.lib PlanBuilder.Example_.ranges PlanBuilder.Example_.ranges_laws
  EndToEnd.Example_.regexps Trust.Example_.digest Trust.Example_.digest_laws
  TrustFile.Example_.codec TrustFile.Example_.codec_laws TrustFile.Example_.entry_ranges TrustFile.Example_.entry_ranges_laws.
#[local] Abbreviation same := Trust.Example_.same.
(** The repository's configuration delegates these tasks to [just]. *)
Definition parse_tasks (exact : list gostring) (_ : gostring) : option repo :=
  Some (Repo $"1" ∅ [] (RepoPaths [] [] []) empty_env [] [] [] [] [] empty_network (DelegatedTasks exact [] [] ∅) []).
(** The repository, with its justfile and one in a directory below. *)
Definition app (justfile below : gostring) : Justfile.filesystem :=
  <[$"/w/app/.keg.yaml" := FSFile (Some $"v: 1")]> (<[$"/w/app/justfile" := FSFile (Some justfile)]>
  (<[$"/w/app/sub" := FSDir]> {[$"/w/app/sub/justfile" := FSFile (Some below)]})).
Definition approve_app : event := TrustFile.Event (TrustFile.Trust $"/w/app" false false) 5 Written.
(** The files after [keg trust], a job that asks for a directory, and what
    becomes of it. *)
Definition after (exact : list gostring) (files1 files2 : Justfile.filesystem) (dir : gostring) : RunnerServer.outcome :=
  let w := fst (run same same (parse_tasks exact) (World files1 Missing)
                  [approve_app; TrustFile.Event (Edit files2) 6 Written]) in
  fst (handle_stream (fun _ => Some (JobRequest [b64_encode $"build"] dir false)) EndToEnd.Example_.host2
         (daemon_config EndToEnd.Example_.runner1
            (is_ok (verify same same (parse_tasks exact) (w_files w) (w_disk w) $"/w/app" $"/w/app/.keg.yaml"))) (Some [])).
Definition just_in (dir : gostring) : RunnerServer.outcome := Started (RunnerServer.Command $"just" [$"build"] dir).
Definition refused : RunnerServer.outcome := Replied (denied_event TrustFailed).
(** A changed justfile at the root is noticed; one below it is not, and the job
    chooses to run there. *)
Example subdirectory_not_anchored :
  (after [$"build"] (app $"a" $"b") (app $"evil" $"b") [], after [$"build"] (app $"a" $"b") (app $"a" $"evil") $"sub") =
  (refused, just_in $"/w/app/sub").
Proof. vm_compute. reflexivity. Qed.
(** A task that the user's configuration delegates is just as much run by
    [just], but the justfile of a repository that delegates none is not an
    anchor. *)
Example user_task_not_anchored : after [] (app $"a" $"b") (app $"evil" $"b") [] = just_in $"/w/app".
Proof. vm_compute. reflexivity. Qed.
(** An approved anchor may be deleted: what is not there is not compared. *)
Example deleted_anchor_passes :
  after [$"build"] (app $"a" $"b") (delete $"/w/app/justfile" (app $"a" $"b")) [] = just_in $"/w/app".
Proof. vm_compute. reflexivity. Qed.

Lemma host_job_was_approved_witness :
  exists l1 shas l2,
    snd (fst (ledger_run same same (parse_tasks [$"build"]) (app $"a" $"b", []) [approve_app])) =
      l1 ++ Approves $"/w/app" (sha_hex $"v: 1") shas :: l2.
Proof.
  pose proof (host_job_was_approved PlanBuilder.Example_.ranges PlanBuilder.Example_.ranges same same (parse_tasks [$"build"])
    PlanBuilder.Example_.host1 EndToEnd.Example_.no_files EndToEnd.Example_.bind_all (fun _ => EndToEnd.Example_.job1)
    EndToEnd.Example_.host2 PlanBuilder.Example_.request1 (fst PlanBuilder.Example_.run1)
    PlanBuilder.Example_.plan1 PlanBuilder.Example_.user1 None false None None [] None EndToEnd.Example_.runner1 (Some [])
    (RunnerServer.Command $"just" [$"build"] $"/w/app/sub") [AuditRecord true $"build" NoMessage]
    [approve_app] (app $"a" $"b")) as H.
  specialize (H ltac:(vm_compute; reflexivity) PlanBuilder.Example_.run1_ok (or_introl eq_refl)).
  assert (Hserve : ServeRunner EndToEnd.Example_.runner1 ∈ EndToEnd.Example_.services1 None).
  { rewrite EndToEnd.Example_.starts. apply list_elem_of_further, list_elem_of_further, list_elem_of_further, list_elem_of_here. }
  specialize (H Hserve ltac:(repeat constructor; intros n; discriminate) ltac:(vm_compute; reflexivity)).
  cbv zeta in H. destruct H as (_ & _ & _ & [[e He]|(data & contents & Hv & [[Ha _] _])]); [vm_compute in He; discriminate He|].
  assert (Hdata : match viewed (parse_tasks [$"build"]) (w_files (fst (run same same (parse_tasks [$"build"])
            (World (app $"a" $"b") Missing) [approve_app]))) $"/w/app" $"/w/app/.keg.yaml" with
          | Configured d _ => d | _ => [] end = $"v: 1") by (vm_compute; reflexivity).
  assert (Hroot : resolve_root PlanBuilder.Example_.host1 (q_repo_dir PlanBuilder.Example_.request1) = $"/w/app") by (vm_compute; reflexivity).
  assert (Hcfg : config_path PlanBuilder.Example_.host1 PlanBuilder.Example_.request1 = $"/w/app/.keg.yaml") by (vm_compute; reflexivity).
  rewrite Hroot in Ha. rewrite Hroot, Hcfg in Hv. rewrite Hv in Hdata. cbn in Hdata. subst data.
  destruct Ha as (l1 & shas & l2 & Hl & _). exists l1, shas, l2. exact Hl.
Defined.
End Example_.
